(* ===== verification/_CoqProject ===== *)
-Q . S2P
Prelude.v
Text.v
Ethernet.v
World.v
EngineEthernet.v
EngineShm.v
Nic.v
ShmNode.v
ClockSyncer.v
Wire.v
Protocol.v
ProtocolFacts.v
PublishSubscriber.v
Communicator.v
Vehicle.v
Car.v
Layers.v
VehicleFacts.v
LinkProps.v
ProtocolProps.v
ClockProps.v
VehicleProps.v
TlsAes.v
TlsFe.v
TlsAesGcm.v
Pstm.v
PstmFacts.v
PstmMul.v
PstmMont.v
PstmDiv.v
PstmDivFacts.v
PstmDivMain.v
PstmExp.v
PstmExpFacts.v
TlsRsa.v
PstmProps.v
HashStream.v
HashMd5Sha.v
HashSpec.v
HashFacts.v
HashProps.v
Sha3.v
Sha3Spec.v
Sha3Props.v
TlsHmac.v
TlsRecord.v
TlsRecordProps.v
Sp256.v
Sp256Facts.v
Sp256Generic.v
Sp256X86.v
Sp256Num.v
Sp256Field.v
Primality.v
Sp256Props.v
TlsDer.v
TlsDerProps.v
TlsHandshake.v
TlsReading.v
TlsMessages.v
TlsKeyExchange.v
TlsHandshakeFacts.v
TlsCopyLoop.v
TlsOrder.v
TlsHandshakeProps.v
