(* ===== verification/Prelude.v ===== *)
(** * Verification of the autonomous-vehicle communication stack

    The program is the communication stack of a set of virtual vehicles
    (src/src): every virtual machine runs a gateway process and one process per
    ECU component; the processes of one vehicle talk over a shared-memory bus,
    the gateways of different vehicles over raw Ethernet frames.  The machines'
    disk image is built around BusyBox (src/busybox), whose TLS client (wget
    and ssl_client) holds the cryptography modelled in the second part.

    ** The stack and its model

    From the bottom up; every file models the source of the same name.

    - [Text], [Ethernet], [World]: the C++ text primitives the sources use;
      addresses and frames (ethernet.h, frame.h); the clock, socket and bus as
      oracles and recorded outputs (utils.h).  Sending on the bus is recorded for
      the calls that return; when they do not is a matter of [ShmNode].
    - [EngineEthernet] (engine_ethernet.cpp): packet layout, draining of the
      socket, and the start-up and the SIGIO/semaphore wake-up of the receive
      thread as a step relation, with packets that arrive before SIGIO is
      requested and failing reads.
    - [EngineShm], [ShmNode] (engine_shm.cpp, shm_node.cpp): frames on the bus,
      and the bus protocol as an interleaving machine with one label per access
      of the sender and receiver threads to the shared memory and the lock.
    - [Nic] (nic.cpp, observer.h): observer lists and routing.
    - [Wire], [Protocol], [ProtocolFacts] (protocol.h): the textual message
      format and its authentication code; groups, the READY/GO start barrier,
      the PTP exchange and the dispatch of received packets.  [Wire] is what is
      a function of its arguments, [Protocol] what changes the state.
    - [ClockSyncer] (clock_syncer.h): samples, averages with the integer types
      the code uses, confidence test and clock adjustment.
    - [PublishSubscriber], [Communicator], [Vehicle], [Car]
      (publish_subscriber.h, communicator.h, car_component.h, components.h,
      gateway.h, main.cpp, car.cpp): subscriptions, the endpoint object, the
      ECUs and the gateway, start-up.
    - [Layers]: the interfaces between the layers are type classes
      ([PortObserver], [RxObserver]); the protocol's theorems assume their laws
      and this file proves that the communicator and the components meet them.

    State is passed through the monad [M] below; C++ exceptions and undefined
    behaviour are the outcomes [Throw] and [Undef].  Integers are [Z] with the
    wrap-around of their C type written out.

    ** What is proved of the stack

    - [LinkProps]: messages survive printing and parsing; what is sent arrives
      unchanged over Ethernet and over the bus; routing and error codes of
      sending; which packets wake the receive thread and which can stay behind;
      mutual exclusion on the bus, and the schedules in which the bus loses a
      message, overruns a buffer or blocks.
    - [ProtocolProps]: the start barrier, what the authentication code detects
      and what it cannot, group moves, exact PTP offsets and the sign error in
      their use, delivery of data messages to exactly the right observers.
    - [ClockProps]: invariant of the synchroniser, exact stepping of the clock,
      the wrong average of negative sums.
    - [VehicleProps]: gateway forwarding and fan-out, release by GO,
      subscriptions and due times, component replies, command line.

    ** The TLS client of BusyBox and its model

    - [TlsAes] (networking/tls_aes.c): key schedule, cipher, CBC.  Decryption
      inverts encryption for all keys, vectors and messages of whole blocks.
    - [TlsFe] (tls_fe.c): X25519 on byte arrays computes the Montgomery ladder
      over the integers modulo 2^255-19.
    - [TlsAesGcm] (tls_aesgcm.c and the AES-GCM records of tls.c): GHASH is that
      of NIST SP 800-38D; an encrypted record has the right layout and tag, and
      the in-place decryption gives the plaintext back.
    - [Pstm], [PstmMul], [PstmDiv], [PstmExp] (tls_pstm.c and its multiplication
      files): multi-precision integers with their arrays at the size the code
      allocates, so that an access outside an array is an outcome of the model;
      [PstmFacts], [PstmMont], [PstmDivFacts], [PstmDivMain], [PstmExpFacts]:
      what every operation computes.
    - [TlsRsa] (tls_rsa.c): padding and public-key encryption.
    - [PstmProps]: what the signed operations return; division ends with
      quotient and remainder, exponentiation computes powers, encryption the
      padded power.  Two conditions are hypotheses because the code is wrong
      without them: no borrow passes two digits when a division adds the divisor
      back ([borrows_short]), and the Montgomery form of the base is not much
      shorter than the modulus ([base_ok], which includes the first).

    - [HashStream], [HashMd5Sha], [Sha3] (libbb/hash_md5_sha.c): the loops that
      fill and process block buffers, MD5, SHA-1, SHA-256, SHA-512 and SHA-3 in
      the configured variants.  [HashSpec] and [Sha3Spec] have the standards'
      definitions, independent of the models, with the constants computed from
      sines, from roots of primes and by a shift register; [HashFacts] relates the
      block functions to them; [HashProps] and [Sha3Props] show that
      every way to cut a message into calls gives the standard's digest.  The
      assembler version of the SHA-256 block function is a parameter.
    - [TlsHmac] (tls.c): HMAC-SHA256 from precomputed contexts and the
      pseudorandom function are those of RFC 2104 and RFC 5246.
    - [TlsRecord] (tls.c): the record layer, with the socket as the list of the
      results of its reads.  [TlsRecordProps]: what is written comes back in
      order from any cutting of the byte stream, for both kinds of cipher suite;
      what alerts and handshake messages do.
    - [Sp256] (tls_sp_c32.c): the P-256 key exchange.  Its arithmetic on 256-bit
      numbers is the class [SpArith] with two instances, the portable code and
      the x86-64 assembler; [Sp256Facts] states the laws of the class and
      [Sp256Generic] and [Sp256X86] prove them for the instances.  [Sp256Num]
      computes with integers what the code computes with digits, [Sp256Field]
      relates that to the field and the curve, [Primality] has Pocklington's
      criterion, by which [Sp256Props] shows that the field's characteristic is
      prime and so the code's power is an inverse.  [Sp256Props] has the theorems:
      both versions agree, scalar multiplication refines the chord-and-tangent
      law unless a sum wraps around twice ([ladder_fits]), and exactly which sums
      the code gets wrong.
    - [TlsDer], [TlsDerProps] (tls.c): the certificate parser finds the RSA key
      of every encoded certificate, and what it may read of any other input.
    - [TlsHandshake] (tls.c, libbb.h): the client's handshake and the copy loop;
      [urandom] has the reads of /dev/urandom to come, and one result of poll is
      consumed per turn of the loop.
    - [TlsReading]: reading ends for every peer and changes only the input
      buffer and the handshake hash.
    - [TlsMessages]: the messages of RFC 5246 and RFC 8422 as functions of their
      fields; [TlsKeyExchange]: RSA and P-256 key exchange in terms of powers and
      of multiples of points, with the conditions under which the code's
      arithmetic gives them; [TlsHandshakeFacts]: each step of the handshake
      against these; [TlsHandshakeProps]: the handshake with a server that follows
      the protocol and sends one message per record completes with the messages
      of the standards and with keys of the sizes they give each suite.
    - [TlsOrder]: for any server, what the client has written is a beginning of
      the standard's sequence of messages.  [TlsCopyLoop]: the copy loop is a
      pipe in both directions, for any order of readiness.

    ** Bounds and fuel

    Loops that are not structural carry fuel, chosen from the source so that it
    cannot run out, and the theorems show it does not: the bytes of a buffer for
    the block loops (every round consumes at least one), 32 rounds for loops
    over the bits of a digit, four and five rounds for the inner loops of the
    division (the leading digit of its divisor has 31 bits), the bytes and
    results of reads that are left ([read_fuel]) for reading records.  Length limits
    in hypotheses are the code's own (record size 2^14, PSTM_MAX_SIZE digits,
    MTU).  The bus machine has any number of nodes and no bound on its steps.

    ** Not modelled

    Diagnostics (printf), thread creation and destruction, process control
    (fork, SIGTERM), mapping of shared memory; the abandoned main.cpp.bk; the
    32-bit x86 assembler of the P-256 code and the debug code of tls.c; the
    BusyBox applets outside the parts named above, its build system and the
    tests.  The handlers of the protocol run atomically in the model. *)

From Stdlib Require Export ZArith Lia String Ascii.
From stdpp Require Export base tactics option numbers sets gmap list_numbers list.

#[global] Open Scope Z_scope.

(** ** Machine integers

    A w-bit unsigned value is a [Z] in [0, 2^w); the conversions below are the
    C++ integral conversions (modulo 2^w, and two's complement for the signed
    types). *)

Definition u8 (z : Z) : Z := z mod 2 ^ 8.
Definition u16 (z : Z) : Z := z mod 2 ^ 16.
Definition u32 (z : Z) : Z := z mod 2 ^ 32.
Definition u64 (z : Z) : Z := z mod 2 ^ 64.
Definition i8 (z : Z) : Z := (z + 2 ^ 7) mod 2 ^ 8 - 2 ^ 7.
Definition i32 (z : Z) : Z := (z + 2 ^ 31) mod 2 ^ 32 - 2 ^ 31.
Definition i64 (z : Z) : Z := (z + 2 ^ 63) mod 2 ^ 64 - 2 ^ 63.

Definition is_u8 (z : Z) : Prop := 0 <= z < 2 ^ 8.
Definition is_u16 (z : Z) : Prop := 0 <= z < 2 ^ 16.
Definition is_u32 (z : Z) : Prop := 0 <= z < 2 ^ 32.
Definition is_u64 (z : Z) : Prop := 0 <= z < 2 ^ 64.
Definition is_i32 (z : Z) : Prop := - 2 ^ 31 <= z < 2 ^ 31.
Definition is_i64 (z : Z) : Prop := - 2 ^ 63 <= z < 2 ^ 63.

Create HintDb machine.
#[export] Hint Unfold u8 u16 u32 u64 i8 i32 i64 : machine.
#[export] Hint Unfold is_u8 is_u16 is_u32 is_u64 is_i32 is_i64 : machine.

(** [machine] decides goals that mix the conversions with linear arithmetic. *)
Ltac machine :=
  autounfold with machine in *; Z.div_mod_to_equations; lia.

Lemma u8_range z : is_u8 (u8 z). Proof. machine. Qed.
Lemma u16_range z : is_u16 (u16 z). Proof. machine. Qed.
Lemma u32_range z : is_u32 (u32 z). Proof. machine. Qed.
Lemma u64_range z : is_u64 (u64 z). Proof. machine. Qed.
Lemma i32_range z : is_i32 (i32 z). Proof. machine. Qed.
Lemma i64_range z : is_i64 (i64 z). Proof. machine. Qed.

Lemma u8_id z : is_u8 z -> u8 z = z. Proof. machine. Qed.
Lemma u16_id z : is_u16 z -> u16 z = z. Proof. machine. Qed.
Lemma u32_id z : is_u32 z -> u32 z = z. Proof. machine. Qed.
Lemma u64_id z : is_u64 z -> u64 z = z. Proof. machine. Qed.
Lemma i32_id z : is_i32 z -> i32 z = z. Proof. machine. Qed.
Lemma i64_id z : is_i64 z -> i64 z = z. Proof. machine. Qed.
Lemma i64_u64 z : i64 (u64 z) = i64 z. Proof. unfold i64, u64. by rewrite Zplus_mod_idemp_l. Qed.

#[export] Hint Resolve u8_range u16_range u32_range u64_range i32_range i64_range : machine.
#[export] Hint Rewrite u8_id u16_id u32_id u64_id i32_id i64_id
  using (solve [eauto with machine | machine]) : machine_rw.

(** *** Bits of bounded values *)

Lemma bits_above a n i : 0 <= a < 2 ^ n -> n <= i -> Z.testbit a i = false.
Proof.
  intros Ha Hi. destruct (Z.eq_dec a 0) as [->|Hn]; [apply Z.bits_0|].
  apply Z.bits_above_log2; [lia|].
  assert (Z.log2 a < n) by (apply Z.log2_lt_pow2; lia). lia.
Qed.

Lemma bits_bound a n : 0 <= n -> 0 <= a -> (forall i, n <= i -> Z.testbit a i = false) -> a < 2 ^ n.
Proof.
  intros Hn Ha H. destruct (Z.lt_ge_cases a (2 ^ n)) as [|Hge]; [done|].
  destruct (Z.eq_dec a 0) as [->|]; [pose proof (Z.pow_pos_nonneg 2 n); lia|].
  assert (n <= Z.log2 a) by (apply Z.log2_le_pow2; lia).
  pose proof (Z.bit_log2 a ltac:(lia)) as Hb. rewrite H in Hb by lia. done.
Qed.

Lemma lxor_bound a b n : 0 <= a < 2 ^ n -> 0 <= b < 2 ^ n -> 0 <= Z.lxor a b < 2 ^ n.
Proof.
  intros Ha Hb. assert (0 <= n) by (destruct (Z.neg_nonneg_cases n) as [E|]; [rewrite Z.pow_neg_r in * by lia; lia|done]).
  assert (0 <= Z.lxor a b) by (apply Z.lxor_nonneg; lia). split; [done|].
  apply bits_bound; [done..|]. intros i Hi. by rewrite Z.lxor_spec, !(bits_above _ n).
Qed.

Lemma lor_bound a b n : 0 <= a < 2 ^ n -> 0 <= b < 2 ^ n -> 0 <= Z.lor a b < 2 ^ n.
Proof.
  intros Ha Hb. assert (0 <= n) by (destruct (Z.neg_nonneg_cases n) as [E|]; [rewrite Z.pow_neg_r in * by lia; lia|done]).
  assert (0 <= Z.lor a b) by (apply Z.lor_nonneg; lia). split; [done|].
  apply bits_bound; [done..|]. intros i Hi. by rewrite Z.lor_spec, !(bits_above _ n).
Qed.

Lemma land_bound a b n : 0 <= a < 2 ^ n -> 0 <= b -> 0 <= Z.land a b < 2 ^ n.
Proof.
  intros Ha Hb. assert (0 <= n) by (destruct (Z.neg_nonneg_cases n) as [E|]; [rewrite Z.pow_neg_r in * by lia; lia|done]).
  assert (0 <= Z.land a b) by (apply Z.land_nonneg; lia). split; [done|].
  apply bits_bound; [done..|]. intros i Hi. by rewrite Z.land_spec, (bits_above a n).
Qed.

(** A low part below a shifted high part: no carry, so addition is [lor] and [lxor]. *)
Lemma land_shiftl_low hi lo n : 0 <= n -> 0 <= lo < 2 ^ n -> Z.land (Z.shiftl hi n) lo = 0.
Proof.
  intros Hn Hlo. apply Z.bits_inj'. intros i Hi. rewrite Z.land_spec, Z.bits_0.
  destruct (Z.lt_ge_cases i n) as [Hlt|Hge].
  - by rewrite Z.shiftl_spec_low.
  - by rewrite (bits_above lo n i), andb_false_r.
Qed.

Lemma add_mul_lxor hi lo n : 0 <= n -> 0 <= lo < 2 ^ n -> hi * 2 ^ n + lo = Z.lxor (Z.shiftl hi n) lo.
Proof.
  intros Hn Hlo. rewrite <- Z.add_nocarry_lxor by by apply land_shiftl_low. by rewrite Z.shiftl_mul_pow2.
Qed.

Lemma add_mul_lor hi lo n : 0 <= n -> 0 <= lo < 2 ^ n -> hi * 2 ^ n + lo = Z.lor (Z.shiftl hi n) lo.
Proof. intros Hn Hlo. rewrite add_mul_lxor by done. by apply Z.lxor_lor, land_shiftl_low. Qed.

Lemma lxor_cancel_r a b c : Z.lxor a c = Z.lxor b c -> a = b.
Proof.
  intros H. apply (f_equal (fun x => Z.lxor x c)) in H.
  by rewrite !Z.lxor_assoc, !Z.lxor_nilpotent, !Z.lxor_0_r in H.
Qed.

(** ** Outcomes

    A computation of the program returns, throws a C++ exception, or has
    undefined behaviour; [M S] threads a state of type [S] through it.  The
    state at a throw is kept, because a [catch] block continues from it. *)

Inductive exn := invalid_argument | out_of_range | runtime_error.
#[export] Instance exn_eq_dec : EqDecision exn.
Proof. solve_decision. Defined.

Inductive outcome (A : Type) :=
| Ok (a : A)
| Throw (e : exn)
| Undef.
Arguments Ok {A} a.
Arguments Throw {A} e.
Arguments Undef {A}.

#[export] Instance outcome_ret : MRet outcome := fun A a => Ok a.
#[export] Instance outcome_bind : MBind outcome := fun A B f m =>
  match m with Ok a => f a | Throw e => Throw e | Undef => Undef end.

Definition M (S A : Type) : Type := S -> outcome A * S.

#[export] Instance M_ret {S} : MRet (M S) := fun A a s => (Ok a, s).
#[export] Instance M_bind {S} : MBind (M S) := fun A B f m s =>
  match m s with
  | (Ok a, s') => f a s'
  | (Throw e, s') => (Throw e, s')
  | (Undef, s') => (Undef, s')
  end.

Section monad.
Context {S : Type}.

Definition lift {A} (o : outcome A) : M S A := fun s => (o, s).
Definition throw {A} (e : exn) : M S A := fun s => (Throw e, s).
Definition undef {A} : M S A := fun s => (Undef, s).
Definition gets {A} (f : S -> A) : M S A := fun s => (Ok (f s), s).
Definition modify (f : S -> S) : M S unit := fun s => (Ok tt, f s).
Definition skip : M S unit := fun s => (Ok tt, s).

(** [try { m } catch (...) { h }] *)
Definition catch {A} (m h : M S A) : M S A := fun s =>
  match m s with (Throw _, s') => h s' | r => r end.

Definition when (b : bool) (m : M S unit) : M S unit := if b then m else skip.

(** [for (x : l) body(x)] *)
Fixpoint for_each {A} (l : list A) (body : A -> M S unit) : M S unit :=
  match l with
  | [] => skip
  | x :: l' => body x ;; for_each l' body
  end.

Lemma bind_ok {A B} (m : M S A) (f : A -> M S B) s a s' :
  m s = (Ok a, s') -> (m ≫= f) s = f a s'.
Proof. intros H. unfold mbind, M_bind. by rewrite H. Qed.

Lemma bind_throw {A B} (m : M S A) (f : A -> M S B) s e s' :
  m s = (Throw e, s') -> (m ≫= f) s = (Throw e, s').
Proof. intros H. unfold mbind, M_bind. by rewrite H. Qed.

Lemma bind_assoc {A B C} (m : M S A) (f : A -> M S B) (g : B -> M S C) s :
  ((m ≫= f) ≫= g) s = (m ≫= (fun a => f a ≫= g)) s.
Proof. unfold mbind, M_bind. by destruct (m s) as [[] ?]. Qed.

Lemma for_each_app {A} (l1 l2 : list A) (body : A -> M S unit) s :
  for_each (l1 ++ l2) body s = (for_each l1 body ;; for_each l2 body) s.
Proof.
  revert s. induction l1 as [|x l1 IH]; intros s; [done|].
  cbn. unfold mbind, M_bind at 1 2 3. destruct (body x s) as [[] s']; [|done..].
  apply IH.
Qed.

(** The invariant rule for state-passing loops. *)
Lemma for_each_inv {A} (I : S -> Prop) (l : list A) (body : A -> M S unit) s :
  I s ->
  (forall x t, x ∈ l -> I t -> I (body x t).2) ->
  I (for_each l body s).2.
Proof.
  revert s. induction l as [|x l IH]; intros s Hs Hb; [done|].
  cbn. unfold mbind, M_bind.
  pose proof (Hb x s ltac:(set_solver) Hs) as Hx.
  destruct (body x s) as [[[]| |] s']; cbn in *; [|done..].
  apply IH; [done|]. intros y t Hy. apply Hb. set_solver.
Qed.

(** A loop all of whose rounds return, returns. *)
Lemma for_each_ok {A} (I : S -> Prop) (l : list A) (body : A -> M S unit) s :
  I s -> (forall x t, x ∈ l -> I t -> exists t', body x t = (Ok tt, t') /\ I t') ->
  exists s', for_each l body s = (Ok tt, s') /\ I s'.
Proof.
  revert s. induction l as [|x l IH]; intros s Hs Hb; [by exists s|].
  destruct (Hb x s ltac:(set_solver) Hs) as (t & E & Ht). cbn. rewrite (bind_ok _ _ _ _ _ E).
  apply IH; [done|]. intros y u Hy. apply Hb. set_solver.
Qed.
End monad.

(** ** Preservation of a relation between the initial and the final state

    [preserves R m]: every run of [m], whether it returns, throws or is
    undefined, relates its states by [R]. *)

Definition preserves {S A} (R : relation S) (m : M S A) : Prop := forall s, R s (m s).2.

Section preserves.
Context {S : Type} (R : relation S) `{!PreOrder R}.

Lemma preserves_bind {A B} (m : M S A) (f : A -> M S B) :
  preserves R m -> (forall a, preserves R (f a)) -> preserves R (m ≫= f).
Proof.
  intros Hm Hf s. unfold mbind, M_bind. specialize (Hm s).
  destruct (m s) as [[a| |] s']; cbn in *; [|done..].
  etrans; [exact Hm|apply Hf].
Qed.

Lemma preserves_same {A} (m : M S A) : (forall s, (m s).2 = s) -> preserves R m.
Proof. intros H s. rewrite H. reflexivity. Qed.

Lemma preserves_ret {A} (a : A) : preserves R (mret a : M S A).
Proof. by apply preserves_same. Qed.
Lemma preserves_skip : preserves R skip.
Proof. by apply preserves_same. Qed.
Lemma preserves_undef {A} : preserves R (undef : M S A).
Proof. by apply preserves_same. Qed.
Lemma preserves_lift {A} (o : outcome A) : preserves R (lift o : M S A).
Proof. by apply preserves_same. Qed.
Lemma preserves_gets {A} (f : S -> A) : preserves R (gets f).
Proof. by apply preserves_same. Qed.

Lemma preserves_modify f : (forall s, R s (f s)) -> preserves R (modify f).
Proof. intros H s. apply H. Qed.

Lemma preserves_for_each {A} (l : list A) (body : A -> M S unit) :
  (forall x, preserves R (body x)) -> preserves R (for_each l body).
Proof.
  intros Hb. induction l as [|x l IH]; cbn; [apply preserves_skip|].
  apply preserves_bind; [apply Hb|done].
Qed.
End preserves.

Lemma preserves_weaken {S A} (R R' : relation S) (m : M S A) :
  (forall s t, R s t -> R' s t) -> preserves R m -> preserves R' m.
Proof. intros H Hm s. apply H, Hm. Qed.

Create HintDb preserves.
#[export] Hint Resolve preserves_ret preserves_skip preserves_undef preserves_lift preserves_gets
  : preserves.

#[export] Hint Extern 1 (PreOrder _) => apply _ : preserves.

(** Walk through monadic code; the [preserves] hints close the leaves. *)
Ltac preserves_step :=
  match goal with
  | |- preserves _ (_ ≫= _) => apply preserves_bind; [apply _| |intros ?]
  | |- preserves _ (for_each _ _) => apply preserves_for_each; [apply _|intros ?]
  | |- preserves _ (if ?b then _ else _) => destruct b
  | |- preserves _ (match ?x with _ => _ end) => destruct x
  | |- preserves _ (let '_ := ?x in _) => destruct x
  | |- preserves _ _ => solve [auto with preserves]
  end.
Ltac preserves := repeat preserves_step.

(** ** Bytes and lists *)

Abbreviation bytes := (list Z).
Definition bytes_ok (l : bytes) : Prop := Forall is_u8 l.

(** The bytes of a C string literal. *)
Definition bs (s : string) : bytes :=
  (fun a => Z.of_N (N_of_ascii a)) <$> list_ascii_of_string s.

(** [n] little-endian bytes of [z], and back: the representation that
    [memcpy] of an integer gives on the x86-64 and riscv64 targets. *)
Fixpoint le_bytes (n : nat) (z : Z) : bytes :=
  match n with
  | O => []
  | S n' => z mod 256 :: le_bytes n' (z / 256)
  end.

Fixpoint le_val (l : bytes) : Z :=
  match l with [] => 0 | b :: l' => b + 256 * le_val l' end.

Definition be_bytes (n : nat) (z : Z) : bytes := reverse (le_bytes n z).
Definition be_val (l : bytes) : Z := le_val (reverse l).

Lemma length_le_bytes n z : length (le_bytes n z) = n.
Proof. revert z. induction n; intros; cbn; [done|]. by rewrite IHn. Qed.

Lemma le_bytes_ok n z : bytes_ok (le_bytes n z).
Proof. revert z. induction n; intros; constructor; [machine|apply IHn]. Qed.

Lemma le_val_le_bytes n z : 0 <= z < 256 ^ Z.of_nat n -> le_val (le_bytes n z) = z.
Proof.
  revert z. induction n as [|n IH]; intros z Hz; [cbn in *; lia|].
  cbn [le_bytes le_val]. rewrite Nat2Z.inj_succ, Z.pow_succ_r in Hz by lia.
  rewrite IH by (split; [apply Z.div_pos|apply Z.div_lt_upper_bound]; lia).
  pose proof (Z_div_mod_eq_full z 256). lia.
Qed.

Lemma le_val_range l : bytes_ok l -> 0 <= le_val l < 256 ^ Z.of_nat (length l).
Proof.
  induction 1 as [|b l Hb _ IH]; [cbn; lia|].
  cbn [length le_val]. rewrite Nat2Z.inj_succ, Z.pow_succ_r by lia. machine.
Qed.

Lemma le_bytes_le_val l : bytes_ok l -> le_bytes (length l) (le_val l) = l.
Proof.
  induction 1 as [|b l Hb _ IH]; [done|]. cbn [length le_val le_bytes].
  rewrite (Z.mul_comm 256), Z.mod_add, Z.div_add by lia.
  unfold is_u8 in Hb. rewrite Z.mod_small, Z.div_small, Z.add_0_l by lia. by rewrite IH.
Qed.

Lemma length_be_bytes n z : length (be_bytes n z) = n.
Proof. unfold be_bytes. by rewrite length_reverse, length_le_bytes. Qed.

Lemma bytes_ok_reverse l : bytes_ok l -> bytes_ok (reverse l).
Proof. apply Forall_reverse. Qed.

Lemma be_val_be_bytes n z : 0 <= z < 256 ^ Z.of_nat n -> be_val (be_bytes n z) = z.
Proof. intros. unfold be_val, be_bytes. rewrite reverse_involutive. by apply le_val_le_bytes. Qed.

Lemma le_val_app a b : le_val (a ++ b) = le_val a + 256 ^ Z.of_nat (length a) * le_val b.
Proof.
  induction a as [|x a IH]; [cbn; lia|]. cbn [app le_val length]. rewrite IH, Nat2Z.inj_succ, Z.pow_succ_r by lia. lia.
Qed.

Lemma be_val_app a b : be_val (a ++ b) = be_val a * 256 ^ Z.of_nat (length b) + be_val b.
Proof. unfold be_val. rewrite reverse_app, le_val_app, length_reverse. lia. Qed.

Lemma be_val_range l : bytes_ok l -> 0 <= be_val l < 256 ^ Z.of_nat (length l).
Proof.
  intros Hl. unfold be_val. rewrite <- (length_reverse l). by apply le_val_range, bytes_ok_reverse.
Qed.

Lemma be_bytes_be_val l : bytes_ok l -> be_bytes (length l) (be_val l) = l.
Proof.
  intros Hl. unfold be_bytes, be_val. rewrite <- (length_reverse l).
  rewrite le_bytes_le_val by by apply bytes_ok_reverse. apply reverse_involutive.
Qed.

Lemma bytes_ok_app l1 l2 : bytes_ok (l1 ++ l2) <-> bytes_ok l1 /\ bytes_ok l2.
Proof. apply Forall_app. Qed.

Lemma bytes_ok_take n l : bytes_ok l -> bytes_ok (take n l).
Proof. apply Forall_take. Qed.

Lemma bytes_ok_drop n l : bytes_ok l -> bytes_ok (drop n l).
Proof. apply Forall_drop. Qed.

Lemma be_bytes_ok n z : bytes_ok (be_bytes n z).
Proof. apply bytes_ok_reverse, le_bytes_ok. Qed.

Create HintDb bytes.
#[export] Hint Resolve bytes_ok_take bytes_ok_drop le_bytes_ok be_bytes_ok : bytes.
#[export] Hint Rewrite length_le_bytes length_be_bytes : bytes_rw.

Lemma take_app_len {A} (l1 l2 : list A) n : length l1 = n -> take n (l1 ++ l2) = l1.
Proof. intros <-. apply take_app_length. Qed.

Lemma drop_app_len {A} (l1 l2 : list A) n : length l1 = n -> drop n (l1 ++ l2) = l2.
Proof. intros <-. apply drop_app_length. Qed.

(** Solve goals that only need evaluation of closed terms. *)
Ltac evaluate := vm_compute; reflexivity.
