(* ===== verification/Text.v ===== *)
(** * C and C++ text primitives

    The standard-library operations on character strings that the sources use:
    [std::string::find], [substr], the decimal formatting of [operator<<],
    [std::to_string] and [printf], the parsing of [std::stoi], [std::stoull],
    [sscanf] and [operator>>], the hexadecimal [%02x]/[%2x] conversions, and
    the whitespace trimming idiom.  A string is its list of bytes. *)

From S2P Require Import Prelude.

(** ** Searching *)

Fixpoint is_prefix (p s : bytes) : bool :=
  match p, s with
  | [], _ => true
  | _ :: _, [] => false
  | a :: p', b :: s' => (a =? b) && is_prefix p' s'
  end.

(** First index (relative to [s]) at which [p] occurs. *)
Fixpoint index_of (p s : bytes) : option nat :=
  if is_prefix p s then Some O
  else match s with
       | [] => None
       | _ :: s' => S <$> index_of p s'
       end.

(** [s.find(p, pos)]: [None] is [npos]. *)
Definition find (p s : bytes) (pos : nat) : option nat :=
  if (length s <? pos)%nat then None
  else (fun i => pos + i)%nat <$> index_of p (drop pos s).

(** [s.substr(pos, n)] throws [out_of_range] when [pos > size()]. *)
Definition substr (s : bytes) (pos n : nat) : outcome bytes :=
  if (length s <? pos)%nat then Throw out_of_range else Ok (take n (drop pos s)).

(** The last index of character [c]. *)
Fixpoint find_last_of (c : Z) (s : bytes) : option nat :=
  match s with
  | [] => None
  | x :: s' =>
      match find_last_of c s' with
      | Some i => Some (S i)
      | None => if x =? c then Some O else None
      end
  end.

(** ** Character classes *)

Definition isspace (c : Z) : bool := (c =? 32) || ((9 <=? c) && (c <=? 13)).
Definition isdigit (c : Z) : bool := (48 <=? c) && (c <=? 57).
Definition isprint (c : Z) : bool := (32 <=? c) && (c <=? 126).

Fixpoint drop_while (p : Z -> bool) (s : bytes) : bytes :=
  match s with
  | [] => []
  | c :: s' => if p c then drop_while p s' else s
  end.

Fixpoint span (p : Z -> bool) (s : bytes) : bytes * bytes :=
  match s with
  | [] => ([], [])
  | c :: s' => if p c then (let '(a, b) := span p s' in (c :: a, b)) else ([], s)
  end.

Definition ltrim (s : bytes) : bytes := drop_while isspace s.
Definition rtrim (s : bytes) : bytes := reverse (drop_while isspace (reverse s)).
Definition trim (s : bytes) : bytes := rtrim (ltrim s).

(** The C string held in a character array: everything before the first NUL. *)
Definition c_str (s : bytes) : bytes := (span (fun c => negb (c =? 0)) s).1.

(** ** Decimal output *)

Fixpoint dec_fuel (fuel : nat) (n : Z) : bytes :=
  match fuel with
  | O => []
  | S f => if n <? 10 then [48 + n] else dec_fuel f (n / 10) ++ [48 + n mod 10]
  end.

(** Decimal digits of [n >= 0]; [log2 n + 1] rounds are enough because each
    one divides by ten. *)
Definition dec_nat (n : Z) : bytes := dec_fuel (S (Z.to_nat (Z.log2 n))) n.

(** [std::to_string] and [operator<<] on an integer. *)
Definition dec (z : Z) : bytes := if z <? 0 then 45 :: dec_nat (- z) else dec_nat z.

(** ** Decimal input *)

Definition digits_val (ds : bytes) : Z := fold_left (fun v c => v * 10 + (c - 48)) ds 0.

(** The subject sequence of [strtol] and of scanf's integer conversions in
    base ten: white space, an optional sign, at least one digit.  The result
    is the unbounded value and the rest of the input. *)
Definition scan_int (s : bytes) : option (Z * bytes) :=
  let s1 := drop_while isspace s in
  let '(neg, s2) :=
    match s1 with
    | c :: s' => if c =? 45 then (true, s') else if c =? 43 then (false, s') else (false, s1)
    | [] => (false, [])
    end in
  match span isdigit s2 with
  | ([], _) => None
  | (ds, rest) => Some (if neg then - digits_val ds else digits_val ds, rest)
  end.

Definition stoi (s : bytes) : outcome Z :=
  match scan_int s with
  | None => Throw invalid_argument
  | Some (v, _) => if (- 2 ^ 31 <=? v) && (v <? 2 ^ 31) then Ok v else Throw out_of_range
  end.

(** [strtoull] accepts a minus sign and negates modulo 2^64; a magnitude above
    [ULLONG_MAX] is [out_of_range]. *)
Definition stoull (s : bytes) : outcome Z :=
  match scan_int s with
  | None => Throw invalid_argument
  | Some (v, _) => if Z.abs v <? 2 ^ 64 then Ok (u64 v) else Throw out_of_range
  end.

(** One [%lu] conversion of glibc's [sscanf]: overflow stores [ULONG_MAX]. *)
Definition scan_lu (s : bytes) : option (Z * bytes) :=
  '(v, rest) ← scan_int s;
  Some (if Z.abs v <? 2 ^ 64 then u64 v else 2 ^ 64 - 1, rest).

(** One [%lld] conversion: overflow saturates. *)
Definition scan_lld (s : bytes) : option (Z * bytes) :=
  '(v, rest) ← scan_int s;
  Some (Z.max (- 2 ^ 63) (Z.min v (2 ^ 63 - 1)), rest).

(** One [std::istream >> int]: [None] is a set failbit (no digits, or a value
    outside [int]). *)
Definition extract_int (s : bytes) : option (Z * bytes) :=
  '(v, rest) ← scan_int s;
  if (- 2 ^ 31 <=? v) && (v <? 2 ^ 31) then Some (v, rest) else None.

(** ** Hexadecimal *)

Definition hex_digit (upper : bool) (d : Z) : Z :=
  if d <? 10 then 48 + d else (if upper then 65 else 97) + (d - 10).

(** [%02X] / [%02x] of a byte. *)
Definition hex2 (upper : bool) (b : Z) : bytes :=
  [hex_digit upper (b / 16); hex_digit upper (b mod 16)].

Definition hex_val (c : Z) : option Z :=
  if isdigit c then Some (c - 48)
  else if (65 <=? c) && (c <=? 70) then Some (c - 55)
  else if (97 <=? c) && (c <=? 102) then Some (c - 87)
  else None.

(** One [%2x] conversion: white space is skipped, then at most two characters
    are taken; an optional sign and an optional [0x] prefix count towards the
    two characters, so with a sign one digit remains, and after a complete
    prefix none does, in which case glibc stores zero. *)
Definition scan_2x (s : bytes) : option (Z * bytes) :=
  match drop_while isspace s with
  | c1 :: r1 =>
      if (c1 =? 45) || (c1 =? 43) then
        match r1 with
        | c2 :: r2 => d ← hex_val c2; Some (if c1 =? 45 then u32 (- d) else d, r2)
        | [] => None
        end
      else
        d1 ← hex_val c1;
        match r1 with
        | c2 :: r2 =>
            if (c1 =? 48) && ((c2 =? 120) || (c2 =? 88)) then Some (0, r2)
            else match hex_val c2 with
                 | Some d2 => Some (d1 * 16 + d2, r2)
                 | None => Some (d1, r1)
                 end
        | [] => Some (d1, [])
        end
  | [] => None
  end.

(** ** Lemmas: searching *)

Lemma is_prefix_app p s : is_prefix p (p ++ s) = true.
Proof. induction p as [|a p IH]; [done|]. cbn. by rewrite Z.eqb_refl, IH. Qed.

Lemma is_prefix_true p s : is_prefix p s = true <-> exists t, s = p ++ t.
Proof.
  split; [|intros [t ->]; apply is_prefix_app].
  revert s. induction p as [|a p IH]; intros [|b s]; cbn; try done; eauto.
  intros [->%Z.eqb_eq [t ->]%IH]%andb_prop. by exists t.
Qed.

Lemma index_of_here p s : index_of p (p ++ s) = Some O.
Proof. destruct (p ++ s) eqn:E; cbn; by rewrite <- E, is_prefix_app. Qed.

Lemma index_of_char c v s : c ∉ v -> index_of [c] (v ++ c :: s) = Some (length v).
Proof.
  induction v as [|x v IH]; intros H; cbn; [by rewrite Z.eqb_refl|].
  rewrite (proj2 (Z.eqb_neq c x)) by set_solver. cbn.
  by rewrite IH by set_solver.
Qed.

Lemma index_of_char_none c v : c ∉ v -> index_of [c] v = None.
Proof.
  induction v as [|x v IH]; intros H; cbn; [done|].
  rewrite (proj2 (Z.eqb_neq c x)) by set_solver. cbn. by rewrite IH by set_solver.
Qed.

Lemma find_at pre p s n : length pre = n -> find p (pre ++ p ++ s) n = Some n.
Proof.
  intros <-. unfold find. rewrite (proj2 (Nat.ltb_ge _ _)) by (rewrite length_app; lia).
  rewrite drop_app_length, index_of_here. cbn. by rewrite Nat.add_0_r.
Qed.

Lemma find_char pre v c s n :
  length pre = n -> c ∉ v -> find [c] (pre ++ v ++ c :: s) n = Some (n + length v)%nat.
Proof.
  intros <- Hc. unfold find.
  rewrite (proj2 (Nat.ltb_ge _ _)) by (rewrite length_app; lia).
  by rewrite drop_app_length, index_of_char.
Qed.

Lemma substr_mid pre v s n k :
  length pre = n -> length v = k -> substr (pre ++ v ++ s) n k = Ok v.
Proof.
  intros <- <-. unfold substr.
  rewrite (proj2 (Nat.ltb_ge _ _)) by (rewrite length_app; lia).
  by rewrite drop_app_length, take_app_length.
Qed.

(** ** Lemmas: spans and trimming *)

Lemma span_app (p : Z -> bool) a b :
  Forall (fun c => p c = true) a ->
  match b with [] => True | c :: _ => p c = false end ->
  span p (a ++ b) = (a, b).
Proof.
  intros Ha Hb. induction Ha as [|c a Hc _ IH]; cbn.
  - destruct b as [|c b]; [done|]. by cbn; rewrite Hb.
  - by rewrite Hc, IH.
Qed.

Lemma drop_while_nop (p : Z -> bool) s :
  match s with [] => True | c :: _ => p c = false end -> drop_while p s = s.
Proof. destruct s as [|c s]; [done|]. by cbn; intros ->. Qed.

Lemma drop_while_suffix (p : Z -> bool) s : exists a, s = a ++ drop_while p s /\ Forall (fun c => p c = true) a.
Proof.
  induction s as [|c s (a & Ha & Hp)]; [by exists []|]. cbn.
  destruct (p c) eqn:E; [|by exists []].
  exists (c :: a). split; [by rewrite Ha at 1|by constructor].
Qed.

Lemma drop_while_idemp (p : Z -> bool) s : drop_while p (drop_while p s) = drop_while p s.
Proof. induction s as [|c s IH]; [done|]. cbn. destruct (p c) eqn:E; [done|]. by cbn; rewrite E. Qed.

(** A string with no white space at either end is left alone. *)
Lemma trim_nop s :
  match head s with Some c => isspace c = false | None => True end ->
  match last s with Some c => isspace c = false | None => True end ->
  trim s = s.
Proof.
  intros Hh Hl. unfold trim, ltrim, rtrim.
  rewrite (drop_while_nop _ s) by (destruct s; done).
  rewrite drop_while_nop; [apply reverse_involutive|].
  rewrite <- head_reverse in Hl. by destruct (reverse s).
Qed.

(** ** Lemmas: decimal round trip *)

Lemma dec_fuel_S f n :
  dec_fuel (S f) n = if n <? 10 then [48 + n] else dec_fuel f (n / 10) ++ [48 + n mod 10].
Proof. done. Qed.

Lemma digits_val_app a d : digits_val (a ++ [d]) = digits_val a * 10 + (d - 48).
Proof. unfold digits_val. by rewrite fold_left_app. Qed.

Lemma dec_fuel_spec f n :
  0 <= n < 2 ^ Z.of_nat f -> (0 < f)%nat ->
  dec_fuel f n <> [] /\ Forall (fun c => isdigit c = true) (dec_fuel f n) /\ digits_val (dec_fuel f n) = n.
Proof.
  revert n. induction f as [|f IH]; intros n Hn Hf; [lia|]. rewrite dec_fuel_S.
  rewrite Nat2Z.inj_succ, Z.pow_succ_r in Hn by lia.
  destruct (Z.ltb_spec n 10).
  - repeat split; [done| |cbn; lia].
    constructor; [|done]. unfold isdigit. lia.
  - assert (0 < f)%nat. { destruct f; [cbn in Hn; lia|lia]. }
    destruct (IH (n / 10)) as (H1 & H2 & H3); [|lia|].
    { split; [apply Z.div_pos; lia|]. apply Z.div_lt_upper_bound; lia. }
    pose proof (Z.mod_pos_bound n 10 ltac:(lia)).
    repeat split.
    + by destruct (dec_fuel f (n / 10)).
    + apply Forall_app; split; [done|]. constructor; [|done]. unfold isdigit. lia.
    + rewrite digits_val_app, H3. pose proof (Z_div_mod_eq_full n 10). lia.
Qed.

Lemma dec_nat_spec n :
  0 <= n ->
  dec_nat n <> [] /\ Forall (fun c => isdigit c = true) (dec_nat n) /\ digits_val (dec_nat n) = n.
Proof.
  intros Hn. apply dec_fuel_spec; [|lia]. split; [done|].
  rewrite Nat2Z.inj_succ, Z2Nat.id by apply Z.log2_nonneg.
  destruct (Z.eq_dec n 0) as [->|]; [done|]. apply Z.log2_spec. lia.
Qed.

Lemma length_dec_fuel f n k :
  0 <= n < 10 ^ Z.of_nat k -> (0 < k)%nat -> (length (dec_fuel f n) <= k)%nat.
Proof.
  revert n k. induction f as [|f IH]; intros n k Hn Hk; [cbn; lia|]. rewrite dec_fuel_S.
  destruct (Z.ltb_spec n 10); [cbn; lia|].
  destruct k as [|k]; [lia|]. destruct k as [|k]; [cbn in Hn; lia|].
  rewrite length_app. cbn [length].
  rewrite Nat2Z.inj_succ, Z.pow_succ_r in Hn by lia.
  assert (0 <= n / 10 < 10 ^ Z.of_nat (S k)) as Hd
    by (split; [apply Z.div_pos; lia|apply Z.div_lt_upper_bound; lia]).
  pose proof (IH (n / 10) (S k) Hd). lia.
Qed.

Lemma length_dec_nat n k : 0 <= n < 10 ^ Z.of_nat k -> (0 < k)%nat -> (length (dec_nat n) <= k)%nat.
Proof. apply length_dec_fuel. Qed.

Lemma length_dec z k :
  - 10 ^ Z.of_nat k < z < 10 ^ Z.of_nat k -> (0 < k)%nat ->
  (length (dec z) <= (if (z <? 0)%Z then S k else k))%nat.
Proof.
  intros Hz Hk. unfold dec. destruct (Z.ltb_spec z 0); cbn [length].
  - pose proof (length_dec_nat (- z) k). lia.
  - apply length_dec_nat; lia.
Qed.

Lemma isdigit_facts c : isdigit c = true -> isspace c = false /\ c <> 45 /\ c <> 43 /\ c <> 32 /\ c <> 0.
Proof. unfold isdigit, isspace. lia. Qed.

Lemma dec_nat_digits n : 0 <= n -> Forall (fun c => isdigit c = true) (dec_nat n).
Proof. intros. by apply dec_nat_spec. Qed.

Definition dec_char (c : Z) : Prop := isdigit c = true \/ c = 45.

Lemma dec_chars z : Forall dec_char (dec z).
Proof.
  unfold dec. destruct (Z.ltb_spec z 0).
  - constructor; [by right|]. eapply Forall_impl; [apply dec_nat_digits; lia|by left].
  - eapply Forall_impl; [by apply dec_nat_digits|by left].
Qed.

Lemma dec_not_in z c : isdigit c = false -> c <> 45 -> c ∉ dec z.
Proof.
  intros Hc Hm Hin. pose proof (dec_chars z) as H. rewrite Forall_forall in H.
  destruct (H c Hin); congruence.
Qed.

Lemma dec_nonempty z : dec z <> [].
Proof. unfold dec. destruct (z <? 0) eqn:?; [done|]. apply dec_nat_spec. lia. Qed.

Definition no_digit_next (rest : bytes) : Prop :=
  match rest with [] => True | c :: _ => isdigit c = false end.

Lemma scan_int_digits ds rest :
  ds <> [] -> Forall (fun c => isdigit c = true) ds -> no_digit_next rest ->
  scan_int (ds ++ rest) = Some (digits_val ds, rest).
Proof.
  intros Hne Hds Hr. unfold scan_int.
  destruct ds as [|c ds]; [done|].
  pose proof (proj1 (Forall_cons _ _ _) Hds) as [Hc _].
  destruct (isdigit_facts c Hc) as (Hs & H45 & H43 & _).
  rewrite drop_while_nop by done. rewrite <- app_comm_cons.
  rewrite (proj2 (Z.eqb_neq _ _) H45), (proj2 (Z.eqb_neq _ _) H43).
  by rewrite app_comm_cons, span_app.
Qed.

(** Formatting an integer and scanning it back gives the integer and leaves
    the rest of the input. *)
Lemma scan_int_dec z rest : no_digit_next rest -> scan_int (dec z ++ rest) = Some (z, rest).
Proof.
  intros Hr. unfold dec. destruct (Z.ltb_spec z 0).
  - destruct (dec_nat_spec (- z)) as (Hn & Hd & Hv); [lia|].
    unfold scan_int. rewrite <- app_comm_cons, drop_while_nop by done. rewrite Z.eqb_refl.
    rewrite span_app by done. rewrite Hv.
    destruct (dec_nat (- z)); [done|]. do 2 f_equal. lia.
  - destruct (dec_nat_spec z) as (Hn & Hd & Hv); [lia|].
    rewrite scan_int_digits by done. by rewrite Hv.
Qed.

Lemma scan_int_skip_ws rest ws :
  Forall (fun c => isspace c = true) ws ->
  scan_int (ws ++ rest) = scan_int rest.
Proof.
  intros H. unfold scan_int. induction H as [|c ws Hc _ IH]; [done|].
  cbn [drop_while app]. by rewrite Hc.
Qed.

Lemma stoi_dec z rest : is_i32 z -> no_digit_next rest -> stoi (dec z ++ rest) = Ok z.
Proof.
  intros Hz Hr. unfold stoi. rewrite scan_int_dec by done.
  unfold is_i32 in Hz. by rewrite (proj2 (Z.leb_le _ _)), (proj2 (Z.ltb_lt _ _)) by lia.
Qed.

Lemma stoull_dec z rest : is_u64 z -> no_digit_next rest -> stoull (dec z ++ rest) = Ok z.
Proof.
  intros Hz Hr. unfold stoull. rewrite scan_int_dec by done. unfold is_u64 in Hz.
  rewrite (proj2 (Z.ltb_lt _ _)) by lia. by rewrite u64_id.
Qed.

Lemma scan_lu_dec z rest : is_u64 z -> no_digit_next rest -> scan_lu (dec z ++ rest) = Some (z, rest).
Proof.
  intros Hz Hr. unfold scan_lu. rewrite scan_int_dec by done. cbn. unfold is_u64 in Hz.
  rewrite (proj2 (Z.ltb_lt _ _)) by lia. by rewrite u64_id.
Qed.

Lemma scan_lld_dec z rest : is_i64 z -> no_digit_next rest -> scan_lld (dec z ++ rest) = Some (z, rest).
Proof.
  intros Hz Hr. unfold scan_lld. rewrite scan_int_dec by done. cbn. unfold is_i64 in Hz.
  do 2 f_equal. lia.
Qed.

Lemma extract_int_dec z rest : is_i32 z -> no_digit_next rest -> extract_int (dec z ++ rest) = Some (z, rest).
Proof.
  intros Hz Hr. unfold extract_int. rewrite scan_int_dec by done. cbn.
  unfold is_i32 in Hz. by rewrite (proj2 (Z.leb_le _ _)), (proj2 (Z.ltb_lt _ _)) by lia.
Qed.

(** The conversions skip a leading space. *)
Lemma scan_int_space s : scan_int (32 :: s) = scan_int s.
Proof. apply (scan_int_skip_ws s [32]). by repeat constructor. Qed.

Lemma extract_int_space s : extract_int (32 :: s) = extract_int s.
Proof. unfold extract_int. by rewrite scan_int_space. Qed.
Lemma scan_lu_space s : scan_lu (32 :: s) = scan_lu s.
Proof. unfold scan_lu. by rewrite scan_int_space. Qed.
Lemma scan_lld_space s : scan_lld (32 :: s) = scan_lld s.
Proof. unfold scan_lld. by rewrite scan_int_space. Qed.

(** ** Lemmas: hexadecimal round trip *)

Lemma hex_val_digit u d : 0 <= d < 16 -> hex_val (hex_digit u d) = Some d.
Proof.
  intros Hd. unfold hex_digit, hex_val, isdigit.
  destruct (Z.ltb_spec d 10), u; repeat case_match; f_equal; lia.
Qed.

Lemma hex_digit_facts u d :
  0 <= d < 16 ->
  isspace (hex_digit u d) = false /\ hex_digit u d <> 45 /\ hex_digit u d <> 43 /\
  hex_digit u d <> 120 /\ hex_digit u d <> 88 /\ hex_digit u d <> 58.
Proof.
  intros Hd. unfold hex_digit, isspace.
  destruct (Z.ltb_spec d 10), u; cbv iota; repeat split; lia.
Qed.

Lemma scan_2x_hex2 u b rest : is_u8 b -> scan_2x (hex2 u b ++ rest) = Some (b, rest).
Proof.
  intros Hb. unfold is_u8 in Hb.
  assert (0 <= b / 16 < 16) as H1 by (Z.div_mod_to_equations; lia).
  assert (0 <= b mod 16 < 16) as H2 by (Z.div_mod_to_equations; lia).
  destruct (hex_digit_facts u _ H1) as (Hs & Hm & Hp & _).
  destruct (hex_digit_facts u _ H2) as (_ & _ & _ & Hx & HX & _).
  unfold scan_2x, hex2. cbn [app drop_while]. rewrite Hs.
  rewrite (proj2 (Z.eqb_neq _ _) Hm), (proj2 (Z.eqb_neq _ _) Hp). cbn [orb].
  rewrite hex_val_digit by done. cbn [mbind option_bind].
  rewrite (proj2 (Z.eqb_neq _ _) Hx), (proj2 (Z.eqb_neq _ _) HX). cbn [orb].
  rewrite andb_false_r, hex_val_digit by done.
  cbn. do 2 f_equal. pose proof (Z_div_mod_eq_full b 16). lia.
Qed.
