(* ===== verification/Ethernet.v ===== *)
(** * Ethernet addresses and frames (src/src/ethernet.h, frame.h, engine.h)

    A MAC address is the array of its six bytes.  A frame keeps the part of its
    data array that has been written; the rest of the 1500-byte array is
    uninitialised memory in the program and is never read. *)

From S2P Require Import Prelude Text.

Abbreviation Address := (list Z).

Module Ethernet.

Definition MTU : Z := 1500.
Definition LENGTH : nat := 6.
Definition MAX_DATA : Z := 1500.

(** The default constructor fills with zeros. *)
Definition Address_zero : Address := replicate LENGTH 0.
Definition BROADCAST : Address := replicate LENGTH 255.

Definition addr_eqb (a b : Address) : bool := bool_decide (a = b).

Definition addr_ok (a : Address) : Prop := length a = LENGTH /\ bytes_ok a.

(** [snprintf "%02X:%02X:%02X:%02X:%02X:%02X"]; seventeen characters fit the
    eighteen-byte buffer. *)
Fixpoint colon_hex (upper : bool) (a : Address) : bytes :=
  match a with
  | [] => []
  | [b] => hex2 upper b
  | b :: a' => hex2 upper b ++ 58 :: colon_hex upper a'
  end.

Definition str (a : Address) : bytes := colon_hex true a.

(** [sscanf(s, "%2x:%2x:%2x:%2x:%2x:%2x", ...)]: [n] conversions separated by
    a literal colon; [None] when fewer than [n] are assigned. *)
Fixpoint scan_colon_hex (n : nat) (s : bytes) : option (list Z) :=
  match n with
  | O => Some []
  | S O => '(v, _) ← scan_2x s; Some [v]
  | S n' =>
      '(v, r) ← scan_2x s;
      match r with
      | c :: r' => if c =? 58 then vs ← scan_colon_hex n' r'; Some (v :: vs) else None
      | [] => None
      end
  end.

Definition from_string (s : bytes) : Address :=
  match scan_colon_hex LENGTH (c_str s) with
  | Some vs => u8 <$> vs
  | None => Address_zero
  end.

Record Frame := {
  f_dst : Address;
  f_src : Address;
  f_proto : Z;      (* uint16_t *)
  f_data : bytes;   (* the written prefix of data[MAX_DATA] *)
  f_size : Z        (* unsigned int *)
}.

#[export] Instance Frame_eq_dec : EqDecision Frame.
Proof. solve_decision. Defined.

Definition Frame_default : Frame :=
  {| f_dst := Address_zero; f_src := Address_zero; f_proto := 0; f_data := []; f_size := 0 |}.

(** What every frame built by the program satisfies. *)
Definition frame_ok (f : Frame) : Prop :=
  addr_ok (f_dst f) /\ addr_ok (f_src f) /\ is_u16 (f_proto f) /\ bytes_ok (f_data f) /\
  Z.of_nat (length (f_data f)) = f_size f /\ f_size f <= MAX_DATA.

(** [printf "0x%04X"] of a 16-bit value. *)
Definition hex4 (p : Z) : bytes := hex2 true (p / 256) ++ hex2 true (p mod 256).

(** The text that [print_frame] writes. *)
Definition print_frame (f : Frame) : bytes :=
  bs "===== FRAME =====" ++ [10] ++
  bs "SRC: " ++ str (f_src f) ++ [10] ++
  bs "DST: " ++ str (f_dst f) ++ [10] ++
  bs "PROTO: 0x" ++ hex4 (f_proto f) ++ [10] ++
  bs "SIZE: " ++ dec (f_size f) ++ bs " bytes" ++ [10] ++
  bs "PAYLOAD (texto): " ++
  ((fun c => if isprint c then c else 46) <$> take (Z.to_nat (f_size f)) (f_data f)) ++
  [10] ++ bs "=================" ++ [10].

(** ** Lemmas *)

Lemma BROADCAST_ok : addr_ok BROADCAST.
Proof. split; [done|]. repeat constructor; done. Qed.

Lemma Address_zero_ok : addr_ok Address_zero.
Proof. split; [done|]. repeat constructor; done. Qed.

Lemma addr_eqb_true a b : addr_eqb a b = true <-> a = b.
Proof. apply bool_decide_eq_true. Qed.

Lemma scan_colon_hex_SS n s :
  scan_colon_hex (S (S n)) s =
  '(v, r) ← scan_2x s;
  match r with
  | c :: r' => if c =? 58 then vs ← scan_colon_hex (S n) r'; Some (v :: vs) else None
  | [] => None
  end.
Proof. done. Qed.

Lemma scan_colon_hex_print u a n :
  length a = n -> bytes_ok a -> scan_colon_hex n (colon_hex u a) = Some a.
Proof.
  intros <- H. induction H as [|b a Hb Ha IH]; [done|].
  destruct a as [|b' a].
  - pose proof (scan_2x_hex2 u b [] Hb) as E. rewrite app_nil_r in E.
    cbn [length scan_colon_hex colon_hex]. by rewrite E.
  - change (length (b :: b' :: a)) with (S (S (length a))).
    change (colon_hex u (b :: b' :: a)) with (hex2 u b ++ 58 :: colon_hex u (b' :: a)).
    rewrite scan_colon_hex_SS, scan_2x_hex2 by done.
    change (length (b' :: a)) with (S (length a)) in IH.
    cbn [mbind option_bind]. rewrite Z.eqb_refl, IH. done.
Qed.

Lemma colon_hex_no_nul u a : bytes_ok a -> Forall (fun c => negb (c =? 0) = true) (colon_hex u a).
Proof.
  assert (forall b, is_u8 b -> Forall (fun c => negb (c =? 0) = true) (hex2 u b)) as Hx.
  { intros b Hb. unfold hex2, hex_digit. unfold is_u8 in Hb.
    assert (0 <= b / 16 < 16) by (Z.div_mod_to_equations; lia).
    assert (0 <= b mod 16 < 16) by (Z.div_mod_to_equations; lia).
    repeat constructor; repeat case_match; lia. }
  induction 1 as [|b a Hb Ha IH]; [constructor|]. destruct a as [|b' a].
  - by apply Hx.
  - change (colon_hex u (b :: b' :: a)) with (hex2 u b ++ 58 :: colon_hex u (b' :: a)).
    apply Forall_app. split; [by apply Hx|]. constructor; [done|apply IH].
Qed.

Lemma c_str_nop s : Forall (fun c => negb (c =? 0) = true) s -> c_str s = s.
Proof. intros H. unfold c_str. pose proof (span_app _ s [] H I) as E. rewrite app_nil_r in E. by rewrite E. Qed.

Lemma map_u8_id l : bytes_ok l -> u8 <$> l = l.
Proof. induction 1; [done|]. cbn. by rewrite u8_id, IHForall. Qed.

Lemma from_string_colon_hex u a : addr_ok a -> from_string (colon_hex u a) = a.
Proof.
  intros [Hl Hb]. unfold from_string.
  rewrite c_str_nop by by apply colon_hex_no_nul.
  rewrite scan_colon_hex_print by done. by apply map_u8_id.
Qed.

(** Whatever the string, the result is a well-formed address. *)
Lemma scan_colon_hex_length n s vs : scan_colon_hex n s = Some vs -> length vs = n.
Proof.
  revert s vs. induction n as [|n IH]; intros s vs; cbn; [by intros [= <-]|].
  destruct n as [|n].
  - destruct (scan_2x s) as [[v r]|]; cbn; [|done]. by intros [= <-].
  - destruct (scan_2x s) as [[v r]|]; cbn [mbind option_bind]; [|done].
    destruct r as [|c r]; [done|]. destruct (c =? 58); [|done].
    destruct (scan_colon_hex (S n) r) as [vs'|] eqn:E; cbn [mbind option_bind]; [|done].
    intros [= <-]. cbn. f_equal. by apply (IH r).
Qed.

Lemma from_string_ok s : addr_ok (from_string s).
Proof.
  unfold from_string. destruct (scan_colon_hex LENGTH (c_str s)) as [vs|] eqn:E;
    [|apply Address_zero_ok].
  split; [by rewrite length_fmap, (scan_colon_hex_length _ _ _ E)|].
  apply Forall_forall. intros x [y [-> _]]%list_elem_of_fmap. apply u8_range.
Qed.

Lemma length_colon_hex u a : length (colon_hex u a) = (3 * length a - 1)%nat.
Proof.
  induction a as [|b a IH]; [done|]. destruct a as [|b' a]; [done|].
  change (colon_hex u (b :: b' :: a)) with (hex2 u b ++ 58 :: colon_hex u (b' :: a)).
  rewrite length_app. cbn [length] in *. rewrite IH. cbn. lia.
Qed.

End Ethernet.
