(* ===== verification/World.v ===== *)
(** * The outside world

    The parts of the operating system that the program talks to: the wall
    clock read by [get_microseconds_now] (src/src/utils.h), the raw socket,
    the shared-memory bus and [adjtimex].  The results the kernel gives are
    oracles (the n-th clock reading, the n-th result of [sendto]); what the
    program hands to it is recorded in order. *)

From S2P Require Import Prelude Text Ethernet.

Record timeval := { tv_sec : Z; tv_usec : Z }.

(** [gettimeofday] and the conversion of utils.h: [(uint64_t)tv_sec * 1000000 + tv_usec]. *)
Definition microseconds_of (tv : timeval) : Z := u64 (u64 (u64 (tv_sec tv) * 1000000) + tv_usec tv).

(** Something the process handed to the kernel or to an engine. *)
Inductive effect :=
| OnWire (packet : bytes)    (* bytes given to [sendto] *)
| OnBus (blob : bytes)       (* bytes given to [ShmNode::send_msg] *)
| AdjTime (offset : Z).      (* offset given to [adjtimex] *)

#[export] Instance effect_eq_dec : EqDecision effect.
Proof. solve_decision. Defined.

Record io := {
  clock : nat -> timeval;    (* n-th result of gettimeofday *)
  sendto_ret : nat -> Z;     (* n-th result of sendto *)
  adjtimex_ret : Z -> Z;     (* result of adjtimex for an offset *)
  n_clock : nat;
  n_sendto : nat;
  out : list effect          (* most recent last *)
}.

Definition emit (t : effect) (w : io) : io :=
  {| clock := clock w; sendto_ret := sendto_ret w; adjtimex_ret := adjtimex_ret w;
     n_clock := n_clock w; n_sendto := n_sendto w; out := out w ++ [t] |}.

Definition get_microseconds_now : M io Z := fun w =>
  (Ok (microseconds_of (clock w (n_clock w))),
   {| clock := clock w; sendto_ret := sendto_ret w; adjtimex_ret := adjtimex_ret w;
      n_clock := S (n_clock w); n_sendto := n_sendto w; out := out w |}).

(** [::sendto]: the packet leaves and the kernel's result is returned. *)
Definition sendto (packet : bytes) : M io Z := fun w =>
  (Ok (sendto_ret w (n_sendto w)),
   {| clock := clock w; sendto_ret := sendto_ret w; adjtimex_ret := adjtimex_ret w;
      n_clock := n_clock w; n_sendto := S (n_sendto w); out := out w ++ [OnWire packet] |}).

(** [ShmNode::send_msg] as its callers see it when it returns: the message was
    put on the bus and the result is [true], the only one it has.  The call blocks
    on a mutex and on a barrier and need not return, and a message put on the bus
    need not be delivered: both belong to the concurrent program and are modelled
    step by step in ShmNode.v.  A statement about a sequential operation that sends
    on the bus is therefore one about the calls that return. *)
Definition bus_send (blob : bytes) : M io bool := fun w => (Ok true, emit (OnBus blob) w).

(** A world before anything has happened. *)
Definition io_init (c : nat -> timeval) (r : nat -> Z) (a : Z -> Z) : io :=
  {| clock := c; sendto_ret := r; adjtimex_ret := a; n_clock := O; n_sendto := O; out := [] |}.

Lemma microseconds_of_range tv : is_u64 (microseconds_of tv).
Proof. apply u64_range. Qed.
