(* ===== verification/EngineEthernet.v ===== *)
(** * The raw-socket engine (src/src/engine_ethernet.cpp)

    [send] builds an Ethernet packet and hands it to [sendto]; [on_packet]
    drains the socket and turns each packet into a frame for the NIC; the
    receive thread sleeps on a semaphore that the SIGIO handler posts. *)

From S2P Require Import Prelude Text Ethernet World.
Import Ethernet.

Module EngineEthernet.

Definition ETH_FRAME_LEN : nat := 1514.
Definition sizeof_ether_header : nat := 14.

Record engine := {
  sock_ : Z;
  ifindex_ : Z;
  mac_bytes_ : bytes;
  mac_ : Address;
  running : bool
}.

(** What the kernel answers during construction. *)
Record syscalls := {
  sys_socket : Z;
  sys_if_nametoindex : bytes -> Z;
  sys_ioctl_hwaddr : Z;         (* result of ioctl(SIOCGIFHWADDR) *)
  sys_hwaddr : bytes;           (* ifr_hwaddr.sa_data, 14 bytes *)
  sys_bind : Z
}.

(** The constructor; the flag in the result of a failure says whether the
    socket was closed before the exception was thrown. *)
Definition construct (sys : syscalls) (ifname : bytes) : outcome engine :=
  match ifname with
  | [] => Throw invalid_argument
  | _ =>
      if sys_socket sys <? 0 then Throw runtime_error
      else if sys_if_nametoindex sys ifname =? 0 then Throw runtime_error
      else if sys_ioctl_hwaddr sys <? 0 then Throw runtime_error
      else
        let m := take 6 (sys_hwaddr sys) in
        if sys_bind sys <? 0 then Throw runtime_error
        else Ok {| sock_ := sys_socket sys; ifindex_ := sys_if_nametoindex sys ifname;
                   mac_bytes_ := m; mac_ := m; running := true |}
  end.

Definition close_safe (e : engine) : engine :=
  if 0 <=? sock_ e
  then {| sock_ := -1; ifindex_ := ifindex_ e; mac_bytes_ := mac_bytes_ e; mac_ := mac_ e;
          running := running e |}
  else e.

Definition destroy (e : engine) : engine :=
  close_safe {| sock_ := sock_ e; ifindex_ := ifindex_ e; mac_bytes_ := mac_bytes_ e;
                mac_ := mac_ e; running := false |}.

(** Prints the address and scans it back. *)
Definition address_to_bytes (a : Address) : option bytes :=
  match scan_colon_hex LENGTH (str a) with
  | Some vs => Some (u8 <$> vs)
  | None => None
  end.

Definition htons (p : Z) : bytes := be_bytes 2 p.
Definition ntohs (l : bytes) : Z := be_val l.

(** The packet [send] puts on the wire. *)
Definition packet_of (e : engine) (f : Frame) : bytes :=
  let dst := default BROADCAST (address_to_bytes (f_dst f)) in
  dst ++ mac_bytes_ e ++ htons (f_proto f) ++ take (Z.to_nat (f_size f)) (f_data f).

Definition send (e : engine) (f : Frame) : M io Z :=
  if sock_ e <? 0 then mret (-1)
  else
    sent ← sendto (packet_of e f);
    mret (if sent <? 0 then -1
          else if Z.of_nat sizeof_ether_header <? sent
               then sent - Z.of_nat sizeof_ether_header else 0).

(** The body of the receive loop for one packet: [recvfrom] truncates to the
    buffer, short packets are skipped, the payload is clamped to MAX_DATA. *)
Definition frame_of_packet (packet : bytes) : option Frame :=
  let buf := take ETH_FRAME_LEN packet in
  let n := length buf in
  if (n <? sizeof_ether_header)%nat then None
  else
    let plen := (n - sizeof_ether_header)%nat in
    let plen := if (Z.to_nat MAX_DATA <? plen)%nat then Z.to_nat MAX_DATA else plen in
    Some {| f_src := take 6 (drop 6 buf);
            f_dst := take 6 buf;
            f_proto := ntohs (take 2 (drop 12 buf));
            f_size := Z.of_nat plen;
            f_data := take plen (drop sizeof_ether_header buf) |}.

(** [on_packet]: the frames forwarded to the NIC while draining the packets
    [queue] that wait in the socket; nothing on a closed socket. *)
Definition on_packet (e : engine) (queue : list bytes) : list Frame :=
  if sock_ e <? 0 then [] else omap frame_of_packet queue.

(** ** The receive thread

    The socket exists, and packets arrive, from the call of [socket] on; SIGIO is
    raised for a packet only once the constructor has set O_ASYNC, its last system
    call; the thread exists once [start] has been called.  The state is the kernel
    queue, the pending SIGIO, the semaphore and the program counter of [rx_loop].
    [stale] is not part of the program: it says that since the socket was last
    found empty a packet arrived before O_ASYNC was set or [recvfrom] failed with
    packets possibly left. *)

Inductive rx_pc := NotStarted | Waiting | Draining | Stopped.

Record rx_state := {
  queue : list bytes;        (* in the socket buffer *)
  sigio_pending : bool;      (* SIGIO raised, handler not yet run *)
  packet_sem : nat;
  pc : rx_pc;
  async : bool;              (* O_ASYNC set on the socket *)
  rx_running : bool;
  delivered : list bytes;    (* packets read, in order *)
  stale : bool
}.

(** After [socket]. *)
Definition rx_init : rx_state :=
  {| queue := []; sigio_pending := false; packet_sem := O; pc := NotStarted; async := false; rx_running := true;
     delivered := []; stale := false |}.

Inductive rx_step : rx_state -> rx_state -> Prop :=
| rx_arrive_early q sg n p r d l pk :   (* a packet arrives while O_ASYNC is off: no signal *)
    rx_step {| queue := q; sigio_pending := sg; packet_sem := n; pc := p; async := false; rx_running := r; delivered := d; stale := l |}
            {| queue := q ++ [pk]; sigio_pending := sg; packet_sem := n; pc := p; async := false; rx_running := r; delivered := d; stale := true |}
| rx_set_async q sg n r d l :   (* the end of the constructor: fcntl(F_SETFL, O_ASYNC | O_NONBLOCK) *)
    rx_step {| queue := q; sigio_pending := sg; packet_sem := n; pc := NotStarted; async := false; rx_running := r; delivered := d; stale := l |}
            {| queue := q; sigio_pending := sg; packet_sem := n; pc := NotStarted; async := true; rx_running := r; delivered := d; stale := l |}
| rx_start q sg n r d l :   (* start() after the constructor: the thread runs rx_loop *)
    rx_step {| queue := q; sigio_pending := sg; packet_sem := n; pc := NotStarted; async := true; rx_running := r; delivered := d; stale := l |}
            {| queue := q; sigio_pending := sg; packet_sem := n; pc := if r then Waiting else Stopped; async := true; rx_running := r; delivered := d; stale := l |}
| rx_arrive q sg n p r d l pk :   (* a packet arrives: O_ASYNC raises SIGIO *)
    rx_step {| queue := q; sigio_pending := sg; packet_sem := n; pc := p; async := true; rx_running := r; delivered := d; stale := l |}
            {| queue := q ++ [pk]; sigio_pending := true; packet_sem := n; pc := p; async := true; rx_running := r; delivered := d; stale := l |}
| rx_handler q n p a r d l :   (* sigio_handler: sem_post *)
    rx_step {| queue := q; sigio_pending := true; packet_sem := n; pc := p; async := a; rx_running := r; delivered := d; stale := l |}
            {| queue := q; sigio_pending := false; packet_sem := S n; pc := p; async := a; rx_running := r; delivered := d; stale := l |}
| rx_wait q sg n a d l :   (* sem_wait returns, running still set *)
    rx_step {| queue := q; sigio_pending := sg; packet_sem := S n; pc := Waiting; async := a; rx_running := true; delivered := d; stale := l |}
            {| queue := q; sigio_pending := sg; packet_sem := n; pc := Draining; async := a; rx_running := true; delivered := d; stale := l |}
| rx_eintr q sg n a d l :   (* sem_wait interrupted by the handler (EINTR, ignored) *)
    rx_step {| queue := q; sigio_pending := sg; packet_sem := n; pc := Waiting; async := a; rx_running := true; delivered := d; stale := l |}
            {| queue := q; sigio_pending := sg; packet_sem := n; pc := Draining; async := a; rx_running := true; delivered := d; stale := l |}
| rx_recv pk q sg n a r d l :   (* recvfrom returns a packet *)
    rx_step {| queue := pk :: q; sigio_pending := sg; packet_sem := n; pc := Draining; async := a; rx_running := r; delivered := d; stale := l |}
            {| queue := q; sigio_pending := sg; packet_sem := n; pc := Draining; async := a; rx_running := r; delivered := d ++ [pk]; stale := l |}
| rx_eagain sg n a d r l :   (* recvfrom returns EAGAIN: back to sem_wait *)
    rx_step {| queue := []; sigio_pending := sg; packet_sem := n; pc := Draining; async := a; rx_running := r; delivered := d; stale := l |}
            {| queue := []; sigio_pending := sg; packet_sem := n; pc := if r then Waiting else Stopped; async := a; rx_running := r; delivered := d; stale := false |}
| rx_error q sg n a d r l :   (* recvfrom fails otherwise (ENETDOWN, ...): the loop breaks as if drained *)
    rx_step {| queue := q; sigio_pending := sg; packet_sem := n; pc := Draining; async := a; rx_running := r; delivered := d; stale := l |}
            {| queue := q; sigio_pending := sg; packet_sem := n; pc := if r then Waiting else Stopped; async := a; rx_running := r; delivered := d; stale := true |}
| rx_destroy q sg n p a r d l :   (* the destructor clears running *)
    rx_step {| queue := q; sigio_pending := sg; packet_sem := n; pc := p; async := a; rx_running := r; delivered := d; stale := l |}
            {| queue := q; sigio_pending := sg; packet_sem := n; pc := p; async := a; rx_running := false; delivered := d; stale := l |}
| rx_stop q sg n a d l :   (* sem_wait returns with running cleared *)
    rx_step {| queue := q; sigio_pending := sg; packet_sem := S n; pc := Waiting; async := a; rx_running := false; delivered := d; stale := l |}
            {| queue := q; sigio_pending := sg; packet_sem := n; pc := Stopped; async := a; rx_running := false; delivered := d; stale := l |}
| rx_eintr_stop q sg n a d l :   (* sem_wait interrupted with running cleared *)
    rx_step {| queue := q; sigio_pending := sg; packet_sem := n; pc := Waiting; async := a; rx_running := false; delivered := d; stale := l |}
            {| queue := q; sigio_pending := sg; packet_sem := n; pc := Stopped; async := a; rx_running := false; delivered := d; stale := l |}.

(** The thread will drain the socket: the signal is pending, the semaphore is up,
    or it is draining. *)
Definition wakeup_coming (s : rx_state) : Prop :=
  sigio_pending s = true \/ (0 < packet_sem s)%nat \/ pc s = Draining.

Definition wakeup_inv (s : rx_state) : Prop :=
  (pc s = Stopped -> rx_running s = false) /\
  (queue s <> [] -> rx_running s = true -> wakeup_coming s \/ stale s = true).

(** ** Lemmas *)

Lemma address_to_bytes_ok a : addr_ok a -> address_to_bytes a = Some a.
Proof.
  intros [Hl Hb]. unfold address_to_bytes, str.
  rewrite scan_colon_hex_print by done. cbn. by rewrite map_u8_id.
Qed.

Lemma ntohs_htons p : is_u16 p -> ntohs (htons p) = p.
Proof. intros. apply be_val_be_bytes. unfold is_u16 in *. lia. Qed.

Lemma packet_layout e f :
  frame_ok f -> packet_of e f = f_dst f ++ mac_bytes_ e ++ htons (f_proto f) ++ f_data f.
Proof.
  intros (Hd & _ & _ & _ & Hl & _). unfold packet_of.
  rewrite address_to_bytes_ok by done. cbn [default].
  rewrite take_ge by lia. done.
Qed.

(** The packet built by one engine, received by another, is the frame that was
    sent, with the sender's hardware address as its source. *)
Lemma frame_of_packet_of e f :
  frame_ok f -> addr_ok (mac_bytes_ e) ->
  frame_of_packet (packet_of e f) =
  Some {| f_dst := f_dst f; f_src := mac_bytes_ e; f_proto := f_proto f;
          f_data := f_data f; f_size := f_size f |}.
Proof.
  intros Hf [Hml Hmb]. rewrite packet_layout by done.
  destruct Hf as ([Hdl Hdb] & _ & Hp & Hb & Hl & Hmax). unfold MAX_DATA in Hmax.
  unfold LENGTH in *.
  assert (length (htons (f_proto f)) = 2%nat) as H2 by apply length_be_bytes.
  unfold frame_of_packet.
  rewrite take_ge by (rewrite !length_app; unfold ETH_FRAME_LEN; lia).
  rewrite (proj2 (Nat.ltb_ge _ _)) by (rewrite !length_app; unfold sizeof_ether_header; lia).
  rewrite (proj2 (Nat.ltb_ge (Z.to_nat MAX_DATA) _))
    by (rewrite !length_app; unfold sizeof_ether_header, MAX_DATA; lia).
  set (buf := f_dst f ++ _).
  assert (drop 6 buf = mac_bytes_ e ++ htons (f_proto f) ++ f_data f) as E6
    by (by apply drop_app_len).
  assert (drop 12 buf = htons (f_proto f) ++ f_data f) as E12.
  { change 12%nat with (6 + 6)%nat. rewrite <- drop_drop, E6. by apply drop_app_len. }
  assert (drop 14 buf = f_data f) as E14.
  { change 14%nat with (12 + 2)%nat. rewrite <- drop_drop, E12. by apply drop_app_len. }
  assert (take 6 buf = f_dst f) as E0 by (by apply take_app_len).
  unfold sizeof_ether_header. rewrite E0, E6, E12, E14.
  rewrite (take_app_len (mac_bytes_ e)), (take_app_len (htons _)) by done.
  rewrite ntohs_htons by done.
  assert (length buf - 14 = length (f_data f))%nat as -> by (unfold buf; rewrite !length_app; lia).
  rewrite take_ge by lia. by rewrite Hl.
Qed.

Lemma frame_of_packet_ok packet f :
  bytes_ok packet -> frame_of_packet packet = Some f -> frame_ok f.
Proof.
  intros Hp. unfold frame_of_packet, sizeof_ether_header.
  set (buf := take ETH_FRAME_LEN packet). assert (bytes_ok buf) as Hb by (by apply bytes_ok_take).
  destruct (Nat.ltb_spec (length buf) 14); [done|]. intros [= <-].
  assert (length buf <= 1514)%nat by (unfold buf, ETH_FRAME_LEN; rewrite length_take; lia).
  rewrite (proj2 (Nat.ltb_ge (Z.to_nat MAX_DATA) _)) by (unfold MAX_DATA; lia).
  unfold frame_ok; cbn [f_dst f_src f_proto f_data f_size]. clearbody buf. repeat split.
  - rewrite length_take. unfold LENGTH; lia.
  - by apply bytes_ok_take.
  - rewrite length_take, length_drop. unfold LENGTH; lia.
  - by apply bytes_ok_take, bytes_ok_drop.
  - apply le_val_range, bytes_ok_reverse, bytes_ok_take, bytes_ok_drop, Hb.
  - pose proof (le_val_range (reverse (take 2 (drop 12 buf)))) as Hr.
    rewrite length_reverse, length_take, length_drop in Hr.
    replace (2 `min` (length buf - 12))%nat with 2%nat in Hr by lia.
    apply Hr, bytes_ok_reverse, bytes_ok_take, bytes_ok_drop, Hb.
  - by apply bytes_ok_take, bytes_ok_drop.
  - rewrite length_take, length_drop. lia.
  - unfold MAX_DATA. lia.
Qed.

Lemma rx_wakeup_step s t : rx_step s t -> wakeup_inv s -> wakeup_inv t.
Proof.
  unfold wakeup_inv, wakeup_coming. destruct 1; cbn; intros [H1 H2]; (split; [try destruct r; by auto|]); intros Hq Hr;
    try (by auto); try (by right); try (by left; auto); try congruence.
  - destruct (H2 Hq Hr) as [[?|[?|?]]|?]; [by left; left|by left; right; left|done|by right].
  - left. right. left. lia.
Qed.

Lemma rx_reachable s : rtc rx_step rx_init s -> wakeup_inv s.
Proof.
  intros H. assert (wakeup_inv rx_init) as Hi by (split; [done|by intros []]).
  induction H as [s|s t u Hst _ IH]; [exact Hi|]. apply IH. by eapply rx_wakeup_step.
Qed.

End EngineEthernet.
