(* ===== verification/EngineShm.v ===== *)
(** * The shared-memory engine (src/src/engine_shm.cpp)

    Frames travel between the processes of one vehicle as the concatenation of
    their fields; the bus carries at most PAYLOAD bytes. *)

From S2P Require Import Prelude Text Ethernet World.
Import Ethernet.

Module EngineShm.

Definition PAYLOAD : Z := 1500.

(** [sizeof(dst) + sizeof(src) + sizeof(proto) + sizeof(size)]. *)
Definition header_size : nat := (6 + 6 + 2 + 4)%nat.

Definition serialize_frame (f : Frame) : bytes :=
  f_dst f ++ f_src f ++ le_bytes 2 (f_proto f) ++ le_bytes 4 (f_size f) ++
  take (Z.to_nat (f_size f)) (f_data f).

(** [deserialize_frame(data, len, out)] on a buffer of [len] bytes: [Ok None]
    is [false].  The length check is commented out in the source, so a size
    field larger than the rest of the buffer makes [memcpy] read past its end. *)
Definition deserialize_frame (data : bytes) : outcome (option Frame) :=
  if (length data <? header_size)%nat then Ok None
  else
    let size := le_val (take 4 (drop 14 data)) in
    if MAX_DATA <? size then Ok None
    else if (length data - header_size <? Z.to_nat size)%nat then Undef
    else Ok (Some {| f_dst := take 6 data;
                     f_src := take 6 (drop 6 data);
                     f_proto := le_val (take 2 (drop 12 data));
                     f_size := size;
                     f_data := take (Z.to_nat size) (drop header_size data) |}).

Definition send (f : Frame) : M io Z :=
  let blob := serialize_frame f in
  if (length blob =? 0)%nat then mret (-1)
  else if PAYLOAD <? Z.of_nat (length blob) then mret (-2)
  else ok ← bus_send blob; mret (if ok : bool then 0 else -3).

Definition send_bytes (data : option bytes) (len : nat) : M io Z :=
  match data with
  | None => mret (-1)
  | Some d =>
      if (len =? 0)%nat then mret (-1)
      else if PAYLOAD <? Z.of_nat len then mret (-2)
      else ok ← bus_send (take len d); mret (if ok : bool then 0 else -3)
  end.

(** What [on_receive_msg] does with a message read from the bus. *)
Inductive shm_event :=
| ToNic (f : Frame)        (* nic->on_shm_frame(f) *)
| ToRaw (msg : bytes)      (* _raw_rx(msg, len) *)
| Dropped.

Definition on_receive_msg (nic_bound raw_handler : bool) (msg : bytes) : outcome shm_event :=
  if (length msg =? 0)%nat then Ok Dropped
  else if negb nic_bound then Ok Dropped
  else
    r ← deserialize_frame msg;
    match r with
    | Some f => Ok (ToNic f)
    | None => Ok (if raw_handler then ToRaw msg else Dropped)
    end.

(** ** Lemmas *)

Lemma length_serialize_frame f :
  addr_ok (f_dst f) -> addr_ok (f_src f) -> Z.of_nat (length (f_data f)) = f_size f ->
  length (serialize_frame f) = (header_size + length (f_data f))%nat.
Proof.
  intros [H1 _] [H2 _] H3. unfold serialize_frame, header_size, LENGTH in *.
  rewrite !length_app, !length_le_bytes, take_ge by lia. lia.
Qed.

Lemma deserialize_serialize f :
  frame_ok f -> deserialize_frame (serialize_frame f) = Ok (Some f).
Proof.
  intros ([Hdl Hdb] & [Hsl Hsb] & Hp & Hb & Hl & Hmax).
  unfold deserialize_frame. rewrite length_serialize_frame by done.
  unfold header_size, MAX_DATA, LENGTH in *.
  rewrite (proj2 (Nat.ltb_ge _ _)) by lia.
  unfold serialize_frame. rewrite (take_ge (f_data f)) by lia.
  set (buf := f_dst f ++ _).
  assert (drop 6 buf = f_src f ++ le_bytes 2 (f_proto f) ++ le_bytes 4 (f_size f) ++ f_data f)
    as E6 by (by apply drop_app_len).
  assert (drop 12 buf = le_bytes 2 (f_proto f) ++ le_bytes 4 (f_size f) ++ f_data f) as E12.
  { change 12%nat with (6 + 6)%nat. rewrite <- drop_drop, E6. by apply drop_app_len. }
  assert (drop 14 buf = le_bytes 4 (f_size f) ++ f_data f) as E14.
  { change 14%nat with (12 + 2)%nat. rewrite <- drop_drop, E12. by apply drop_app_len. }
  assert (drop 18 buf = f_data f) as E18.
  { change 18%nat with (14 + 4)%nat. rewrite <- drop_drop, E14. by apply drop_app_len. }
  assert (take 6 buf = f_dst f) as E0 by (by apply take_app_len).
  change (6 + 6 + 2 + 4)%nat with 18%nat. rewrite E0, E6, E12, E14, E18.
  rewrite (take_app_len (f_src f)), (take_app_len (le_bytes 2 _)), (take_app_len (le_bytes 4 _))
    by (by rewrite ?length_le_bytes).
  unfold is_u16 in Hp. rewrite !le_val_le_bytes by lia.
  rewrite (proj2 (Z.ltb_ge 1500 _)) by lia.
  rewrite (proj2 (Nat.ltb_ge _ _)) by lia.
  rewrite take_ge by lia. by destruct f.
Qed.

Lemma deserialize_ok msg f :
  bytes_ok msg -> deserialize_frame msg = Ok (Some f) -> frame_ok f.
Proof.
  intros Hm. unfold deserialize_frame, header_size.
  destruct (Nat.ltb_spec (length msg) (6 + 6 + 2 + 4)); [done|].
  destruct (Z.ltb_spec MAX_DATA (le_val (take 4 (drop 14 msg)))); [done|].
  destruct (Nat.ltb_spec (length msg - (6 + 6 + 2 + 4)) (Z.to_nat (le_val (take 4 (drop 14 msg)))));
    [done|].
  intros [= <-]. unfold frame_ok, addr_ok, LENGTH. cbn [f_dst f_src f_proto f_data f_size].
  pose proof (le_val_range (take 4 (drop 14 msg)) ltac:(auto with bytes)) as Hs.
  pose proof (le_val_range (take 2 (drop 12 msg)) ltac:(auto with bytes)) as Hp.
  rewrite length_take, length_drop in Hp.
  replace (2 `min` (length msg - 12))%nat with 2%nat in Hp by lia.
  rewrite !length_take, !length_drop. repeat split; auto with bytes; unfold MAX_DATA in *; try lia.
Qed.

End EngineShm.
