(* ===== verification/Nic.v ===== *)
(** * Observer pattern and network interface (src/src/observer.h, nic.cpp)

    The NIC routes a frame to the shared-memory engine when it is addressed to
    this vehicle and to the Ethernet engine otherwise, and notifies the
    protocols observing it of each received frame. *)

From S2P Require Import Prelude Text Ethernet World EngineEthernet EngineShm.
Import Ethernet.

(** Where a packet came from. *)
Inductive ChannelOrigin := OEthernet | OSharedMemory.
#[export] Instance ChannelOrigin_eq_dec : EqDecision ChannelOrigin.
Proof. solve_decision. Defined.

(** ** [Observed]: an ordered list of observers *)

Module Observed.
Section observed.
Context {O : Type} `{EqDecision O}.

Definition attach (o : O) (observers : list O) : list O := observers ++ [o].

(** [std::list::remove] removes every equal element. *)
Definition detach (o : O) (observers : list O) : list O := filter (fun x => x <> o) observers.

(** [notify] calls every observer in order. *)
Definition notify {S} (update : O -> M S unit) (observers : list O) : M S unit :=
  for_each observers update.

Lemma detach_attach o l : o ∉ l -> detach o (attach o l) = l.
Proof.
  unfold detach, attach. induction l as [|x l IH]; intros Ho.
  - change ([] ++ [o]) with [o]. rewrite filter_cons_False; [done|]. naive_solver.
  - rewrite <- app_comm_cons, filter_cons_True by set_solver. by rewrite IH by set_solver.
Qed.

Lemma detach_not_in o l : o ∉ detach o l.
Proof. unfold detach. intros [H _]%list_elem_of_filter. done. Qed.
End observed.
End Observed.

(** ** [ConcurrentObserver]: a mailbox protected by a mutex

    [update] appends an entry and signals; [updated] blocks until the list is
    non-empty and pops its front.  Both run under the mutex, so an execution
    is a sequence of these atomic steps. *)

Module ConcurrentObserver.
Section mailbox.
Context {C D : Type}.

Record Entry := { channel : C; value : D; origin : ChannelOrigin }.

Definition update (c : C) (d : D) (o : ChannelOrigin) (data : list Entry) : list Entry :=
  data ++ [{| channel := c; value := d; origin := o |}].

(** [None]: the caller stays blocked in [cv.wait]. *)
Definition updated (data : list Entry) : option (Entry * list Entry) :=
  match data with [] => None | e :: rest => Some (e, rest) end.

Inductive event := Put (e : Entry) | Got (e : Entry).

Inductive mailbox_step : list Entry -> event -> list Entry -> Prop :=
| mb_put c d o l :
    mailbox_step l (Put {| channel := c; value := d; origin := o |}) (update c d o l)
| mb_get l e rest : updated l = Some (e, rest) -> mailbox_step l (Got e) rest.

Inductive mailbox_run : list Entry -> list event -> list Entry -> Prop :=
| mbr_nil l : mailbox_run l [] l
| mbr_cons l e l' es l'' :
    mailbox_step l e l' -> mailbox_run l' es l'' -> mailbox_run l (e :: es) l''.

Definition puts (es : list event) : list Entry :=
  omap (fun e => match e with Put x => Some x | Got _ => None end) es.
Definition gots (es : list event) : list Entry :=
  omap (fun e => match e with Got x => Some x | Put _ => None end) es.

(** First in, first out, nothing lost or duplicated. *)
Lemma mailbox_fifo l es l' : mailbox_run l es l' -> l ++ puts es = gots es ++ l'.
Proof.
  induction 1 as [l|l e l' es l'' Hs _ IH]; [by rewrite app_nil_r|].
  destruct Hs as [c d o l|l e rest He].
  - unfold update in IH. change (puts (Put _ :: es)) with (Build_Entry c d o :: puts es).
    rewrite <- app_assoc in IH. exact IH.
  - destruct l as [|x l]; [done|]. injection He as -> ->.
    change (gots (Got e :: es)) with (e :: gots es). cbn. by rewrite <- IH.
Qed.
End mailbox.
Arguments Entry : clear implicits.
Arguments event : clear implicits.
End ConcurrentObserver.

(** ** NIC *)

Module NIC.

Record nic := {
  ethernet_engine : option EngineEthernet.engine;
  shm_engine : bool;            (* a shared-memory engine is attached *)
  mac : Address
}.

(** The constructor binds the engines without a null check on [shm_engine]. *)
Definition construct (eth : option EngineEthernet.engine) (shm : bool) (addr : Address)
  : outcome nic :=
  if shm then Ok {| ethernet_engine := eth; shm_engine := shm; mac := addr |} else Undef.

Definition address (n : nic) : Address := mac n.

Definition frame_to (n : nic) (dst : Address) (proto : Z) (data : bytes) (size : Z) : Frame :=
  {| f_src := mac n; f_dst := dst; f_proto := proto; f_size := size;
     f_data := take (Z.to_nat size) data |}.

(** [NIC::send]; a size above MAX_DATA overruns the frame's data array. *)
Definition send (n : nic) (dst : Address) (proto : Z) (data : bytes) (size : Z) : M io Z :=
  if MAX_DATA <? size then undef
  else
    let f := frame_to n dst proto data size in
    if addr_eqb dst (address n) then
      if negb (shm_engine n) then mret (-1) else EngineShm.send f
    else
      match ethernet_engine n with
      | None => mret (-2)
      | Some e => EngineEthernet.send e f
      end.

Section receive.
(** The observers of a NIC are protocols; [update] frees the frame it is
    given, and every observer is given the same copy, so with a second
    observer the frame is used after it has been freed. *)
Context {S P : Type} (update : P -> Z -> Frame -> ChannelOrigin -> M S unit).

Definition notify (observers : list P) (c : Z) (f : Frame) (o : ChannelOrigin) : M S unit :=
  match observers with
  | [] => skip
  | [p] => update p c f o
  | p :: _ => update p c f o ;; undef
  end.

Definition on_eth_frame (n : nic) (observers : list P) (f : Frame) : M S unit :=
  if addr_eqb (f_src f) (mac n) then skip
  else notify observers (f_proto f) f OEthernet.

Definition on_shm_frame (observers : list P) (f : Frame) : M S unit :=
  notify observers (f_proto f) f OSharedMemory.
End receive.

(** ** Lemmas *)

Lemma send_shm n proto data size w :
  shm_engine n = true -> addr_ok (mac n) ->
  Z.of_nat (length data) = size -> size <= 1482 ->
  send n (mac n) proto data size w =
  (Ok 0, emit (OnBus (EngineShm.serialize_frame (frame_to n (mac n) proto data size))) w).
Proof.
  intros Hshm Ha Hl Hs. unfold send, MAX_DATA. rewrite (proj2 (Z.ltb_ge _ _)) by lia.
  unfold addr_eqb, address. rewrite bool_decide_true by done. rewrite Hshm. cbn [negb].
  unfold EngineShm.send.
  assert (length (EngineShm.serialize_frame (frame_to n (mac n) proto data size)) =
          18 + length data)%nat as Hlen.
  { rewrite EngineShm.length_serialize_frame; cbn; rewrite ?take_ge by lia; try done. }
  rewrite Hlen. rewrite (proj2 (Nat.eqb_neq _ _)) by lia.
  unfold EngineShm.PAYLOAD. rewrite (proj2 (Z.ltb_ge _ _)) by lia. done.
Qed.

Lemma send_eth n e dst proto data size w :
  ethernet_engine n = Some e -> dst <> mac n -> size <= MAX_DATA ->
  send n dst proto data size w = EngineEthernet.send e (frame_to n dst proto data size) w.
Proof.
  intros He Hd Hs. unfold send. rewrite (proj2 (Z.ltb_ge _ _)) by lia.
  unfold addr_eqb, address. rewrite bool_decide_false by done. by rewrite He.
Qed.

End NIC.
