(* ===== verification/ShmNode.v ===== *)
(** * The shared-memory bus (src/src/shm_node.h, shm_node.cpp)

    The processes of one vehicle share a one-message bus: [send_msg] locks the
    bus, publishes a message, waits at a barrier until every other node has
    copied it, and withdraws it; every node's receive thread waits for a
    message, skips its own, copies it, joins the barrier and delivers it.

    The machine interleaves the sender and the receiver thread of every node.
    Every access to the shared record outside a critical section is a step of
    its own; a critical section of [new_msg_cond_mtx], which reads or writes one
    flag, is one step; the barrier releases all its waiters when the last one
    arrives.  [memset] and [memcpy] are not divided further. *)

From S2P Require Import Prelude Text.

Module ShmNode.

Definition PAYLOAD : nat := 1500.

(** Program counter of [send_msg]. *)
Inductive sender_pc :=
| SIdle                       (* not in send_msg, or waiting for bus_mtx *)
| SLocked (msg : bytes)       (* holds bus_mtx *)
| SUsing (msg : bytes)        (* using_bus set *)
| SZeroed (msg : bytes)       (* bus cleared *)
| SCopied (msg : bytes)       (* message in the bus *)
| SWritten (msg : bytes)      (* msg_len written *)
| SAnnounced (msg : bytes)    (* msg_available set, waiters woken *)
| SAtBarrier (msg : bytes)
| SPassed (msg : bytes)       (* released from the barrier *)
| SCleared                    (* msg_available reset *)
| SReleased.                  (* using_bus reset, about to unlock bus_mtx *)

(** Program counter of [receive_msg_routine]. *)
Inductive receiver_pc :=
| RWait                       (* at the condition wait *)
| RSeen                       (* left the wait, about to test using_bus *)
| RTested                     (* about to malloc *)
| RAllocated (cap : Z)        (* about to memcpy *)
| RCopied (buf : bytes)       (* about to enter the barrier *)
| RAtBarrier (buf : bytes)
| RPassed (buf : bytes).      (* about to call on_receive_msg *)

Record node := {
  using_bus : bool;
  spc : sender_pc;
  rpc : receiver_pc;
  delivered : list (Z * bytes);    (* (msg_len, buffer) given to on_receive_msg *)
  overrun : bool                   (* memcpy wrote past the allocated buffer *)
}.

Record shared := {
  nodes : list node;
  bus_mtx : option nat;            (* the node that holds it *)
  bus : bytes;                     (* PAYLOAD bytes *)
  msg_available : bool;
  msg_len : Z;
  arrived : nat;                   (* threads waiting at all_read_done_barrier *)
  barrier_count : nat
}.

Definition zeros : bytes := replicate PAYLOAD 0.

(** The region is cleared by the master, and the barrier is created for
    [nodes_count + 1] threads; [n] nodes run. *)
Definition init (n nodes_count : nat) : shared :=
  {| nodes := replicate n {| using_bus := false; spc := SIdle; rpc := RWait; delivered := []; overrun := false |};
     bus_mtx := None; bus := zeros; msg_available := false; msg_len := 0; arrived := 0;
     barrier_count := S nodes_count |}.

Definition set_spc (p : sender_pc) (n : node) : node :=
  {| using_bus := using_bus n; spc := p; rpc := rpc n; delivered := delivered n; overrun := overrun n |}.
Definition set_rpc (p : receiver_pc) (n : node) : node :=
  {| using_bus := using_bus n; spc := spc n; rpc := p; delivered := delivered n; overrun := overrun n |}.
Definition set_using (b : bool) (n : node) : node :=
  {| using_bus := b; spc := spc n; rpc := rpc n; delivered := delivered n; overrun := overrun n |}.
Definition add_delivered (d : Z * bytes) (n : node) : node :=
  {| using_bus := using_bus n; spc := spc n; rpc := rpc n; delivered := delivered n ++ [d]; overrun := overrun n |}.
Definition set_overrun (b : bool) (n : node) : node :=
  {| using_bus := using_bus n; spc := spc n; rpc := rpc n; delivered := delivered n; overrun := overrun n || b |}.

Definition set_nodes (l : list node) (s : shared) : shared :=
  {| nodes := l; bus_mtx := bus_mtx s; bus := bus s; msg_available := msg_available s;
     msg_len := msg_len s; arrived := arrived s; barrier_count := barrier_count s |}.
Definition set_node (i : nat) (n : node) (s : shared) : shared := set_nodes (<[i := n]> (nodes s)) s.
Definition set_mtx (o : option nat) (s : shared) : shared :=
  {| nodes := nodes s; bus_mtx := o; bus := bus s; msg_available := msg_available s;
     msg_len := msg_len s; arrived := arrived s; barrier_count := barrier_count s |}.
Definition set_bus (b : bytes) (s : shared) : shared :=
  {| nodes := nodes s; bus_mtx := bus_mtx s; bus := b; msg_available := msg_available s;
     msg_len := msg_len s; arrived := arrived s; barrier_count := barrier_count s |}.
Definition set_len (n : Z) (s : shared) : shared :=
  {| nodes := nodes s; bus_mtx := bus_mtx s; bus := bus s; msg_available := msg_available s;
     msg_len := n; arrived := arrived s; barrier_count := barrier_count s |}.
Definition set_available (b : bool) (s : shared) : shared :=
  {| nodes := nodes s; bus_mtx := bus_mtx s; bus := bus s; msg_available := b;
     msg_len := msg_len s; arrived := arrived s; barrier_count := barrier_count s |}.
Definition set_arrived (n : nat) (s : shared) : shared :=
  {| nodes := nodes s; bus_mtx := bus_mtx s; bus := bus s; msg_available := msg_available s;
     msg_len := msg_len s; arrived := n; barrier_count := barrier_count s |}.

(** What [pthread_barrier_wait] does to the threads of a node when it opens. *)
Definition release (n : node) : node :=
  {| using_bus := using_bus n;
     spc := match spc n with SAtBarrier m => SPassed m | p => p end;
     rpc := match rpc n with RAtBarrier b => RPassed b | p => p end;
     delivered := delivered n; overrun := overrun n |}.

(** A thread whose node already records that it waits arrives at the barrier. *)
Definition barrier_arrive (s : shared) : shared :=
  if (S (arrived s) =? barrier_count s)%nat
  then set_arrived 0 (set_nodes (release <$> nodes s) s)
  else set_arrived (S (arrived s)) s.

Inductive label :=
| SendLock (i : nat) (msg : bytes)   (* send_msg called, bus_mtx obtained *)
| SendUse (i : nat)                  (* using_bus = true *)
| SendZero (i : nat)                 (* memset(bus, 0, PAYLOAD) *)
| SendCopy (i : nat)                 (* memcpy(bus, msg, msg_len) *)
| SendLen (i : nat)                  (* s->msg_len = msg_len *)
| SendAnnounce (i : nat)             (* msg_available = true; broadcast *)
| SendWaitAll (i : nat)              (* pthread_barrier_wait *)
| SendClear (i : nat)                (* msg_available = false *)
| SendRelease (i : nat)              (* using_bus = false *)
| SendUnlock (i : nat)               (* unlock bus_mtx, return true *)
| RecvSee (i : nat)                  (* msg_available seen *)
| RecvTest (i : nat)                 (* if (using_bus) continue *)
| RecvAlloc (i : nat)                (* malloc(s->msg_len) *)
| RecvCopy (i : nat)                 (* memcpy(msg, s->bus, s->msg_len) *)
| RecvWaitAll (i : nat)              (* pthread_barrier_wait *)
| RecvDeliver (i : nat).             (* on_receive_msg(s->msg_len, msg) *)

(** The callers of [send_msg] test that the message fits the bus. *)
Definition exec (l : label) (s : shared) : option shared :=
  match l with
  | SendLock i msg =>
      n ← nodes s !! i;
      match spc n, bus_mtx s with
      | SIdle, None => if (length msg <=? PAYLOAD)%nat then Some (set_mtx (Some i) (set_node i (set_spc (SLocked msg) n) s)) else None
      | _, _ => None
      end
  | SendUse i =>
      n ← nodes s !! i;
      match spc n with
      | SLocked msg => Some (set_node i (set_using true (set_spc (SUsing msg) n)) s)
      | _ => None
      end
  | SendZero i =>
      n ← nodes s !! i;
      match spc n with
      | SUsing msg => Some (set_bus zeros (set_node i (set_spc (SZeroed msg) n) s))
      | _ => None
      end
  | SendCopy i =>
      n ← nodes s !! i;
      match spc n with
      | SZeroed msg => Some (set_bus (msg ++ drop (length msg) (bus s)) (set_node i (set_spc (SCopied msg) n) s))
      | _ => None
      end
  | SendLen i =>
      n ← nodes s !! i;
      match spc n with
      | SCopied msg => Some (set_len (Z.of_nat (length msg)) (set_node i (set_spc (SWritten msg) n) s))
      | _ => None
      end
  | SendAnnounce i =>
      n ← nodes s !! i;
      match spc n with
      | SWritten msg => Some (set_available true (set_node i (set_spc (SAnnounced msg) n) s))
      | _ => None
      end
  | SendWaitAll i =>
      n ← nodes s !! i;
      match spc n with
      | SAnnounced msg => Some (barrier_arrive (set_node i (set_spc (SAtBarrier msg) n) s))
      | _ => None
      end
  | SendClear i =>
      n ← nodes s !! i;
      match spc n with
      | SPassed _ => Some (set_available false (set_node i (set_spc SCleared n) s))
      | _ => None
      end
  | SendRelease i =>
      n ← nodes s !! i;
      match spc n with
      | SCleared => Some (set_node i (set_using false (set_spc SReleased n)) s)
      | _ => None
      end
  | SendUnlock i =>
      n ← nodes s !! i;
      match spc n with
      | SReleased => Some (set_mtx None (set_node i (set_spc SIdle n) s))
      | _ => None
      end
  | RecvSee i =>
      n ← nodes s !! i;
      match rpc n with
      | RWait => if msg_available s then Some (set_node i (set_rpc RSeen n) s) else None
      | _ => None
      end
  | RecvTest i =>
      n ← nodes s !! i;
      match rpc n with
      | RSeen => Some (set_node i (set_rpc (if using_bus n then RWait else RTested) n) s)
      | _ => None
      end
  | RecvAlloc i =>
      n ← nodes s !! i;
      match rpc n with
      | RTested => Some (set_node i (set_rpc (RAllocated (msg_len s)) n) s)
      | _ => None
      end
  | RecvCopy i =>
      n ← nodes s !! i;
      match rpc n with
      | RAllocated cap =>
          Some (set_node i (set_overrun (cap <? msg_len s) (set_rpc (RCopied (take (Z.to_nat (msg_len s)) (bus s))) n)) s)
      | _ => None
      end
  | RecvWaitAll i =>
      n ← nodes s !! i;
      match rpc n with
      | RCopied b => Some (barrier_arrive (set_node i (set_rpc (RAtBarrier b) n) s))
      | _ => None
      end
  | RecvDeliver i =>
      n ← nodes s !! i;
      match rpc n with
      | RPassed b => Some (set_node i (add_delivered (msg_len s, b) (set_rpc RWait n)) s)
      | _ => None
      end
  end.

Definition label_node (l : label) : nat :=
  match l with
  | SendLock i _ | SendUse i | SendZero i | SendCopy i | SendLen i | SendAnnounce i | SendWaitAll i | SendClear i | SendRelease i | SendUnlock i
  | RecvSee i | RecvTest i | RecvAlloc i | RecvCopy i | RecvWaitAll i | RecvDeliver i => i
  end.

Definition step (s t : shared) : Prop := exists l, exec l s = Some t.

(** Run a schedule. *)
Fixpoint run (ls : list label) (s : shared) : option shared :=
  match ls with
  | [] => Some s
  | l :: ls' => s' ← exec l s; run ls' s'
  end.

Lemma run_rtc ls s t : run ls s = Some t -> rtc step s t.
Proof.
  revert s. induction ls as [|l ls IH]; intros s; cbn; [intros [= <-]; apply rtc_refl|].
  destruct (exec l s) as [s'|] eqn:E; cbn; [|done]. intros H.
  eapply rtc_l; [by exists l|]. by apply IH.
Qed.

(** ** The message on the bus

    Exactly the node that holds [bus_mtx] is inside [send_msg]; what the bus and
    the length hold at each point of it; a message is available exactly while
    its sender publishes it. *)

Definition in_send (n : node) : bool := match spc n with SIdle => false | _ => true end.

Definition uses (p : sender_pc) : bool := match p with SIdle | SLocked _ | SReleased => false | _ => true end.

Definition published (p : sender_pc) : option bytes :=
  match p with SAnnounced m | SAtBarrier m | SPassed m => Some m | _ => None end.

(** The message, followed by zeros. *)
Definition padded (m : bytes) : bytes := m ++ replicate (PAYLOAD - length m) 0.

Definition stage_ok (p : sender_pc) (b : bytes) (len : Z) : Prop :=
  match p with
  | SLocked m | SUsing m => (length m <= PAYLOAD)%nat
  | SZeroed m => (length m <= PAYLOAD)%nat /\ b = zeros
  | SCopied m => (length m <= PAYLOAD)%nat /\ b = padded m
  | SWritten m | SAnnounced m | SAtBarrier m | SPassed m => (length m <= PAYLOAD)%nat /\ b = padded m /\ len = Z.of_nat (length m)
  | SIdle | SCleared | SReleased => True
  end.

(** What the invariant depends on of the nodes. *)
Definition sview (n : node) : sender_pc * bool := (spc n, using_bus n).

Definition shm_inv (s : shared) : Prop :=
  match bus_mtx s with
  | None => Forall (fun x => x = (SIdle, false)) (sview <$> nodes s) /\ msg_available s = false
  | Some i =>
      exists p, (sview <$> nodes s) !! i = Some (p, uses p) /\ p <> SIdle /\
        (forall j x, j <> i -> (sview <$> nodes s) !! j = Some x -> x = (SIdle, false)) /\
        stage_ok p (bus s) (msg_len s) /\ msg_available s = bool_decide (is_Some (published p))
  end.

Lemma padded_step m : (length m <= PAYLOAD)%nat -> m ++ drop (length m) zeros = padded m.
Proof. intros _. unfold zeros, padded. by rewrite drop_replicate. Qed.

Lemma take_padded m : take (length m) (padded m) = m.
Proof. apply take_app_length. Qed.

Lemma init_inv n k : shm_inv (init n k).
Proof. cbn. split; [|done]. rewrite fmap_replicate. by apply Forall_replicate. Qed.

Lemma sview_insert i n (l : list node) : sview <$> <[i := n]> l = <[i := sview n]> (sview <$> l).
Proof. apply list_fmap_insert. Qed.

Lemma sview_same i n n' (l : list node) : l !! i = Some n -> sview n' = sview n -> sview <$> <[i := n']> l = sview <$> l.
Proof. intros Hi E. rewrite sview_insert, E. apply list_insert_id. by rewrite list_lookup_fmap, Hi. Qed.

Lemma inv_same s t : shm_inv s -> sview <$> nodes t = sview <$> nodes s -> bus_mtx t = bus_mtx s -> bus t = bus s -> msg_len t = msg_len s ->
  msg_available t = msg_available s -> shm_inv t.
Proof. unfold shm_inv. by intros H -> -> -> -> ->. Qed.

Lemma inv_holder s i n : shm_inv s -> nodes s !! i = Some n -> spc n <> SIdle ->
  bus_mtx s = Some i /\ using_bus n = uses (spc n) /\ stage_ok (spc n) (bus s) (msg_len s) /\
  msg_available s = bool_decide (is_Some (published (spc n))).
Proof.
  intros H Hi Hn. assert ((sview <$> nodes s) !! i = Some (spc n, using_bus n)) as Hv by (by rewrite list_lookup_fmap, Hi).
  unfold shm_inv in H. destruct (bus_mtx s) as [k|].
  - destruct H as (q & Hq & Hqi & Ho & Hs & Ha). destruct (decide (i = k)) as [<-|Hne].
    + rewrite Hv in Hq. injection Hq as <- ->. done.
    + specialize (Ho i _ Hne Hv). congruence.
  - destruct H as [H _]. pose proof (Forall_lookup_1 _ _ _ _ H Hv). congruence.
Qed.

(** A step of the node inside [send_msg]. *)
Lemma inv_sender s i n n' t : shm_inv s -> nodes s !! i = Some n -> spc n <> SIdle -> spc n' <> SIdle -> using_bus n' = uses (spc n') ->
  nodes t = <[i := n']> (nodes s) -> bus_mtx t = bus_mtx s -> stage_ok (spc n') (bus t) (msg_len t) ->
  msg_available t = bool_decide (is_Some (published (spc n'))) -> shm_inv t.
Proof.
  intros H Hi Hn Hn' Hu Et Em Hs Ha. destruct (inv_holder s i n H Hi Hn) as (Hm & _). unfold shm_inv in *. rewrite Em. rewrite Hm in *.
  destruct H as (q & Hq & _ & Ho & _). exists (spc n'). rewrite Et, sview_insert. split.
  { rewrite list_lookup_insert_eq by (rewrite length_fmap; by eapply lookup_lt_Some). unfold sview. by rewrite Hu. }
  split; [done|]. split; [|done]. intros j x Hj. rewrite list_lookup_insert_ne by done. by apply Ho.
Qed.

Lemma sview_release (l : list node) : sview <$> (release <$> l) = (fun x => (match x.1 with SAtBarrier m => SPassed m | q => q end, x.2)) <$> (sview <$> l).
Proof. rewrite <- !list_fmap_compose. by apply list_fmap_ext. Qed.

Lemma inv_barrier s : shm_inv s -> shm_inv (barrier_arrive s).
Proof.
  intros H. unfold barrier_arrive. destruct (_ =? _)%nat; [|by apply (inv_same s)]. unfold shm_inv in *. cbn [bus_mtx nodes set_arrived set_nodes bus msg_len msg_available].
  rewrite sview_release. destruct (bus_mtx s) as [i|].
  - destruct H as (q & Hq & Hn & Ho & Hs & Ha). exists (match q with SAtBarrier m => SPassed m | q => q end).
    rewrite list_lookup_fmap, Hq. split; [by destruct q|]. split; [by destruct q|]. split; [|by destruct q].
    intros j x Hj. rewrite list_lookup_fmap. destruct ((sview <$> nodes s) !! j) as [y|] eqn:E; [|done]. rewrite (Ho j y Hj E). by intros [= <-].
  - destruct H as [H Ha]. split; [|done]. apply Forall_fmap. eapply Forall_impl; [exact H|]. by intros x ->.
Qed.

Lemma inv_lock s i n m : shm_inv s -> nodes s !! i = Some n -> bus_mtx s = None -> (length m <= PAYLOAD)%nat ->
  shm_inv (set_mtx (Some i) (set_node i (set_spc (SLocked m) n) s)).
Proof.
  intros H Hi Hm Hl. unfold shm_inv in *. rewrite Hm in H. destruct H as [H Ha]. cbn [bus_mtx nodes set_mtx set_node set_nodes bus msg_len msg_available].
  rewrite sview_insert. exists (SLocked m). assert ((sview <$> nodes s) !! i = Some (sview n)) as Hv by (by rewrite list_lookup_fmap, Hi).
  pose proof (Forall_lookup_1 _ _ _ _ H Hv) as En. unfold sview in En. injection En as Es Eu.
  split; [rewrite list_lookup_insert_eq by (rewrite length_fmap; by eapply lookup_lt_Some); unfold sview; cbn; by rewrite Eu|].
  split; [done|]. split; [|done]. intros j x Hj. rewrite list_lookup_insert_ne by done. intros Hx. by eapply (Forall_lookup_1 _ _ _ _ H).
Qed.

Lemma inv_unlock s i n : shm_inv s -> nodes s !! i = Some n -> spc n = SReleased -> shm_inv (set_mtx None (set_node i (set_spc SIdle n) s)).
Proof.
  intros H Hi Hp. destruct (inv_holder s i n H Hi ltac:(by rewrite Hp)) as (Hm & Hu & _ & Ha). rewrite Hp in Hu, Ha.
  unfold shm_inv in *. rewrite Hm in H. destruct H as (q & Hq & _ & Ho & _). cbn [bus_mtx nodes set_mtx set_node set_nodes msg_available].
  split; [|done]. apply Forall_lookup_2. intros j x. rewrite sview_insert. destruct (decide (i = j)) as [<-|Hj].
  - rewrite list_lookup_insert_Some. unfold sview. cbn. rewrite Hu. naive_solver.
  - rewrite list_lookup_insert_ne by done. apply Ho. done.
Qed.

(** Every step of every thread preserves the invariant. *)
Lemma exec_inv l s t : exec l s = Some t -> shm_inv s -> shm_inv t.
Proof.
  intros He H. destruct l as [i msg|i|i|i|i|i|i|i|i|i|i|i|i|i|i|i]; cbn [exec] in He;
    (destruct (nodes s !! i) as [n|] eqn:Ei; [|discriminate He]); cbn [mbind option_bind] in He;
    repeat (case_match; simplify_eq; try done);
    match goal with
    | E : rpc n = _ |- _ =>
        first [apply inv_barrier; apply (inv_same s); try done; by apply (sview_same _ n)
              |apply (inv_same s); try done; by apply (sview_same _ n)]
    | E : spc n = _ |- shm_inv (set_mtx (Some _) _) => apply inv_lock; [done..|by apply Nat.leb_le]
    | E : spc n = _ |- shm_inv (set_mtx None _) => by apply inv_unlock
    | E : spc n = _ |- _ =>
        destruct (inv_holder s i n H Ei ltac:(by rewrite E)) as (_ & Hu & Hs & Ha); rewrite E in Hu, Hs, Ha; cbn [stage_ok] in Hs;
        try apply inv_barrier;
        eapply (inv_sender s i n); [done|done|congruence|..|reflexivity|done| |]; cbn [spc using_bus set_spc set_using uses stage_ok];
        try done; try (by rewrite Hu); try (by destruct Hs as [? E']; cbn [bus set_bus set_node set_nodes]; rewrite E', padded_step);
        try (by destruct Hs)
    end.
Qed.

Lemma reachable_inv n k s : rtc step (init n k) s -> shm_inv s.
Proof. apply (rtc_ind_r shm_inv); [apply init_inv|]. intros t u _ [l Hs]. by eapply exec_inv. Qed.

(** ** A round of the bus

    From a state in which nobody is reading or writing, the barrier opens for the
    first message only when every other node holds exactly this message. *)

Definition before_barrier (p : sender_pc) : option bytes :=
  match p with SLocked m | SUsing m | SZeroed m | SCopied m | SWritten m | SAnnounced m | SAtBarrier m => Some m | _ => None end.

(** The threads of a node that wait at the barrier. *)
Definition waiting (n : node) : nat :=
  (match spc n with SAtBarrier _ => 1 | _ => 0 end + match rpc n with RAtBarrier _ => 1 | _ => 0 end)%nat.

(** How far a node can be with a message. *)
Definition reading (m : bytes) (r : receiver_pc) : Prop :=
  match r with
  | RSeen | RTested => True
  | RAllocated cap => cap = Z.of_nat (length m)
  | RCopied b | RAtBarrier b => b = m
  | RWait | RPassed _ => False
  end.

(** [k] threads are about to be counted at the barrier. *)
Record round_at (k i : nat) (m : bytes) (s : shared) : Prop := {
  r_inv : shm_inv s;
  r_count : (length (nodes s) <= barrier_count s)%nat;
  r_arrived : (arrived s + k)%nat = sum_list (waiting <$> nodes s);
  r_nodes : exists ni, nodes s !! i = Some ni /\ before_barrier (spc ni) = Some m /\
    (rpc ni = RWait \/ rpc ni = RSeen /\ published (spc ni) = Some m) /\
    forall j n, j <> i -> nodes s !! j = Some n -> rpc n = RWait \/ reading m (rpc n) /\ published (spc ni) = Some m }.

Definition round : nat -> bytes -> shared -> Prop := round_at 0.

(** Everybody else has the message, and the sender may go on; the barrier was
    made for exactly the nodes that run. *)
Definition all_hold (i : nat) (m : bytes) (s : shared) : Prop :=
  barrier_count s = length (nodes s) /\
  msg_len s = Z.of_nat (length m) /\
  (exists n, nodes s !! i = Some n /\ spc n = SPassed m) /\
  (forall j n, j <> i -> nodes s !! j = Some n -> rpc n = RPassed m).

(** Nobody is inside [send_msg] or past the wait of the receive thread. *)
Definition clean (s : shared) : Prop :=
  shm_inv s /\ (length (nodes s) <= barrier_count s)%nat /\ arrived s = 0%nat /\ bus_mtx s = None /\ Forall (fun n => rpc n = RWait) (nodes s).

Lemma init_clean n k : (n <= S k)%nat -> clean (init n k).
Proof.
  intros Hk. split; [apply init_inv|]. split; [cbn; by rewrite length_replicate|]. split; [done|]. split; [done|]. by apply Forall_replicate.
Qed.

Lemma sum_list_insert (l : list nat) i x y : l !! i = Some x -> (sum_list (<[i := y]> l) + x = sum_list l + y)%nat.
Proof.
  revert i. induction l as [|z l IH]; intros [|i]; [done|done|intros [= ->]; unfold sum_list; cbn; lia|]. intros H. specialize (IH i H).
  change (z + sum_list (<[i := y]> l) + x = z + sum_list l + y)%nat. lia.
Qed.

Lemma sum_list_le (l : list nat) : Forall (fun x => x <= 1)%nat l -> (sum_list l <= length l)%nat.
Proof. induction 1; cbn; lia. Qed.

Lemma sum_list_full (l : list nat) : Forall (fun x => x <= 1)%nat l -> sum_list l = length l -> Forall (fun x => x = 1)%nat l.
Proof.
  induction 1 as [|x l Hx Hl IH]; [constructor|]. change (sum_list (x :: l)) with (x + sum_list l)%nat. cbn [length]. intros H.
  pose proof (sum_list_le l Hl). constructor; [lia|]. apply IH. lia.
Qed.

Lemma sum_list_zero (l : list nat) : Forall (fun x => x = 0)%nat l -> sum_list l = 0%nat.
Proof. induction 1; cbn; lia. Qed.

Section round_facts.
Context (i : nat) (m : bytes).

Lemma others_idle k s : round_at k i m s -> forall j n, j <> i -> nodes s !! j = Some n -> sview n = (SIdle, false).
Proof.
  intros [Hi _ _ (ni & E & Hb & _)] j n Hj En.
  destruct (inv_holder s i ni Hi E ltac:(by intros E'; rewrite E' in Hb)) as (Hm & _). unfold shm_inv in Hi. rewrite Hm in Hi.
  destruct Hi as (_ & _ & _ & Ho & _). apply (Ho j); [done|]. by rewrite list_lookup_fmap, En.
Qed.

Lemma round_waiting_le k s : round_at k i m s -> Forall (fun x => x <= 1)%nat (waiting <$> nodes s).
Proof.
  intros H. apply Forall_fmap, Forall_lookup_2. intros j n En. cbn. unfold waiting. destruct (decide (j = i)) as [->|Hj].
  - destruct H as [_ _ _ (ni & E & _ & Hr & _)]. simplify_eq. destruct Hr as [->|[-> _]]; destruct (spc ni); lia.
  - pose proof (others_idle k s H j n Hj En) as [= -> _]. destruct (rpc n); lia.
Qed.

(** The barrier opens only for all of them. *)
Lemma barrier_opens s : round_at 1 i m s -> round i m (barrier_arrive s) \/ all_hold i m (barrier_arrive s).
Proof.
  intros H. pose proof (round_waiting_le _ s H) as Hle. pose proof (others_idle _ s H) as Hoth.
  destruct H as [Hi Hc Ha (ni & E & Hb & Hr & Ho)]. pose proof (inv_barrier s Hi) as Hi'. unfold barrier_arrive in *.
  destruct (Nat.eqb_spec (S (arrived s)) (barrier_count s)) as [Hop|Hop].
  - right. assert (Forall (fun x => x = 1)%nat (waiting <$> nodes s)) as Hall.
    { apply sum_list_full; [done|]. pose proof (sum_list_le _ Hle) as Hsum. rewrite length_fmap in *. lia. }
    assert (forall j n, nodes s !! j = Some n -> waiting n = 1%nat) as Hw.
    { intros j n En. apply (Forall_lookup_1 _ _ j (waiting n) Hall). by rewrite list_lookup_fmap, En. }
    assert (spc ni = SAtBarrier m) as Es.
    { pose proof (Hw i ni E) as Hwi. unfold waiting in Hwi. destruct Hr as [Hr|[Hr _]]; rewrite Hr in Hwi;
        destruct (spc ni); try done; cbn in Hb; congruence. }
    destruct (inv_holder s i ni Hi E ltac:(by rewrite Es)) as (_ & _ & Hs & _). rewrite Es in Hs. destruct Hs as (_ & _ & Hlen).
    pose proof (sum_list_le _ Hle) as Hsum. rewrite length_fmap in Hsum.
    split; [cbn [barrier_count nodes set_arrived set_nodes]; rewrite length_fmap; lia|]. split; [done|]. split.
    + exists (release ni). cbn [nodes set_arrived set_nodes]. rewrite list_lookup_fmap, E. split; [done|]. unfold release. cbn [spc]. by rewrite Es.
    + intros j n Hj. cbn [nodes set_arrived set_nodes]. rewrite list_lookup_fmap. destruct (nodes s !! j) as [n0|] eqn:En; [|done]. intros [= <-].
      pose proof (Hw j n0 En) as Hwj. unfold waiting in Hwj. pose proof (Hoth j n0 Hj En) as [= E0 _]. rewrite E0 in Hwj.
      destruct (Ho j n0 Hj En) as [E1|[Hrd _]]; unfold release; cbn [rpc]; destruct (rpc n0); try done. cbn in Hrd. by subst.
  - left. constructor; [done|done|cbn [arrived nodes set_arrived]; lia|]. by exists ni.
Qed.

(** A step of the sender's own node. *)
Lemma round_self s t k ni n' : round i m s -> nodes s !! i = Some ni -> nodes t = <[i := n']> (nodes s) -> barrier_count t = barrier_count s ->
  arrived t = arrived s -> shm_inv t -> waiting n' = (k + waiting ni)%nat -> before_barrier (spc n') = Some m ->
  (published (spc ni) = Some m -> published (spc n') = Some m) -> (rpc n' = RWait \/ rpc n' = RSeen /\ published (spc n') = Some m) ->
  round_at k i m t.
Proof.
  intros [Hi Hc Ha (ni' & E & Hb & Hr & Ho)] E' Et Hct Hat Hit Hw Hb' Hp Hr'. rewrite E in E'. simplify_eq. constructor.
  - done.
  - by rewrite Et, Hct, length_insert.
  - rewrite Et, list_fmap_insert, Hat. pose proof (sum_list_insert (waiting <$> nodes s) i (waiting ni) (waiting n')) as Hs.
    rewrite list_lookup_fmap, E in Hs. specialize (Hs eq_refl). lia.
  - exists n'. rewrite Et. split; [by rewrite list_lookup_insert_eq by (by eapply lookup_lt_Some)|]. do 2 (split; [done|]).
    intros j n Hj. rewrite list_lookup_insert_ne by done. intros En. destruct (Ho j n Hj En) as [?|[? ?]]; auto.
Qed.

(** A step of another node's receive thread. *)
Lemma round_other s t k j n n' : round i m s -> j <> i -> nodes s !! j = Some n -> nodes t = <[j := n']> (nodes s) -> barrier_count t = barrier_count s ->
  arrived t = arrived s -> shm_inv t -> waiting n' = (k + waiting n)%nat ->
  (forall ni, nodes s !! i = Some ni -> rpc n' = RWait \/ reading m (rpc n') /\ published (spc ni) = Some m) ->
  round_at k i m t.
Proof.
  intros [Hi Hc Ha (ni & E & Hb & Hr & Ho)] Hj E' Et Hct Hat Hit Hw Hr'. constructor.
  - done.
  - by rewrite Et, Hct, length_insert.
  - rewrite Et, list_fmap_insert, Hat. pose proof (sum_list_insert (waiting <$> nodes s) j (waiting n) (waiting n')) as Hs.
    rewrite list_lookup_fmap, E' in Hs. specialize (Hs eq_refl). lia.
  - exists ni. rewrite Et. split; [by rewrite list_lookup_insert_ne by done|]. do 2 (split; [done|]).
    intros j' n0 Hj'. destruct (decide (j' = j)) as [->|Hne].
    + rewrite list_lookup_insert_eq by (by eapply lookup_lt_Some). intros [= <-]. by apply Hr'.
    + rewrite list_lookup_insert_ne by done. by apply Ho.
Qed.

Lemma pub_before p : before_barrier p = Some m -> is_Some (published p) -> published p = Some m.
Proof. destruct p; cbn; by intros ? [? ?]. Qed.

Lemma pub_stage p b len : published p = Some m -> stage_ok p b len -> b = padded m /\ len = Z.of_nat (length m).
Proof. destruct p; cbn; intros [= ->] Hs; naive_solver. Qed.

(** Until the barrier opens, every step keeps the round going. *)
Lemma round_step_self l s t : label_node l = i -> round i m s -> exec l s = Some t -> round i m t \/ all_hold i m t.
Proof.
  intros Hl H He. pose proof (exec_inv l s t He (r_inv _ _ _ _ H)) as Hit. pose proof H as [Hi _ _ (ni & E & Hb & Hr & _)].
  destruct (inv_holder s i ni Hi E ltac:(by intros E'; rewrite E' in Hb)) as (Hm & Hu & Hst & Hav).
  destruct l as [j msg|j|j|j|j|j|j|j|j|j|j|j|j|j|j|j]; cbn [exec label_node] in He, Hl; subst j;
    rewrite E in He; cbn [mbind option_bind] in He;
    repeat (case_match; simplify_eq; try done); try (by destruct Hr as [?|[? _]]);
    lazymatch goal with
    | Es : spc ni = SAnnounced _ |- _ =>
        apply barrier_opens; eapply (round_self s _ 1 ni _ H E); [reflexivity|done|done| |..];
        [eapply (inv_sender s i ni); [done|done|congruence|..|reflexivity|done| |]; cbn; done|..]
    | _ => left; eapply (round_self s _ 0 ni _ H E); [reflexivity|done|done|exact Hit|..]
    end; unfold waiting; cbn [spc rpc set_spc set_rpc set_using set_overrun add_delivered];
    repeat match goal with Es : spc ni = _ |- _ => rewrite Es in *; clear Es | Es : rpc ni = _ |- _ => rewrite Es in *; clear Es end;
    cbn [before_barrier published] in *; simplify_eq; try done; try lia; try naive_solver.
  - right. split; [done|]. apply pub_before; [done|]. by apply (bool_decide_eq_true_1 _ (eq_sym Hav)).
  - destruct Hr as [?|[_ Hr]]; [done|]. by destruct (spc ni).
Qed.

Lemma round_step_other l s t : label_node l <> i -> round i m s -> exec l s = Some t -> round i m t \/ all_hold i m t.
Proof.
  intros Hl H He. pose proof (exec_inv l s t He (r_inv _ _ _ _ H)) as Hit. pose proof (others_idle _ s H) as Hoth.
  pose proof H as [Hi _ _ (ni & E & Hb & _ & Ho)].
  destruct (inv_holder s i ni Hi E ltac:(by intros E'; rewrite E' in Hb)) as (Hm & _ & Hst & Hav).
  destruct l as [j msg|j|j|j|j|j|j|j|j|j|j|j|j|j|j|j]; cbn [exec label_node] in He, Hl;
    (destruct (nodes s !! j) as [n|] eqn:Ej; [|discriminate He]); cbn [mbind option_bind] in He;
    pose proof (Hoth j n Hl Ej) as [= Es Eu]; rewrite ?Es, ?Hm in He; try discriminate He; pose proof (Ho j n Hl Ej) as Hr;
    (destruct (rpc n) eqn:Er; try discriminate He);
    (destruct Hr as [Hr|[Hr Hp]]; try discriminate Hr); cbn [reading] in Hr; try done.
  - destruct (msg_available s) eqn:Ea; [|discriminate He]. injection He as <-. left.
    eapply (round_other s _ 0 j n _ H Hl Ej); [reflexivity|done|done|done|unfold waiting; cbn; by rewrite Er|].
    intros ni' E'. right. split; [done|]. rewrite E in E'. injection E' as <-. apply pub_before; [done|]. by apply (bool_decide_eq_true_1 _ (eq_sym Hav)).
  - rewrite Eu in He. injection He as <-. left.
    eapply (round_other s _ 0 j n _ H Hl Ej); [reflexivity|done|done|done|unfold waiting; cbn; by rewrite Er|]. naive_solver.
  - injection He as <-. left. destruct (pub_stage _ _ _ Hp Hst) as [_ Hlen].
    eapply (round_other s _ 0 j n _ H Hl Ej); [reflexivity|done|done|done|unfold waiting; cbn; by rewrite Er|]. naive_solver.
  - injection He as <-. left. destruct (pub_stage _ _ _ Hp Hst) as [Hbus Hlen].
    eapply (round_other s _ 0 j n _ H Hl Ej); [reflexivity|done|done|done|unfold waiting; cbn; by rewrite Er|].
    intros ni' E'. right. rewrite E in E'. injection E' as <-. split; [|done]. cbn [rpc set_overrun set_rpc reading].
    rewrite Hbus, Hlen, Nat2Z.id. apply take_padded.
  - injection He as <-. apply barrier_opens.
    eapply (round_other s _ 1 j n _ H Hl Ej); [reflexivity|done|done| |unfold waiting; cbn; by rewrite Er, Es|naive_solver].
    apply (inv_same s); try done. by apply (sview_same _ n).
Qed.

Lemma round_step l s t : round i m s -> exec l s = Some t -> round i m t \/ all_hold i m t.
Proof. destruct (decide (label_node l = i)); [by apply round_step_self|by apply round_step_other]. Qed.

(** A message sent on a bus nobody uses. *)
Lemma round_starts s t : clean s -> exec (SendLock i m) s = Some t -> round i m t.
Proof.
  intros (Hi & Hc & Ha & Hm & Hr) He. pose proof (exec_inv _ s t He Hi) as Hit. cbn [exec] in He.
  destruct (nodes s !! i) as [n|] eqn:E; [|discriminate He]. cbn [mbind option_bind] in He.
  destruct (spc n) eqn:Es; try discriminate He. rewrite Hm in He. destruct (_ <=? _)%nat; [|discriminate He]. injection He as <-.
  assert (forall j x, nodes s !! j = Some x -> rpc x = RWait) as Hr' by (intros j x; by apply (Forall_lookup_1 _ _ _ _ Hr)).
  assert (sum_list (waiting <$> <[i := set_spc (SLocked m) n]> (nodes s)) = 0%nat) as Hs.
  { apply sum_list_zero, Forall_fmap, Forall_lookup_2. intros j x Hx. cbn. unfold waiting.
    apply list_lookup_insert_Some in Hx as [(-> & <- & _)|[_ Hx]]; cbn [spc rpc set_spc]; [by rewrite (Hr' _ _ E)|rewrite (Hr' _ _ Hx)].
    unfold shm_inv in Hi. rewrite Hm in Hi. destruct Hi as [Hi _].
    pose proof (Forall_lookup_1 _ _ j (sview x) Hi ltac:(by rewrite list_lookup_fmap, Hx)) as [= -> _]. done. }
  constructor; [done|cbn; by rewrite length_insert|cbn [arrived nodes set_mtx set_node set_nodes]; rewrite Ha; by rewrite Hs|].
  exists (set_spc (SLocked m) n). cbn [nodes set_mtx set_node set_nodes].
  split; [by rewrite list_lookup_insert_eq by (by eapply lookup_lt_Some)|]. split; [done|]. split; [left; exact (Hr' i n E)|].
  intros j x Hj. rewrite list_lookup_insert_ne by done. intros Hx. left. exact (Hr' j x Hx).
Qed.

(** In every execution from there, either the sender has not passed the barrier,
    or there was a moment when it had just opened and every other node held the
    message. *)
Lemma round_delivers s t u : clean s -> exec (SendLock i m) s = Some t -> rtc step t u ->
  round i m u \/ exists v, rtc step t v /\ all_hold i m v /\ rtc step v u.
Proof.
  intros Hc He Hr. pose proof (round_starts s t Hc He) as Ht.
  revert Hr. apply (rtc_ind_r (fun u => round i m u \/ exists v, rtc step t v /\ all_hold i m v /\ rtc step v u)); [by left|].
  intros v w Hv [l Hs] [Hround|(x & Hx & Ha & Hxv)].
  - destruct (round_step l v w Hround Hs) as [?|?]; [by left|]. right. exists w. split; [|done]. eapply rtc_r; [done|by exists l].
  - right. exists x. do 2 (split; [done|]). eapply rtc_r; [done|by exists l].
Qed.
End round_facts.

(** The number of nodes and the size of the barrier are fixed. *)
Lemma exec_sizes l s t : exec l s = Some t -> length (nodes t) = length (nodes s) /\ barrier_count t = barrier_count s.
Proof.
  intros He. destruct l as [i msg|i|i|i|i|i|i|i|i|i|i|i|i|i|i|i]; cbn [exec] in He;
    (destruct (nodes s !! i) as [n|] eqn:Ei; [|discriminate He]); cbn [mbind option_bind] in He;
    repeat (case_match; simplify_eq; try done); unfold barrier_arrive; repeat case_match;
    cbn [nodes barrier_count set_node set_nodes set_mtx set_bus set_len set_available set_arrived]; by rewrite ?length_fmap, ?length_insert.
Qed.

(** With fewer nodes than the barrier counts, no [send_msg] ever returns. *)
Lemma round_blocked i m s t u : clean s -> (length (nodes s) < barrier_count s)%nat -> exec (SendLock i m) s = Some t -> rtc step t u -> round i m u.
Proof.
  intros Hc Hlt He Hr. pose proof (round_starts i m s t Hc He) as Ht. destruct (exec_sizes _ _ _ He) as [E1 E2]. rewrite <- E1, <- E2 in Hlt. clear Hc He E1 E2.
  enough (round i m u /\ (length (nodes u) < barrier_count u)%nat) by tauto. revert Hr.
  apply (rtc_ind_r (fun u => round i m u /\ (length (nodes u) < barrier_count u)%nat)); [done|].
  intros v w _ [l Hs] [Hv Hlv]. destruct (exec_sizes _ _ _ Hs) as [E1 E2]. rewrite <- E1, <- E2 in Hlv. split; [|done].
  destruct (round_step i m l v w Hv Hs) as [?|[Hal _]]; [done|]. lia.
Qed.

(** ** Schedules *)

Definition m1 : bytes := bs "first".
Definition m2 : bytes := bs "second!".

Definition send_up_to_announce (i : nat) (m : bytes) : list label :=
  [SendLock i m; SendUse i; SendZero i; SendCopy i; SendLen i; SendAnnounce i].

(** The receiver goes round a second time before the sender has withdrawn the
    first message. *)
Definition lossy_schedule : list label :=
  send_up_to_announce 0 m1 ++
  [RecvSee 1; RecvTest 1; RecvAlloc 1; RecvCopy 1; RecvWaitAll 1; SendWaitAll 0;
   RecvDeliver 1; RecvSee 1; RecvTest 1; RecvAlloc 1; RecvCopy 1; RecvWaitAll 1;
   SendClear 0; SendRelease 0; SendUnlock 0] ++
  send_up_to_announce 0 m2 ++
  [SendWaitAll 0; SendClear 0; SendRelease 0; SendUnlock 0; RecvDeliver 1].

(** The rest of a send by node 0 among three nodes. *)
Definition full_round : list label :=
  [SendUse 0; SendZero 0; SendCopy 0; SendLen 0; SendAnnounce 0; RecvSee 2; RecvTest 2; RecvSee 1; RecvSee 0; RecvAlloc 2; RecvTest 1; RecvTest 0;
   RecvAlloc 1; RecvCopy 2; RecvWaitAll 2; SendWaitAll 0; RecvCopy 1; RecvWaitAll 1].

(** Nothing is pending: no thread is past its waiting point and no message is announced. *)
Definition quiescent (s : shared) : Prop :=
  msg_available s = false /\ arrived s = O /\ bus_mtx s = None /\
  Forall (fun n => spc n = SIdle /\ rpc n = RWait) (nodes s).

(** The receiver is past the barrier of the first message when the second is sent. *)
Definition overrun_schedule : list label :=
  send_up_to_announce 0 m1 ++
  [RecvSee 1; RecvTest 1; RecvAlloc 1; RecvCopy 1; RecvWaitAll 1; SendWaitAll 0;
   RecvDeliver 1; RecvSee 1; RecvTest 1; RecvAlloc 1;
   SendClear 0; SendRelease 0; SendUnlock 0] ++
  send_up_to_announce 0 m2 ++ [RecvCopy 1].

End ShmNode.
