(* ===== verification/ClockSyncer.v ===== *)
(** * Clock synchronisation (src/src/clock_syncer.h)

    Offset and delay samples, their averages, the confidence-interval test and
    the adjustment of the system clock.  [long long] arithmetic that overflows
    is undefined behaviour; [double] arithmetic is IEEE 754 binary64 with
    round-to-nearest-even, through the standard library's executable
    specification of floating point. *)

From S2P Require Import Prelude Text World.
From Stdlib Require Import SpecFloat.

(** ** [double] *)

Module Double.
Definition of_Z (z : Z) : spec_float := binary_normalize 53 1024 z 0 false.
Definition add := SFadd 53 1024.
Definition sub := SFsub 53 1024.
Definition mul := SFmul 53 1024.
Definition div := SFdiv 53 1024.
Definition sqrt := SFsqrt 53 1024.

(** Conversion to [long long] truncates; out of range (or NaN) is undefined. *)
Definition to_ll (x : spec_float) : outcome Z :=
  let check z := if (- 2 ^ 63 <=? z) && (z <? 2 ^ 63) then Ok z else Undef in
  match x with
  | S754_zero _ => Ok 0
  | S754_finite s m e =>
      let a := if 0 <=? e then Z.pos m * 2 ^ e else Z.pos m / 2 ^ (- e) in
      check (if s then - a else a)
  | _ => Undef
  end.

Definition two : spec_float := of_Z 2.
End Double.

Module ClockSyncer.

Definition MAX_SAMPLES_IN_CLOCK_SYNCER : Z := 1000000.

Inductive algorithm := NotDefined | NTP | PTP.
#[export] Instance algorithm_eq_dec : EqDecision algorithm.
Proof. solve_decision. Defined.

Record syncer := {
  rtt_samples : list Z;
  offset_samples : list Z;
  alg : algorithm;
  avg_rtt : Z;
  avg_offset : Z
}.

Definition init : syncer :=
  {| rtt_samples := []; offset_samples := []; alg := NotDefined; avg_rtt := 0; avg_offset := 0 |}.

(** A [long long] result that is undefined on overflow. *)
Definition ll (z : Z) : outcome Z := if (- 2 ^ 63 <=? z) && (z <? 2 ^ 63) then Ok z else Undef.

(** [std::accumulate(v.begin(), v.end(), 0)]: the initial value is an [int], so
    the running sum is converted to [int] at every step. *)
Fixpoint accumulate_int (acc : Z) (v : list Z) : outcome Z :=
  match v with
  | [] => Ok acc
  | x :: v' => s ← ll (acc + x); accumulate_int (i32 s) v'
  end.

(** [sum / v.size()]: the [int] sum is converted to [size_t] for the division
    and the quotient back to [long long]. *)
Definition average (v : list Z) : outcome Z :=
  match v with
  | [] => Ok 0
  | _ => s ← accumulate_int 0 v; Ok (i64 (u64 s / Z.of_nat (length v)))
  end.

(** [v.erase(v.begin(), v.end() - aux)] when the vector is longer than [aux]. *)
Definition keep_last (v : list Z) : list Z :=
  if MAX_SAMPLES_IN_CLOCK_SYNCER <? Z.of_nat (length v)
  then drop (Z.to_nat (Z.of_nat (length v) - MAX_SAMPLES_IN_CLOCK_SYNCER)) v
  else v.

Definition addOffsetMeasurement (offset qualityValue : Z) (c : syncer) : outcome syncer :=
  let rtts := keep_last (rtt_samples c ++ [qualityValue]) in
  let offs := keep_last (offset_samples c ++ [offset]) in
  r ← average rtts;
  o ← average offs;
  Ok {| rtt_samples := rtts; offset_samples := offs; alg := alg c; avg_rtt := r; avg_offset := o |}.

Definition set_alg (a : algorithm) (c : syncer) : syncer :=
  {| rtt_samples := rtt_samples c; offset_samples := offset_samples c; alg := a;
     avg_rtt := avg_rtt c; avg_offset := avg_offset c |}.

Definition addNtpSample (localSend localRecv remoteTime : Z) (c : syncer) : outcome syncer :=
  if decide (alg c = PTP) then Ok c
  else
    rtt ← ll (localRecv - localSend);
    let half := Double.div (Double.of_Z rtt) Double.two in
    offset ← Double.to_ll (Double.sub (Double.add (Double.of_Z remoteTime) half)
                                      (Double.of_Z localRecv));
    addOffsetMeasurement offset rtt (set_alg NTP c).

(** The four-timestamp overload (IEEE 1588). *)
Definition addPtpSample4 (t1 t2 t3 t4 : Z) (c : syncer) : outcome syncer :=
  if decide (alg c = NTP) then Ok c
  else
    A ← ll (t2 - t1);
    B ← ll (t4 - t3);
    d ← ll (A - B);
    s ← ll (A + B);
    offset ← Double.to_ll (Double.div (Double.of_Z d) Double.two);
    delay ← Double.to_ll (Double.div (Double.of_Z s) Double.two);
    addOffsetMeasurement offset delay (set_alg PTP c).

(** The overload that takes the offset and delay computed by the master. *)
Definition addPtpSample (offset delay : Z) (c : syncer) : outcome syncer :=
  if decide (alg c = NTP) then Ok c
  else addOffsetMeasurement offset delay (set_alg PTP c).

Definition getAverageRTT (c : syncer) : Z := avg_rtt c.
Definition getAverageOffset (c : syncer) : Z := avg_offset c.

(** [now] is the [system_clock] reading in microseconds. *)
Definition getSynchronizedTimeUs (now : Z) (c : syncer) : outcome Z := ll (now + avg_offset c).

Fixpoint sum_squares (mean acc : Z) (v : list Z) : outcome Z :=
  match v with
  | [] => Ok acc
  | x :: v' =>
      d ← ll (x - mean);
      dd ← ll (d * d);
      s ← ll (acc + dd);
      sum_squares mean s v'
  end.

Definition getOffsetStdDev (c : syncer) : outcome Z :=
  let n := Z.of_nat (length (offset_samples c)) in
  if n <? 2 then Ok 0
  else
    sumSq ← sum_squares (avg_offset c) 0 (offset_samples c);
    let var := Z.quot sumSq (n - 1) in
    Double.to_ll (Double.sqrt (Double.of_Z var)).

Definition getOffsetStdError (c : syncer) : outcome Z :=
  let n := Z.of_nat (length (offset_samples c)) in
  if n =? 0 then Ok 0
  else
    sd ← getOffsetStdDev c;
    Double.to_ll (Double.div (Double.of_Z sd) (Double.sqrt (Double.of_Z n))).

Definition hasEnoughSamplesCI (maxWidthUs : Z) (confidenceZ : spec_float) (c : syncer) : outcome bool :=
  let n := Z.of_nat (length (offset_samples c)) in
  if MAX_SAMPLES_IN_CLOCK_SYNCER <=? n then Ok true
  else if n <? 30 then Ok false
  else
    se ← getOffsetStdError c;
    w ← ll (2 * se);
    width ← Double.to_ll (Double.mul (Double.of_Z w) confidenceZ);
    Ok (width <=? maxWidthUs).

(** [adjust_system_time_by_us]: [None] when [gettimeofday] fails; otherwise the
    [timeval] passed to [settimeofday]. *)
Definition adjusted_timeval (tv : timeval) (offset_us : Z) : timeval :=
  let sec := tv_sec tv + Z.quot offset_us 1000000 in
  let usec := tv_usec tv + Z.rem offset_us 1000000 in
  if 1000000 <=? usec
  then {| tv_sec := sec + Z.quot usec 1000000; tv_usec := Z.rem usec 1000000 |}
  else if usec <? 0
  then let borrow := Z.quot (- usec + 999999) 1000000 in
       {| tv_sec := sec - borrow; tv_usec := usec + borrow * 1000000 |}
  else {| tv_sec := sec; tv_usec := usec |}.

Definition adjust_system_time_by_us (gettimeofday : option timeval) (settimeofday : timeval -> bool)
    (offset_us : Z) : bool * option timeval :=
  match gettimeofday with
  | None => (false, None)
  | Some tv => let tv' := adjusted_timeval tv offset_us in (settimeofday tv', Some tv')
  end.

(** [adjust_time_gradually]: the offset given to [adjtimex] in ADJ_OFFSET mode
    and the result; [adjtimex] is the kernel's answer. *)
Definition adjust_time_gradually (adjtimex : Z -> Z) (offset_us : Z) : outcome (bool * Z) :=
  offset_ns ← ll (offset_us * 1000);
  Ok (negb (adjtimex offset_ns =? -1), offset_ns).

Definition applySync (adjtimex : Z -> Z) (c : syncer) : outcome (bool * Z) :=
  adjust_time_gradually adjtimex (getAverageOffset c).

(** The text of [printStatus]. *)
Definition printStatus (now : Z) (c : syncer) : outcome bytes :=
  synced ← getSynchronizedTimeUs now c;
  Ok ([10] ++ bs " ---- Clock Syncer Infos ---" ++ [10] ++
      bs "samples: " ++ dec (Z.of_nat (Nat.max (length (rtt_samples c)) (length (offset_samples c)))) ++ [10] ++
      bs "avg rtt: " ++ dec (avg_rtt c) ++ bs " us" ++ [10] ++
      bs "avg offset: " ++ dec (avg_offset c) ++ bs " us" ++ [10] ++
      bs "[TNOW]: synced time: " ++ dec synced ++ [10]).

(** The mathematical sum. *)
Definition Zsum (v : list Z) : Z := foldr Z.add 0 v.

(** ** Invariant *)

Definition syncer_ok (c : syncer) : Prop :=
  length (rtt_samples c) = length (offset_samples c) /\
  Z.of_nat (length (offset_samples c)) <= MAX_SAMPLES_IN_CLOCK_SYNCER /\
  average (rtt_samples c) = Ok (avg_rtt c) /\
  average (offset_samples c) = Ok (avg_offset c).

(** ** Lemmas *)

Lemma length_keep_last v :
  Z.of_nat (length (keep_last v)) = Z.min (Z.of_nat (length v)) MAX_SAMPLES_IN_CLOCK_SYNCER.
Proof.
  unfold keep_last, MAX_SAMPLES_IN_CLOCK_SYNCER.
  destruct (Z.ltb_spec 1000000 (Z.of_nat (length v))); rewrite ?length_drop; lia.
Qed.

(** The samples kept are the most recent ones. *)
Lemma keep_last_suffix v : exists old, v = old ++ keep_last v.
Proof.
  unfold keep_last. case_match; [|by exists []].
  eexists. symmetry. apply take_drop.
Qed.

Lemma syncer_init_ok : syncer_ok init.
Proof. by repeat split. Qed.

Lemma addOffsetMeasurement_ok offset q c c' :
  syncer_ok c -> addOffsetMeasurement offset q c = Ok c' ->
  syncer_ok c' /\ alg c' = alg c.
Proof.
  intros (Hl & Hm & _) H. unfold addOffsetMeasurement in H.
  destruct (average (keep_last (rtt_samples c ++ [q]))) as [r| |] eqn:Er; [|done..]. cbn in H.
  destruct (average (keep_last (offset_samples c ++ [offset]))) as [o| |] eqn:Eo; [|done..].
  injection H as <-. unfold syncer_ok; cbn.
  pose proof (length_keep_last (rtt_samples c ++ [q])) as H1.
  pose proof (length_keep_last (offset_samples c ++ [offset])) as H2.
  rewrite length_app in H1, H2. cbn in H1, H2.
  repeat split; try done; lia.
Qed.

Lemma accumulate_int_exact acc v :
  is_i32 acc -> Forall is_i32 v ->
  (forall k, (k <= length v)%nat -> is_i32 (acc + Zsum (take k v))) ->
  accumulate_int acc v = Ok (acc + Zsum v).
Proof.
  unfold Zsum.
  revert acc. induction v as [|x v IH]; intros acc Ha Hv Hk; cbn.
  - f_equal. lia.
  - inversion Hv as [|?? Hx Hv']; subst.
    pose proof (Hk 1%nat ltac:(cbn; lia)) as H1. cbn in H1. rewrite take_0 in H1. cbn in H1.
    unfold ll. unfold is_i32 in *.
    rewrite (proj2 (Z.leb_le _ _)), (proj2 (Z.ltb_lt _ _)) by lia. cbn.
    rewrite i32_id by (unfold is_i32; lia). rewrite IH; [|unfold is_i32; lia|done|].
    + f_equal. lia.
    + intros k Hkl. specialize (Hk (S k) ltac:(cbn; lia)). cbn in Hk. lia.
Qed.

Lemma average_single x : is_i32 x -> average [x] = Ok x.
Proof.
  intros Hx. unfold average. cbn. unfold ll. unfold is_i32 in Hx.
  rewrite (proj2 (Z.leb_le _ _)), (proj2 (Z.ltb_lt _ _)) by lia. cbn.
  rewrite i32_id by (unfold is_i32; lia). rewrite Z.div_1_r. f_equal.
  unfold i64, u64. Z.div_mod_to_equations; lia.
Qed.

Lemma adjusted_timeval_spec tv off :
  0 <= tv_usec tv < 1000000 ->
  let tv' := adjusted_timeval tv off in
  0 <= tv_usec tv' < 1000000 /\
  tv_sec tv' * 1000000 + tv_usec tv' = tv_sec tv * 1000000 + tv_usec tv + off.
Proof.
  intros H. unfold adjusted_timeval.
  pose proof (Z.quot_rem' off 1000000) as Hq.
  pose proof (Z.rem_bound_abs off 1000000 ltac:(lia)) as Hr.
  set (q := Z.quot off 1000000) in *. set (r := Z.rem off 1000000) in *. clearbody q r.
  destruct (Z.leb_spec 1000000 (tv_usec tv + r)); cbn.
  - rewrite Z.quot_div_nonneg, Z.rem_mod_nonneg by lia.
    Z.div_mod_to_equations; lia.
  - destruct (Z.ltb_spec (tv_usec tv + r) 0); cbn; [|lia].
    rewrite Z.quot_div_nonneg by lia. Z.div_mod_to_equations; lia.
Qed.

End ClockSyncer.
