(* ===== verification/Wire.v ===== *)
(** * Message formats of the protocol layer (src/src/protocol.h)

    Endpoints, the packed packet header, the textual [KEY=value] messages, the
    authentication code and the address helpers: everything in the protocol
    that is a function of its arguments. *)

From S2P Require Import Prelude Text Ethernet Nic.
Import Ethernet.

Module Wire.

Definition SECRET_KEY : list Z := [0x41; 0x23; 0x55; 0x88].
Definition SECRET_KEY_LEN : nat := length SECRET_KEY.

Definition ANY_PORT : Z := 0xFFFF.

Record Endpoint := { mac : Address; port : Z }.
#[export] Instance Endpoint_eq_dec : EqDecision Endpoint.
Proof. solve_decision. Defined.

Definition Endpoint_default : Endpoint := {| mac := Address_zero; port := 0 |}.

Definition endpoint_from_string (s : bytes) : outcome Endpoint :=
  match find_last_of 58 s with
  | None => Ok Endpoint_default
  | Some pos =>
      mac_str ← substr s 0 pos;
      port_str ← substr s (S pos) (length s);
      p ← stoi port_str;
      Ok {| mac := from_string mac_str; port := u16 p |}
  end.

(** The packed header: source port, destination port, payload length. *)
Record Header := { srcPort : Z; dstPort : Z; hlength : Z }.
Definition sizeof_Header : Z := 6.

Definition MTU : Z := Ethernet.MAX_DATA - sizeof_Header.

Definition header_bytes (h : Header) : bytes :=
  le_bytes 2 (srcPort h) ++ le_bytes 2 (dstPort h) ++ le_bytes 2 (hlength h).

Definition header_of (data : bytes) : Header :=
  {| srcPort := le_val (take 2 data);
     dstPort := le_val (take 2 (drop 2 data));
     hlength := le_val (take 2 (drop 4 data)) |}.

(** [enum class ControlType] has [int] as its underlying type, so a parsed
    value need not be one of the enumerators. *)
Inductive ControlType :=
| NONE | READY | GO | SYNC_REQ | SYNC_RESP | DELAY_REQ | DELAY_RESP
| GROUP_REGISTER | GROUP_MOVE_REQUEST | GROUP_MOVE_NOTIFY | GROUP_ASSIGN
| OtherControl (n : Z).
#[export] Instance ControlType_eq_dec : EqDecision ControlType.
Proof. solve_decision. Defined.

Definition control_to_int (c : ControlType) : Z :=
  match c with
  | NONE => 0 | READY => 1 | GO => 2 | SYNC_REQ => 3 | SYNC_RESP => 4 | DELAY_REQ => 5
  | DELAY_RESP => 6 | GROUP_REGISTER => 7 | GROUP_MOVE_REQUEST => 8 | GROUP_MOVE_NOTIFY => 9
  | GROUP_ASSIGN => 10 | OtherControl n => n
  end.

Definition control_of_int (n : Z) : ControlType :=
  match n with
  | 0 => NONE | 1 => READY | 2 => GO | 3 => SYNC_REQ | 4 => SYNC_RESP | 5 => DELAY_REQ
  | 6 => DELAY_RESP | 7 => GROUP_REGISTER | 8 => GROUP_MOVE_REQUEST | 9 => GROUP_MOVE_NOTIFY
  | 10 => GROUP_ASSIGN | _ => OtherControl n
  end.

Record Message := {
  group_id : Z;      (* uint8_t *)
  orig_vm : Z;       (* uint8_t *)
  orig_port : Z;     (* uint16_t *)
  timestamp : Z;     (* uint64_t *)
  type : Z;          (* int *)
  msg_id : Z;        (* uint64_t *)
  msgac : Z;         (* uint8_t *)
  body : bytes;
  control : ControlType
}.

Definition Message_default : Message :=
  {| group_id := 0; orig_vm := 0; orig_port := 0; timestamp := 0; type := 0; msg_id := 0;
     msgac := 0; body := []; control := NONE |}.

Definition set_body (b : bytes) (m : Message) : Message :=
  {| group_id := group_id m; orig_vm := orig_vm m; orig_port := orig_port m;
     timestamp := timestamp m; type := type m; msg_id := msg_id m; msgac := msgac m;
     body := b; control := control m |}.

Definition build_message (m : Message) : bytes :=
  bs "GROUP=" ++ dec (group_id m) ++ bs " " ++
  bs "VM=" ++ dec (orig_vm m) ++ bs " " ++
  bs "PORT=" ++ dec (orig_port m) ++ bs " " ++
  bs "TIME=" ++ dec (timestamp m) ++ bs " " ++
  bs "TYPE=" ++ dec (type m) ++ bs " " ++
  bs "ID=" ++ dec (msg_id m) ++ bs " " ++
  bs "CONTROL=" ++ dec (control_to_int (control m)) ++ bs " " ++
  bs "MSGAC=" ++ dec (msgac m) ++ bs " " ++
  body m.

(** The lambda of [parse_message]: the value after [key=] up to the next space
    and the new search position; an empty value and an unchanged position when
    the key does not occur. *)
Definition extract_field (s : bytes) (pos : nat) (key : bytes) : outcome (bytes * nat) :=
  match find (key ++ [61]) s pos with
  | None => Ok ([], pos)
  | Some p =>
      let p := (p + (length key + 1))%nat in
      let e := default (length s) (find [32] s p) in
      v ← substr s p (e - p);
      Ok (v, (e + 1)%nat)
  end.

(** One field: [if (auto v = extract_field(key); !v.empty()) dst = conv(v);]
    with [dflt] the value the message already has. *)
Definition parse_field (s key : bytes) (conv : bytes -> outcome Z) (dflt : Z) (pos : nat)
  : outcome (Z * nat) :=
  r ← extract_field s pos key;
  match r.1 with
  | [] => Ok (dflt, r.2)
  | _ => x ← conv r.1; Ok (x, r.2)
  end.

Definition parse_message (s : bytes) : outcome Message :=
  '(g, pos) ← parse_field s (bs "GROUP") (fun v => x ← stoi v; Ok (u8 x)) 0 0;
  '(vm, pos) ← parse_field s (bs "VM") (fun v => x ← stoi v; Ok (u8 x)) 0 pos;
  '(pt, pos) ← parse_field s (bs "PORT") (fun v => x ← stoi v; Ok (u16 x)) 0 pos;
  '(ts, pos) ← parse_field s (bs "TIME") stoull 0 pos;
  '(ty, pos) ← parse_field s (bs "TYPE") stoi 0 pos;
  '(id, pos) ← parse_field s (bs "ID") stoull 0 pos;
  '(ct, pos) ← parse_field s (bs "CONTROL") stoi 0 pos;
  '(ac, pos) ← parse_field s (bs "MSGAC") (fun v => x ← stoull v; Ok (u8 x)) 0 pos;
  b ← (if (pos <? length s)%nat then substr s pos (length s - pos) else Ok []);
  Ok {| group_id := g; orig_vm := vm; orig_port := pt; timestamp := ts; type := ty;
        msg_id := id; msgac := ac; body := b; control := control_of_int ct |}.

(** [generate_mac(buf)] over the C string in [buf]: the xor of every character
    with the key byte at its index. *)
Fixpoint mac_loop (i : nat) (buf : bytes) (msgac : Z) : Z :=
  match buf with
  | [] => msgac
  | c :: buf' =>
      mac_loop (S i) buf'
        (u8 (Z.lxor msgac (Z.lxor c (nth (i mod SECRET_KEY_LEN) SECRET_KEY 0))))
  end.

Definition generate_mac (buf : bytes) : Z := mac_loop 0 (c_str buf) 0.

Definition verify_msgac (my_msgac : Z) (buf : bytes) : bool := generate_mac buf =? my_msgac.

Definition vm_id_from_mac (m : Address) : Z := nth 5 m 0.

(** [snprintf "00:00:00:00:00:%02x"] and [Address::from_string]. *)
Definition endpoint_from_vm (vm_id p : Z) : outcome Endpoint :=
  if (vm_id <? 0) || (255 <? vm_id) then Throw runtime_error
  else Ok {| mac := from_string (bs "00:00:00:00:00:" ++ hex2 false (Z.land vm_id 255)); port := p |}.

Definition GROUP_COORDINATORS : list Z := [0; 10; 20; 30].

(** [GROUP_COORDINATORS[group_id]]: an index outside the array is undefined. *)
Definition coordinator_for_group (gid : Z) : outcome Z :=
  if gid <? 0 then Undef
  else match GROUP_COORDINATORS !! Z.to_nat gid with Some c => Ok c | None => Undef end.

(** The bounds-checked lookups of the handlers: -1 when out of range. *)
Definition coordinator_checked (gid : Z) : Z :=
  if (0 <=? gid) && (gid <? 4) then nth (Z.to_nat gid) GROUP_COORDINATORS (-1) else -1.

Record AsyncCapsule := {
  c_from : Endpoint;
  c_to : Endpoint;
  c_length : Z;
  c_proto : Z;
  c_origin : ChannelOrigin;
  c_payload : bytes
}.

Definition message_ok (m : Message) : Prop :=
  is_u8 (group_id m) /\ is_u8 (orig_vm m) /\ is_u16 (orig_port m) /\ is_u64 (timestamp m) /\
  is_i32 (type m) /\ is_u64 (msg_id m) /\ is_u8 (msgac m) /\ is_i32 (control_to_int (control m)) /\
  control_of_int (control_to_int (control m)) = control m.

(** ** Lemmas *)

Lemma control_roundtrip c :
  (forall n, c <> OtherControl n) -> control_of_int (control_to_int c) = c.
Proof. destruct c; try done. intros H. by destruct (H n). Qed.

Lemma header_roundtrip h rest :
  is_u16 (srcPort h) -> is_u16 (dstPort h) -> is_u16 (hlength h) ->
  header_of (header_bytes h ++ rest) = h.
Proof.
  intros H1 H2 H3. unfold header_of, header_bytes. rewrite <- !app_assoc.
  change 4%nat with (2 + 2)%nat. rewrite <- drop_drop.
  rewrite !(drop_app_len (le_bytes 2 _)) by apply length_le_bytes.
  rewrite !(take_app_len (le_bytes 2 _)) by apply length_le_bytes.
  unfold is_u16 in *. rewrite !le_val_le_bytes by lia. by destruct h.
Qed.

Lemma length_header_bytes h : length (header_bytes h) = 6%nat.
Proof. unfold header_bytes. by rewrite !length_app, !length_le_bytes. Qed.

Lemma header_bytes_ok h : bytes_ok (header_bytes h).
Proof. unfold header_bytes. rewrite !bytes_ok_app. auto with bytes. Qed.

(** *** Fields *)

Definition field (k : bytes) (z : Z) : bytes := k ++ 61 :: dec z ++ [32].

Lemma build_message_fields m :
  build_message m =
  field (bs "GROUP") (group_id m) ++ field (bs "VM") (orig_vm m) ++
  field (bs "PORT") (orig_port m) ++ field (bs "TIME") (timestamp m) ++
  field (bs "TYPE") (type m) ++ field (bs "ID") (msg_id m) ++
  field (bs "CONTROL") (control_to_int (control m)) ++ field (bs "MSGAC") (msgac m) ++ body m.
Proof.
  unfold build_message, field.
  repeat (rewrite <- app_assoc || rewrite <- app_comm_cons). reflexivity.
Qed.

Lemma length_dec_range z k :
  0 <= z < 10 ^ Z.of_nat k -> (0 < k)%nat -> (length (dec z) <= k)%nat.
Proof. intros. pose proof (length_dec z k). destruct (Z.ltb_spec z 0); lia. Qed.

Lemma length_dec_i32 z : is_i32 z -> (length (dec z) <= 11)%nat.
Proof. intros H. pose proof (length_dec z 10). unfold is_i32 in H. destruct (z <? 0); lia. Qed.

(** The fields of a message take at most 125 bytes. *)
Lemma length_build_message m :
  message_ok m -> Z.of_nat (length (build_message m)) <= 125 + Z.of_nat (length (body m)).
Proof.
  intros (Hg & Hv & Hp & Ht & Hy & Hi & Ha & Hc & _).
  pose proof (length_dec_range (group_id m) 3). pose proof (length_dec_range (orig_vm m) 3).
  pose proof (length_dec_range (orig_port m) 5). pose proof (length_dec_range (timestamp m) 20).
  pose proof (length_dec_i32 (type m) Hy). pose proof (length_dec_range (msg_id m) 20).
  pose proof (length_dec_i32 _ Hc). pose proof (length_dec_range (msgac m) 3).
  unfold is_u8, is_u16, is_u64 in *. rewrite build_message_fields. unfold field.
  repeat (rewrite length_app; cbn [length]). cbn [bs length]. change (length (bs "GROUP")) with 5%nat.
  change (length (bs "VM")) with 2%nat. change (length (bs "PORT")) with 4%nat.
  change (length (bs "TIME")) with 4%nat. change (length (bs "TYPE")) with 4%nat.
  change (length (bs "ID")) with 2%nat. change (length (bs "CONTROL")) with 7%nat.
  change (length (bs "MSGAC")) with 5%nat. lia.
Qed.

Lemma extract_field_at pre k v suf n :
  length pre = n -> 32 ∉ v ->
  extract_field (pre ++ (k ++ 61 :: v ++ [32]) ++ suf) n k =
  Ok (v, length (pre ++ k ++ 61 :: v ++ [32])).
Proof.
  intros <- Hv. unfold extract_field.
  assert (pre ++ (k ++ 61 :: v ++ [32]) ++ suf = pre ++ (k ++ [61]) ++ v ++ 32 :: suf) as E1.
  { repeat (rewrite <- app_assoc || rewrite <- app_comm_cons). done. }
  assert (pre ++ (k ++ [61]) ++ v ++ 32 :: suf = (pre ++ k ++ [61]) ++ v ++ 32 :: suf) as E2.
  { by rewrite !app_assoc. }
  rewrite E1, find_at by done. rewrite E2.
  rewrite find_char by (rewrite ?length_app; cbn; lia || done). cbn [default].
  replace (length pre + (length k + 1) + length v - (length pre + (length k + 1)))%nat
    with (length v) by lia.
  rewrite substr_mid by (rewrite ?length_app; cbn; lia || done).
  cbn. do 2 f_equal. rewrite !length_app. cbn. rewrite length_app. cbn. lia.
Qed.

Lemma parse_field_at pre k z z' suf conv d n :
  length pre = n -> conv (dec z) = Ok z' ->
  parse_field (pre ++ field k z ++ suf) k conv d n = Ok (z', length (pre ++ field k z)).
Proof.
  intros Hn Hc. unfold parse_field, field.
  rewrite extract_field_at by (done || by apply dec_not_in). cbn [mbind outcome_bind fst snd].
  destruct (dec z) eqn:E; [by destruct (dec_nonempty z)|]. by rewrite Hc.
Qed.

Lemma parse_field_first k z z' suf conv d :
  conv (dec z) = Ok z' ->
  parse_field (field k z ++ suf) k conv d 0 = Ok (z', length (field k z)).
Proof. by apply (parse_field_at []). Qed.

Lemma stoi_dec_all z : is_i32 z -> stoi (dec z) = Ok z.
Proof. intros. rewrite <- (app_nil_r (dec z)). by apply stoi_dec. Qed.

Lemma stoull_dec_all z : is_u64 z -> stoull (dec z) = Ok z.
Proof. intros. rewrite <- (app_nil_r (dec z)). by apply stoull_dec. Qed.

Lemma conv_u8 z : is_u8 z -> (x ← stoi (dec z); Ok (u8 x)) = Ok z.
Proof. intros H. rewrite stoi_dec_all by machine. cbn. by rewrite u8_id. Qed.

Lemma conv_u16 z : is_u16 z -> (x ← stoi (dec z); Ok (u16 x)) = Ok z.
Proof. intros H. rewrite stoi_dec_all by machine. cbn. by rewrite u16_id. Qed.

Lemma conv_u8_ull z : is_u8 z -> (x ← stoull (dec z); Ok (u8 x)) = Ok z.
Proof. intros H. rewrite stoull_dec_all by machine. cbn. by rewrite u8_id. Qed.

(** Parse the field holding [z]; the part before it becomes the prefix. *)
Ltac parse_step z conv :=
  rewrite (parse_field_at _ _ z z) by (done || by apply conv);
  cbn [mbind outcome_bind]; rewrite ?(app_assoc _ (field _ z)).

(** Parsing inverts building, whatever the body holds. *)
Lemma parse_build m : message_ok m -> parse_message (build_message m) = Ok m.
Proof.
  intros (Hg & Hv & Hp & Ht & Hy & Hi & Ha & Hc & Hcc). rewrite build_message_fields.
  unfold parse_message.
  rewrite (parse_field_first _ (group_id m) (group_id m)) by (by apply conv_u8).
  cbn [mbind outcome_bind].
  parse_step (orig_vm m) conv_u8. parse_step (orig_port m) conv_u16.
  parse_step (timestamp m) stoull_dec_all. parse_step (type m) stoi_dec_all.
  parse_step (msg_id m) stoull_dec_all. parse_step (control_to_int (control m)) stoi_dec_all.
  parse_step (msgac m) conv_u8_ull.
  set (pre := _ ++ field _ (msgac m)). clearbody pre. rewrite Hcc.
  rewrite length_app. destruct (Nat.ltb_spec (length pre) (length pre + length (body m))).
  - rewrite <- (app_nil_r (body m)) at 1.
    rewrite substr_mid by (rewrite ?length_app; cbn; lia || done).
    by destruct m.
  - assert (body m = []) as Eb by (destruct (body m); [done|cbn in *; lia]).
    destruct m; cbn in *; by subst.
Qed.

End Wire.
