(* ===== verification/Protocol.v ===== *)
(** * The protocol layer (src/src/protocol.h)

    The stateful part of [Protocol<TNIC>]: sending over the NIC, group
    membership, the READY/GO start barrier, the PTP exchange and the dispatch
    of received packets to the port observers.  The upper layers are reached
    through the [PortObserver] interface.  Diagnostic [printf]s are not part of
    the model, and each handler runs to completion before the next (the program
    runs them on two receive threads and the tick thread). *)

From stdpp Require Import sorting.
From S2P Require Import Prelude Text Ethernet World EngineEthernet EngineShm Nic ClockSyncer Wire.
Import Ethernet Wire.

Module Protocol.

Record GroupInfo := { gi_group_id : Z; members : gset Z }.

(** [_groups[gid]] value-initialises a missing entry. *)
Definition GroupInfo_default : GroupInfo := {| gi_group_id := 0; members := ∅ |}.

Record group_state := {
  current_group_id : Z;
  groups : gmap Z GroupInfo
}.

Record sync_state := {
  is_master : bool;
  sync_total_vms : Z;
  control_local : Endpoint;
  sync_ready_nodes : gset bytes;
  has_sync_done_callback : bool;
  sync_go_sent : bool;
  sync_go_received : bool
}.

Record ptp_state := {
  clock_syncer : ClockSyncer.syncer;
  running_ptp : bool;
  probabilistic_ptp_timeout : bool
}.

Section state.
Context {O W : Type}.

(** The state of one process from the protocol's point of view: its own
    fields, whatever the layers above it keep, and the outside world. *)
Record pst := {
  nic : NIC.nic;
  etherType : Z;
  portObservers : list O;
  grp : group_state;
  syn : sync_state;
  ptp : ptp_state;
  upper : W;
  world : io
}.

Definition set_grp (g : group_state) (s : pst) : pst :=
  {| nic := nic s; etherType := etherType s; portObservers := portObservers s; grp := g;
     syn := syn s; ptp := ptp s; upper := upper s; world := world s |}.
Definition set_syn (y : sync_state) (s : pst) : pst :=
  {| nic := nic s; etherType := etherType s; portObservers := portObservers s; grp := grp s;
     syn := y; ptp := ptp s; upper := upper s; world := world s |}.
Definition set_ptp (p : ptp_state) (s : pst) : pst :=
  {| nic := nic s; etherType := etherType s; portObservers := portObservers s; grp := grp s;
     syn := syn s; ptp := p; upper := upper s; world := world s |}.
Definition set_observers (l : list O) (s : pst) : pst :=
  {| nic := nic s; etherType := etherType s; portObservers := l; grp := grp s;
     syn := syn s; ptp := ptp s; upper := upper s; world := world s |}.
Definition set_upper (u : W) (s : pst) : pst :=
  {| nic := nic s; etherType := etherType s; portObservers := portObservers s; grp := grp s;
     syn := syn s; ptp := ptp s; upper := u; world := world s |}.
Definition set_world (w : io) (s : pst) : pst :=
  {| nic := nic s; etherType := etherType s; portObservers := portObservers s; grp := grp s;
     syn := syn s; ptp := ptp s; upper := upper s; world := w |}.

(** Run an operation of the outside world. *)
Definition on_io {A} (m : M io A) : M pst A := fun s =>
  let '(r, w) := m (world s) in (r, set_world w s).

Definition mod_groups (f : gmap Z GroupInfo -> gmap Z GroupInfo) : M pst unit :=
  modify (fun s => set_grp {| current_group_id := current_group_id (grp s); groups := f (groups (grp s)) |} s).

End state.
Arguments pst : clear implicits.

(** The virtual methods of [PortObserver], and the callback registered with
    [enable_start_sync]. *)
Class PortObserver (O W : Type) := {
  po_port : O -> Z;
  po_on_packet : O -> Endpoint -> Endpoint -> bytes -> Z -> ChannelOrigin -> M (pst O W) unit;
  po_on_control : O -> ControlType -> Endpoint -> Endpoint -> M (pst O W) unit;
  po_sync_done : M (pst O W) unit
}.

Section protocol.
Context {O W : Type} `{PO : PortObserver O W}.

(** The order in which [std::unordered_map] enumerates its entries is not
    specified: a permutation of the entries. *)
Context (group_order : gmap Z GroupInfo -> list (Z * GroupInfo)).

Abbreviation state := (pst O W).

(** *** Sending *)

Definition send (from to : Endpoint) (payload : bytes) : M state Z := fun s =>
  let size := Z.of_nat (length payload) in
  if MTU <? size then (Ok (-1), s)
  else
    let h := {| srcPort := port from; dstPort := port to; hlength := u16 size |} in
    on_io (NIC.send (nic s) (mac to) (etherType s) (header_bytes h ++ payload) (sizeof_Header + size)) s.

Definition send_control (from to : Endpoint) (ctype : ControlType) (ac : Z) (payload : bytes)
  : M state Z :=
  g ← gets (fun s => current_group_id (grp s));
  now ← on_io get_microseconds_now;
  let msg := {| group_id := u8 g; orig_vm := u8 (vm_id_from_mac (mac from));
                orig_port := port from; timestamp := now; type := 0; msg_id := 0;
                msgac := ac; body := payload; control := ctype |} in
  send from to (build_message msg).

(** *** Groups *)

Definition get_group_of_list (l : list (Z * GroupInfo)) (vm_id : Z) : option Z :=
  match list_find (fun e : Z * GroupInfo => vm_id ∈ members e.2) l with
  | Some (_, (gid, _)) => Some gid
  | None => None
  end.

Definition get_group_of (vm_id : Z) : M state (option Z) :=
  gets (fun s => get_group_of_list (group_order (groups (grp s))) vm_id).

Definition group_entry (gid : Z) (m : gmap Z GroupInfo) : GroupInfo :=
  default GroupInfo_default (m !! gid).

(** [_groups[gid].group_id = id] *)
Definition put_group_id (gid id : Z) (m : gmap Z GroupInfo) : gmap Z GroupInfo :=
  <[gid := {| gi_group_id := id; members := members (group_entry gid m) |}]> m.

(** [_groups[gid].members.insert(vm)] *)
Definition insert_member (gid vm : Z) (m : gmap Z GroupInfo) : gmap Z GroupInfo :=
  let g := group_entry gid m in
  <[gid := {| gi_group_id := gi_group_id g; members := {[vm]} ∪ members g |}]> m.

(** [_groups[gid].members.erase(vm)] *)
Definition erase_member (gid vm : Z) (m : gmap Z GroupInfo) : gmap Z GroupInfo :=
  let g := group_entry gid m in
  <[gid := {| gi_group_id := gi_group_id g; members := members g ∖ {[vm]} |}]> m.

Definition register_vm_in_group (gid vmid : Z) : M state unit :=
  mod_groups (fun m => insert_member gid vmid (put_group_id gid gid m)).

Definition get_current_group : M state Z := gets (fun s => current_group_id (grp s)).

Definition my_vm (s : state) : Z := vm_id_from_mac (NIC.address (nic s)).

Definition is_message_internal (msg : Message) (s : state) : bool :=
  group_id msg =? current_group_id (grp s).

Definition is_local_coordinator (s : state) : bool := is_master (syn s).

Definition is_remote_coordinator (vm_id : Z) (s : state) : bool :=
  coordinator_checked (current_group_id (grp s)) =? vm_id.

Definition group_members (gid : Z) (s : state) : gset Z :=
  match groups (grp s) !! gid with Some g => members g | None => ∅ end.

(** A [std::set<int>] is enumerated in increasing order. *)
Definition sorted_members (m : gset Z) : list Z := merge_sort Z.le (elements m).

Definition group_info_text (gid : Z) (m : gset Z) : bytes :=
  bs "GROUP_INFO " ++ dec gid ++ bs " MEMBERS:" ++
  concat ((fun x => bs " " ++ dec x) <$> sorted_members m).

Definition broadcast_group_info (gid : Z) : M state unit :=
  mod_groups (fun m => <[gid := group_entry gid m]> m) ;;
  text ← gets (fun s => group_info_text gid (members (group_entry gid (groups (grp s)))));
  loc ← gets (fun s => control_local (syn s));
  send loc {| mac := BROADCAST; port := port loc |} text ;;
  mret tt.

Definition set_current_group (gid : Z) : M state unit :=
  me ← gets my_vm;
  modify (fun s =>
    let m := put_group_id gid gid (groups (grp s)) in
    let m := if 0 <=? me then insert_member gid me m else m in
    set_grp {| current_group_id := gid; groups := m |} s) ;;
  let coord_vm := coordinator_checked gid in
  if (0 <=? coord_vm) && negb (coord_vm =? me) then
    let text := dec me ++ bs " " ++ dec (-1) ++ bs " " ++ dec gid in
    loc ← gets (fun s => control_local (syn s));
    coord_ep ← lift (endpoint_from_vm coord_vm (port loc));
    send_control loc coord_ep GROUP_MOVE_NOTIFY 0 text ;;
    mret tt
  else broadcast_group_info gid.

Definition move_group (new_gid : Z) : M state unit :=
  loc ← gets (fun s => control_local (syn s));
  send_control loc {| mac := BROADCAST; port := port loc |} GROUP_MOVE_REQUEST 0 (dec new_gid) ;;
  mret tt.

Definition set_group_for_vm (vm_id gid : Z) : M state unit :=
  mod_groups (fun m =>
    insert_member gid vm_id
      ((fun g => {| gi_group_id := gi_group_id g; members := members g ∖ {[vm_id]} |}) <$> m)).

(** *** Start barrier *)

Definition enable_start_sync (total_vms : Z) (loc : Endpoint) (has_cb : bool) : M state unit :=
  modify (fun s =>
    let y := syn s in
    set_syn {| is_master := is_master y; sync_total_vms := total_vms; control_local := loc;
               sync_ready_nodes := if is_master y then ∅ else {[str (mac loc)]};
               has_sync_done_callback := has_cb; sync_go_sent := sync_go_sent y;
               sync_go_received := sync_go_received y |} s).

Definition set_master (m : bool) : M state unit :=
  modify (fun s =>
    let y := syn s in
    set_syn {| is_master := m; sync_total_vms := sync_total_vms y; control_local := control_local y;
               sync_ready_nodes := sync_ready_nodes y;
               has_sync_done_callback := has_sync_done_callback y;
               sync_go_sent := sync_go_sent y; sync_go_received := sync_go_received y |} s).

Definition mark_ready (who : bytes) (y : sync_state) : sync_state :=
  {| is_master := is_master y; sync_total_vms := sync_total_vms y; control_local := control_local y;
     sync_ready_nodes := {[who]} ∪ sync_ready_nodes y;
     has_sync_done_callback := has_sync_done_callback y;
     sync_go_sent := sync_go_sent y; sync_go_received := sync_go_received y |}.

Definition mark_go_sent (y : sync_state) : sync_state :=
  {| is_master := is_master y; sync_total_vms := sync_total_vms y; control_local := control_local y;
     sync_ready_nodes := sync_ready_nodes y;
     has_sync_done_callback := has_sync_done_callback y;
     sync_go_sent := true; sync_go_received := sync_go_received y |}.

Definition mark_go_received (y : sync_state) : sync_state :=
  {| is_master := is_master y; sync_total_vms := sync_total_vms y; control_local := control_local y;
     sync_ready_nodes := sync_ready_nodes y;
     has_sync_done_callback := has_sync_done_callback y;
     sync_go_sent := sync_go_sent y; sync_go_received := true |}.

(** [_sync_ready_nodes.size() == _sync_total_vms], the size converted to [int]. *)
Definition all_ready (y : sync_state) : bool :=
  i32 (Z.of_nat (size (sync_ready_nodes y))) =? sync_total_vms y.

(** A handler either lets the dispatch go on to the port observers or returns. *)
Inductive flow := Continue | Return.

Definition handle_ready (c : AsyncCapsule) : M state flow :=
  modify (fun s => set_syn (mark_ready (str (mac (c_from c))) (syn s)) s) ;;
  y ← gets syn;
  if negb (sync_go_sent y) && all_ready y then
    let loc := control_local y in
    send_control loc {| mac := BROADCAST; port := port loc |} GO 0 [] ;;
    modify (fun s => set_syn (mark_go_sent (syn s)) s) ;;
    mret Continue
  else mret Continue.

Definition handle_go : M state flow :=
  y ← gets syn;
  if sync_go_received y then mret Continue
  else
    modify (fun s => set_syn (mark_go_received (syn s)) s) ;;
    (if has_sync_done_callback y then po_sync_done else skip) ;;
    mret Continue.

(** *** Clock synchronisation *)

Definition handle_sync_req (c : AsyncCapsule) : M state flow :=
  y ← gets syn;
  if is_master y then
    t1 ← on_io get_microseconds_now;
    let buf := dec t1 in
    send_control (control_local y) (c_from c) SYNC_RESP (generate_mac buf) buf ;;
    mret Continue
  else mret Continue.

Definition handle_sync_resp (c : AsyncCapsule) (text : bytes) : M state flow :=
  y ← gets syn;
  let t1 := match scan_lu text with Some (v, _) => v | None => 0 end in
  t2 ← on_io get_microseconds_now;
  let t3 := t2 in
  let buf := dec t1 ++ bs " " ++ dec t2 ++ bs " " ++ dec t3 in
  send_control (control_local y) (c_from c) DELAY_REQ (generate_mac buf) buf ;;
  mret Continue.

(** [sscanf(body, "%lu %lu %lu", ...) != 3] *)
Definition scan_3lu (text : bytes) : option (Z * Z * Z) :=
  '(a, r1) ← scan_lu text;
  '(b, r2) ← scan_lu r1;
  '(c, _) ← scan_lu r2;
  Some (a, b, c).

(** [((int64_t)(t2 - t1) + (int64_t)(t3 - t4)) / 2]; the signed addition is
    undefined on overflow. *)
Definition ptp_offset (t1 t2 t3 t4 : Z) : outcome Z :=
  s ← ClockSyncer.ll (i64 (u64 (t2 - t1)) + i64 (u64 (t3 - t4)));
  Ok (Z.quot s 2).

(** [(t4 - t1) - (t3 - t2)] *)
Definition ptp_rtt (t1 t2 t3 t4 : Z) : Z := i64 (u64 (u64 (t4 - t1) - u64 (t3 - t2))).

Definition handle_delay_req (c : AsyncCapsule) (text : bytes) : M state flow :=
  y ← gets syn;
  match scan_3lu text with
  | None => mret Return
  | Some (t1, t2, t3) =>
      t4 ← on_io get_microseconds_now;
      offset ← lift (ptp_offset t1 t2 t3 t4);
      let buf := dec offset ++ bs " " ++ dec (ptp_rtt t1 t2 t3 t4) in
      send_control (control_local y) (c_from c) DELAY_RESP (generate_mac buf) buf ;;
      mret Continue
  end.

(** [sscanf(body, "%lld %lld", &offset, &delay)] with both preset to zero. *)
Definition scan_2lld (text : bytes) : Z * Z :=
  match scan_lld text with
  | None => (0, 0)
  | Some (a, r) => match scan_lld r with None => (a, 0) | Some (b, _) => (a, b) end
  end.

(** 1.96 as a double. *)
Definition z95 : SpecFloat.spec_float := SpecFloat.S754_finite false 8827055269646172 (-52).

Definition handle_delay_resp (text : bytes) : M state flow :=
  let '(offset, delay) := scan_2lld text in
  p ← gets ptp;
  cs ← lift (ClockSyncer.addPtpSample offset delay (clock_syncer p));
  _ ← lift (ClockSyncer.hasEnoughSamplesCI 100 z95 cs);
  adj ← gets (fun s => adjtimex_ret (world s));
  '(_, ns) ← lift (ClockSyncer.applySync adj cs);
  modify (fun s => set_world (emit (AdjTime ns) (world s)) s) ;;
  modify (fun s => set_ptp {| clock_syncer := cs; running_ptp := false;
                              probabilistic_ptp_timeout := probabilistic_ptp_timeout (ptp s) |} s) ;;
  mret Continue.

(** *** Group messages *)

Definition notify_body (vm old_gid new_gid : Z) : bytes :=
  dec vm ++ bs " " ++ dec old_gid ++ bs " " ++ dec new_gid.

Definition handle_group_move_request (msg : Message) : M state flow :=
  let requester_id := orig_vm msg in
  new_gid ← lift (stoi (body msg));
  set_group_for_vm requester_id new_gid ;;
  let requested_gid := new_gid in       (* the second stoi of the same body *)
  sender_gid_opt ← get_group_of requester_id;
  match sender_gid_opt with
  | None => mret Return
  | Some sender_gid =>
      me ← gets my_vm;
      if negb (me =? coordinator_checked sender_gid) then mret Return
      else
        mod_groups (fun m =>
          let m := put_group_id requested_gid requested_gid m in
          let m := match m !! sender_gid with
                   | Some _ => erase_member sender_gid requester_id m
                   | None => m
                   end in
          insert_member requested_gid requester_id m) ;;
        loc ← gets (fun s => control_local (syn s));
        for_each GROUP_COORDINATORS (fun coord_vm =>
          if coord_vm =? me then skip
          else
            coord_ep ← lift (endpoint_from_vm coord_vm (port loc));
            send_control loc coord_ep GROUP_MOVE_NOTIFY 0
              (notify_body requester_id sender_gid requested_gid) ;;
            skip) ;;
        requester_ep ← lift (endpoint_from_vm requester_id (port loc));
        send_control loc requester_ep GROUP_ASSIGN 0 (dec requested_gid) ;;
        mret Continue
  end.

(** [iss >> vm_id >> old_gid >> new_gid] *)
Definition extract_3int (text : bytes) : option (Z * Z * Z) :=
  '(a, r1) ← extract_int text;
  '(b, r2) ← extract_int r1;
  '(c, _) ← extract_int r2;
  Some (a, b, c).

Definition handle_group_move_notify (text : bytes) : M state flow :=
  match extract_3int text with
  | None => mret Return
  | Some (vm_id, old_gid, new_gid) =>
      me ← gets my_vm;
      c_old ← lift (coordinator_for_group old_gid);
      am_coordinator ← (if me =? c_old then mret true
                        else c_new ← lift (coordinator_for_group new_gid); mret (me =? c_new));
      if negb (am_coordinator : bool) then mret Return
      else
        mod_groups (fun m =>
          let m := put_group_id old_gid old_gid m in
          let m := put_group_id new_gid new_gid m in
          insert_member new_gid vm_id (erase_member old_gid vm_id m)) ;;
        mret Continue
  end.

Definition handle_group_assign (text : bytes) : M state flow :=
  match stoi text with
  | Ok target_gid => set_current_group target_gid ;; mret Continue
  | Throw _ => mret Return
  | Undef => undef
  end.

Definition handle_group_register (msg : Message) : M state flow :=
  let sender_vm := orig_vm msg in
  cur ← get_current_group;
  sender_group_opt ← get_group_of sender_vm;
  let target_gid := default cur sender_group_opt in
  coord_vm ← lift (coordinator_for_group target_gid);
  me ← gets my_vm;
  if negb (me =? coord_vm) then mret Return
  else
    mod_groups (fun m => insert_member target_gid sender_vm (put_group_id target_gid target_gid m)) ;;
    loc ← gets (fun s => control_local (syn s));
    sender_ep ← lift (endpoint_from_vm sender_vm (port loc));
    send_control loc sender_ep GROUP_ASSIGN 0 (dec target_gid) ;;
    mret Continue.

(** *** Dispatch *)

(** The if/else chain on the control type; every guard reads the state at the
    start of the handler. *)
Definition handle_control (c : AsyncCapsule) (msg : Message) : M state flow := fun s =>
  let internal := is_message_internal msg s in
  let master := is_master (syn s) in
  match control msg with
  | READY => if internal && (0 <? sync_total_vms (syn s)) then handle_ready c s else (Ok Continue, s)
  | GO => if internal then handle_go s else (Ok Continue, s)
  | SYNC_REQ => if internal then handle_sync_req c s else (Ok Continue, s)
  | SYNC_RESP => if internal && negb master then handle_sync_resp c (body msg) s else (Ok Continue, s)
  | DELAY_REQ => if internal && master then handle_delay_req c (body msg) s else (Ok Continue, s)
  | DELAY_RESP => if internal && negb master then handle_delay_resp (body msg) s else (Ok Continue, s)
  | GROUP_MOVE_REQUEST => handle_group_move_request msg s
  | GROUP_MOVE_NOTIFY => handle_group_move_notify (body msg) s
  | GROUP_ASSIGN => handle_group_assign (body msg) s
  | GROUP_REGISTER => handle_group_register msg s
  | NONE | OtherControl _ => (Ok Continue, s)
  end.

(** One iteration of the loop over the port observers. *)
Definition forward_to (c : AsyncCapsule) (msg : Message) (po : O) : M state unit :=
  if decide (control msg <> NONE) then
    sender_gid ← get_group_of (orig_vm msg);
    am_coord ← gets is_local_coordinator;
    cur ← get_current_group;
    let sender_same_group :=
      match sender_gid with Some g => g =? cur | None => false end in
    if bool_decide (control msg = GROUP_REGISTER) || bool_decide (control msg = GROUP_ASSIGN)
       || am_coord || sender_same_group
    then po_on_control po (control msg) (c_from c) (c_to c)
    else skip
  else
    cur ← get_current_group;
    if (group_id msg =? -1) || negb (group_id msg =? cur) then skip
    else if (po_port po =? port (c_to c)) || (po_port po =? ANY_PORT)
    then po_on_packet po (c_from c) (c_to c) (c_payload c) (c_length c) (c_origin c)
    else skip.

(** Cut the body at the first NUL, then trim it. *)
Definition clean_body (b : bytes) : bytes := trim (c_str b).

Definition notify_by_port (c : AsyncCapsule) : M state unit :=
  msg ← lift (parse_message (c_payload c));
  if bool_decide (control msg <> NONE) && negb (verify_msgac (msgac msg) (body msg)) then skip
  else
    let msg := set_body (clean_body (body msg)) msg in
    k ← handle_control c msg;
    match k with
    | Return => skip
    | Continue =>
        obs ← gets portObservers;
        for_each obs (forward_to c msg)
    end.

Definition capsule_of (pnum : Z) (f : Frame) (o : ChannelOrigin) : AsyncCapsule :=
  let h := header_of (f_data f) in
  let payloadLen := f_size f - sizeof_Header in
  {| c_from := {| mac := f_src f; port := srcPort h |};
     c_to := {| mac := f_dst f; port := dstPort h |};
     c_length := u16 payloadLen;
     c_proto := pnum;
     c_origin := o;
     c_payload := take (Z.to_nat payloadLen) (drop (Z.to_nat sizeof_Header) (f_data f)) |}.

(** The NIC's notification. *)
Definition update (pnum : Z) (f : Frame) (o : ChannelOrigin) : M state unit := fun s =>
  if negb (pnum =? etherType s) then (Ok tt, s)
  else if f_size f <=? sizeof_Header then (Ok tt, s)
  else notify_by_port (capsule_of pnum f o) s.

Definition attach (po : O) : M state unit := modify (fun s => set_observers (portObservers s ++ [po]) s).
Definition detach `{EqDecision O} (po : O) : M state unit :=
  modify (fun s => set_observers (Observed.detach po (portObservers s)) s).

Definition set_running_ptp (v : bool) : M state unit :=
  modify (fun s => set_ptp {| clock_syncer := clock_syncer (ptp s); running_ptp := v;
                              probabilistic_ptp_timeout := probabilistic_ptp_timeout (ptp s) |} s).
Definition set_probabilistic_ptp_timeout (v : bool) : M state unit :=
  modify (fun s => set_ptp {| clock_syncer := clock_syncer (ptp s); running_ptp := running_ptp (ptp s);
                              probabilistic_ptp_timeout := v |} s).
Definition get_running_ptp : M state bool := gets (fun s => running_ptp (ptp s)).
Definition get_probabilistic_ptp_timeout : M state bool :=
  gets (fun s => probabilistic_ptp_timeout (ptp s)).

End protocol.

(** The constructor. *)
Definition construct {O W} (n : NIC.nic) (etype : Z) (u : W) (w : io) : pst O W :=
  {| nic := n; etherType := etype; portObservers := [];
     grp := {| current_group_id := 0; groups := ∅ |};
     syn := {| is_master := false; sync_total_vms := 0; control_local := Endpoint_default;
               sync_ready_nodes := ∅; has_sync_done_callback := false; sync_go_sent := false;
               sync_go_received := false |};
     ptp := {| clock_syncer := ClockSyncer.init; running_ptp := false;
               probabilistic_ptp_timeout := false |};
     upper := u; world := w |}.

End Protocol.
