(* ===== verification/ProtocolFacts.v ===== *)
(** * Facts about the protocol layer

    What sending does to the state, the frame laws of the observer interface,
    the group map, and the properties of the protocol handlers. *)

From S2P Require Import Prelude Text Ethernet World EngineEthernet EngineShm Nic ClockSyncer Wire Protocol.
Import Ethernet Wire Protocol.

(** Evaluate one layer of monadic code. *)
Ltac run_M :=
  unfold gets, modify, lift, skip, mret, M_ret, mbind, M_bind in *; cbn in *.

Section sending.
Context {O W : Type}.
Abbreviation state := (pst O W).

Lemma nic_send_total n dst proto data size w :
  size <= MAX_DATA -> exists r w', NIC.send n dst proto data size w = (Ok r, w').
Proof.
  intros Hs. unfold NIC.send. rewrite (proj2 (Z.ltb_ge _ _)) by lia.
  unfold EngineShm.send, EngineEthernet.send, bus_send, sendto.
  run_M. repeat case_match; simplify_eq/=; eauto.
Qed.

(** Whatever it is given, [send] returns, and only the outside world changes. *)
Lemma send_total from to payload (s : state) :
  exists r w, send from to payload s = (Ok r, set_world w s).
Proof.
  unfold send. destruct (Z.ltb_spec MTU (Z.of_nat (length payload))).
  - exists (-1), (world s). by destruct s.
  - unfold on_io.
    destruct (nic_send_total (nic s) (mac to) (etherType s)
      (header_bytes {| srcPort := port from; dstPort := port to; hlength := u16 (Z.of_nat (length payload)) |} ++ payload)
      (sizeof_Header + Z.of_nat (length payload)) (world s)) as (r & w & ->).
    { unfold MTU, sizeof_Header in *. lia. }
    eauto.
Qed.

Lemma set_world_twice w w' (s : state) : set_world w (set_world w' s) = set_world w s.
Proof. by destruct s. Qed.

Lemma send_control_total from to ct ac payload (s : state) :
  exists r w, send_control from to ct ac payload s = (Ok r, set_world w s).
Proof.
  unfold send_control, on_io, get_microseconds_now. run_M.
  edestruct send_total as (r & w & ->). rewrite set_world_twice. eauto.
Qed.

(** The frame handed to the NIC. *)
Definition wire_frame (s : state) (from to : Endpoint) (payload : bytes) : Frame :=
  NIC.frame_to (nic s) (mac to) (etherType s)
    (header_bytes {| srcPort := port from; dstPort := port to;
                     hlength := u16 (Z.of_nat (length payload)) |} ++ payload)
    (sizeof_Header + Z.of_nat (length payload)).

Lemma wire_frame_ok s from to payload :
  addr_ok (NIC.mac (nic s)) -> addr_ok (mac to) -> is_u16 (etherType s) -> bytes_ok payload ->
  Z.of_nat (length payload) <= MTU ->
  frame_ok (wire_frame s from to payload).
Proof.
  intros Hm Ht He Hp Hl. unfold wire_frame, NIC.frame_to, MTU, MAX_DATA, sizeof_Header in *.
  unfold frame_ok; cbn [f_dst f_src f_proto f_data f_size].
  rewrite take_ge by (rewrite length_app, length_header_bytes; lia).
  rewrite length_app, length_header_bytes. unfold MAX_DATA.
  do 3 (split; [done|]). split; [|lia].
  apply bytes_ok_app. split; [apply header_bytes_ok|done].
Qed.

Lemma send_on_wire (s : state) e from to payload :
  NIC.ethernet_engine (nic s) = Some e -> 0 <= EngineEthernet.sock_ e ->
  mac to <> NIC.mac (nic s) -> Z.of_nat (length payload) <= MTU ->
  exists r w, send from to payload s = (Ok r, set_world w s) /\
    out w = out (world s) ++ [OnWire (EngineEthernet.packet_of e (wire_frame s from to payload))].
Proof.
  intros He Hs Hd Hl. unfold send. rewrite (proj2 (Z.ltb_ge _ _)) by lia. unfold on_io.
  rewrite (NIC.send_eth _ e) by (done || unfold MTU, sizeof_Header in *; lia).
  unfold EngineEthernet.send. rewrite (proj2 (Z.ltb_ge _ _)) by lia.
  unfold sendto. run_M. do 2 eexists. split; [reflexivity|done].
Qed.

Lemma send_on_bus (s : state) from to payload :
  NIC.shm_engine (nic s) = true -> addr_ok (NIC.mac (nic s)) ->
  mac to = NIC.mac (nic s) -> Z.of_nat (length payload) <= 1476 ->
  send from to payload s =
  (Ok 0, set_world (emit (OnBus (EngineShm.serialize_frame (wire_frame s from to payload))) (world s)) s).
Proof.
  intros Hs Ha Hd Hl. unfold send, MTU, MAX_DATA, sizeof_Header.
  rewrite (proj2 (Z.ltb_ge _ _)) by lia. unfold on_io. unfold wire_frame. rewrite Hd.
  rewrite NIC.send_shm; try done; unfold sizeof_Header; try lia.
  rewrite length_app, length_header_bytes. lia.
Qed.

Lemma send_bus_full (s : state) from to payload :
  NIC.shm_engine (nic s) = true -> addr_ok (NIC.mac (nic s)) ->
  mac to = NIC.mac (nic s) -> Z.of_nat (length payload) <= MTU -> 1476 < Z.of_nat (length payload) ->
  send from to payload s = (Ok (-2), s).
Proof.
  intros Hshm Ha Hd H2 H1. unfold send. rewrite (proj2 (Z.ltb_ge _ _) H2). unfold on_io, NIC.send. unfold MTU, MAX_DATA, sizeof_Header in *.
  rewrite (proj2 (Z.ltb_ge _ _)) by lia. rewrite Hd. unfold addr_eqb, NIC.address. rewrite bool_decide_true by done.
  rewrite Hshm. cbn [negb]. unfold EngineShm.send. set (f := NIC.frame_to _ _ _ _ _).
  assert (length (f_data f) = (6 + length payload)%nat) as Hn.
  { unfold f, NIC.frame_to. cbn [f_data]. rewrite take_ge; rewrite length_app, length_header_bytes; lia. }
  rewrite EngineShm.length_serialize_frame; [|done|done|rewrite Hn; cbn [f NIC.frame_to f_size]; lia]. rewrite Hn.
  change EngineShm.header_size with 18%nat. unfold EngineShm.PAYLOAD.
  rewrite (proj2 (Nat.eqb_neq _ _)), (proj2 (Z.ltb_lt _ _)) by lia. by destruct s.
Qed.

(** The receiving side undoes the framing. *)
Lemma capsule_of_wire_frame s from to payload src o :
  is_u16 (port from) -> is_u16 (port to) -> Z.of_nat (length payload) <= MTU ->
  let f := wire_frame s from to payload in
  capsule_of (f_proto f) {| f_dst := f_dst f; f_src := src; f_proto := f_proto f;
                            f_data := f_data f; f_size := f_size f |} o =
  {| c_from := {| mac := src; port := port from |}; c_to := to;
     c_length := Z.of_nat (length payload); c_proto := etherType s; c_origin := o;
     c_payload := payload |}.
Proof.
  intros Hf Ht Hl f. unfold MTU, sizeof_Header, MAX_DATA in Hl.
  set (h := {| srcPort := port from; dstPort := port to; hlength := u16 (Z.of_nat (length payload)) |}).
  assert (f_data f = header_bytes h ++ payload) as Ed.
  { change (take (Z.to_nat (6 + Z.of_nat (length payload))) (header_bytes h ++ payload)
            = header_bytes h ++ payload).
    apply take_ge. rewrite length_app, length_header_bytes. lia. }
  assert (header_of (header_bytes h ++ payload) = h) as Eh.
  { apply header_roundtrip; cbn; [done|done|apply u16_range]. }
  unfold capsule_of. cbn [f_data f_size f_src f_dst f_proto]. rewrite Ed, Eh.
  unfold sizeof_Header. rewrite (drop_app_len (header_bytes h)) by apply length_header_bytes.
  subst f h. cbn. unfold sizeof_Header.
  replace (6 + Z.of_nat (length payload) - 6) with (Z.of_nat (length payload)) by lia.
  rewrite Nat2Z.id, firstn_all. rewrite u16_id by (unfold is_u16; lia). by destruct to.
Qed.

(** What [update] does with such a frame. *)
Lemma update_wire_frame {O' W'} `{PO : PortObserver O' W'} order s (sr : pst O' W') from to payload src o :
  is_u16 (port from) -> is_u16 (port to) -> Z.of_nat (length payload) <= MTU ->
  let f := wire_frame s from to payload in
  update order (f_proto f) {| f_dst := f_dst f; f_src := src; f_proto := f_proto f; f_data := f_data f; f_size := f_size f |} o sr =
  if bool_decide (etherType sr = etherType s /\ payload <> [])
  then notify_by_port order {| c_from := {| mac := src; port := port from |}; c_to := to;
     c_length := Z.of_nat (length payload); c_proto := etherType s; c_origin := o; c_payload := payload |} sr
  else (Ok tt, sr).
Proof.
  intros Hf Ht Hl. cbv zeta. unfold update. rewrite (capsule_of_wire_frame s from to payload src o Hf Ht Hl).
  cbn [f_size f_proto wire_frame NIC.frame_to]. unfold sizeof_Header.
  destruct (Z.eqb_spec (etherType s) (etherType sr)) as [E|E]; cbn [negb].
  - destruct payload as [|x p].
    + rewrite (proj2 (Z.leb_le _ _)) by (cbn; lia). rewrite bool_decide_false; [done|]. naive_solver.
    + rewrite (proj2 (Z.leb_gt _ _)) by (cbn [length]; lia). by rewrite bool_decide_true.
  - rewrite bool_decide_false; [done|]. naive_solver.
Qed.

Lemma on_receive_wire_frame s raw from to payload :
  addr_ok (NIC.mac (nic s)) -> addr_ok (mac to) -> is_u16 (etherType s) -> bytes_ok payload -> Z.of_nat (length payload) <= MTU ->
  EngineShm.on_receive_msg true raw (EngineShm.serialize_frame (wire_frame s from to payload)) = Ok (EngineShm.ToNic (wire_frame s from to payload)).
Proof.
  intros Hn Ht He Hb Hl. pose proof (wire_frame_ok s from to payload Hn Ht He Hb Hl) as Hok.
  unfold EngineShm.on_receive_msg. cbn [negb]. rewrite EngineShm.length_serialize_frame by apply Hok.
  change (EngineShm.header_size) with 18%nat. cbn [Nat.add Nat.eqb]. by rewrite EngineShm.deserialize_serialize.
Qed.

(** One hop over Ethernet, and one over the bus. *)
Lemma wire_delivery (s : state) e from to payload :
  NIC.ethernet_engine (nic s) = Some e -> 0 <= EngineEthernet.sock_ e ->
  addr_ok (EngineEthernet.mac_bytes_ e) -> addr_ok (NIC.mac (nic s)) ->
  addr_ok (mac to) -> mac to <> NIC.mac (nic s) ->
  is_u16 (etherType s) -> is_u16 (port from) -> is_u16 (port to) ->
  bytes_ok payload -> Z.of_nat (length payload) <= MTU ->
  exists r w packet f,
    send from to payload s = (Ok r, set_world w s) /\
    out w = out (world s) ++ [OnWire packet] /\
    EngineEthernet.frame_of_packet packet = Some f /\
    capsule_of (f_proto f) f OEthernet =
      {| c_from := {| mac := EngineEthernet.mac_bytes_ e; port := port from |}; c_to := to;
         c_length := Z.of_nat (length payload); c_proto := etherType s;
         c_origin := OEthernet; c_payload := payload |}.
Proof.
  intros He Hs Hm Hn Ht Hne Het Hpf Hpt Hb Hl.
  destruct (send_on_wire s e from to payload He Hs Hne Hl) as (r & w & E1 & E2).
  do 4 eexists. split; [exact E1|]. split; [exact E2|]. split.
  - apply EngineEthernet.frame_of_packet_of; [by apply wire_frame_ok|done].
  - by apply capsule_of_wire_frame.
Qed.

Lemma bus_delivery (s : state) from to payload :
  NIC.shm_engine (nic s) = true -> addr_ok (NIC.mac (nic s)) ->
  mac to = NIC.mac (nic s) ->
  is_u16 (etherType s) -> is_u16 (port from) -> is_u16 (port to) ->
  bytes_ok payload -> Z.of_nat (length payload) <= 1476 ->
  exists blob f,
    send from to payload s =
      (Ok 0, set_world (emit (OnBus blob) (world s)) s) /\
    EngineShm.on_receive_msg true false blob = Ok (EngineShm.ToNic f) /\
    capsule_of (f_proto f) f OSharedMemory =
      {| c_from := {| mac := NIC.mac (nic s); port := port from |}; c_to := to;
         c_length := Z.of_nat (length payload); c_proto := etherType s;
         c_origin := OSharedMemory; c_payload := payload |}.
Proof.
  intros Hs Ha Hd He Hpf Hpt Hb Hl.
  assert (Z.of_nat (length payload) <= MTU) as Hl' by (unfold MTU, MAX_DATA, sizeof_Header; lia).
  eexists _, (wire_frame s from to payload).
  split; [by apply send_on_bus|]. split.
  - by apply on_receive_wire_frame; rewrite ?Hd.
  - by apply (capsule_of_wire_frame s from to payload (NIC.mac (nic s))).
Qed.

End sending.

(** ** The observer interface

    The hooks of the upper layer may change that layer and the outside world,
    never the protocol's own fields. *)

Section frames.
Context {O W : Type}.

Definition proto_same (s t : pst O W) : Prop := exists u w, t = set_upper u (set_world w s).

#[global] Instance proto_same_preorder : PreOrder proto_same.
Proof.
  split.
  - intros s. exists (upper s), (world s). by destruct s.
  - intros s t v (u1 & w1 & ->) (u2 & w2 & ->). exists u2, w2. by destruct s.
Qed.

(** The barrier's flags and its set of ready nodes only grow. *)
Definition syn_mono (y y' : sync_state) : Prop :=
  is_master y' = is_master y /\ sync_total_vms y' = sync_total_vms y /\
  control_local y' = control_local y /\ sync_ready_nodes y ⊆ sync_ready_nodes y' /\
  (sync_go_sent y = true -> sync_go_sent y' = true) /\
  (sync_go_received y = true -> sync_go_received y' = true).

Definition proto_mono (s t : pst O W) : Prop :=
  nic t = nic s /\ etherType t = etherType s /\ portObservers t = portObservers s /\
  syn_mono (syn s) (syn t).

#[global] Instance proto_mono_preorder : PreOrder proto_mono.
Proof.
  split.
  - intros s. repeat split; auto.
  - intros s t v (?&?&?&?&?&?&?&?&?) (?&?&?&?&?&?&?&?&?).
    repeat split; try congruence; try set_solver; auto.
Qed.

Lemma proto_same_mono s t : proto_same s t -> proto_mono s t.
Proof. intros (u & w & ->). destruct s; cbn. repeat split; auto. Qed.

Lemma preserves_send R `{!PreOrder R} from to p :
  (forall s t, proto_same s t -> R s t) -> preserves R (send from to p).
Proof.
  intros HR s. apply HR. destruct (send_total from to p s) as (r & w & ->). cbn.
  exists (upper s), w. by destruct s.
Qed.

Lemma preserves_send_control R `{!PreOrder R} from to ct ac p :
  (forall s t, proto_same s t -> R s t) -> preserves R (send_control from to ct ac p).
Proof.
  intros HR s. apply HR. destruct (send_control_total from to ct ac p s) as (r & w & ->). cbn.
  exists (upper s), w. by destruct s.
Qed.

Lemma preserves_on_io {A} (m : M io A) : preserves proto_same (on_io m).
Proof.
  intros s. unfold on_io. destruct (m (world s)) as [r w]. cbn. exists (upper s), w. by destruct s.
Qed.

Lemma mono_send from to p : preserves proto_mono (send from to p).
Proof. apply preserves_send; [apply _|apply proto_same_mono]. Qed.
Lemma mono_send_control from to ct ac p : preserves proto_mono (send_control from to ct ac p).
Proof. apply preserves_send_control; [apply _|apply proto_same_mono]. Qed.
Lemma mono_on_io {A} (m : M io A) : preserves proto_mono (on_io m).
Proof. eapply preserves_weaken; [apply proto_same_mono|apply preserves_on_io]. Qed.

Lemma mono_set_grp f : preserves proto_mono (modify (fun s => set_grp (f s) s)).
Proof. apply preserves_modify. intros s. destruct s; cbn. repeat split; auto. Qed.
Lemma mono_mod_groups f : preserves proto_mono (mod_groups f).
Proof. apply mono_set_grp. Qed.
Lemma mono_set_ptp f : preserves proto_mono (modify (fun s => set_ptp (f s) s)).
Proof. apply preserves_modify. intros s. destruct s; cbn. repeat split; auto. Qed.
Lemma mono_set_world f : preserves proto_mono (modify (fun s => set_world (f s) s)).
Proof. apply preserves_modify. intros s. destruct s; cbn. repeat split; auto. Qed.
Lemma mono_set_syn f :
  (forall y, syn_mono y (f y)) -> preserves proto_mono (modify (fun s => set_syn (f (syn s)) s)).
Proof. intros Hf. apply preserves_modify. intros s. destruct s; cbn. split; auto. Qed.

End frames.

#[export] Hint Resolve mono_send mono_send_control mono_on_io mono_mod_groups
  mono_set_ptp mono_set_world mono_set_grp : preserves.

(** The laws an implementation of [PortObserver] promises. *)
Class PortObserverLaws (O W : Type) `{PO : PortObserver O W} := {
  po_on_packet_same o from to d len org : preserves proto_same (po_on_packet o from to d len org);
  po_on_control_same o ct from to : preserves proto_same (po_on_control o ct from to);
  po_sync_done_same : preserves proto_same po_sync_done
}.

Section handlers.
Context {O W : Type} `{PL : PortObserverLaws O W}.
Context (order : gmap Z GroupInfo -> list (Z * GroupInfo)).
Abbreviation state := (pst O W).

Lemma mono_on_packet o from to d len org : preserves proto_mono (po_on_packet o from to d len org).
Proof. eapply preserves_weaken; [apply proto_same_mono|apply po_on_packet_same]. Qed.
Lemma mono_on_control o ct from to : preserves proto_mono (po_on_control o ct from to).
Proof. eapply preserves_weaken; [apply proto_same_mono|apply po_on_control_same]. Qed.
Lemma mono_sync_done : preserves proto_mono po_sync_done.
Proof. eapply preserves_weaken; [apply proto_same_mono|apply po_sync_done_same]. Qed.
#[local] Hint Resolve mono_on_packet mono_on_control mono_sync_done : preserves.

Lemma syn_mono_ready who y : syn_mono y (mark_ready who y).
Proof. destruct y; repeat split; cbn; set_solver. Qed.
Lemma syn_mono_go_sent y : syn_mono y (mark_go_sent y).
Proof. by destruct y; repeat split; cbn. Qed.
Lemma syn_mono_go_received y : syn_mono y (mark_go_received y).
Proof. by destruct y; repeat split; cbn. Qed.

Lemma mono_handle_ready c : preserves proto_mono (handle_ready (O := O) (W := W) c).
Proof.
  unfold handle_ready. preserves.
  - apply mono_set_syn, syn_mono_ready.
  - apply mono_set_syn, syn_mono_go_sent.
Qed.

Lemma mono_handle_go : preserves proto_mono handle_go.
Proof. unfold handle_go. preserves. apply mono_set_syn, syn_mono_go_received. Qed.

Lemma mono_broadcast_group_info gid : preserves proto_mono (broadcast_group_info (O := O) (W := W) gid).
Proof. unfold broadcast_group_info. preserves. Qed.

Lemma mono_set_current_group gid : preserves proto_mono (set_current_group (O := O) (W := W) gid).
Proof.
  unfold set_current_group. preserves. apply mono_broadcast_group_info.
Qed.
#[local] Hint Resolve mono_handle_ready mono_handle_go mono_set_current_group : preserves.

Lemma mono_handle_sync_req c : preserves proto_mono (handle_sync_req (O := O) (W := W) c).
Proof. unfold handle_sync_req. preserves. Qed.
Lemma mono_handle_sync_resp c t : preserves proto_mono (handle_sync_resp (O := O) (W := W) c t).
Proof. unfold handle_sync_resp. preserves. Qed.
Lemma mono_handle_delay_req c t : preserves proto_mono (handle_delay_req (O := O) (W := W) c t).
Proof. unfold handle_delay_req. preserves. Qed.
Lemma mono_handle_delay_resp t : preserves proto_mono (handle_delay_resp (O := O) (W := W) t).
Proof. unfold handle_delay_resp. destruct (scan_2lld t). preserves; apply mono_set_world || apply mono_set_ptp. Qed.
Lemma mono_get_group_of v : preserves proto_mono (get_group_of (O := O) (W := W) order v).
Proof. unfold get_group_of. preserves. Qed.
Lemma mono_set_group_for_vm v g : preserves proto_mono (set_group_for_vm (O := O) (W := W) v g).
Proof. unfold set_group_for_vm. preserves. Qed.
Lemma mono_get_current_group : preserves proto_mono (get_current_group (O := O) (W := W)).
Proof. unfold get_current_group. preserves. Qed.
#[local] Hint Resolve mono_handle_sync_req mono_handle_sync_resp mono_handle_delay_req
  mono_handle_delay_resp mono_get_group_of mono_set_group_for_vm mono_get_current_group : preserves.

Lemma mono_handle_group_move_request m :
  preserves proto_mono (handle_group_move_request (O := O) (W := W) order m).
Proof. unfold handle_group_move_request. preserves. Qed.
Lemma mono_handle_group_move_notify t :
  preserves proto_mono (handle_group_move_notify (O := O) (W := W) t).
Proof. unfold handle_group_move_notify. preserves. Qed.
Lemma mono_handle_group_assign t : preserves proto_mono (handle_group_assign (O := O) (W := W) t).
Proof. unfold handle_group_assign. preserves. Qed.
Lemma mono_handle_group_register m :
  preserves proto_mono (handle_group_register (O := O) (W := W) order m).
Proof. unfold handle_group_register. preserves. Qed.

Lemma mono_handle_control c m : preserves proto_mono (handle_control order c m).
Proof.
  intros s. unfold handle_control.
  destruct (control m); try (case_match); try reflexivity;
    first [apply mono_handle_ready|apply mono_handle_go|apply mono_handle_sync_req
          |apply mono_handle_sync_resp|apply mono_handle_delay_req|apply mono_handle_delay_resp
          |apply mono_handle_group_move_request|apply mono_handle_group_move_notify
          |apply mono_handle_group_assign|apply mono_handle_group_register].
Qed.
#[local] Hint Resolve mono_handle_control : preserves.

Lemma mono_forward_to c m po : preserves proto_mono (forward_to order c m po).
Proof. unfold forward_to. preserves. Qed.
#[local] Hint Resolve mono_forward_to : preserves.

Lemma mono_notify_by_port c : preserves proto_mono (notify_by_port order c).
Proof. unfold notify_by_port. preserves. Qed.

Lemma mono_update pnum f o : preserves proto_mono (update order pnum f o).
Proof.
  intros s. unfold update. case_match; [reflexivity|]. case_match; [reflexivity|].
  apply mono_notify_by_port.
Qed.

(** *** The start barrier *)

(** The exact effect of a READY: the sender joins the ready set, and GO goes
    out, once, when the set is complete. *)
Lemma handle_ready_spec c (s : state) :
  let y := mark_ready (str (mac (c_from c))) (syn s) in
  if negb (sync_go_sent y) && all_ready y
  then exists r w, send_control (control_local y) {| mac := BROADCAST; port := port (control_local y) |}
                     GO 0 [] (set_syn y s) = (Ok r, set_world w (set_syn y s)) /\
       handle_ready c s = (Ok Continue, set_world w (set_syn (mark_go_sent y) s))
  else handle_ready c s = (Ok Continue, set_syn y s).
Proof.
  intros y. unfold handle_ready.
  rewrite (bind_ok _ _ _ tt (set_syn y s)) by done.
  rewrite (bind_ok _ _ _ y (set_syn y s)) by (by destruct s).
  destruct (negb (sync_go_sent y) && all_ready y); [|done].
  destruct (send_control_total (control_local y) {| mac := BROADCAST; port := port (control_local y) |}
              GO 0 [] (set_syn y s)) as (r & w & Hs). exists r, w. split; [exact Hs|].
  rewrite (bind_ok _ _ _ _ _ Hs). cbn. by destruct s.
Qed.

End handlers.

(** ** The group map *)

Definition in_group (m : gmap Z GroupInfo) (gid vm : Z) : Prop := vm ∈ members (group_entry gid m).

(** Every VM is in at most one group. *)
Definition partitioned (m : gmap Z GroupInfo) : Prop :=
  forall vm g1 g2, in_group m g1 vm -> in_group m g2 vm -> g1 = g2.

Lemma in_group_insert m gid vm gid' vm' :
  in_group (insert_member gid vm m) gid' vm' <->
  (gid' = gid /\ vm' = vm) \/ in_group m gid' vm'.
Proof.
  unfold in_group, insert_member, group_entry. rewrite lookup_insert.
  case_decide; subst; cbn; set_solver.
Qed.

Lemma in_group_erase m gid vm gid' vm' :
  in_group (erase_member gid vm m) gid' vm' <->
  in_group m gid' vm' /\ ~ (gid' = gid /\ vm' = vm).
Proof.
  unfold in_group, erase_member, group_entry. rewrite lookup_insert.
  case_decide; subst; cbn; set_solver.
Qed.

Lemma in_group_put m gid id gid' vm' :
  in_group (put_group_id gid id m) gid' vm' <-> in_group m gid' vm'.
Proof.
  unfold in_group, put_group_id, group_entry. rewrite lookup_insert. by case_decide; subst.
Qed.

Lemma in_group_remove_all m vm gid' vm' :
  in_group ((fun g => {| gi_group_id := gi_group_id g; members := members g ∖ {[vm]} |}) <$> m) gid' vm' <->
  in_group m gid' vm' /\ vm' <> vm.
Proof.
  unfold in_group, group_entry. rewrite lookup_fmap.
  destruct (m !! gid') as [g|]; cbn; set_solver.
Qed.

Lemma in_group_lookup m gid vm :
  in_group m gid vm <-> exists g, m !! gid = Some g /\ vm ∈ members g.
Proof.
  unfold in_group, group_entry. destruct (m !! gid) as [g|]; cbn; [naive_solver|].
  split; [set_solver|naive_solver].
Qed.

(** [get_group_of] finds a group that holds the VM, whatever the enumeration
    order, and finds one whenever there is one. *)
Lemma get_group_of_list_spec m l vm :
  l ≡ₚ map_to_list m ->
  match get_group_of_list l vm with
  | Some g => in_group m g vm
  | None => forall g, ~ in_group m g vm
  end.
Proof.
  intros Hp. unfold get_group_of_list.
  destruct (list_find _ l) as [[i [gid g]]|] eqn:E.
  - apply list_find_Some in E as (Hi & Hin & _). apply in_group_lookup. exists g. split; [|done].
    apply elem_of_map_to_list. rewrite <- Hp. by eapply list_elem_of_lookup_2.
  - apply list_find_None in E. intros gid (g & Hg & Hin)%in_group_lookup.
    rewrite Forall_forall in E. apply (E (gid, g)); [|done].
    rewrite Hp. by apply elem_of_map_to_list.
Qed.

Lemma set_group_for_vm_groups {O W} vm gid (s : pst O W) :
  exists s', set_group_for_vm vm gid s = (Ok tt, s') /\
  forall g v, in_group (groups (grp s')) g v <->
              (v = vm /\ g = gid) \/ (v <> vm /\ in_group (groups (grp s)) g v).
Proof.
  eexists. split; [reflexivity|]. intros g v. cbn.
  rewrite in_group_insert, in_group_remove_all. naive_solver.
Qed.

(** ** The authentication code *)

Lemma key_byte i : is_u8 (nth (i mod SECRET_KEY_LEN) SECRET_KEY 0).
Proof.
  assert (i mod SECRET_KEY_LEN < 4)%nat as H by (apply Nat.mod_upper_bound; done).
  destruct (i mod SECRET_KEY_LEN)%nat as [|[|[|[|]]]]; cbn; [done..|lia].
Qed.

Lemma mac_step_byte acc c i :
  is_u8 acc -> is_u8 c -> is_u8 (Z.lxor acc (Z.lxor c (nth (i mod SECRET_KEY_LEN) SECRET_KEY 0))).
Proof. intros Ha Hc. apply lxor_bound; [done|]. apply lxor_bound; [done|apply key_byte]. Qed.

Lemma mac_loop_app i a b acc : mac_loop i (a ++ b) acc = mac_loop (i + length a) b (mac_loop i a acc).
Proof.
  revert i acc. induction a as [|c a IH]; intros i acc; cbn; [by rewrite Nat.add_0_r|].
  rewrite IH. f_equal. lia.
Qed.

Lemma mac_loop_byte i buf acc : is_u8 acc -> is_u8 (mac_loop i buf acc).
Proof. revert i acc. induction buf as [|c buf IH]; intros; cbn; [done|]. apply IH, u8_range. Qed.

(** The code depends injectively on the accumulator. *)
Lemma mac_loop_inj i buf x y :
  is_u8 x -> is_u8 y -> bytes_ok buf -> mac_loop i buf x = mac_loop i buf y -> x = y.
Proof.
  intros Hx Hy Hb. revert i x y Hx Hy. induction Hb as [|c buf Hc _ IH]; intros i x y Hx Hy; cbn; [done|].
  intros H. apply IH in H; [|apply u8_range..].
  rewrite !u8_id in H by (by apply mac_step_byte). by eapply lxor_cancel_r.
Qed.

Definition no_nul (s : bytes) : Prop := Forall (fun c => negb (c =? 0) = true) s.

Lemma generate_mac_no_nul s : no_nul s -> generate_mac s = mac_loop 0 s 0.
Proof. intros H. unfold generate_mac. by rewrite c_str_nop. Qed.

Lemma generate_mac_byte s : is_u8 (generate_mac s).
Proof. by apply mac_loop_byte. Qed.
