(* ===== verification/PublishSubscriber.v ===== *)
(** * Publish/subscribe registry (src/src/publish_subscriber.h, vehicle_sensor_codes.h)

    Which data types a component produces, who subscribed to each with which
    period, and when each subscriber is next due. *)

From S2P Require Import Prelude Text World.

(** [enum class VehicleDataType : uint16_t]; a value cast from a message may be
    any 16-bit code. *)
Module VehicleDataType.
Definition ENGINE_RPM : Z := 1.
Definition VEHICLE_SPEED : Z := 2.
Definition ENGINE_TEMPERATURE : Z := 3.
Definition FUEL_LEVEL : Z := 4.
Definition BATTERY_VOLTAGE : Z := 5.
Definition OIL_PRESSURE : Z := 6.
Definition GPS_LOCATION : Z := 7.
Definition AMBIENT_TEMPERATURE : Z := 8.
End VehicleDataType.

Module PublishSubscriber.

Definition UINT64_MAX : Z := 2 ^ 64 - 1.

Record Subscription := {
  who : bytes;
  period_us : Z;
  next_due_us : Z
}.

Record pubsub := {
  capabilities_ : gset Z;
  subs_ : gmap Z (list Subscription)
}.

Definition init : pubsub := {| capabilities_ := ∅; subs_ := ∅ |}.

Definition add_capability (t : Z) (p : pubsub) : pubsub :=
  {| capabilities_ := {[t]} ∪ capabilities_ p; subs_ := subs_ p |}.
Definition remove_capability (t : Z) (p : pubsub) : pubsub :=
  {| capabilities_ := capabilities_ p ∖ {[t]}; subs_ := subs_ p |}.
Definition supports (p : pubsub) (t : Z) : bool := bool_decide (t ∈ capabilities_ p).

(** The loop that looks for an existing subscription of [w]: [None] when there
    is none. *)
Fixpoint refresh (w : bytes) (period due : Z) (l : list Subscription) : option (list Subscription) :=
  match l with
  | [] => None
  | s :: l' =>
      if bool_decide (who s = w)
      then Some ({| who := who s; period_us := period; next_due_us := due |} :: l')
      else (cons s) <$> refresh w period due l'
  end.

(** [now] is the clock reading taken by [subscribe]. *)
Definition subscribe (now : Z) (t : Z) (w : bytes) (period : Z) (p : pubsub) : bool * pubsub :=
  if negb (supports p t) || (period =? 0) then (false, p)
  else
    let l := default [] (subs_ p !! t) in
    let due := u64 (now + period) in
    let l' := match refresh w period due l with
              | Some l' => l'
              | None => l ++ [{| who := w; period_us := period; next_due_us := due |}]
              end in
    (true, {| capabilities_ := capabilities_ p; subs_ := <[t := l']> (subs_ p) |}).

(** The inner loop of [get_due_subscribers] over one subscription list. *)
Definition is_due (now : Z) (s : Subscription) : bool := next_due_us s <=? now.

Definition advance (now : Z) (s : Subscription) : Subscription :=
  if is_due now s
  then {| who := who s; period_us := period_us s; next_due_us := u64 (next_due_us s + period_us s) |}
  else s.

Definition due_in (now : Z) (l : list Subscription) : list bytes :=
  who <$> filter (fun s => is_due now s = true) l.

(** The outer loop over the types to check. *)
Fixpoint collect_due (now : Z) (types : list Z) (p : pubsub) : list bytes * pubsub :=
  match types with
  | [] => ([], p)
  | t :: ts =>
      if negb (supports p t) then collect_due now ts p
      else match subs_ p !! t with
           | None => collect_due now ts p
           | Some l =>
               let p' := {| capabilities_ := capabilities_ p; subs_ := <[t := advance now <$> l]> (subs_ p) |} in
               let '(due, p'') := collect_due now ts p' in
               (due_in now l ++ due, p'')
           end
  end.

Section order.
(** The enumeration order of [std::unordered_set] is not specified. *)
Context (cap_order : gset Z -> list Z).

Definition get_due_subscribers (now : Z) (t : Z) (allTypes : bool) (p : pubsub)
  : list bytes * pubsub :=
  collect_due now (if allTypes then cap_order (capabilities_ p) else [t]) p.
End order.

(** The smallest [next_due_us] of all subscriptions, [UINT64_MAX] if none is below it. *)
Definition min_due (l : list Subscription) (d : Z) : Z :=
  fold_left (fun d s => if next_due_us s <? d then next_due_us s else d) l d.

Definition next_due (p : pubsub) : Z := map_fold (fun _ l d => min_due l d) UINT64_MAX (subs_ p).

(** How long [wait_until_next_due] sleeps, in microseconds: the unsigned
    difference becomes the signed count of a [std::chrono::microseconds], and
    [sleep_for] returns at once for a duration that is not positive. *)
Definition wait_until_next_due (now : Z) (p : pubsub) : Z :=
  let nd := next_due p in
  if nd =? UINT64_MAX then 1000000
  else if now <? nd then Z.max 0 (i64 (u64 (nd - now))) else 0.

(** ** Invariant: one subscription per subscriber and type, for a positive
    64-bit period. *)

Definition list_ok (l : list Subscription) : Prop :=
  NoDup (who <$> l) /\ Forall (fun s => 0 < period_us s < 2 ^ 64 /\ is_u64 (next_due_us s)) l.

Definition pubsub_ok (p : pubsub) : Prop := map_Forall (fun _ l => list_ok l) (subs_ p).

(** ** Lemmas *)

Lemma registry_init_ok : pubsub_ok init.
Proof. apply map_Forall_empty. Qed.

Lemma refresh_who w period due l l' : refresh w period due l = Some l' -> who <$> l' = who <$> l.
Proof.
  revert l'. induction l as [|s l IH]; intros l'; cbn; [done|].
  case_bool_decide as E; [by intros [= <-]; cbn|].
  destruct (refresh w period due l) as [l0|]; cbn; [|done].
  intros [= <-]. cbn. f_equal. by apply IH.
Qed.

Lemma refresh_none w period due l : refresh w period due l = None -> w ∉ who <$> l.
Proof.
  induction l as [|s l IH]; cbn; [set_solver|].
  case_bool_decide as E; [done|].
  destruct (refresh w period due l); cbn; [done|]. intros _.
  specialize (IH eq_refl). set_solver.
Qed.

Lemma refresh_some w period due l l' :
  refresh w period due l = Some l' ->
  {| who := w; period_us := period; next_due_us := due |} ∈ l' /\
  (forall s, s ∈ l' -> s ∈ l \/ s = {| who := w; period_us := period; next_due_us := due |}).
Proof.
  revert l'. induction l as [|s l IH]; intros l'; cbn; [done|].
  case_bool_decide as E; [intros [= <-]; subst; set_solver|].
  destruct (refresh w period due l) as [l0|]; cbn; [|done].
  intros [= <-]. destruct (IH l0 eq_refl). set_solver.
Qed.

Lemma filter_none_who w l : w ∉ who <$> l -> filter (fun s => who s = w) l = [].
Proof.
  induction l as [|s l IH]; [done|]. rewrite fmap_cons. intros Hn.
  rewrite filter_cons, decide_False by set_solver. apply IH. set_solver.
Qed.

(** After a refresh the subscriber has exactly the new entry, the others theirs. *)
Lemma refresh_filter w period due l l' :
  NoDup (who <$> l) -> refresh w period due l = Some l' ->
  filter (fun s => who s = w) l' = [{| who := w; period_us := period; next_due_us := due |}] /\
  filter (fun s => who s <> w) l' = filter (fun s => who s <> w) l.
Proof.
  revert l'. induction l as [|s l IH]; intros l' Hn; cbn [refresh]; [done|].
  inversion Hn as [|?? Hs Hn']; subst. case_bool_decide as E.
  - intros [= <-]. rewrite !filter_cons. cbn [who]. rewrite E.
    rewrite (decide_True (P := w = w)) by done. rewrite !(decide_False (P := w <> w)) by (by intros []).
    rewrite filter_none_who by (by rewrite <- E). done.
  - destruct (refresh w period due l) as [l0|]; [|done]. intros [= <-].
    destruct (IH l0 Hn' eq_refl) as [H1 H2]. rewrite !filter_cons.
    rewrite decide_False by done. rewrite !(decide_True (P := who s <> w)) by done. by rewrite H1, H2.
Qed.

Lemma subscribe_ok now t w period p :
  0 <= period < 2 ^ 64 -> pubsub_ok p -> pubsub_ok (subscribe now t w period p).2.
Proof.
  intros Hp Hok. unfold subscribe.
  destruct (negb (supports p t) || (period =? 0)) eqn:E; [done|]. cbn.
  apply orb_false_elim in E as [_ E]. apply Z.eqb_neq in E.
  apply map_Forall_insert_2; [|done].
  assert (list_ok (default [] (subs_ p !! t))) as [Hn Hf].
  { destruct (subs_ p !! t) eqn:El; cbn; [by apply (Hok t)|]. split; constructor. }
  pose proof (u64_range (now + period)) as Hr.
  destruct (refresh w period (u64 (now + period)) _) as [l'|] eqn:Er.
  - split; [by rewrite (refresh_who _ _ _ _ _ Er)|].
    rewrite Forall_forall in *. intros s Hs.
    destruct (proj2 (refresh_some _ _ _ _ _ Er) s Hs) as [ | -> ]; [by auto|]. cbn. split; [lia|done].
  - split.
    + rewrite fmap_app. apply NoDup_app. split; [done|]. split.
      * pose proof (refresh_none _ _ _ _ Er). cbn. set_solver.
      * apply NoDup_singleton.
    + apply Forall_app. split; [done|]. constructor; [|constructor]. cbn. split; [lia|done].
Qed.

Lemma advance_who now s : who (advance now s) = who s.
Proof. unfold advance. by case_match. Qed.

Lemma advance_list_ok now l : list_ok l -> list_ok (advance now <$> l).
Proof.
  intros [Hn Hf]. split.
  - rewrite <- list_fmap_compose.
    rewrite (list_fmap_ext _ who l); [done|]. intros i x _. apply advance_who.
  - apply Forall_fmap. eapply Forall_impl; [exact Hf|]. intros s [? ?]. cbn.
    unfold advance. case_match; cbn; [|done]. split; [done|apply u64_range].
Qed.

Lemma collect_due_ok now ts p : pubsub_ok p -> pubsub_ok (collect_due now ts p).2.
Proof.
  revert p. induction ts as [|t ts IH]; intros p Hp; cbn; [done|].
  destruct (negb (supports p t)); [by apply IH|].
  destruct (subs_ p !! t) as [l|] eqn:E; [|by apply IH].
  specialize (IH {| capabilities_ := capabilities_ p; subs_ := <[t := advance now <$> l]> (subs_ p) |}).
  destruct (collect_due _ _ _) as [due p''] eqn:Ec. cbn in *. apply IH.
  apply map_Forall_insert_2; [|done]. apply advance_list_ok. by apply (Hp t).
Qed.

Lemma min_due_le l d : min_due l d <= d /\ Forall (fun s => min_due l d <= next_due_us s) l.
Proof.
  unfold min_due. revert d. induction l as [|s l IH]; intros d; cbn; [split; [lia|constructor]|].
  destruct (IH (if next_due_us s <? d then next_due_us s else d)) as [H1 H2].
  destruct (Z.ltb_spec (next_due_us s) d); split; try lia; constructor; try done; lia.
Qed.

Lemma min_due_in l d : min_due l d = d \/ Exists (fun s => min_due l d = next_due_us s) l.
Proof.
  unfold min_due. revert d. induction l as [|s l IH]; intros d; cbn; [by left|].
  destruct (IH (if next_due_us s <? d then next_due_us s else d)) as [H|H].
  - rewrite H. destruct (next_due_us s <? d); [right; by left|by left].
  - right. by right.
Qed.

End PublishSubscriber.
