(* ===== verification/Communicator.v ===== *)
(** * The communicator (src/src/communicator.h)

    The endpoint object of a component: it numbers and builds outgoing
    messages, and its two port observers (one per channel) parse incoming
    packets, queue them and hand a copy to the component. *)

From S2P Require Import Prelude Text Ethernet World EngineEthernet EngineShm Nic ClockSyncer Wire Protocol.
Import Ethernet Wire.

Module Communicator.

Record Rx := { rx_msg : Message; rx_from : Endpoint; rx_to : Endpoint; rx_origin : ChannelOrigin }.

(** [PortObserverImpl] *)
Record observer := { o_origin : ChannelOrigin; o_port : Z }.
#[export] Instance observer_eq_dec : EqDecision observer.
Proof. solve_decision. Defined.

Section comm.
Context {C : Type}.

Record comm := {
  local : Endpoint;
  next_msg_id : Z;             (* std::atomic<uint64_t> *)
  log : list bytes;            (* lines written to the log file *)
  queue : list Rx;
  attached : nat;              (* how often the component was attached *)
  has_on_sync_done : bool;
  app : C
}.

Definition set_next_id (n : Z) (c : comm) : comm :=
  {| local := local c; next_msg_id := n; log := log c; queue := queue c; attached := attached c;
     has_on_sync_done := has_on_sync_done c; app := app c |}.
Definition set_log (l : list bytes) (c : comm) : comm :=
  {| local := local c; next_msg_id := next_msg_id c; log := l; queue := queue c;
     attached := attached c; has_on_sync_done := has_on_sync_done c; app := app c |}.
Definition set_queue (q : list Rx) (c : comm) : comm :=
  {| local := local c; next_msg_id := next_msg_id c; log := log c; queue := q;
     attached := attached c; has_on_sync_done := has_on_sync_done c; app := app c |}.
Definition set_attached (n : nat) (c : comm) : comm :=
  {| local := local c; next_msg_id := next_msg_id c; log := log c; queue := queue c;
     attached := n; has_on_sync_done := has_on_sync_done c; app := app c |}.
Definition set_has_on_sync_done (b : bool) (c : comm) : comm :=
  {| local := local c; next_msg_id := next_msg_id c; log := log c; queue := queue c;
     attached := attached c; has_on_sync_done := b; app := app c |}.
Definition set_app (a : C) (c : comm) : comm :=
  {| local := local c; next_msg_id := next_msg_id c; log := log c; queue := queue c;
     attached := attached c; has_on_sync_done := has_on_sync_done c; app := a |}.

End comm.
Arguments comm : clear implicits.

Abbreviation node C := (Protocol.pst observer (comm C)).

(** What the communicator calls in the component that owns it. *)
Class RxObserver (C : Type) := {
  on_receive : Rx -> ChannelOrigin -> M (node C) unit;
  on_sync_done : M (node C) unit
}.

Section operations.
Context {C : Type}.

Definition mod_comm (f : comm C -> comm C) : M (node C) unit :=
  modify (fun s => Protocol.set_upper (f (Protocol.upper s)) s).

Definition get_comm : M (node C) (comm C) := gets Protocol.upper.

(** The constructor: [log_opened] is whether the log file could be opened. *)
Definition construct (loc : Endpoint) (log_opened : bool) (a : C) : outcome (comm C) :=
  if log_opened
  then Ok {| local := loc; next_msg_id := 0; log := []; queue := []; attached := 0;
             has_on_sync_done := false; app := a |}
  else Throw runtime_error.

Definition log_file_name (loc : Endpoint) : bytes :=
  bs "/mnt/logs/vm_" ++ dec (vm_id_from_mac (mac loc)) ++ bs "_" ++ dec (port loc) ++ bs ".log".

(** The line is formatted into a 256-byte buffer. *)
Definition logf (line : bytes) : M (node C) unit :=
  mod_comm (fun c => set_log (log c ++ [take 255 line ++ [10]]) c).

Definition log_text (what : bytes) (group vm pt time ty id : Z) : bytes :=
  bs "[" ++ what ++ bs " GROUP=" ++ dec group ++ bs " VM=" ++ dec vm ++ bs " PORT=" ++ dec pt ++
  bs " TIME=" ++ dec time ++ bs " TYPE=" ++ dec ty ++ bs " ID=" ++ dec id ++ bs "]" ++ [10].

Definition set_up_port_observer (p : Z) : M (node C) unit :=
  Protocol.attach {| o_origin := OEthernet; o_port := u16 p |} ;;
  Protocol.attach {| o_origin := OSharedMemory; o_port := u16 p |}.

Definition destroy (p : Z) : M (node C) unit :=
  Protocol.detach {| o_origin := OEthernet; o_port := u16 p |} ;;
  Protocol.detach {| o_origin := OSharedMemory; o_port := u16 p |}.

Definition send (to : Endpoint) (ty : Z) (data : bytes) : M (node C) Z :=
  send_time ← Protocol.on_io get_microseconds_now;
  c ← get_comm;
  let id := next_msg_id c in
  mod_comm (set_next_id (u64 (id + 1))) ;;
  let vm_id := vm_id_from_mac (mac (local c)) in
  cur ← Protocol.get_current_group;
  let gid := u8 cur in
  let msg := {| group_id := gid; orig_vm := vm_id; orig_port := port (local c);
                timestamp := send_time; type := ty; msg_id := id; msgac := 0; body := data;
                control := NONE |} in
  logf (log_text (bs "SEND") gid vm_id (port (local c)) send_time ty id) ;;
  Protocol.send (local c) to (build_message msg).

Definition send_message (to : Endpoint) (msg : Message) : M (node C) Z :=
  c ← get_comm;
  logf (log_text (bs "SEND") (group_id msg) (orig_vm msg) (orig_port msg) (timestamp msg)
          (type msg) (msg_id msg)) ;;
  Protocol.send (local c) to (build_message msg).

(** [receive] pops the front of the queue; [None] is a caller that stays
    blocked.  [try_receive] does not block. *)
Definition receive : M (node C) (option Rx) :=
  c ← get_comm;
  match queue c with
  | [] => mret None
  | r :: q => mod_comm (set_queue q) ;; mret (Some r)
  end.

Definition try_receive : M (node C) (bool * option Rx) :=
  r ← receive;
  mret (match r with Some x => (true, Some x) | None => (false, None) end).

Definition enqueue (r : Rx) : M (node C) unit := mod_comm (fun c => set_queue (queue c ++ [r]) c).

Definition attach : M (node C) unit := mod_comm (fun c => set_attached (S (attached c)) c).
Definition detach : M (node C) unit := mod_comm (set_attached 0).
Definition set_on_sync_done : M (node C) unit := mod_comm (set_has_on_sync_done true).

End operations.

Section callbacks.
Context {C : Type} `{RO : RxObserver C}.

Definition notify (rx : Rx) (o : ChannelOrigin) : M (node C) unit :=
  c ← get_comm;
  for_each (replicate (attached c) tt) (fun _ => on_receive rx o).

(** [PortObserverImpl::on_packet]; the body is trimmed but not cut at a NUL. *)
Definition on_packet (self : observer) (from to : Endpoint) (data : bytes) (len : Z)
    (origin_of_packet : ChannelOrigin) : M (node C) unit :=
  if decide (o_origin self <> origin_of_packet) then skip
  else
    recv_time ← Protocol.on_io get_microseconds_now;
    msg ← lift (parse_message (take (Z.to_nat len) data));
    let msg := set_body (trim (body msg)) msg in
    logf (log_text (bs "RECV") (group_id msg) (orig_vm msg) (orig_port msg) recv_time
            (type msg) (msg_id msg)) ;;
    let rx := {| rx_msg := msg; rx_from := from; rx_to := to; rx_origin := origin_of_packet |} in
    enqueue rx ;;
    notify rx origin_of_packet.

Definition on_control (self : observer) (ty : ControlType) (from to : Endpoint) : M (node C) unit :=
  match ty with
  | GO => c ← get_comm; if has_on_sync_done c then on_sync_done else skip
  | _ => skip
  end.

#[export] Instance comm_port_observer : Protocol.PortObserver observer (comm C) := {|
  Protocol.po_port := o_port;
  Protocol.po_on_packet := on_packet;
  Protocol.po_on_control := on_control;
  Protocol.po_sync_done := on_sync_done
|}.
End callbacks.

End Communicator.
