(* ===== verification/Vehicle.v ===== *)
(** * Vehicle components and gateway
      (src/src/car_component.h, components.h, gateway.h, ports.h)

    [CarComponent] with its send helpers and subscription handling, the five
    ECU components, and the gateway that bridges the shared-memory bus of one
    vehicle and the Ethernet network.  The virtual methods [on_receive] and
    [on_tick] dispatch on the component's kind. *)

From Stdlib Require Import SpecFloat.
From S2P Require Import Prelude Text Ethernet World EngineEthernet EngineShm Nic ClockSyncer Wire Protocol Communicator PublishSubscriber.
Import Ethernet Wire Communicator.

Module Ports.
Definition GATEWAY_PORT : Z := u16 (-1).
Definition POWERTRAIN_PORT : Z := 101.
Definition BRAKE_PORT : Z := 102.
Definition STEERING_PORT : Z := 103.
Definition TRANSMISSION_PORT : Z := 104.
Definition AIRBAG_PORT : Z := 105.
Definition ETYPE : Z := 0x123.
Definition PORT : Z := 123.
End Ports.
Import Ports.

Module Vehicle.

(** ** Values *)

(** [std::variant<int, double, std::string, bool>] *)
Inductive VehicleValue :=
| VInt (z : Z)
| VDouble (x : spec_float)
| VString (s : bytes)
| VBool (b : bool).

Record VehicleData := { vd_type : Z; vd_value : VehicleValue }.

Definition pad6 (n : Z) : bytes :=
  let d := dec_nat n in replicate (6 - length d) 48 ++ d.

(** [a / b] rounded to the nearest integer, ties to even. *)
Definition div_half_even (a b : Z) : Z :=
  let q := a / b in
  let r := a mod b in
  if 2 * r <? b then q else if b <? 2 * r then q + 1 else if Z.even q then q else q + 1.

(** [std::to_string(double)], that is [printf "%f"]: six decimals of the exact
    binary value. *)
Definition dec_double (x : spec_float) : bytes :=
  let sign (s : bool) := if s then [45] else [] in
  match x with
  | S754_zero s => sign s ++ bs "0.000000"
  | S754_infinity s => sign s ++ bs "inf"
  | S754_nan => bs "nan"
  | S754_finite s m e =>
      let scaled := if 0 <=? e then Z.pos m * 2 ^ e * 10 ^ 6
                    else div_half_even (Z.pos m * 10 ^ 6) (2 ^ (- e)) in
      sign s ++ dec_nat (scaled / 10 ^ 6) ++ [46] ++ pad6 (scaled mod 10 ^ 6)
  end.

Definition vehicle_data_to_string (d : VehicleData) : bytes :=
  match vd_value d with
  | VInt z => dec z
  | VDouble x => dec_double x
  | VString s => s
  | VBool b => if b then bs "true" else bs "false"
  end.

(** ** State *)

Record gateway_state := {
  gw_vm_id : Z;
  total_sync_vms : Z;
  sync_master : bool;
  sync_done : bool;
  last_sync_request_us : Z;
  did_request : bool            (* the static local of on_tick *)
}.

Inductive kind :=
| Powertrain (rpm : Z)
| Brake
| Steering (angle : Z)
| Transmission (gear : Z)
| Airbag
| Gateway (g : gateway_state).

Record component := {
  name : bytes;
  cport : Z;
  my_mac : Address;
  to_gate : Endpoint;
  to_bcast : Endpoint;
  peer_ports : list Z;
  pubSub : PublishSubscriber.pubsub;
  data : list (Z * VehicleData);     (* in enumeration order *)
  vm_id : Z;                         (* int8_t *)
  assigned_group : Z;
  knd : kind
}.

Definition set_peer_ports_field (l : list Z) (c : component) : component :=
  {| name := name c; cport := cport c; my_mac := my_mac c; to_gate := to_gate c;
     to_bcast := to_bcast c; peer_ports := l; pubSub := pubSub c; data := data c;
     vm_id := vm_id c; assigned_group := assigned_group c; knd := knd c |}.
Definition set_pubSub (p : PublishSubscriber.pubsub) (c : component) : component :=
  {| name := name c; cport := cport c; my_mac := my_mac c; to_gate := to_gate c;
     to_bcast := to_bcast c; peer_ports := peer_ports c; pubSub := p; data := data c;
     vm_id := vm_id c; assigned_group := assigned_group c; knd := knd c |}.
Definition set_kind (k : kind) (c : component) : component :=
  {| name := name c; cport := cport c; my_mac := my_mac c; to_gate := to_gate c;
     to_bcast := to_bcast c; peer_ports := peer_ports c; pubSub := pubSub c; data := data c;
     vm_id := vm_id c; assigned_group := assigned_group c; knd := k |}.
Definition set_identity (v g : Z) (c : component) : component :=
  {| name := name c; cport := cport c; my_mac := my_mac c; to_gate := to_gate c;
     to_bcast := to_bcast c; peer_ports := peer_ports c; pubSub := pubSub c; data := data c;
     vm_id := v; assigned_group := g; knd := knd c |}.

Abbreviation proc := (node component).

Definition get_app : M proc component := gets (fun s => app (Protocol.upper s)).
Definition mod_app (f : component -> component) : M proc unit :=
  mod_comm (fun c => set_app (f (app c)) c).

(** The constructors of [CarComponent] and of the classes derived from it. *)
Definition kind_name (k : kind) : bytes :=
  match k with
  | Powertrain _ => bs "Powertrain" | Brake => bs "Brake" | Steering _ => bs "Steering"
  | Transmission _ => bs "Transmission" | Airbag => bs "Airbag" | Gateway _ => bs "Gateway"
  end.

(** [initialize_communicator] fills the addresses from the engine's MAC. *)
Definition make_component (k : kind) (p : Z) (m : Address) : component :=
  {| name := kind_name k; cport := p; my_mac := m;
     to_gate := {| mac := m; port := GATEWAY_PORT |};
     to_bcast := {| mac := BROADCAST; port := GATEWAY_PORT |};
     peer_ports := []; pubSub := PublishSubscriber.init; data := [];
     vm_id := -1; assigned_group := -1; knd := k |}.

Definition set_peer_ports (ports : list Z) (c : component) : component :=
  set_peer_ports_field (filter (fun p => p <> cport c) ports) c.

(** ** [CarComponent] operations *)

(** A [size_t] count clamped to the string, as [substr] does. *)
Definition substr_sz (s : bytes) (pos : nat) (count : Z) : outcome bytes :=
  substr s pos (Z.to_nat (Z.min (u64 count) (Z.of_nat (length s)))).

Definition send_local (s : bytes) : M proc Z :=
  c ← get_app;
  match find (bs "TO=") s 0, find (bs "DATA=") s 0 with
  | Some pos_to, Some pos_data =>
      port_str ← lift (substr_sz s (pos_to + 3) (Z.of_nat pos_data - Z.of_nat pos_to - 4));
      p ← lift (stoi port_str);
      payload ← lift (substr s (pos_data + 5) (length s));
      Communicator.send {| mac := my_mac c; port := u16 p |} (cport c) payload
  | _, _ => Communicator.send (to_gate c) (cport c) s
  end.

Definition readdress (msg : Message) (gid vm pt : Z) : Message :=
  {| group_id := u8 gid; orig_vm := u8 vm; orig_port := pt; timestamp := timestamp msg;
     type := type msg; msg_id := msg_id msg; msgac := msgac msg; body := body msg;
     control := control msg |}.

Definition set_timestamp (t : Z) (msg : Message) : Message :=
  {| group_id := group_id msg; orig_vm := orig_vm msg; orig_port := orig_port msg; timestamp := t;
     type := type msg; msg_id := msg_id msg; msgac := msgac msg; body := body msg;
     control := control msg |}.

Definition forward_message (rx : Rx) (my_id : Z) : M proc unit :=
  c ← get_app;
  g ← Protocol.get_current_group;
  now ← Protocol.on_io get_microseconds_now;
  Communicator.send_message (to_bcast c)
    (set_timestamp now (readdress (rx_msg rx) g my_id (cport c))) ;;
  skip.

Definition fanout_message (rx : Rx) (my_id : Z) : M proc unit :=
  c ← get_app;
  g ← Protocol.get_current_group;
  for_each (peer_ports c) (fun p =>
    now ← Protocol.on_io get_microseconds_now;
    Communicator.send_message {| mac := my_mac c; port := p |}
      (set_timestamp now (readdress (rx_msg rx) g my_id (cport c))) ;;
    skip).

(** The subscription request in a message body, if it is one. *)
Definition parse_subs (s : bytes) : outcome (option (bytes * Z * Z)) :=
  match find (bs "SUBS=") s 0, find (bs "SUBS_TYPE=") s 0, find (bs "SUBS_PERIOD=") s 0 with
  | Some p1, Some p2, Some p3 =>
      let e p := default (length s) (find [32] s p) in
      addr ← substr s (p1 + 5) (e p1 - (p1 + 5));
      ty_s ← substr s (p2 + 10) (e p2 - (p2 + 10));
      ty ← stoi ty_s;
      per_s ← substr s (p3 + 12) (e p3 - (p3 + 12));
      period ← stoull per_s;
      Ok (Some (addr, u16 ty, period))
  | _, _, _ => Ok None
  end.

Definition digest_subs (rx : Rx) : M proc bool :=
  r ← lift (parse_subs (body (rx_msg rx)));
  match r with
  | None => mret false
  | Some (addr, dtype, period) =>
      c ← get_app;
      if PublishSubscriber.supports (pubSub c) dtype then
        (if period =? 0 then mret true
         else
           now ← Protocol.on_io get_microseconds_now;
           mod_app (fun c => set_pubSub
             (PublishSubscriber.subscribe now dtype addr period (pubSub c)).2 c) ;;
           mret true)
      else mret true
  end.

(** One round of [publisher_loop] after the wait. *)
Definition publish_round (cap_order : gset Z -> list Z) : M proc unit :=
  c ← get_app;
  for_each (data c) (fun '(ty, d) =>
    now ← Protocol.on_io get_microseconds_now;
    c' ← get_app;
    let '(due, ps) := PublishSubscriber.get_due_subscribers cap_order now ty false (pubSub c') in
    mod_app (set_pubSub ps) ;;
    for_each due (fun w =>
      send_local (bs "TO=" ++ w ++ bs " DATA=" ++ vehicle_data_to_string d) ;; skip)).

Definition register_with_coordinator (is_master_node : bool) : M proc unit :=
  if is_master_node then skip
  else
    g ← Protocol.get_current_group;
    coord_vm ← lift (coordinator_for_group g);
    loc ← gets (fun s => local (Protocol.upper s));
    ep ← lift (endpoint_from_vm coord_vm (port loc));
    c ← get_app;
    Protocol.send_control loc ep GROUP_REGISTER 0 (bs "VM_ID=" ++ dec (vm_id c)) ;;
    skip.

(** The condition [wait_for_ack_from_coordinator] waits for. *)
Definition ack_received (s : proc) : bool :=
  Protocol.current_group_id (Protocol.grp s) =? assigned_group (app (Protocol.upper s)).

(** ** [on_receive], [on_tick] and [tick_period_ms] of every class *)

Definition send_text (s : string) : M proc unit := send_local (bs s) ;; skip.

Definition gw_set_done (g : gateway_state) : gateway_state :=
  {| gw_vm_id := gw_vm_id g; total_sync_vms := total_sync_vms g; sync_master := sync_master g;
     sync_done := true; last_sync_request_us := last_sync_request_us g; did_request := did_request g |}.
Definition gw_set_requested (g : gateway_state) : gateway_state :=
  {| gw_vm_id := gw_vm_id g; total_sync_vms := total_sync_vms g; sync_master := sync_master g;
     sync_done := sync_done g; last_sync_request_us := last_sync_request_us g; did_request := true |}.
Definition gw_set_last (t : Z) (g : gateway_state) : gateway_state :=
  {| gw_vm_id := gw_vm_id g; total_sync_vms := total_sync_vms g; sync_master := sync_master g;
     sync_done := sync_done g; last_sync_request_us := t; did_request := did_request g |}.

Definition gateway_on_receive (g : gateway_state) (rx : Rx) : M proc unit :=
  match rx_origin rx with
  | OSharedMemory => forward_message rx (gw_vm_id g)
  | OEthernet => fanout_message rx (gw_vm_id g)
  end.

Definition brake_on_receive (rx : Rx) : M proc unit :=
  if bool_decide (body (rx_msg rx) = bs "brake!") || bool_decide (body (rx_msg rx) = bs "hazard!")
  then send_text "ack-brake" else skip.

Definition steering_on_receive (angle : Z) (rx : Rx) : M proc unit :=
  (if bool_decide (body (rx_msg rx) = bs "steer-left") then
     mod_app (set_kind (Steering (Z.rem (angle + 350) 360)))
   else if bool_decide (body (rx_msg rx) = bs "steer-right") then
     mod_app (set_kind (Steering (Z.rem (angle + 10) 360)))
   else skip) ;;
  send_text "ack-steering".

Definition transmission_on_receive (rx : Rx) : M proc unit := send_text "ack-gear".

Definition airbag_on_receive (rx : Rx) : M proc unit :=
  if bool_decide (body (rx_msg rx) = bs "collision!") then send_text "airbag_deployed"
  else if bool_decide (body (rx_msg rx) = bs "diagnostic?") then send_text "airbag_diag_ok"
  else skip.

(** [update], with the call of the virtual method. *)
Definition on_receive (rx : Rx) (origin : ChannelOrigin) : M proc unit :=
  c ← get_app;
  match knd c with
  | Powertrain _ => skip
  | Brake => brake_on_receive rx
  | Steering angle => steering_on_receive angle rx
  | Transmission _ => transmission_on_receive rx
  | Airbag => airbag_on_receive rx
  | Gateway g => gateway_on_receive g rx
  end.

(** Called when GO arrives; only the gateway registers it. *)
Definition notify_sync_done : M proc unit :=
  c ← get_app;
  match knd c with
  | Gateway g => mod_app (set_kind (Gateway (gw_set_done g)))
  | _ => skip
  end.

#[export] Instance vehicle_rx_observer : RxObserver component := {|
  Communicator.on_receive := on_receive;
  Communicator.on_sync_done := notify_sync_done
|}.

Definition SYNC_PERIOD_US : Z := 3000000.

Definition gateway_on_tick (g : gateway_state) : M proc unit :=
  now_us ← Protocol.on_io get_microseconds_now;
  loc ← gets (fun s => local (Protocol.upper s));
  (if (gw_vm_id g =? 1) && negb (did_request g) then
     Protocol.move_group 3 ;;
     mod_app (fun c => match knd c with Gateway g => set_kind (Gateway (gw_set_requested g)) c | _ => c end)
   else skip) ;;
  if negb (sync_master g) then
    if SYNC_PERIOD_US <=? u64 (now_us - last_sync_request_us g) then
      r ← Protocol.get_running_ptp;
      if r : bool then Protocol.set_probabilistic_ptp_timeout true
      else
        Protocol.set_running_ptp true ;;
        Protocol.set_probabilistic_ptp_timeout false ;;
        mod_app (fun c => match knd c with Gateway g => set_kind (Gateway (gw_set_last now_us g)) c | _ => c end) ;;
        Protocol.send_control loc {| mac := BROADCAST; port := port loc |} SYNC_REQ 0 [] ;;
        skip
    else skip
  else skip.

Definition brake_on_tick : M proc unit := send_text "brake!".

Definition steering_on_tick (angle : Z) : M proc unit :=
  let angle' := Z.rem (angle + 5) 360 in
  mod_app (set_kind (Steering angle')) ;;
  send_local (bs "Steering angle " ++ dec angle') ;; skip.

Definition transmission_on_tick : M proc unit := send_text "transmission_ok".
Definition airbag_on_tick : M proc unit := send_text "airbag_diag_ok".

(** The virtual method that the tick loop calls. *)
Definition on_tick : M proc unit :=
  c ← get_app;
  match knd c with
  | Powertrain _ => skip
  | Brake => brake_on_tick
  | Steering angle => steering_on_tick angle
  | Transmission _ => transmission_on_tick
  | Airbag => airbag_on_tick
  | Gateway g => gateway_on_tick g
  end.

Definition wants_tick (k : kind) : bool := true.

Definition tick_period_ms (k : kind) : Z :=
  match k with
  | Powertrain _ => 2000 | Brake => 2000 | Steering _ => 1000 | Transmission _ => 3000
  | Airbag => 5000 | Gateway _ => 10
  end.

(** The READY thread of a gateway that is not the master sends until the
    barrier is passed. *)
Definition gateway_ready_round : M proc unit :=
  c ← get_app;
  match knd c with
  | Gateway g =>
      if sync_master g || sync_done g then skip
      else
        loc ← gets (fun s => local (Protocol.upper s));
        Protocol.send_control loc {| mac := BROADCAST; port := port loc |} READY 0 [] ;;
        skip
  | _ => skip
  end.

(** ** Initialisation *)

(** [initialize_communicator]: the process state after the engines, the NIC,
    the protocol and the communicator have been created and attached. *)
Definition initialize_communicator (is_master_node : bool) (e : EngineEthernet.engine) (k : kind)
    (p : Z) (w : io) : proc :=
  let m := EngineEthernet.mac_ e in
  let n := {| NIC.ethernet_engine := if is_master_node then Some e else None;
              NIC.shm_engine := true; NIC.mac := m |} in
  let c := {| local := {| mac := m; port := p |}; next_msg_id := 0; log := []; queue := [];
              attached := 1; has_on_sync_done := false; app := make_component k p m |} in
  (set_up_port_observer (if is_master_node then -1 else p)
     (Protocol.construct n ETYPE c w)).2.

(** [CarComponent::initialize] up to the tick loop. *)
Definition component_initialize (group_id : Z) : M proc unit :=
  loc ← gets (fun s => local (Protocol.upper s));
  let v := i8 (vm_id_from_mac (mac loc)) in
  mod_app (set_identity v (Z.quot v 10)) ;;
  Protocol.set_current_group group_id.

(** [Gateway::initialize] up to the wait for GO. *)
Definition gateway_initialize (is_master_node : bool) (group_id : Z) : M proc unit :=
  Protocol.set_current_group group_id ;;
  register_with_coordinator is_master_node ;;
  set_on_sync_done ;;
  c ← get_app;
  match knd c with
  | Gateway g =>
      (if sync_master g then Protocol.set_master true else skip) ;;
      loc ← gets (fun s => local (Protocol.upper s));
      Protocol.enable_start_sync (total_sync_vms g) loc true
  | _ => skip
  end.

Definition make_gateway (vmid total : Z) (master : bool) : kind :=
  Gateway {| gw_vm_id := vmid; total_sync_vms := total; sync_master := master; sync_done := false;
             last_sync_request_us := 0; did_request := false |}.

End Vehicle.
