(* ===== verification/Car.v ===== *)
(** * Start-up (src/src/main.cpp, car.cpp)

    Command-line parsing and the processes a virtual machine starts. *)

From S2P Require Import Prelude Text Ethernet World EngineEthernet EngineShm Nic ClockSyncer Wire Protocol Communicator PublishSubscriber Vehicle.
Import Ports.

Module Car.

Record arguments := { a_vm_id : Z; a_total : Z }.

(** One argument: [arg.find("vm_id=") == 0], else [arg.find("total_sync_vms=") == 0]. *)
Definition parse_arg (a : arguments) (arg : bytes) : outcome arguments :=
  match find (bs "vm_id=") arg 0 with
  | Some O => t ← substr arg 6 (length arg); v ← stoi t; Ok {| a_vm_id := v; a_total := a_total a |}
  | _ =>
      match find (bs "total_sync_vms=") arg 0 with
      | Some O => t ← substr arg 15 (length arg); v ← stoi t; Ok {| a_vm_id := a_vm_id a; a_total := v |}
      | _ => Ok a
      end
  end.

Fixpoint parse_args (a : arguments) (argv : list bytes) : outcome arguments :=
  match argv with
  | [] => Ok a
  | x :: argv' => a' ← parse_arg a x; parse_args a' argv'
  end.

(** A process of the virtual machine: the component it runs and the arguments
    of its [initialize]. *)
Record process := {
  p_kind : Vehicle.kind;
  p_port : Z;
  p_is_master_node : bool;
  p_nodes_count : Z;
  p_group : Z;
  p_peers : list Z
}.

Definition components : list (Vehicle.kind * Z) :=
  [(Vehicle.Powertrain 900, POWERTRAIN_PORT); (Vehicle.Brake, BRAKE_PORT)].

Definition all_ports : list Z := snd <$> components.

(** [set_peer_ports] of a component on port [p]. *)
Definition peers_of (p : Z) : list Z := filter (fun q => q <> p) all_ports.

(** [Car::start]: the gateway in the parent, one forked child per component
    unless this machine is a coordinator. *)
Definition start (vm_id group_id total_sync_vms : Z) : list process :=
  let is_sync_master := Z.rem vm_id 10 =? 0 in
  let components_len := if is_sync_master then 0 else Z.of_nat (length components) in
  let gateway :=
    {| p_kind := Vehicle.make_gateway vm_id total_sync_vms is_sync_master; p_port := GATEWAY_PORT;
       p_is_master_node := true; p_nodes_count := components_len; p_group := group_id;
       p_peers := peers_of GATEWAY_PORT |} in
  gateway ::
  (if is_sync_master then []
   else (fun '(k, p) =>
           {| p_kind := k; p_port := p; p_is_master_node := false; p_nodes_count := components_len;
              p_group := u8 (Z.quot vm_id 10); p_peers := peers_of p |}) <$> components).

Inductive main_result := Exit (code : Z) | Run (ps : list process).

Definition main (argv : list bytes) : outcome main_result :=
  a ← parse_args {| a_vm_id := -1; a_total := 0 |} argv;
  if (a_vm_id a <? 0) || (a_total a =? 0) then Ok (Exit 1)
  else Ok (Run (start (a_vm_id a) (Z.quot (a_vm_id a) 10) (a_total a))).

(** ** Lemmas *)

Lemma find_prefix p s : find p (p ++ s) 0 = Some O.
Proof. apply (find_at []). done. Qed.

Lemma parse_arg_vm a v : is_i32 v ->
  parse_arg a (bs "vm_id=" ++ dec v) = Ok {| a_vm_id := v; a_total := a_total a |}.
Proof.
  intros Hv. unfold parse_arg. rewrite find_prefix. rewrite <- (app_nil_r (bs "vm_id=" ++ dec v)).
  rewrite <- app_assoc. unfold substr. rewrite (proj2 (Nat.ltb_ge _ _)) by (rewrite length_app; cbn; lia).
  rewrite (drop_app_len (bs "vm_id=")) by done. rewrite take_ge by (rewrite !length_app; lia).
  cbn [mbind outcome_bind]. rewrite stoi_dec by done. done.
Qed.

Lemma parse_arg_total a v : is_i32 v ->
  parse_arg a (bs "total_sync_vms=" ++ dec v) = Ok {| a_vm_id := a_vm_id a; a_total := v |}.
Proof.
  intros Hv. unfold parse_arg.
  assert (forall r, find (bs "vm_id=") (bs "total_sync_vms=" ++ r) 0 <> Some O) as Hn.
  { intros r. unfold find. rewrite drop_0. cbn [Nat.ltb Nat.leb].
    change (bs "total_sync_vms=" ++ r) with (116 :: (drop 1 (bs "total_sync_vms=") ++ r)).
    cbn [index_of]. change (is_prefix (bs "vm_id=") (116 :: _)) with false. cbn iota.
    destruct (index_of _ _); cbn; done. }
  destruct (find (bs "vm_id=") _ 0) as [[|n]|] eqn:E; [by destruct (Hn _ E)| |];
    rewrite find_prefix; rewrite <- (app_nil_r (bs "total_sync_vms=" ++ dec v));
    rewrite <- app_assoc; unfold substr;
    rewrite (proj2 (Nat.ltb_ge _ _)) by (rewrite length_app; cbn; lia);
    rewrite (drop_app_len (bs "total_sync_vms=")) by done;
    rewrite take_ge by (rewrite !length_app; lia);
    cbn [mbind outcome_bind]; rewrite stoi_dec by done; done.
Qed.

End Car.
