(* ===== verification/Layers.v ===== *)
(** * The layers discharge each other's interfaces

    The protocol's theorems are proved against the laws of [PortObserver]; here
    the communicator meets them, given the laws of [RxObserver], and the
    vehicle components meet those: nothing a callback does changes the
    protocol's own fields. *)

From S2P Require Import Prelude Text Ethernet World EngineEthernet EngineShm Nic ClockSyncer Wire Protocol ProtocolFacts Communicator PublishSubscriber Vehicle.
Import Ethernet Wire Protocol Communicator.

(** The laws a component promises to its communicator. *)
Class RxObserverLaws (C : Type) `{RO : RxObserver C} := {
  on_receive_same rx o : preserves proto_same (on_receive (C := C) rx o);
  on_sync_done_same : preserves proto_same (on_sync_done (C := C))
}.

Section comm.
Context {C : Type}.

Lemma same_mod_comm f : preserves proto_same (mod_comm (C := C) f).
Proof. apply preserves_modify. intros s. exists (f (upper s)), (world s). by destruct s. Qed.

Lemma same_send from to p : preserves proto_same (Protocol.send (O := observer) (W := comm C) from to p).
Proof. by apply preserves_send; [apply _|]. Qed.

Lemma same_on_io {A} (m : M io A) : preserves proto_same (on_io (O := observer) (W := comm C) m).
Proof. apply preserves_on_io. Qed.

Lemma same_get_comm : preserves proto_same (get_comm (C := C)).
Proof. unfold get_comm. preserves. Qed.

Lemma same_get_current_group :
  preserves proto_same (get_current_group (O := observer) (W := comm C)).
Proof. unfold get_current_group. preserves. Qed.

Lemma same_logf l : preserves proto_same (logf (C := C) l).
Proof. apply same_mod_comm. Qed.
End comm.

#[export] Hint Resolve same_mod_comm same_send same_on_io same_get_comm same_get_current_group
  same_logf : preserves.

Section comm_ops.
Context {C : Type}.

Lemma same_comm_send to ty d : preserves proto_same (Communicator.send (C := C) to ty d).
Proof. unfold Communicator.send. preserves. Qed.

Lemma same_send_message to m : preserves proto_same (send_message (C := C) to m).
Proof. unfold send_message. preserves. Qed.

Lemma same_enqueue rx : preserves proto_same (enqueue (C := C) rx).
Proof. unfold enqueue. preserves. Qed.
End comm_ops.

#[export] Hint Resolve same_comm_send same_send_message same_enqueue : preserves.

Section comm_laws.
Context {C : Type} `{RL : RxObserverLaws C}.
#[local] Hint Resolve on_receive_same on_sync_done_same : preserves.

#[export] Instance comm_port_observer_laws : PortObserverLaws observer (comm C).
Proof.
  split; cbn.
  - intros. unfold on_packet, notify. preserves.
  - intros. unfold on_control. preserves.
  - apply on_sync_done_same.
Qed.
End comm_laws.

Section vehicle_laws.
Import Vehicle.

Lemma same_get_app : preserves proto_same get_app.
Proof. unfold get_app. preserves. Qed.
Lemma same_mod_app f : preserves proto_same (mod_app f).
Proof. unfold mod_app. preserves. Qed.
#[local] Hint Resolve same_get_app same_mod_app : preserves.

Lemma same_send_local t : preserves proto_same (send_local t).
Proof. unfold send_local. preserves. Qed.
#[local] Hint Resolve same_send_local : preserves.

Lemma same_send_text t : preserves proto_same (send_text t).
Proof. unfold send_text. preserves. Qed.
Lemma same_forward_message rx v : preserves proto_same (forward_message rx v).
Proof. unfold forward_message. preserves. Qed.
Lemma same_fanout_message rx v : preserves proto_same (fanout_message rx v).
Proof. unfold fanout_message. preserves. Qed.
#[local] Hint Resolve same_send_text same_forward_message same_fanout_message : preserves.

#[export] Instance vehicle_rx_observer_laws : RxObserverLaws component.
Proof.
  split; cbn.
  - intros. unfold Vehicle.on_receive, brake_on_receive, steering_on_receive, transmission_on_receive, airbag_on_receive, gateway_on_receive. preserves.
  - unfold notify_sync_done. preserves.
Qed.
End vehicle_laws.
