(* ===== verification/VehicleFacts.v ===== *)
(** * Facts about processes: what their messages look like on the bus and on the wire *)

From S2P Require Import Prelude Text Ethernet World EngineEthernet EngineShm Nic ClockSyncer Wire Protocol ProtocolFacts Communicator PublishSubscriber Vehicle Layers.
Import Ethernet Wire.

(** A process whose addresses agree, as [initialize_communicator] leaves it. *)
Definition configured (s : Vehicle.proc) : Prop :=
  let c := Communicator.app (Protocol.upper s) in
  let l := Communicator.local (Protocol.upper s) in
  let m := NIC.mac (Protocol.nic s) in
  NIC.shm_engine (Protocol.nic s) = true /\ addr_ok m /\ Protocol.etherType s = Ports.ETYPE /\
  l = {| mac := m; port := Vehicle.cport c |} /\ is_u16 (Vehicle.cport c) /\ Vehicle.my_mac c = m /\
  Vehicle.to_gate c = {| mac := m; port := Ports.GATEWAY_PORT |} /\
  Vehicle.to_bcast c = {| mac := BROADCAST; port := Ports.GATEWAY_PORT |}.

Lemma initialize_configured master e k p w :
  addr_ok (EngineEthernet.mac_ e) -> is_u16 p ->
  configured (Vehicle.initialize_communicator master e k p w).
Proof. intros Ha Hp. by repeat split; cbn; try apply Ha; try apply Hp. Qed.

(** The same process, later: only the log, the message counter, the world and
    the like have moved. *)
Definition advanced (s t : Vehicle.proc) : Prop :=
  proto_same s t /\
  Communicator.app (Protocol.upper t) = Communicator.app (Protocol.upper s) /\
  Communicator.local (Protocol.upper t) = Communicator.local (Protocol.upper s).

#[export] Instance advanced_preorder : PreOrder advanced.
Proof.
  split.
  - intros s. by repeat split.
  - intros s t u (H1 & H2 & H3) (H4 & H5 & H6). split; [by etrans|]. split; congruence.
Qed.

Lemma advanced_configured s t : advanced s t -> configured s -> configured t.
Proof. intros ((u & w & ->) & H1 & H2). unfold configured. cbn in *. by rewrite H1, H2. Qed.

Lemma advanced_group s t :
  advanced s t -> Protocol.current_group_id (Protocol.grp t) = Protocol.current_group_id (Protocol.grp s).
Proof. by intros ((u & w & ->) & _). Qed.

(** [blob] on the bus, or [packet] on the wire, is message [m] for [to]. *)
Definition bus_carries (blob : bytes) (to : Endpoint) (m : Message) : Prop :=
  exists f, EngineShm.on_receive_msg true false blob = Ok (EngineShm.ToNic f) /\
    let c := Protocol.capsule_of (f_proto f) f OSharedMemory in
    c_proto c = Ports.ETYPE /\ c_to c = to /\ parse_message (c_payload c) = Ok m.

Definition wire_carries (packet : bytes) (to : Endpoint) (m : Message) : Prop :=
  exists f, EngineEthernet.frame_of_packet packet = Some f /\
    let c := Protocol.capsule_of (f_proto f) f OEthernet in
    c_proto c = Ports.ETYPE /\ c_to c = to /\ parse_message (c_payload c) = Ok m.

Lemma dec_bytes_ok z : bytes_ok (dec z).
Proof.
  eapply Forall_impl; [apply dec_chars|]. intros c. unfold dec_char, isdigit, is_u8. lia.
Qed.

Lemma build_bytes_ok m : bytes_ok (body m) -> bytes_ok (build_message m).
Proof.
  intros Hb. rewrite build_message_fields. unfold field.
  repeat (apply bytes_ok_app; split); try done;
    first [by repeat constructor | constructor; [done|]; apply bytes_ok_app; split;
           [apply dec_bytes_ok|by repeat constructor]].
Qed.

Lemma clock_u64 w : is_u64 (microseconds_of (clock w (n_clock w))).
Proof. apply microseconds_of_range. Qed.

Lemma send_bus s to m :
  configured s -> mac to = NIC.mac (Protocol.nic s) -> is_u16 (port to) ->
  message_ok m -> bytes_ok (body m) -> Z.of_nat (length (build_message m)) <= 1476 ->
  exists blob,
    Protocol.send (Communicator.local (Protocol.upper s)) to (build_message m) s =
      (Ok 0, Protocol.set_world (emit (OnBus blob) (Protocol.world s)) s) /\
    bus_carries blob to m.
Proof.
  intros (Hs & Ha & He & Hl & Hp & _) Ht Hpt Hm Hb Hlen.
  destruct (bus_delivery s (Communicator.local (Protocol.upper s)) to (build_message m))
    as (blob & f & E1 & E2 & E3); try done.
  - by rewrite He.
  - by rewrite Hl.
  - by apply build_bytes_ok.
  - exists blob. split; [done|]. exists f. split; [done|]. rewrite E3. cbn.
    split; [done|]. split; [done|]. by apply parse_build.
Qed.

Lemma send_wire s e to m :
  configured s -> NIC.ethernet_engine (Protocol.nic s) = Some e -> 0 <= EngineEthernet.sock_ e ->
  addr_ok (EngineEthernet.mac_bytes_ e) ->
  mac to <> NIC.mac (Protocol.nic s) -> addr_ok (mac to) -> is_u16 (port to) ->
  message_ok m -> bytes_ok (body m) -> Z.of_nat (length (build_message m)) <= MTU ->
  exists r w packet,
    Protocol.send (Communicator.local (Protocol.upper s)) to (build_message m) s =
      (Ok r, Protocol.set_world w s) /\
    out w = out (Protocol.world s) ++ [OnWire packet] /\ wire_carries packet to m.
Proof.
  intros (Hs & Ha & He & Hl & Hp & _) Hen Hso Hmb Ht Hat Hpt Hm Hb Hlen.
  destruct (wire_delivery s e (Communicator.local (Protocol.upper s)) to (build_message m))
    as (r & w & packet & f & E1 & E2 & E3 & E4); try done.
  - by rewrite He.
  - by rewrite Hl.
  - by apply build_bytes_ok.
  - exists r, w, packet. split; [done|]. split; [done|]. exists f. split; [done|]. rewrite E4. cbn.
    split; [done|]. split; [done|]. by apply parse_build.
Qed.

(** [send_message] logs and sends. *)
Definition logged (line : bytes) (s : Vehicle.proc) : Vehicle.proc :=
  (Communicator.logf line s).2.

Lemma advanced_logged l s : advanced s (logged l s).
Proof.
  split; [|done]. exists (Protocol.upper (logged l s)), (Protocol.world s). by destruct s.
Qed.

Lemma advanced_world w s : advanced s (Protocol.set_world w s).
Proof. split; [|by destruct s]. exists (Protocol.upper s), w. by destruct s. Qed.

Lemma send_message_eq to m s :
  exists s1, advanced s s1 /\ Protocol.world s1 = Protocol.world s /\
    Communicator.send_message to m s =
    Protocol.send (Communicator.local (Protocol.upper s1)) to (build_message m) s1.
Proof.
  eexists (logged _ s). split; [apply advanced_logged|]. split; [by destruct s|].
  unfold Communicator.send_message. reflexivity.
Qed.

Lemma send_message_bus s to m :
  configured s -> mac to = NIC.mac (Protocol.nic s) -> is_u16 (port to) ->
  message_ok m -> bytes_ok (body m) -> Z.of_nat (length (build_message m)) <= 1476 ->
  exists blob s',
    Communicator.send_message to m s = (Ok 0, s') /\ advanced s s' /\
    out (Protocol.world s') = out (Protocol.world s) ++ [OnBus blob] /\ bus_carries blob to m.
Proof.
  intros Hc Ht Hpt Hm Hb Hl. destruct (send_message_eq to m s) as (s1 & Ha & Hw & ->).
  assert (NIC.mac (Protocol.nic s1) = NIC.mac (Protocol.nic s)) as En by (by destruct Ha as ((?&?&->)&_)).
  destruct (send_bus s1 to m) as (blob & E & Hbc); try done.
  - by eapply advanced_configured.
  - by rewrite En.
  - exists blob. eexists. split; [exact E|]. split; [etrans; [exact Ha|apply advanced_world]|].
    cbn. by rewrite Hw.
Qed.

Lemma send_message_wire s e to m :
  configured s -> NIC.ethernet_engine (Protocol.nic s) = Some e -> 0 <= EngineEthernet.sock_ e ->
  addr_ok (EngineEthernet.mac_bytes_ e) ->
  mac to <> NIC.mac (Protocol.nic s) -> addr_ok (mac to) -> is_u16 (port to) ->
  message_ok m -> bytes_ok (body m) -> Z.of_nat (length (build_message m)) <= MTU ->
  exists r packet s',
    Communicator.send_message to m s = (Ok r, s') /\ advanced s s' /\
    out (Protocol.world s') = out (Protocol.world s) ++ [OnWire packet] /\ wire_carries packet to m.
Proof.
  intros Hc He Hso Hmb Ht Hat Hpt Hm Hb Hl. destruct (send_message_eq to m s) as (s1 & Ha & Hw & ->).
  assert (Protocol.nic s1 = Protocol.nic s) as En by (by destruct Ha as ((?&?&->)&_)).
  destruct (send_wire s1 e to m) as (r & w & packet & E & Ho & Hbc); try done; rewrite ?En; try done.
  - by eapply advanced_configured.
  - exists r, packet. eexists. split; [exact E|]. split; [etrans; [exact Ha|apply advanced_world]|].
    cbn. by rewrite Ho, Hw.
Qed.
