(* ===== verification/LinkProps.v ===== *)
(** * Properties of the link layer

    Message format, framing on the wire and on the bus, routing, the receive
    thread's wake-up and the shared-memory bus. *)

From S2P Require Import Prelude Text Ethernet World EngineEthernet EngineShm Nic ClockSyncer Wire Protocol ProtocolFacts ShmNode.
Import Ethernet Wire.

(** A vehicle's addresses, used in the witnesses. *)
Definition mac_a : Address := [0x52; 0x54; 0; 0x12; 0x34; 1].
Definition mac_b : Address := [0x52; 0x54; 0; 0x12; 0x34; 2].

Lemma mac_a_ok : addr_ok mac_a.
Proof. split; [done|]. repeat constructor; done. Defined.
Lemma mac_b_ok : addr_ok mac_b.
Proof. split; [done|]. repeat constructor; done. Defined.

Definition sample_message : Message :=
  {| group_id := 3; orig_vm := 31; orig_port := 102; timestamp := 1700000000123456; type := -7;
     msg_id := 42; msgac := 17; body := bs "brake! TYPE=9 "; control := READY |}.

Definition sample_engine : EngineEthernet.engine :=
  {| EngineEthernet.sock_ := 3; EngineEthernet.ifindex_ := 2; EngineEthernet.mac_bytes_ := mac_a;
     EngineEthernet.mac_ := mac_a; EngineEthernet.running := true |}.

Definition sample_io : io :=
  io_init (fun n => {| tv_sec := 1700000000 + Z.of_nat n; tv_usec := 5 |}) (fun _ => 60) (fun _ => 0).

Definition sample_state : Protocol.pst unit unit :=
  Protocol.construct {| NIC.ethernet_engine := Some sample_engine; NIC.shm_engine := true; NIC.mac := mac_a |}
    0x123 tt sample_io.

(** A receiver in another vehicle, with nothing attached above the protocol. *)
#[local] Instance no_observers : Protocol.PortObserver unit unit :=
  {| Protocol.po_port := fun _ => 0; Protocol.po_on_packet := fun _ _ _ _ _ _ => skip;
     Protocol.po_on_control := fun _ _ _ _ => skip; Protocol.po_sync_done := skip |}.

Definition sample_receiver : Protocol.pst unit unit :=
  Protocol.construct {| NIC.ethernet_engine := Some sample_engine; NIC.shm_engine := true; NIC.mac := mac_b |}
    0x123 tt sample_io.

(** Claim C1. Parsing a built message gives the message back, for every
    field in the range of its C++ type and every body, including bodies that
    themselves contain spaces or KEY=value text. *)
Theorem message_roundtrip m : message_ok m -> parse_message (build_message m) = Ok m.
Proof. apply parse_build. Qed.

Lemma message_roundtrip_witness :
  message_ok sample_message /\ parse_message (build_message sample_message) = Ok sample_message.
Proof.
  assert (message_ok sample_message) as H by (repeat split; done).
  split; [exact H|exact (message_roundtrip sample_message H)].
Defined.

(** Claim C3. What the protocol of one vehicle sends over Ethernet arrives, through
    the receive loop, the NIC and [update] of another, as a call of
    [notify_by_port] with the same ports, destination and payload and the
    sender's hardware address as its source; it is dropped without effect when
    the receiver listens to another protocol number, when the payload is empty,
    or when the receiver has the sender's own address. *)
Theorem ethernet_end_to_end {O W O' W'} `{PO : Protocol.PortObserver O' W'} order (s : Protocol.pst O W) (sr : Protocol.pst O' W') e e' from to payload :
  NIC.ethernet_engine (Protocol.nic s) = Some e -> 0 <= EngineEthernet.sock_ e -> 0 <= EngineEthernet.sock_ e' ->
  addr_ok (EngineEthernet.mac_bytes_ e) -> addr_ok (NIC.mac (Protocol.nic s)) ->
  addr_ok (mac to) -> mac to <> NIC.mac (Protocol.nic s) ->
  is_u16 (Protocol.etherType s) -> is_u16 (port from) -> is_u16 (port to) ->
  bytes_ok payload -> Z.of_nat (length payload) <= MTU ->
  exists r w packet f,
    Protocol.send from to payload s = (Ok r, Protocol.set_world w s) /\
    out w = out (Protocol.world s) ++ [OnWire packet] /\
    EngineEthernet.on_packet e' [packet] = [f] /\
    NIC.on_eth_frame (fun _ : unit => Protocol.update order) (Protocol.nic sr) [tt] f sr =
      if bool_decide (EngineEthernet.mac_bytes_ e <> NIC.mac (Protocol.nic sr) /\
                      Protocol.etherType sr = Protocol.etherType s /\ payload <> [])
      then Protocol.notify_by_port order
             {| c_from := {| mac := EngineEthernet.mac_bytes_ e; port := port from |}; c_to := to;
                c_length := Z.of_nat (length payload); c_proto := Protocol.etherType s;
                c_origin := OEthernet; c_payload := payload |} sr
      else (Ok tt, sr).
Proof.
  intros He Hs Hs' Hm Hn Ht Hne Het Hpf Hpt Hb Hl.
  destruct (send_on_wire s e from to payload He Hs Hne Hl) as (r & w & E1 & E2).
  do 4 eexists. split; [exact E1|]. split; [exact E2|]. split.
  - unfold EngineEthernet.on_packet. rewrite (proj2 (Z.ltb_ge _ _)) by done. cbn [omap list_omap].
    rewrite EngineEthernet.frame_of_packet_of by (done || by apply wire_frame_ok). reflexivity.
  - pose proof (update_wire_frame order s sr from to payload (EngineEthernet.mac_bytes_ e) OEthernet Hpf Hpt Hl) as E.
    unfold NIC.on_eth_frame, addr_eqb. cbn [f_src]. destruct (decide (EngineEthernet.mac_bytes_ e = NIC.mac (Protocol.nic sr))) as [Ha|Ha].
    + rewrite bool_decide_true by done. rewrite bool_decide_false; [reflexivity|]. by intros [Hx _].
    + rewrite bool_decide_false by done. etrans; [exact E|]. repeat case_bool_decide; naive_solver.
Qed.

Lemma ethernet_end_to_end_witness :
  exists r w packet f,
    Protocol.send {| mac := mac_a; port := 65535 |} {| mac := mac_b; port := 102 |} (bs "hello")
      sample_state = (Ok r, Protocol.set_world w sample_state) /\
    out w = out (Protocol.world sample_state) ++ [OnWire packet] /\
    EngineEthernet.on_packet sample_engine [packet] = [f] /\
    NIC.on_eth_frame (fun _ : unit => Protocol.update map_to_list) (Protocol.nic sample_receiver) [tt] f sample_receiver =
      Protocol.notify_by_port map_to_list
      {| c_from := {| mac := mac_a; port := 65535 |}; c_to := {| mac := mac_b; port := 102 |};
         c_length := 5; c_proto := 0x123; c_origin := OEthernet; c_payload := bs "hello" |} sample_receiver.
Proof.
  apply (ethernet_end_to_end map_to_list sample_state sample_receiver sample_engine sample_engine {| mac := mac_a; port := 65535 |}
           {| mac := mac_b; port := 102 |} (bs "hello"));
    first [done | exact mac_a_ok | exact mac_b_ok | by vm_compute; repeat constructor].
Defined.

(** Claim C4. What a process sends to its own vehicle is one message on the
    shared-memory bus. When it is sent on a bus nobody uses, then in every
    execution in which the sender gets past the barrier there is a moment at which
    every other node has exactly this message and its length for
    [on_receive_msg]; and there it becomes a call of [notify_by_port] with the
    same ports, destination and payload, or is dropped without effect when the
    receiver listens to another protocol number or the payload is empty. *)
Theorem bus_end_to_end {O W O' W'} `{PO : Protocol.PortObserver O' W'} order (s : Protocol.pst O W) (sr : Protocol.pst O' W') raw from to payload :
  NIC.shm_engine (Protocol.nic s) = true -> addr_ok (NIC.mac (Protocol.nic s)) ->
  mac to = NIC.mac (Protocol.nic s) ->
  is_u16 (Protocol.etherType s) -> is_u16 (port from) -> is_u16 (port to) ->
  bytes_ok payload -> Z.of_nat (length payload) <= 1476 ->
  exists blob f,
    Protocol.send from to payload s =
      (Ok 0, Protocol.set_world (emit (OnBus blob) (Protocol.world s)) s) /\
    (forall i b0 b1 b2 n, ShmNode.clean b0 -> ShmNode.exec (ShmNode.SendLock i blob) b0 = Some b1 -> rtc ShmNode.step b1 b2 ->
      ShmNode.nodes b2 !! i = Some n -> ShmNode.before_barrier (ShmNode.spc n) = None ->
      exists v, rtc ShmNode.step b1 v /\ rtc ShmNode.step v b2 /\ ShmNode.msg_len v = Z.of_nat (length blob) /\
        forall j x, j <> i -> ShmNode.nodes v !! j = Some x -> ShmNode.rpc x = ShmNode.RPassed blob) /\
    EngineShm.on_receive_msg true raw blob = Ok (EngineShm.ToNic f) /\
    NIC.on_shm_frame (fun _ : unit => Protocol.update order) [tt] f sr =
      if bool_decide (Protocol.etherType sr = Protocol.etherType s /\ payload <> [])
      then Protocol.notify_by_port order
             {| c_from := {| mac := NIC.mac (Protocol.nic s); port := port from |}; c_to := to;
                c_length := Z.of_nat (length payload); c_proto := Protocol.etherType s;
                c_origin := OSharedMemory; c_payload := payload |} sr
      else (Ok tt, sr).
Proof.
  intros Hs Ha Hd He Hpf Hpt Hb Hl.
  assert (Z.of_nat (length payload) <= MTU) as Hl' by (unfold MTU, MAX_DATA, sizeof_Header; lia).
  exists (EngineShm.serialize_frame (wire_frame s from to payload)), (wire_frame s from to payload).
  split; [by apply send_on_bus|]. split; [|split].
  - intros i b0 b1 b2 n Hc Hlock Hrun Hn Hpast. destruct (ShmNode.round_delivers _ _ _ _ _ Hc Hlock Hrun) as [Hr|(v & Hv & Hall & Hvu)].
    + destruct Hr as [_ _ _ (ni & E & Hbb & _)]. congruence.
    + destruct Hall as (_ & Hlen & _ & Hoth). by exists v.
  - apply on_receive_wire_frame; by rewrite ?Hd.
  - exact (update_wire_frame order s sr from to payload (NIC.mac (Protocol.nic s)) OSharedMemory Hpf Hpt Hl').
Qed.

(** Among three nodes a message goes round. *)
Definition goes_round (blob : bytes) : bool :=
  match ShmNode.run (ShmNode.SendLock 0 blob :: ShmNode.full_round) (ShmNode.init 3 2) with
  | Some b2 => match ShmNode.nodes b2 !! 0%nat with
               | Some n => match ShmNode.before_barrier (ShmNode.spc n) with None => true | Some _ => false end
               | None => false
               end
  | None => false
  end.

Lemma goes_round_run blob : goes_round blob = true ->
  exists b1 b2 n, ShmNode.exec (ShmNode.SendLock 0 blob) (ShmNode.init 3 2) = Some b1 /\ rtc ShmNode.step b1 b2 /\
    ShmNode.nodes b2 !! 0%nat = Some n /\ ShmNode.before_barrier (ShmNode.spc n) = None.
Proof.
  unfold goes_round. generalize (ShmNode.init 3 2) ShmNode.full_round. intros b0 ls.
  change (ShmNode.run (ShmNode.SendLock 0 blob :: ls) b0) with (ShmNode.exec (ShmNode.SendLock 0 blob) b0 ≫= ShmNode.run ls).
  destruct (ShmNode.exec _ b0) as [b1|]; cbn [mbind option_bind]; [|done]. destruct (ShmNode.run ls b1) as [b2|] eqn:E; [|done].
  destruct (ShmNode.nodes b2 !! 0%nat) as [n|] eqn:En; [|done]. destruct (ShmNode.before_barrier _) eqn:Ep; [done|].
  intros _. exists b1, b2, n. split; [done|]. split; [by apply (ShmNode.run_rtc ls)|done].
Qed.

Lemma bus_end_to_end_witness :
  exists blob f,
    Protocol.send {| mac := mac_a; port := 102 |} {| mac := mac_a; port := 65535 |} (bs "brake!")
      sample_state = (Ok 0, Protocol.set_world (emit (OnBus blob) sample_io) sample_state) /\
    (exists b1 v, ShmNode.exec (ShmNode.SendLock 0 blob) (ShmNode.init 3 2) = Some b1 /\ rtc ShmNode.step b1 v /\
      forall j x, j <> 0%nat -> ShmNode.nodes v !! j = Some x -> ShmNode.rpc x = ShmNode.RPassed blob) /\
    EngineShm.on_receive_msg true false blob = Ok (EngineShm.ToNic f) /\
    NIC.on_shm_frame (fun _ : unit => Protocol.update map_to_list) [tt] f sample_receiver =
      Protocol.notify_by_port map_to_list
      {| c_from := {| mac := mac_a; port := 102 |}; c_to := {| mac := mac_a; port := 65535 |};
         c_length := 6; c_proto := 0x123; c_origin := OSharedMemory; c_payload := bs "brake!" |} sample_receiver.
Proof.
  destruct (bus_end_to_end map_to_list sample_state sample_receiver false {| mac := mac_a; port := 102 |}
           {| mac := mac_a; port := 65535 |} (bs "brake!")) as (blob & f & E1 & Hbus & E2 & E3);
    [first [done | exact mac_a_ok | by vm_compute; repeat constructor]..|].
  exists blob, f. split; [exact E1|]. split; [|split; [exact E2|exact E3]].
  pose proof (f_equal (fun x => out (Protocol.world x.2)) E1) as Eb. vm_compute in Eb. injection Eb as Eb.
  destruct (goes_round_run blob) as (b1 & b2 & n & Hl & Hr & Hn & Hp); [rewrite <- Eb; vm_compute; reflexivity|].
  destruct (Hbus 0%nat _ b1 b2 n (ShmNode.init_clean 3 2 ltac:(lia)) Hl Hr Hn Hp) as (v & Hv & _ & _ & Hall). by exists b1, v.
Defined.

(** Claim C17. What a call of [Protocol::send] that returns gives and does, through
    the NIC and both engines: above the MTU -1; to the own address -1 without a
    shared-memory engine, -2 when the frame does not fit the bus (a payload above
    1476 bytes), otherwise 0 and exactly this frame on the bus; to any other address
    -2 without an Ethernet engine, -1 on a closed socket, otherwise one packet is
    given to [sendto] and its result less the header, or 0, or -1, is returned.  An
    error that is found before transmission transmits nothing, and nothing else of
    the protocol's state ever changes. *)
Theorem send_results {O W} (s : Protocol.pst O W) from to payload :
  addr_ok (NIC.mac (Protocol.nic s)) ->
  let n := Z.of_nat (length payload) in
  let f := wire_frame s from to payload in
  let w := Protocol.world s in
  Protocol.send from to payload s =
  if MTU <? n then (Ok (-1), s)
  else if bool_decide (mac to = NIC.mac (Protocol.nic s)) then
    if negb (NIC.shm_engine (Protocol.nic s)) then (Ok (-1), s)
    else if 1476 <? n then (Ok (-2), s)
    else (Ok 0, Protocol.set_world (emit (OnBus (EngineShm.serialize_frame f)) w) s)
  else match NIC.ethernet_engine (Protocol.nic s) with
       | None => (Ok (-2), s)
       | Some e =>
           if EngineEthernet.sock_ e <? 0 then (Ok (-1), s)
           else let sent := sendto_ret w (n_sendto w) in
                (Ok (if sent <? 0 then -1 else Z.max 0 (sent - 14)),
                 Protocol.set_world (sendto (EngineEthernet.packet_of e f) w).2 s)
       end.
Proof.
  intros Ha n f w. destruct (Z.ltb_spec MTU n) as [Hn|Hn]; [unfold Protocol.send; fold n; by rewrite (proj2 (Z.ltb_lt _ _) Hn)|].
  assert (sizeof_Header + n <= MAX_DATA) as Hmax by (unfold MTU in Hn; lia). case_bool_decide as Hd.
  - destruct (NIC.shm_engine (Protocol.nic s)) eqn:Hshm; cbn [negb].
    + destruct (Z.ltb_spec 1476 n) as [Hb|Hb]; [by apply send_bus_full|by apply send_on_bus].
    + unfold Protocol.send. fold n. rewrite (proj2 (Z.ltb_ge _ _) Hn). unfold Protocol.on_io, NIC.send, addr_eqb, NIC.address.
      rewrite (proj2 (Z.ltb_ge _ _) Hmax), bool_decide_true, Hshm by done. by destruct s.
  - unfold Protocol.send. fold n. rewrite (proj2 (Z.ltb_ge _ _) Hn). unfold Protocol.on_io, NIC.send, addr_eqb, NIC.address.
    rewrite (proj2 (Z.ltb_ge _ _) Hmax), bool_decide_false by done. destruct (NIC.ethernet_engine (Protocol.nic s)) as [e|]; [|by destruct s].
    unfold EngineEthernet.send. destruct (EngineEthernet.sock_ e <? 0); [by destruct s|].
    change (Z.of_nat EngineEthernet.sizeof_ether_header) with 14. unfold sendto. run_M. cbn [snd fst].
    f_equal. f_equal. fold w. destruct (Z.ltb_spec (sendto_ret w (n_sendto w)) 0) as [H0|H0]; [done|].
    destruct (Z.ltb_spec 14 (sendto_ret w (n_sendto w))); lia.
Qed.

Lemma send_results_witness :
  Protocol.send {| mac := mac_a; port := 1 |} {| mac := mac_a; port := 2 |} (replicate 1490 65) sample_state
    = (Ok (-2), sample_state) /\
  Protocol.send {| mac := mac_a; port := 1 |} {| mac := mac_b; port := 2 |} (bs "hello") sample_state
    = (Ok 46, Protocol.set_world (sendto (EngineEthernet.packet_of sample_engine
                (wire_frame sample_state {| mac := mac_a; port := 1 |} {| mac := mac_b; port := 2 |} (bs "hello"))) sample_io).2 sample_state).
Proof.
  split; (etrans; [apply (send_results sample_state _ _ _ mac_a_ok)|reflexivity]).
Defined.

(** A printed MAC address reads back as itself, and reading any
    string whatsoever gives six bytes. *)
Theorem address_roundtrip a s :
  (addr_ok a -> from_string (str a) = a) /\ addr_ok (from_string s).
Proof. split; [apply from_string_colon_hex|apply from_string_ok]. Qed.

Lemma address_roundtrip_witness :
  from_string (str mac_a) = mac_a /\ addr_ok (from_string (bs "52:54:zz")).
Proof. split; [apply (address_roundtrip mac_a []), mac_a_ok|apply (address_roundtrip mac_a)]. Defined.

(** The NIC routes by destination only: a frame for its own
    address is never put on the wire, any other frame never on the bus, and a
    component without an Ethernet engine gets -2 and transmits nothing. *)
Theorem nic_routing n dst proto payload size w r w' :
  NIC.send n dst proto payload size w = (Ok r, w') ->
  (dst = NIC.mac n -> forall p, OnWire p ∈ out w' -> OnWire p ∈ out w) /\
  (dst <> NIC.mac n -> forall b, OnBus b ∈ out w' -> OnBus b ∈ out w) /\
  (dst <> NIC.mac n -> NIC.ethernet_engine n = None -> r = -2 /\ w' = w).
Proof.
  unfold NIC.send, addr_eqb, NIC.address, EngineShm.send, EngineEthernet.send, bus_send, sendto.
  case_match; [done|]. case_bool_decide as Hd.
  - intros Hr. split; [|done]. intros _ p Hp.
    run_M; repeat case_match; simplify_eq/=; set_solver.
  - intros Hr. split; [done|].
    run_M; repeat case_match; simplify_eq/=; split; intros; try done; set_solver.
Qed.

Lemma nic_routing_witness :
  NIC.send {| NIC.ethernet_engine := None; NIC.shm_engine := true; NIC.mac := mac_a |}
    BROADCAST 0x123 (bs "x") 1 sample_io = (Ok (-2), sample_io) /\ -2 = -2 /\ sample_io = sample_io.
Proof.
  split; [reflexivity|].
  apply (nic_routing {| NIC.ethernet_engine := None; NIC.shm_engine := true; NIC.mac := mac_a |}
           BROADCAST 0x123 (bs "x") 1 sample_io); done.
Defined.

(** Claim C18. From the moment the socket exists, in any interleaving of arrivals,
    start-up, SIGIO delivery, draining, interrupted waits and receive errors, a
    packet that waits in the socket while the engine runs has a wake-up of the
    receive thread on its way, unless, since the socket was last found empty, a
    packet had arrived before O_ASYNC was set or a receive had failed; and such an
    exception does exist: a packet that arrives during construction can wait with
    the thread asleep and no wake-up coming. *)
Theorem rx_wakeups :
  (forall s, rtc EngineEthernet.rx_step EngineEthernet.rx_init s ->
    EngineEthernet.queue s <> [] -> EngineEthernet.rx_running s = true ->
    EngineEthernet.wakeup_coming s \/ EngineEthernet.stale s = true) /\
  (exists s, rtc EngineEthernet.rx_step EngineEthernet.rx_init s /\
    EngineEthernet.queue s <> [] /\ EngineEthernet.rx_running s = true /\
    EngineEthernet.pc s = EngineEthernet.Waiting /\ ~ EngineEthernet.wakeup_coming s).
Proof.
  split.
  - intros s H. by apply (EngineEthernet.rx_reachable s H).
  - eexists. split.
    + eapply rtc_l; [apply (EngineEthernet.rx_arrive_early _ _ _ _ _ _ _ (bs "early"))|]. eapply rtc_l; [apply EngineEthernet.rx_set_async|].
      eapply rtc_l; [apply EngineEthernet.rx_start|]. apply rtc_refl.
    + repeat split; [done|]. intros [?|[H|?]]; [done| |done]. cbn in H. lia.
Qed.

Lemma rx_wakeups_witness :
  exists s, rtc EngineEthernet.rx_step EngineEthernet.rx_init s /\ EngineEthernet.queue s = [bs "p"] /\
    EngineEthernet.stale s = false /\ EngineEthernet.wakeup_coming s.
Proof.
  assert (rtc EngineEthernet.rx_step EngineEthernet.rx_init
    {| EngineEthernet.queue := [bs "p"]; EngineEthernet.sigio_pending := true; EngineEthernet.packet_sem := 0;
       EngineEthernet.pc := EngineEthernet.Waiting; EngineEthernet.async := true; EngineEthernet.rx_running := true;
       EngineEthernet.delivered := []; EngineEthernet.stale := false |}) as H.
  { eapply rtc_l; [apply EngineEthernet.rx_set_async|]. eapply rtc_l; [apply EngineEthernet.rx_start|].
    eapply rtc_l; [apply (EngineEthernet.rx_arrive [])|]. apply rtc_refl. }
  eexists. split; [exact H|]. split; [reflexivity|]. split; [reflexivity|].
  destruct (proj1 rx_wakeups _ H) as [Hw|Hs]; [done|done|exact Hw|discriminate Hs].
Defined.

(** Claim C11. At most one node is ever inside [send_msg], whatever the number of
    nodes and the schedule; and whenever a message is announced, its sender holds
    the bus and has not withdrawn it, the bus holds exactly this message followed
    by zeros, and the length is that of the message. *)
Theorem bus_mutual_exclusion n k s :
  rtc ShmNode.step (ShmNode.init n k) s ->
  (forall i j x y, ShmNode.nodes s !! i = Some x -> ShmNode.nodes s !! j = Some y ->
     ShmNode.in_send x = true -> ShmNode.in_send y = true -> i = j) /\
  (ShmNode.msg_available s = true ->
   exists i x m, ShmNode.bus_mtx s = Some i /\ ShmNode.nodes s !! i = Some x /\ ShmNode.published (ShmNode.spc x) = Some m /\
     ShmNode.using_bus x = true /\ ShmNode.bus s = ShmNode.padded m /\ ShmNode.msg_len s = Z.of_nat (length m)).
Proof.
  intros H%ShmNode.reachable_inv. split.
  - intros i j x y Hi Hj Hx Hy.
    destruct (ShmNode.inv_holder s i x H Hi) as (E1 & _); [by unfold ShmNode.in_send in Hx; destruct (ShmNode.spc x)|].
    destruct (ShmNode.inv_holder s j y H Hj) as (E2 & _); [by unfold ShmNode.in_send in Hy; destruct (ShmNode.spc y)|]. congruence.
  - intros Ha. unfold ShmNode.shm_inv in H. destruct (ShmNode.bus_mtx s) as [i|]; [|destruct H; congruence].
    destruct H as (p & Hp & _ & _ & Hs & Hav). rewrite Hav in Ha. apply bool_decide_eq_true in Ha as [m Hm].
    rewrite list_lookup_fmap in Hp. destruct (ShmNode.nodes s !! i) as [x|] eqn:E; [|done]. injection Hp as Ep Eu.
    destruct (ShmNode.pub_stage m p _ _ Hm Hs) as [E1 E2]. exists i, x, m. rewrite Ep, Eu.
    do 3 (split; [done|]). split; [by destruct p|done].
Qed.

Lemma bus_mutual_exclusion_witness :
  exists s x, rtc ShmNode.step (ShmNode.init 3 2) s /\ ShmNode.nodes s !! 1%nat = Some x /\
    ShmNode.in_send x = true /\
    exists i y m, ShmNode.bus_mtx s = Some i /\ ShmNode.nodes s !! i = Some y /\ ShmNode.published (ShmNode.spc y) = Some m /\
     ShmNode.using_bus y = true /\ ShmNode.bus s = ShmNode.padded m /\ ShmNode.msg_len s = Z.of_nat (length m).
Proof.
  destruct (ShmNode.run (ShmNode.send_up_to_announce 1 ShmNode.m1 ++ [ShmNode.RecvSee 2; ShmNode.RecvTest 2]) (ShmNode.init 3 2)) as [s|] eqn:E;
    [|vm_compute in E; discriminate].
  pose proof (ShmNode.run_rtc _ _ _ E) as Hr.
  destruct (bus_mutual_exclusion 3 2 s Hr) as [_ H]. vm_compute in E. injection E as <-.
  eexists _, _. split; [exact Hr|]. split; [reflexivity|]. split; [reflexivity|]. apply H. reflexivity.
Defined.

(** With one component and the gateway there is a schedule in
    which both sends of the gateway complete, no thread is left with anything
    to do, and yet the component was given the first message twice (the second
    time with the length of the second message, which is longer than the
    buffer) and never the second. *)
Theorem bus_can_lose_a_message :
  exists s x,
    rtc ShmNode.step (ShmNode.init 2 1) s /\ ShmNode.quiescent s /\
    ShmNode.nodes s !! 1%nat = Some x /\
    ShmNode.delivered x = [(Z.of_nat (length ShmNode.m1), ShmNode.m1);
                           (Z.of_nat (length ShmNode.m2), ShmNode.m1)].
Proof.
  destruct (ShmNode.run ShmNode.lossy_schedule (ShmNode.init 2 1)) as [s|] eqn:E;
    [|vm_compute in E; discriminate].
  exists s. pose proof (ShmNode.run_rtc _ _ _ E) as Hr. vm_compute in E. injection E as <-.
  eexists. split; [exact Hr|]. split; [|split; reflexivity].
  repeat split. repeat constructor.
Qed.

(** With one component and the gateway there is a schedule in which
    the component copies the second, longer message into the buffer it allocated
    for the first. *)
Theorem bus_can_overrun :
  exists s x, rtc ShmNode.step (ShmNode.init 2 1) s /\ ShmNode.nodes s !! 1%nat = Some x /\ ShmNode.overrun x = true.
Proof.
  destruct (ShmNode.run ShmNode.overrun_schedule (ShmNode.init 2 1)) as [s|] eqn:E; [|vm_compute in E; discriminate].
  exists s. pose proof (ShmNode.run_rtc _ _ _ E) as Hr. vm_compute in E. injection E as <-.
  eexists. split; [exact Hr|]. split; reflexivity.
Qed.

(** With fewer nodes than the barrier was made for, a call of
    [send_msg] never returns: the sender stays before or at the barrier. *)
Theorem bus_send_can_block n k i m t u :
  (n <= k)%nat -> ShmNode.exec (ShmNode.SendLock i m) (ShmNode.init n k) = Some t -> rtc ShmNode.step t u ->
  exists x, ShmNode.nodes u !! i = Some x /\ ShmNode.before_barrier (ShmNode.spc x) = Some m.
Proof.
  intros Hk He Hr. destruct (ShmNode.round_blocked i m (ShmNode.init n k) t u) as [_ _ _ (x & Hx & Hb & _)]; [| |done|done|by exists x].
  - apply ShmNode.init_clean. lia.
  - cbn [ShmNode.init ShmNode.nodes ShmNode.barrier_count]. rewrite length_replicate. lia.
Qed.
