(* ===== verification/ProtocolProps.v ===== *)
(** * Properties of the protocol layer

    The start barrier, the authentication code, group membership, the clock
    exchange and the delivery of data messages. *)

From S2P Require Import Prelude Text Ethernet World EngineEthernet EngineShm Nic ClockSyncer Wire Protocol ProtocolFacts Communicator PublishSubscriber Vehicle Layers.
Import Ethernet Wire Protocol.
#[local] Existing Instances Communicator.comm_port_observer Vehicle.vehicle_rx_observer.

(** ** Sample processes for the witnesses *)

Definition vm1_mac : Address := [0x52; 0x54; 0; 0x12; 0x34; 1].
Definition vm0_mac : Address := [0x52; 0x54; 0; 0x12; 0x34; 0].

Definition vm_engine (m : Address) : EngineEthernet.engine :=
  {| EngineEthernet.sock_ := 3; EngineEthernet.ifindex_ := 2; EngineEthernet.mac_bytes_ := m;
     EngineEthernet.mac_ := m; EngineEthernet.running := true |}.

Definition vm_io : io :=
  io_init (fun n => {| tv_sec := 1700000000 + Z.of_nat n; tv_usec := 5 |}) (fun _ => 60) (fun _ => 0).

(** A gateway after its [initialize]. *)
Definition gateway_of (m : Address) (vmid total : Z) (master : bool) : Vehicle.proc :=
  (Vehicle.gateway_initialize true 0
     (Vehicle.initialize_communicator true (vm_engine m) (Vehicle.make_gateway vmid total master)
        Ports.GATEWAY_PORT vm_io)).2.

Definition coordinator : Vehicle.proc := gateway_of vm0_mac 0 2 true.
Definition worker : Vehicle.proc := gateway_of vm1_mac 1 2 false.

(** One enumeration order of a group map. *)
Definition sorted_groups (m : gmap Z GroupInfo) : list (Z * GroupInfo) := map_to_list m.

Definition control_message (ct : ControlType) (ac : Z) (b : bytes) : Message :=
  {| group_id := 0; orig_vm := 1; orig_port := 65535; timestamp := 1700000000000000; type := 0;
     msg_id := 0; msgac := ac; body := b; control := ct |}.

Definition capsule_from (m : Address) (payload : bytes) : AsyncCapsule :=
  {| c_from := {| mac := m; port := 65535 |}; c_to := {| mac := BROADCAST; port := 65535 |};
     c_length := Z.of_nat (length payload); c_proto := Ports.ETYPE; c_origin := OEthernet;
     c_payload := payload |}.

(** The state after a list of received frames; an exception ends one
    notification, not the run. *)
Definition receive_all {O W} `{PortObserver O W} (order : gmap Z GroupInfo -> list (Z * GroupInfo))
    (fs : list (Frame * ChannelOrigin)) (s : pst O W) : pst O W :=
  fold_left (fun s '(f, o) => (update order (f_proto f) f o s).2) fs s.

(** ** The start barrier *)

(** Claim C2. The coordinator's reaction to READY. Outside its group, or when
    no barrier was set up, a READY changes nothing. Otherwise the sender joins
    the set of ready nodes, and GO is broadcast exactly when that completes the
    expected number of nodes and no GO was sent before; the flag is then set. *)
Theorem ready_barrier {O W} `{PortObserver O W} order c msg (s : pst O W) :
  control msg = READY ->
  let y := mark_ready (str (mac (c_from c))) (syn s) in
  (is_message_internal msg s = false \/ sync_total_vms (syn s) <= 0 ->
     handle_control order c msg s = (Ok Continue, s)) /\
  (is_message_internal msg s = true -> 0 < sync_total_vms (syn s) ->
     if negb (sync_go_sent (syn s)) && all_ready y
     then exists r w,
       send_control (control_local (syn s)) {| mac := BROADCAST; port := port (control_local (syn s)) |}
         GO 0 [] (set_syn y s) = (Ok r, set_world w (set_syn y s)) /\
       handle_control order c msg s = (Ok Continue, set_world w (set_syn (mark_go_sent y) s))
     else handle_control order c msg s = (Ok Continue, set_syn y s)).
Proof.
  intros Hc y. unfold handle_control. rewrite Hc. split.
  - intros [ -> | Hn ]; [done|]. rewrite (proj2 (Z.ltb_ge _ _)) by lia. by rewrite andb_false_r.
  - intros -> Ht. rewrite (proj2 (Z.ltb_lt _ _)) by lia. cbn [andb]. apply handle_ready_spec.
Qed.

Lemma ready_barrier_witness :
  let c := capsule_from vm1_mac [] in
  let msg := control_message READY 0 [] in
  let s1 := set_syn (mark_ready (str vm0_mac) (syn coordinator)) coordinator in
  is_message_internal msg s1 = true /\
  negb (sync_go_sent (syn s1)) && all_ready (mark_ready (str vm1_mac) (syn s1)) = true /\
  exists r w,
    send_control (control_local (syn s1)) {| mac := BROADCAST; port := port (control_local (syn s1)) |}
      GO 0 [] (set_syn (mark_ready (str vm1_mac) (syn s1)) s1) =
      (Ok r, set_world w (set_syn (mark_ready (str vm1_mac) (syn s1)) s1)) /\
    handle_control sorted_groups c msg s1 =
      (Ok Continue, set_world w (set_syn (mark_go_sent (mark_ready (str vm1_mac) (syn s1))) s1)).
Proof.
  intros c msg s1. split; [by vm_compute|]. split; [by vm_compute|].
  exact (proj2 (ready_barrier sorted_groups c msg s1 eq_refl) ltac:(by vm_compute) ltac:(by vm_compute)).
Defined.

(** Claim C9. The barrier never goes back: whatever frames arrive, in whatever
    order and however malformed, the set of ready nodes only grows, a sent or
    received GO is never forgotten, and the configuration of the barrier, the
    NIC and the list of observers stay as they are. *)
Theorem barrier_monotone {O W} `{PortObserverLaws O W} order fs (s : pst O W) :
  proto_mono s (receive_all order fs s).
Proof.
  unfold receive_all. revert s. induction fs as [|[f o] fs IH]; intros s; cbn; [reflexivity|].
  etrans; [|apply IH]. apply mono_update.
Qed.

Definition ready_frame : Frame :=
  wire_frame coordinator {| mac := vm1_mac; port := 65535 |} {| mac := BROADCAST; port := 65535 |}
    (build_message (control_message READY 0 [])).

Lemma barrier_monotone_witness :
  let s' := receive_all sorted_groups [(ready_frame, OEthernet); (ready_frame, OEthernet)] coordinator in
  proto_mono coordinator s' /\ sync_ready_nodes (syn s') = {[str vm0_mac]}.
Proof.
  split; [|by vm_compute].
  apply (barrier_monotone sorted_groups [(ready_frame, OEthernet); (ready_frame, OEthernet)] coordinator).
Defined.

(** ** Authentication *)

(** Claim C8. A control message whose authentication code does not match its
    body has no effect at all. *)
Theorem forged_control_ignored {O W} `{PortObserver O W} order c msg (s : pst O W) :
  parse_message (c_payload c) = Ok msg -> control msg <> NONE ->
  verify_msgac (msgac msg) (body msg) = false ->
  notify_by_port order c s = (Ok tt, s).
Proof.
  intros Hp Hc Hv. unfold notify_by_port. rewrite Hp, (bind_ok _ _ _ msg s) by done.
  rewrite bool_decide_true by done. by rewrite Hv.
Qed.

Lemma forged_control_ignored_witness :
  notify_by_port sorted_groups
    (capsule_from vm1_mac (build_message (control_message DELAY_RESP 7 (bs "5000 10")))) worker
  = (Ok tt, worker).
Proof.
  apply (forged_control_ignored _ _ (control_message DELAY_RESP 7 (bs "5000 10"))); by vm_compute.
Defined.

(** Changing a single byte of a body always changes its authentication code. *)
Lemma mac_byte_change buf i c c' :
  bytes_ok buf -> no_nul buf -> buf !! i = Some c -> is_u8 c' -> 0 < c' -> c' <> c ->
  verify_msgac (generate_mac buf) (<[i := c']> buf) = false.
Proof.
  intros Hb Hn Hi Hc' Hpos Hne. apply Z.eqb_neq.
  assert (no_nul (<[i:=c']> buf)) as Hn'.
  { apply Forall_insert; [done|]. apply negb_true_iff, Z.eqb_neq. lia. }
  rewrite !generate_mac_no_nul by done.
  pose proof (lookup_lt_Some _ _ _ Hi) as Hlt.
  rewrite insert_take_drop by done. rewrite <- (take_drop_middle buf i c Hi) at 3.
  rewrite !mac_loop_app. cbn [mac_loop]. rewrite !length_take.
  set (a := mac_loop 0 (take i buf) 0). set (k := nth _ SECRET_KEY 0).
  assert (is_u8 a) as Ha by (by apply mac_loop_byte).
  assert (is_u8 c) as Hc by (by eapply Forall_lookup_1).
  intros E. apply mac_loop_inj in E; [|apply u8_range..|by apply bytes_ok_drop].
  rewrite !u8_id in E by (by apply mac_step_byte).
  rewrite (Z.lxor_comm a), (Z.lxor_comm a (Z.lxor c k)) in E.
  apply lxor_cancel_r, lxor_cancel_r in E. done.
Qed.

Lemma mac_loop_perm l l' i acc :
  l ≡ₚ l' -> bytes_ok l -> is_u8 acc -> mac_loop i l acc = mac_loop i l' acc.
Proof.
  intros Hp. revert i acc.
  induction Hp as [|c l l' Hp IH|x y l|l1 l2 l3 H12 IH1 H23 IH2]; intros i acc Hb Ha; [done|..].
  - inversion Hb; subst. cbn [mac_loop]. apply IH; [done|apply u8_range].
  - inversion Hb as [|?? Hy Hb']; subst. inversion Hb' as [|?? Hx _]; subst. cbn [mac_loop]. f_equal.
    rewrite !u8_id by (repeat (apply lxor_bound || apply key_byte || apply u8_range || assumption)).
    apply Z.bits_inj'. intros n _. rewrite !Z.lxor_spec.
    destruct (Z.testbit x n), (Z.testbit y n), (Z.testbit acc n); by repeat destruct (Z.testbit _ n).
  - etrans; [by apply IH1|apply IH2]; [|done]. unfold bytes_ok. by rewrite <- H12.
Qed.

(** The authentication code does not see the order of the characters. *)
Lemma mac_rearranged buf buf' :
  bytes_ok buf -> no_nul buf -> buf ≡ₚ buf' ->
  verify_msgac (generate_mac buf) buf' = true.
Proof.
  intros Hb Hn Hp. apply Z.eqb_eq.
  rewrite !generate_mac_no_nul by (done || by (unfold no_nul; rewrite <- Hp)).
  symmetry. by apply mac_loop_perm.
Qed.

(** What the authentication code of a body protects: changing any
    single byte always changes the code, but rearranging the characters never
    does, so a body with its characters in another order keeps its code. *)
Theorem mac_strength buf : bytes_ok buf -> no_nul buf ->
  (forall i c c', buf !! i = Some c -> is_u8 c' -> 0 < c' -> c' <> c ->
     verify_msgac (generate_mac buf) (<[i := c']> buf) = false) /\
  (forall buf', buf ≡ₚ buf' -> verify_msgac (generate_mac buf) buf' = true).
Proof. intros Hb Hn. split; [intros; by eapply mac_byte_change|intros; by apply mac_rearranged]. Qed.

Lemma mac_strength_witness :
  verify_msgac (generate_mac (bs "12 0 3")) (bs "62 0 3") = false /\
  verify_msgac (generate_mac (bs "12 0 3")) (bs "12 3 0") = true.
Proof.
  destruct (mac_strength (bs "12 0 3")) as [H1 H2]; [repeat constructor; done|repeat constructor|]. split.
  - by apply (H1 0%nat 49 54).
  - apply H2. apply (Permutation_app_head (bs "12 ")).
    etrans; [apply (Permutation_app_comm (bs "0 ") (bs "3"))|]. apply Permutation_skip, perm_swap.
Defined.

(** ** Groups *)

(** The code of a group number of one or two digits, and that of the text of a
    notification, is never zero. *)
Lemma group_text_mac g : 0 <= g < 100 -> verify_msgac 0 (dec g) = false.
Proof.
  intros Hg. assert (forallb (fun g => negb (verify_msgac 0 (dec g))) (seqZ 0 100) = true) as H by (vm_compute; reflexivity).
  rewrite forallb_forall in H. specialize (H g ltac:(apply list_elem_of_In, elem_of_seqZ; lia)). by apply negb_true_iff in H.
Qed.

Lemma notify_text_mac vm old gid : 0 <= vm < 256 -> -1 <= old < 4 -> 0 <= gid < 4 -> verify_msgac 0 (notify_body vm old gid) = false.
Proof.
  intros Hv Ho Hg.
  assert (forallb (fun v => forallb (fun o => forallb (fun g => negb (verify_msgac 0 (notify_body v o g))) (seqZ 0 4)) (seqZ (-1) 5)) (seqZ 0 256) = true) as H
    by (vm_compute; reflexivity).
  rewrite forallb_forall in H. specialize (H vm ltac:(apply list_elem_of_In, elem_of_seqZ; lia)). cbv beta in H.
  rewrite forallb_forall in H. specialize (H old ltac:(apply list_elem_of_In, elem_of_seqZ; lia)). cbv beta in H.
  rewrite forallb_forall in H. specialize (H gid ltac:(apply list_elem_of_In, elem_of_seqZ; lia)). cbv beta in H.
  by apply negb_true_iff in H.
Qed.

(** What the program sends with code 0. *)
Definition group_control_as_sent (msg : Message) : Prop :=
  msgac msg = 0 /\
  ((control msg = GROUP_MOVE_REQUEST \/ control msg = GROUP_ASSIGN) /\ (exists g, 0 <= g < 100 /\ body msg = dec g) \/
   control msg = GROUP_MOVE_NOTIFY /\ (exists vm old gid, 0 <= vm < 256 /\ -1 <= old < 4 /\ 0 <= gid < 4 /\ body msg = notify_body vm old gid)).

Lemma group_control_dropped {O W} `{PortObserver O W} order c (s : pst O W) msg :
  message_ok msg -> group_control_as_sent msg -> c_payload c = build_message msg -> notify_by_port order c s = (Ok tt, s).
Proof.
  intros Hm [Ha Hb] Hp. unfold notify_by_port. rewrite Hp, parse_build, (bind_ok _ _ _ msg s) by done. rewrite Ha.
  destruct Hb as [[Hc (g & Hg & ->)]|[Hc (vm & old & gid & Hv & Ho & Hg & ->)]].
  - rewrite bool_decide_true by (by destruct Hc as [ -> | -> ]). by rewrite group_text_mac.
  - rewrite bool_decide_true by (by rewrite Hc). by rewrite notify_text_mac.
Qed.

(** [set_group_for_vm] moves one machine: afterwards it is in the
    new group and in no other, [get_group_of] answers that group for every
    enumeration order of the map, and no other machine's membership changed. *)
Theorem set_group_for_vm_moves {O W} order vm gid (s : pst O W) :
  (forall m, order m ≡ₚ map_to_list m) ->
  exists s', set_group_for_vm vm gid s = (Ok tt, s') /\
    (get_group_of order vm s').1 = Ok (Some gid) /\
    (forall g v, in_group (groups (grp s')) g v <->
                 (v = vm /\ g = gid) \/ (v <> vm /\ in_group (groups (grp s)) g v)) /\
    (partitioned (groups (grp s)) -> partitioned (groups (grp s'))).
Proof.
  intros Ho. destruct (set_group_for_vm_groups vm gid s) as (s' & E & Hs).
  exists s'. split; [done|]. split; [|split; [done|]].
  - unfold get_group_of, gets. cbn. do 2 f_equal.
    pose proof (get_group_of_list_spec (groups (grp s')) _ vm (Ho _)) as Hg.
    destruct (get_group_of_list _ vm) as [g|].
    + apply Hs in Hg. f_equal. naive_solver.
    + destruct (Hg gid). apply Hs. by left.
  - intros Hp v g1 g2 H1%Hs H2%Hs. destruct H1 as [[ -> -> ]|[? H1]], H2 as [[? ?]|[? H2]]; try done.
    by eapply Hp.
Qed.

Lemma set_group_for_vm_moves_witness :
  exists s', set_group_for_vm 1 3 worker = (Ok tt, s') /\
    (get_group_of sorted_groups 1 s').1 = Ok (Some 3) /\
    (forall g v, in_group (groups (grp s')) g v <->
                 (v = 1 /\ g = 3) \/ (v <> 1 /\ in_group (groups (grp worker)) g v)) /\
    (partitioned (groups (grp worker)) -> partitioned (groups (grp s'))).
Proof. apply (set_group_for_vm_moves sorted_groups 1 3 worker). done. Defined.

(** The notification [set_current_group] sends names -1 as the old group, and
    the handler indexes the coordinator table with it. *)
Lemma notify_from_set_current_group {O W} vm new_gid (s : pst O W) :
  is_i32 vm -> is_i32 new_gid ->
  handle_group_move_notify (notify_body vm (-1) new_gid) s = (Undef, s).
Proof.
  intros Hv Hg. unfold handle_group_move_notify.
  assert (extract_3int (notify_body vm (-1) new_gid) = Some (vm, -1, new_gid)) as ->; [|done].
  unfold extract_3int, notify_body.
  rewrite extract_int_dec by done. cbn [mbind option_bind].
  change (bs " " ++ dec (-1) ++ bs " " ++ dec new_gid) with (32 :: (dec (-1) ++ (bs " " ++ dec new_gid))).
  rewrite extract_int_space, extract_int_dec by done. cbn [mbind option_bind].
  change (bs " " ++ dec new_gid) with (32 :: dec new_gid).
  rewrite extract_int_space. rewrite <- (app_nil_r (dec new_gid)). by rewrite extract_int_dec by done.
Qed.

(** The text of a notification survives the cleaning of the body. *)
Lemma clean_notify_body vm old gid : 0 <= vm -> 0 <= gid -> clean_body (notify_body vm old gid) = notify_body vm old gid.
Proof.
  intros Hv Hg. unfold clean_body.
  assert (forall z, Forall (fun c => negb (c =? 0) = true) (dec z)) as Hd.
  { intros z. eapply Forall_impl; [apply dec_chars|]. intros c [Hc| ->]; [|done]. apply isdigit_facts in Hc. lia. }
  rewrite c_str_nop by (unfold notify_body; repeat (apply Forall_app; split); [done|repeat constructor|done|repeat constructor|done]).
  assert (forall z, 0 <= z -> Forall (fun c => isspace c = false) (dec z)) as Hs.
  { intros z Hz. unfold dec. rewrite (proj2 (Z.ltb_ge _ _)) by lia. eapply Forall_impl; [by apply dec_nat_digits|]. intros c Hc. by apply isdigit_facts. }
  apply trim_nop; unfold notify_body.
  - pose proof (Hs vm Hv) as Hvm. pose proof (dec_nonempty vm). destruct (dec vm) as [|c l]; [done|]. cbn. by inversion Hvm.
  - rewrite !app_assoc, last_app. pose proof (Hs gid Hg) as Hgid. destruct (last (dec gid)) as [c|] eqn:E.
    + apply last_Some_elem_of in E. rewrite Forall_forall in Hgid. by apply Hgid.
    + apply last_None in E. by destruct (dec_nonempty gid).
Qed.

(** Claim C14. Group control between machines does not work.  A move request or an
    assignment for a group 0 to 99, and a move notification between groups that have
    a coordinator (or from none, -1), are sent with code 0, which is not the code of
    their text, so every receiver in every state ignores them (for larger groups the
    code can be 0 by chance, as for group 106).  And were the notification sent with
    the right code, the one that [set_current_group] sends, which names -1 as the
    old group, would make the receiver index the coordinator table at -1 (undefined
    behaviour). *)
Theorem group_control_broken {O W} `{PortObserver O W} order c msg (s : pst O W) :
  message_ok msg -> c_payload c = build_message msg ->
  (group_control_as_sent msg -> notify_by_port order c s = (Ok tt, s)) /\
  verify_msgac 0 (dec 106) = true /\
  (forall vm gid, control msg = GROUP_MOVE_NOTIFY -> body msg = notify_body vm (-1) gid -> msgac msg = generate_mac (body msg) ->
     0 <= vm < 256 -> 0 <= gid < 4 -> notify_by_port order c s = (Undef, s)).
Proof.
  intros Hm Hp. split; [intros Hs; by apply (group_control_dropped order c s msg)|]. split; [reflexivity|].
  intros vm gid Hc Hb Ha Hv Hg. unfold notify_by_port. rewrite Hp, parse_build, (bind_ok _ _ _ msg s) by done.
  unfold verify_msgac. rewrite Ha, Z.eqb_refl, andb_false_r. rewrite Hb, clean_notify_body by lia. unfold mbind, M_bind.
  assert (handle_control order c (set_body (notify_body vm (-1) gid) msg) s = (Undef, s)) as ->; [|done].
  unfold handle_control. cbn [set_body control body]. rewrite Hc. apply notify_from_set_current_group; unfold is_i32; lia.
Qed.

Lemma group_control_broken_witness :
  notify_by_port sorted_groups
    (capsule_from vm1_mac (build_message (control_message GROUP_MOVE_REQUEST 0 (dec 3)))) coordinator
  = (Ok tt, coordinator) /\
  notify_by_port sorted_groups
    (capsule_from vm1_mac (build_message (control_message GROUP_MOVE_NOTIFY (generate_mac (bs "1 -1 0")) (bs "1 -1 0")))) worker = (Undef, worker).
Proof.
  split.
  - eapply (group_control_broken sorted_groups _ (control_message GROUP_MOVE_REQUEST 0 (dec 3)) coordinator); [repeat split; done|reflexivity|].
    split; [done|]. left. split; [by left|]. exists 3. split; [lia|reflexivity].
  - eapply (group_control_broken sorted_groups _ (control_message GROUP_MOVE_NOTIFY (generate_mac (bs "1 -1 0")) (bs "1 -1 0")) worker)
      with (vm := 1) (gid := 0); [repeat split; done|reflexivity..|lia|lia].
Defined.

(** A packet whose GROUP field is not a number makes the receive
    path throw, whatever the state of the receiver; nothing catches it. *)
Theorem malformed_group_throws {O W} `{PortObserver O W} order c (s : pst O W) rest :
  c_payload c = bs "GROUP=x " ++ rest ->
  notify_by_port order c s = (Throw invalid_argument, s).
Proof.
  intros Hp. unfold notify_by_port. rewrite Hp.
  assert (parse_message (bs "GROUP=x " ++ rest) = Throw invalid_argument) as ->; [|done].
  unfold parse_message, parse_field.
  change (bs "GROUP=x " ++ rest) with ([] ++ (bs "GROUP" ++ 61 :: bs "x" ++ [32]) ++ rest).
  rewrite (extract_field_at [] (bs "GROUP") (bs "x") rest 0); [done|done|]. by vm_compute; intros ?%list_elem_of_singleton.
Qed.

Lemma malformed_group_throws_witness :
  notify_by_port sorted_groups (capsule_from vm1_mac (bs "GROUP=x VM=1")) worker
  = (Throw invalid_argument, worker).
Proof. by apply (malformed_group_throws _ _ worker (bs "VM=1")). Defined.

(** ** Clock exchange *)

(** With equal delays the master computes the exact difference. *)
Lemma ptp_symmetric t1 theta d p :
  0 <= d < 2 ^ 60 -> 0 <= p < 2 ^ 60 -> - 2 ^ 60 < theta < 2 ^ 60 -> 0 <= t1 < 2 ^ 62 ->
  0 <= t1 + d + theta ->
  let t2 := t1 + d + theta in
  let t3 := t2 + p in
  let t4 := t1 + d + p + d in
  ptp_offset t1 t2 t3 t4 = Ok theta /\ ptp_rtt t1 t2 t3 t4 = 2 * d.
Proof.
  intros Hd Hp Hth Ht1 Hpos t2 t3 t4. unfold ptp_offset, ptp_rtt. subst t2 t3 t4.
  replace (t1 + d + theta - t1) with (theta + d) by lia.
  replace (t1 + d + theta + p - (t1 + d + p + d)) with (theta - d) by lia.
  replace (t1 + d + p + d - t1) with (p + 2 * d) by lia.
  replace (t1 + d + theta + p - (t1 + d + theta)) with p by lia.
  rewrite !i64_u64. rewrite (u64_id (p + 2 * d)), (u64_id p) by (unfold is_u64; lia).
  rewrite !(i64_id) by (unfold is_i64; lia). unfold ClockSyncer.ll.
  rewrite (proj2 (Z.leb_le _ _)), (proj2 (Z.ltb_lt _ _)) by lia. cbn [andb mbind outcome_bind].
  replace (theta + d + (theta - d)) with (theta * 2) by lia. rewrite Z.quot_mul by lia.
  split; [done|lia].
Qed.

(** The worker adds the offset where it should subtract it. *)
Lemma ptp_correction_sign master theta delay :
  is_i32 theta -> is_i32 delay -> 0 <= master < 2 ^ 62 ->
  exists c, ClockSyncer.addPtpSample theta delay ClockSyncer.init = Ok c /\
    ClockSyncer.getSynchronizedTimeUs (master + theta) c = Ok (master + 2 * theta).
Proof.
  intros Ht Hd Hm. unfold ClockSyncer.addPtpSample, ClockSyncer.addOffsetMeasurement.
  cbn [ClockSyncer.init ClockSyncer.alg ClockSyncer.rtt_samples ClockSyncer.offset_samples
       ClockSyncer.set_alg decide app].
  change (ClockSyncer.keep_last [delay]) with [delay].
  change (ClockSyncer.keep_last [theta]) with [theta].
  rewrite !ClockSyncer.average_single by done. eexists. split; [reflexivity|].
  unfold ClockSyncer.getSynchronizedTimeUs, ClockSyncer.ll. cbn [ClockSyncer.avg_offset].
  unfold is_i32 in *. rewrite (proj2 (Z.leb_le _ _)), (proj2 (Z.ltb_lt _ _)) by lia.
  cbn. f_equal. lia.
Qed.

(** Claim C12. The clock exchange from the four timestamps to the synchronised
    time.  With equal delays [d] in both directions the master computes the exact
    clock difference (worker minus master) and round-trip time: sent at [t1] on
    the master's clock, received by a worker whose clock is ahead by [theta],
    answered after [p], received back.  But the correction has the wrong sign: the
    worker, having taken this sample, reports as synchronised time the master's
    time plus twice [theta] instead of the master's time. *)
Theorem ptp_exchange t1 theta d p master :
  0 <= d < 2 ^ 30 -> 0 <= p < 2 ^ 60 -> is_i32 theta -> 0 <= t1 < 2 ^ 62 ->
  0 <= t1 + d + theta -> 0 <= master < 2 ^ 62 ->
  let t2 := t1 + d + theta in
  let t3 := t2 + p in
  let t4 := t1 + d + p + d in
  exists offset rtt c, ptp_offset t1 t2 t3 t4 = Ok offset /\ ptp_rtt t1 t2 t3 t4 = rtt /\ offset = theta /\ rtt = 2 * d /\
    ClockSyncer.addPtpSample offset rtt ClockSyncer.init = Ok c /\
    ClockSyncer.getSynchronizedTimeUs (master + theta) c = Ok (master + 2 * theta).
Proof.
  intros Hd Hp Hth Ht1 Hpos Hm t2 t3 t4.
  destruct (ptp_symmetric t1 theta d p) as [H1 H2]; [unfold is_i32 in Hth; lia..|].
  destruct (ptp_correction_sign master theta (2 * d)) as (c & H3 & H4); [done|unfold is_i32; lia|done|].
  exists theta, (2 * d), c. done.
Qed.

Lemma ptp_exchange_witness :
  exists offset rtt c,
    ptp_offset 1700000000000000 1700000000002500 1700000000002600 1700000000000400 = Ok offset /\
    ptp_rtt 1700000000000000 1700000000002500 1700000000002600 1700000000000400 = rtt /\ offset = 2350 /\ rtt = 300 /\
    ClockSyncer.addPtpSample offset rtt ClockSyncer.init = Ok c /\
    ClockSyncer.getSynchronizedTimeUs (1700000000000000 + 2350) c = Ok (1700000000000000 + 2 * 2350).
Proof. apply (ptp_exchange 1700000000000000 2350 150 100 1700000000000000); try done; lia. Defined.

(** ** Delivery of data *)

(** What an observer is to get of a data message. *)
Definition wants {O W} `{PortObserver O W} (c : AsyncCapsule) (po : O) : bool :=
  (po_port po =? port (c_to c)) || (po_port po =? ANY_PORT).

Definition deliver {O W} `{PortObserver O W} (c : AsyncCapsule) (po : O) : M (pst O W) unit :=
  po_on_packet po (c_from c) (c_to c) (c_payload c) (c_length c) (c_origin c).

Lemma deliver_filtered {O W} `{PortObserverLaws O W} order c msg obs (s : pst O W) :
  control msg = NONE -> group_id msg = current_group_id (grp s) -> 0 <= group_id msg ->
  for_each obs (forward_to order c msg) s =
  for_each (filter (fun po => wants c po = true) obs) (deliver c) s.
Proof.
  intros Hc. revert s. induction obs as [|po obs IH]; intros s Hg Hp; [done|].
  assert (forward_to order c msg po s = if wants c po then deliver c po s else (Ok tt, s)) as E.
  { unfold forward_to, wants, deliver. rewrite decide_False by (by intros []).
    unfold get_current_group. rewrite (bind_ok _ _ _ (current_group_id (grp s)) s) by done.
    rewrite Hg, Z.eqb_refl. rewrite Hg in Hp. rewrite (proj2 (Z.eqb_neq _ _)) by lia. cbn [orb negb].
    by destruct ((po_port po =? port (c_to c)) || (po_port po =? ANY_PORT)). }
  cbn [for_each]. rewrite filter_cons. destruct (wants c po) eqn:Ew.
  - rewrite decide_True by done. cbn [for_each]. unfold mbind, M_bind. rewrite E.
    pose proof (po_on_packet_same po (c_from c) (c_to c) (c_payload c) (c_length c) (c_origin c) s)
      as (u & w & Hs). unfold deliver.
    destruct (po_on_packet po _ _ _ _ _ s) as [[[]| |] s']; [|done..]. cbn in Hs. subst s'.
    apply IH; by destruct s.
  - rewrite decide_False by done. rewrite (bind_ok _ _ _ tt s) by done. by apply IH.
Qed.

(** Claim C7. A data message of the own group is delivered, in the order of
    attachment, to exactly the observers of the destination port and those of
    any port; a data message of another group is delivered to nobody. *)
Theorem data_delivery {O W} `{PortObserverLaws O W} order c msg (s : pst O W) :
  parse_message (c_payload c) = Ok msg -> control msg = NONE -> 0 <= group_id msg ->
  notify_by_port order c s =
  if group_id msg =? current_group_id (grp s)
  then for_each (filter (fun po => wants c po = true) (portObservers s)) (deliver c) s
  else (Ok tt, s).
Proof.
  intros Hp Hc Hg. unfold notify_by_port. rewrite Hp, (bind_ok _ _ _ msg s) by done.
  rewrite bool_decide_false by (by intros []). cbn [andb].
  set (m := set_body _ msg). assert (control m = NONE) as Hm by (by destruct msg).
  rewrite (bind_ok _ _ _ Continue s) by (unfold handle_control; by rewrite Hm).
  rewrite (bind_ok _ _ _ (portObservers s) s) by done.
  assert (group_id m = group_id msg) as Eg by (by destruct msg).
  destruct (Z.eqb_spec (group_id msg) (current_group_id (grp s))) as [E|E].
  - apply deliver_filtered; [done|congruence|by rewrite Eg].
  - induction (portObservers s) as [|po l IH]; [done|]. cbn [for_each].
    rewrite (bind_ok _ _ _ tt s); [exact IH|].
    unfold forward_to. rewrite decide_False by (by intros []). unfold get_current_group.
    rewrite (bind_ok _ _ _ (current_group_id (grp s)) s) by done. rewrite Eg.
    by rewrite (proj2 (Z.eqb_neq _ _) E), orb_true_r.
Qed.

Lemma data_delivery_witness :
  let c := {| c_from := {| mac := vm0_mac; port := 65535 |}; c_to := {| mac := vm1_mac; port := 9 |};
              c_length := 5; c_proto := Ports.ETYPE; c_origin := OSharedMemory;
              c_payload := build_message (control_message NONE 0 (bs "brake!")) |} in
  notify_by_port sorted_groups c worker =
  for_each (filter (fun po => wants c po = true) (portObservers worker)) (deliver c) worker.
Proof.
  intros c. assert ((0 =? current_group_id (grp worker)) = true) as E by (by vm_compute).
  pose proof (data_delivery sorted_groups c (control_message NONE 0 (bs "brake!")) worker
                ltac:(by vm_compute) eq_refl ltac:(done)) as H.
  cbn [control_message group_id] in H. rewrite E in H. exact H.
Defined.
