(* ===== verification/ClockProps.v ===== *)
(** * Properties of the clock synchroniser *)

From S2P Require Import Prelude Text World ClockSyncer.
Import ClockSyncer.

(** The operations that record a sample. *)
Inductive sample :=
| SNtp (localSend localRecv remoteTime : Z)
| SPtp4 (t1 t2 t3 t4 : Z)
| SPtp (offset delay : Z).

Definition add_sample (x : sample) (c : syncer) : outcome syncer :=
  match x with
  | SNtp a b r => addNtpSample a b r c
  | SPtp4 t1 t2 t3 t4 => addPtpSample4 t1 t2 t3 t4 c
  | SPtp o d => addPtpSample o d c
  end.

Fixpoint add_samples (l : list sample) (c : syncer) : outcome syncer :=
  match l with
  | [] => Ok c
  | x :: l' => c' ← add_sample x c; add_samples l' c'
  end.

Definition sample_alg (x : sample) : algorithm :=
  match x with SNtp _ _ _ => NTP | _ => PTP end.

Lemma set_alg_ok a c : syncer_ok c -> syncer_ok (set_alg a c).
Proof. done. Qed.

(** Take a successful run of sequenced outcomes apart. *)
Ltac invert_ok :=
  repeat match goal with
  | H : (?m ≫= _) = Ok _ |- _ =>
      destruct m eqn:?; cbn [mbind outcome_bind] in H; [|discriminate..]
  end.

Lemma add_sample_ok x c c' :
  syncer_ok c -> add_sample x c = Ok c' ->
  syncer_ok c' /\ (alg c = NotDefined -> alg c' = sample_alg x) /\
  (alg c <> NotDefined -> alg c' = alg c).
Proof.
  intros Hc H.
  destruct x; cbn [add_sample] in H; unfold addNtpSample, addPtpSample4, addPtpSample in H;
    destruct (decide (alg c = _)) as [Ha|Ha];
    try (injection H as <-; rewrite Ha; by split; [|split]);
    invert_ok; apply addOffsetMeasurement_ok in H as [H ->]; auto using set_alg_ok;
    split; try done; split; try done; cbn; destruct (alg c); done.
Qed.

(** Claim C13. The state of the synchroniser is consistent after any sequence
    of NTP and PTP samples that does not overflow: as many delays as offsets,
    never more than the limit, averages that belong to the samples kept; and
    the algorithm, chosen by the first sample, never changes. *)
Theorem syncer_invariant l c c' :
  syncer_ok c -> add_samples l c = Ok c' ->
  syncer_ok c' /\ (alg c <> NotDefined -> alg c' = alg c) /\
  (alg c = NotDefined -> forall x, head l = Some x -> alg c' = sample_alg x).
Proof.
  revert c. induction l as [|x l IH]; intros c Hc H; cbn in H; [by simplify_eq|].
  destruct (add_sample x c) as [c1| |] eqn:E; cbn in H; [|done..].
  apply add_sample_ok in E as (H1 & H2 & H3); [|done].
  destruct (IH _ H1 H) as (H4 & H5 & _). split; [done|]. split.
  - intros Hn. rewrite H5; [by apply H3|]. by rewrite H3.
  - intros Hn y [= <-]. rewrite H5; rewrite H2 by done; [done|by destruct x].
Qed.

Lemma syncer_invariant_witness :
  exists c', add_samples [SPtp4 1000 1400 1500 1700; SNtp 0 10 7; SPtp (-40) 120] init = Ok c' /\
    syncer_ok c' /\ alg c' = PTP /\ length (offset_samples c') = 2%nat.
Proof.
  destruct (add_samples [SPtp4 1000 1400 1500 1700; SNtp 0 10 7; SPtp (-40) 120] init)
    as [c'| |] eqn:E; [|vm_compute in E; discriminate..].
  exists c'. split; [done|]. pose proof (syncer_invariant _ init c' syncer_init_ok E) as (H1 & _ & H3).
  split; [done|]. split; [by apply (H3 eq_refl (SPtp4 1000 1400 1500 1700))|].
  vm_compute in E. by injection E as <-.
Defined.

(** On samples whose running sums are non-negative and fit in an
    [int], the average is the integer part of the mean. *)
Theorem average_exact_nonneg v :
  v <> [] -> Forall is_i32 v ->
  (forall k, (k <= length v)%nat -> 0 <= Zsum (take k v) < 2 ^ 31) ->
  average v = Ok (Zsum v / Z.of_nat (length v)).
Proof.
  intros Hne Hv Hk.
  assert (0 <= Zsum v < 2 ^ 31) as Hs by (rewrite <- (take_ge v (length v)) by lia; apply Hk; lia).
  assert (accumulate_int 0 v = Ok (Zsum v)) as E.
  { rewrite (accumulate_int_exact 0 v) by
      (done || (intros k Hkl; specialize (Hk k Hkl); unfold is_i32; lia)). f_equal. }
  unfold average. destruct v as [|x v]; [done|]. rewrite E. cbn [mbind outcome_bind].
  rewrite u64_id by (unfold is_u64; lia). rewrite i64_id; [done|]. unfold is_i64.
  assert (0 < Z.of_nat (length (x :: v))) by (cbn; lia).
  split; [transitivity 0; [lia|by apply Z.div_pos; lia]|].
  apply Z.le_lt_trans with (Zsum (x :: v)); [|lia]. apply Z.div_le_upper_bound; nia.
Qed.

Lemma average_exact_nonneg_witness : average [100; -20; 31] = Ok 37.
Proof.
  apply (average_exact_nonneg [100; -20; 31]); [done|by repeat constructor|].
  intros [|[|[|[|k]]]] Hk; cbn in *; lia.
Defined.

(** On two or more samples with a negative sum the average is wrong:
    the sum is converted to an unsigned 64-bit number before the division, and
    the result is a large positive number, never the (negative) mean. *)
Theorem average_wrong_when_negative v :
  (2 <= length v)%nat -> Z.of_nat (length v) <= MAX_SAMPLES_IN_CLOCK_SYNCER ->
  Forall is_i32 v -> (forall k, (k <= length v)%nat -> is_i32 (Zsum (take k v))) ->
  Zsum v < 0 ->
  exists a, average v = Ok a /\ a = (2 ^ 64 + Zsum v) / Z.of_nat (length v) /\ 2 ^ 40 < a.
Proof.
  intros Hn Hmax Hv Hk Hneg. unfold MAX_SAMPLES_IN_CLOCK_SYNCER in Hmax.
  assert (is_i32 (Zsum v)) as Hs by (rewrite <- (take_ge v (length v)) by lia; apply Hk; lia).
  assert (accumulate_int 0 v = Ok (Zsum v)) as E.
  { rewrite (accumulate_int_exact 0 v) by (done || (intros k Hkl; by apply Hk)). f_equal. }
  unfold average. destruct v as [|x v]; [done|]. rewrite E. cbn [mbind outcome_bind].
  unfold is_i32 in Hs. set (n := Z.of_nat (length (x :: v))) in *. assert (2 <= n) by lia.
  assert (u64 (Zsum (x :: v)) = 2 ^ 64 + Zsum (x :: v)) as ->.
  { unfold u64. symmetry. apply Zmod_unique with (-1); lia. }
  set (s := Zsum (x :: v)) in *. clearbody n s.
  assert (2 ^ 40 < (2 ^ 64 + s) / n < 2 ^ 63) as Hb.
  { split; [|apply Z.div_lt_upper_bound; nia].
    apply Z.lt_le_trans with (2 ^ 41); [lia|]. apply Z.div_le_lower_bound; nia. }
  eexists. split; [reflexivity|]. rewrite i64_id by (unfold is_i64; lia). split; [done|lia].
Qed.

Lemma average_wrong_when_negative_witness :
  exists a, average [-3; -5] = Ok a /\ a = (2 ^ 64 + -8) / 2 /\ 2 ^ 40 < a.
Proof.
  apply (average_wrong_when_negative [-3; -5]); [done|done|by repeat constructor| |done].
  intros [|[|[|k]]] Hk; cbn in *; unfold is_i32; lia.
Defined.

(** Stepping the system clock by an offset of either sign keeps the
    microseconds normalised and moves the time by exactly that offset. *)
Theorem step_exact_and_normalised gtod stod off ok tv' :
  (forall tv, gtod = Some tv -> 0 <= tv_usec tv < 1000000) ->
  adjust_system_time_by_us gtod stod off = (ok, Some tv') ->
  exists tv, gtod = Some tv /\ ok = stod tv' /\ 0 <= tv_usec tv' < 1000000 /\
    tv_sec tv' * 1000000 + tv_usec tv' = tv_sec tv * 1000000 + tv_usec tv + off.
Proof.
  unfold adjust_system_time_by_us. destruct gtod as [tv|]; [|done]. intros Hn [= <- <-].
  exists tv. split; [done|]. split; [done|]. by apply adjusted_timeval_spec, Hn.
Qed.

Lemma step_exact_and_normalised_witness :
  exists tv, Some {| tv_sec := 10; tv_usec := 5 |} = Some tv /\ true = true /\
    0 <= 999999 < 1000000 /\ 8 * 1000000 + 999999 = tv_sec tv * 1000000 + tv_usec tv + (-1000006).
Proof.
  apply (step_exact_and_normalised (Some {| tv_sec := 10; tv_usec := 5 |}) (fun _ => true) (-1000006)
           true {| tv_sec := 8; tv_usec := 999999 |}); [|reflexivity].
  by intros tv [= <-].
Defined.
