(* ===== verification/VehicleProps.v ===== *)
(** * Properties of the vehicle: registry, communicator, components, gateway, start-up *)

From S2P Require Import Prelude Text Ethernet World EngineEthernet EngineShm Nic ClockSyncer Wire Protocol ProtocolFacts Communicator PublishSubscriber Vehicle Layers VehicleFacts Car ProtocolProps.
Import Ethernet Wire.
#[local] Existing Instances Communicator.comm_port_observer Vehicle.vehicle_rx_observer.

(** ** Publish/subscribe *)

Section pubsub.
Import PublishSubscriber.

(** The requests a registry serves. *)
Inductive request :=
| RCapability (t : Z)
| RNoCapability (t : Z)
| RSubscribe (now t : Z) (w : bytes) (period : Z)
| RCollect (now t : Z) (allTypes : bool).

Definition serve (cap_order : gset Z -> list Z) (r : request) (p : pubsub) : pubsub :=
  match r with
  | RCapability t => add_capability t p
  | RNoCapability t => remove_capability t p
  | RSubscribe now t w period => (subscribe now t w period p).2
  | RCollect now t all => (get_due_subscribers cap_order now t all p).2
  end.

Definition request_ok (r : request) : Prop :=
  match r with RSubscribe _ _ _ period => is_u64 period | _ => True end.

(** Whatever requests it served, the registry holds at most one
    subscription per subscriber and data type, each with a positive period. *)
Theorem registry_invariant cap_order rs :
  Forall request_ok rs -> pubsub_ok (fold_left (fun p r => serve cap_order r p) rs init).
Proof.
  intros H. assert (pubsub_ok init) as Hi by apply registry_init_ok. revert Hi. generalize init as p.
  induction H as [|r rs Hr _ IH]; intros p Hp; cbn; [done|]. apply IH.
  destruct r as [| |now t w period|now t all]; cbn; [done|done| |].
  - apply subscribe_ok; [unfold request_ok, is_u64 in Hr; lia|done].
  - by apply collect_due_ok.
Qed.

Definition sample_requests : list request :=
  [RCapability 2; RSubscribe 1000 2 (bs "102") 500; RSubscribe 1100 2 (bs "103") 700;
   RSubscribe 1200 2 (bs "102") 900; RCollect 1900 2 false].

Lemma registry_invariant_witness :
  pubsub_ok (fold_left (fun p r => serve elements r p) sample_requests init).
Proof. apply (registry_invariant elements). by repeat constructor. Defined.

(** Claim C16. A subscription is refused, without any effect, exactly when the
    type is not produced or the period is zero; otherwise the subscriber has
    exactly the requested period and is next due one period from now, and the
    other subscribers and types are as before. *)
Theorem subscribe_spec now t w period p :
  pubsub_ok p ->
  let '(ok, p') := subscribe now t w period p in
  (ok = supports p t && negb (period =? 0)) /\
  (ok = false -> p' = p) /\
  (ok = true ->
   exists l, subs_ p' !! t = Some l /\
     filter (fun s => who s = w) l = [{| who := w; period_us := period; next_due_us := u64 (now + period) |}] /\
     filter (fun s => who s <> w) l = filter (fun s => who s <> w) (default [] (subs_ p !! t)) /\
     forall t', t' <> t -> subs_ p' !! t' = subs_ p !! t').
Proof.
  intros Hp. unfold subscribe. destruct (supports p t); cbn [negb orb andb]; [|done].
  destruct (period =? 0); [done|]. split; [done|]. split; [done|]. intros _. cbn [subs_].
  assert (NoDup (who <$> default [] (subs_ p !! t))) as Hn.
  { destruct (subs_ p !! t) eqn:E; cbn; [by apply (Hp t)|constructor]. }
  set (l0 := default [] (subs_ p !! t)) in *. set (due := u64 (now + period)).
  eexists. split; [apply lookup_insert_eq|].
  rewrite (and_assoc (filter _ _ = _) (filter _ _ = _)). split; [|intros; by apply lookup_insert_ne].
  destruct (refresh w period due l0) as [l'|] eqn:Er.
  - by apply refresh_filter.
  - apply refresh_none in Er. rewrite !filter_app. split.
    + rewrite (filter_none_who w l0) by done. cbn. by rewrite decide_True.
    + rewrite filter_cons, decide_False, filter_nil, app_nil_r by (by intros []). done.
Qed.

Lemma subscribe_spec_witness :
  let p := add_capability 2 init in
  let p' := (subscribe 1000 2 (bs "102") 500 p).2 in
  exists l, subs_ p' !! 2 = Some l /\
    filter (fun s => who s = bs "102") l =
      [{| who := bs "102"; period_us := 500; next_due_us := u64 (1000 + 500) |}] /\
    filter (fun s => who s <> bs "102") l =
      filter (fun s => who s <> bs "102") (default [] (subs_ p !! 2)) /\
    forall t', t' <> 2 -> subs_ p' !! t' = subs_ p !! t'.
Proof. exact (proj2 (proj2 (subscribe_spec 1000 2 (bs "102") 500 (add_capability 2 init) registry_init_ok)) eq_refl). Defined.

(** Collecting the due subscribers of one data type. *)
Lemma due_subscribers_spec cap_order now t p l :
  supports p t = true -> subs_ p !! t = Some l ->
  let '(due, p') := get_due_subscribers cap_order now t false p in
  due = who <$> filter (fun s => next_due_us s <= now) l /\
  subs_ p' !! t = Some ((fun s => if decide (next_due_us s <= now)
                                  then {| who := who s; period_us := period_us s;
                                          next_due_us := u64 (next_due_us s + period_us s) |}
                                  else s) <$> l) /\
  (forall t', t' <> t -> subs_ p' !! t' = subs_ p !! t') /\ capabilities_ p' = capabilities_ p.
Proof.
  intros Hs Hl. unfold get_due_subscribers. cbn [collect_due]. rewrite Hs, Hl. cbn [negb].
  split; [|split; [|split; [|done]]].
  - rewrite app_nil_r. unfold due_in. f_equal. apply list_filter_iff. intros s.
    unfold is_due. apply Z.leb_le.
  - cbn [subs_]. rewrite lookup_insert_eq. f_equal. apply list_fmap_ext. intros i s _.
    unfold advance, is_due. destruct (Z.leb_spec (next_due_us s) now).
    + by rewrite decide_True.
    + rewrite decide_False by lia. done.
  - intros t' Ht. cbn [subs_]. by apply lookup_insert_ne.
Qed.

(** [next_due] is a lower bound of all due times and one of them, if any. *)
Lemma next_due_spec p :
  next_due p <= UINT64_MAX /\
  (forall t l s, subs_ p !! t = Some l -> s ∈ l -> next_due p <= next_due_us s) /\
  (next_due p = UINT64_MAX \/ exists t l s, subs_ p !! t = Some l /\ s ∈ l /\ next_due p = next_due_us s).
Proof.
  unfold next_due. apply (map_fold_weak_ind (fun d (m : gmap Z (list Subscription)) =>
    d <= UINT64_MAX /\ (forall t l s, m !! t = Some l -> s ∈ l -> d <= next_due_us s) /\
    (d = UINT64_MAX \/ exists t l s, m !! t = Some l /\ s ∈ l /\ d = next_due_us s))).
  - split; [done|]. split; [|by left]. by intros t l s; rewrite lookup_empty.
  - intros t l m d Hm (H1 & H2 & H3). destruct (min_due_le l d) as [H4 H5].
    split; [lia|]. split.
    + intros t' l' s. rewrite lookup_insert. case_decide as E.
      * intros [= <-] Hs. rewrite Forall_forall in H5. by apply H5.
      * intros Hl Hs. specialize (H2 _ _ _ Hl Hs). lia.
    + destruct (min_due_in l d) as [E|E].
      * rewrite E. destruct H3 as [H3|(t' & l' & s & Hl & Hs & Hd)]; [by left|right].
        exists t', l', s. split; [|done]. rewrite lookup_insert_ne; [done|]. by intros <-; simplify_eq.
      * right. apply Exists_exists in E as (s & Hs & Hd). exists t, l, s.
        by rewrite lookup_insert_eq.
Qed.

(** The time the publisher sleeps. *)
Lemma wait_until_next_due_spec now p t l s :
  0 <= now -> subs_ p !! t = Some l -> s ∈ l -> is_u64 (next_due_us s) -> next_due_us s <> UINT64_MAX ->
  let wait := wait_until_next_due now p in
  0 <= wait /\ (wait = 0 \/ now + wait <= next_due_us s) /\
  (wait <> 0 -> exists t' l' s', subs_ p !! t' = Some l' /\ s' ∈ l' /\ now + wait = next_due_us s').
Proof.
  intros Hnow Hl Hs Hu Hm. destruct (next_due_spec p) as (H1 & H2 & H3).
  specialize (H2 _ _ _ Hl Hs). unfold wait_until_next_due.
  destruct (Z.eqb_spec (next_due p) UINT64_MAX) as [E|E].
  { unfold is_u64, UINT64_MAX in *. lia. }
  destruct H3 as [?|(t' & l' & s' & Hl' & Hs' & Hd)]; [done|].
  destruct (Z.ltb_spec now (next_due p)) as [Hlt|]; [|lia].
  assert (Z.max 0 (i64 (u64 (next_due p - now))) = 0 \/ Z.max 0 (i64 (u64 (next_due p - now))) = next_due p - now) as [Hw|Hw].
  { unfold is_u64 in *. rewrite u64_id by (unfold is_u64; lia). destruct (Z.ltb_spec (next_due p - now) (2 ^ 63)) as [Hs63|Hs63].
    - right. rewrite i64_id by (unfold is_i64; lia). lia.
    - left. unfold i64. rewrite <- (Z.mod_unique (next_due p - now + 2 ^ 63) (2 ^ 64) 1 (next_due p - now - 2 ^ 63)); lia. }
  - lia.
  - rewrite Hw. split; [lia|]. split; [lia|]. intros _. exists t', l', s'. split; [done|]. split; [done|]. lia.
Qed.

(** Claim C15. The publisher's timing.  Collecting the due subscribers of one data
    type reports exactly those whose time has come, in subscription order; each of
    them is postponed by one period and every other subscription is untouched.
    And the publisher never oversleeps: it sleeps not at all or until a moment at
    which some subscription is due and before which none of them is. *)
Theorem publisher_timing cap_order now t p l :
  supports p t = true -> subs_ p !! t = Some l -> 0 <= now ->
  (let '(due, p') := get_due_subscribers cap_order now t false p in
   due = who <$> filter (fun s => next_due_us s <= now) l /\
   subs_ p' !! t = Some ((fun s => if decide (next_due_us s <= now)
                                   then {| who := who s; period_us := period_us s;
                                           next_due_us := u64 (next_due_us s + period_us s) |}
                                   else s) <$> l) /\
   (forall t', t' <> t -> subs_ p' !! t' = subs_ p !! t') /\ capabilities_ p' = capabilities_ p) /\
  (forall s, s ∈ l -> is_u64 (next_due_us s) -> next_due_us s <> UINT64_MAX ->
   let wait := wait_until_next_due now p in
   0 <= wait /\ (wait = 0 \/ now + wait <= next_due_us s) /\
   (wait <> 0 -> exists t' l' s', subs_ p !! t' = Some l' /\ s' ∈ l' /\ now + wait = next_due_us s')).
Proof.
  intros Hs Hl Hnow. split; [by apply due_subscribers_spec|]. intros s Hin Hu Hm. by eapply wait_until_next_due_spec.
Qed.

Lemma publisher_timing_witness :
  let p := fold_left (fun p r => serve elements r p)
             [RCapability 2; RSubscribe 1000 2 (bs "102") 500; RSubscribe 1100 2 (bs "103") 900] init in
  (get_due_subscribers elements 1600 2 false p).1 = [bs "102"] /\
  (wait_until_next_due 1600 p = 0 \/ 1600 + wait_until_next_due 1600 p <= 2000).
Proof.
  intros p.
  destruct (publisher_timing elements 1600 2 p
    [{| who := bs "102"; period_us := 500; next_due_us := 1500 |};
     {| who := bs "103"; period_us := 900; next_due_us := 2000 |}] eq_refl eq_refl) as [H1 H2]; [done|]. split.
  - destruct (get_due_subscribers elements 1600 2 false p) as [due p']. destruct H1 as [ -> _ ]. reflexivity.
  - set (s2 := {| who := bs "103"; period_us := 900; next_due_us := 2000 |}) in H2.
    assert (s2 ∈ [{| who := bs "102"; period_us := 500; next_due_us := 1500 |}; s2]) as Hin by apply list_elem_of_further, list_elem_of_here.
    assert (is_u64 (next_due_us s2)) as Hu by (cbn; unfold is_u64; lia).
    assert (next_due_us s2 <> UINT64_MAX) as Hm by (cbn; unfold UINT64_MAX; lia).
    exact (proj1 (proj2 (H2 s2 Hin Hu Hm))).
Defined.
End pubsub.

(** ** The gateway *)

Section gateway.
Import Vehicle Communicator.

(** The message a gateway sends on: same payload, type, id, control code and
    authentication code, but its own group, machine, port and time. *)
Definition relayed (s : proc) (g : gateway_state) (m : Message) (now : Z) : Message :=
  set_timestamp now (readdress m (Protocol.current_group_id (Protocol.grp s)) (gw_vm_id g)
                       (cport (app (Protocol.upper s)))).

Lemma relayed_ok s g m now :
  configured s -> message_ok m -> is_u64 now -> message_ok (relayed s g m now).
Proof.
  intros (_ & _ & _ & _ & Hp & _) (H1 & H2 & H3 & H4 & H5 & H6 & H7 & H8 & H9) Hn.
  unfold relayed, message_ok. cbn. repeat (split; try done); apply u8_range.
Qed.

(** Claim C5. A message from the bus of the vehicle leaves the gateway as
    exactly one Ethernet broadcast, with the same body, type and identifier,
    stamped with the gateway's own group, machine, port and the current time. *)
Theorem gateway_forwards s g e rx o :
  configured s -> knd (app (Protocol.upper s)) = Gateway g ->
  NIC.ethernet_engine (Protocol.nic s) = Some e -> 0 <= EngineEthernet.sock_ e ->
  addr_ok (EngineEthernet.mac_bytes_ e) -> NIC.mac (Protocol.nic s) <> BROADCAST ->
  rx_origin rx = OSharedMemory -> message_ok (rx_msg rx) -> bytes_ok (body (rx_msg rx)) ->
  Z.of_nat (length (body (rx_msg rx))) <= 1369 ->
  let now := microseconds_of (clock (Protocol.world s) (n_clock (Protocol.world s))) in
  let m := relayed s g (rx_msg rx) now in
  exists packet s', Vehicle.on_receive rx o s = (Ok tt, s') /\ advanced s s' /\
    out (Protocol.world s') = out (Protocol.world s) ++ [OnWire packet] /\
    wire_carries packet {| mac := BROADCAST; port := Ports.GATEWAY_PORT |} m.
Proof.
  intros Hc Hk He Hso Hmb Hnb Ho Hm Hb Hlen now m.
  assert (message_ok m) as Hmok by (by apply relayed_ok; [| |apply clock_u64]).
  assert (Z.of_nat (length (build_message m)) <= MTU) as Hl.
  { pose proof (length_build_message m Hmok) as H. unfold MTU, MAX_DATA, sizeof_Header.
    change (body m) with (body (rx_msg rx)) in H. lia. }
  set (s1 := Protocol.set_world (get_microseconds_now (Protocol.world s)).2 s).
  assert (advanced s s1) as Ha by apply advanced_world.
  destruct (send_message_wire s1 e {| mac := BROADCAST; port := Ports.GATEWAY_PORT |} m)
    as (r & packet & s' & E & Ha' & Hout & Hw);
    first [done | by apply not_eq_sym | by split; [|repeat constructor]
          | idtac].
  { exists packet, s'. split; [|split; [by etrans|done]].
    unfold Vehicle.on_receive, get_app. rewrite (bind_ok _ _ _ (app (Protocol.upper s)) s) by done.
    rewrite Hk. unfold gateway_on_receive. rewrite Ho. unfold forward_message, get_app.
    rewrite (bind_ok _ _ _ (app (Protocol.upper s)) s) by done.
    rewrite (bind_ok _ _ _ (Protocol.current_group_id (Protocol.grp s)) s) by done.
    rewrite (bind_ok _ _ _ now s1) by done.
    destruct Hc as (_ & _ & _ & _ & _ & _ & _ & ->).
    by rewrite (bind_ok _ _ _ r s'). }
Qed.

Definition brake_rx (o : ChannelOrigin) : Rx :=
  {| rx_msg := control_message NONE 0 (bs "brake!");
     rx_from := {| mac := vm1_mac; port := 102 |}; rx_to := {| mac := vm1_mac; port := 65535 |};
     rx_origin := o |}.

Lemma worker_configured : configured worker.
Proof.
  assert (addr_ok (NIC.mac (Protocol.nic worker))) as Ha.
  { change (addr_ok vm1_mac). by split; [|repeat constructor]. }
  unfold configured. split; [by vm_compute|]. split; [exact Ha|].
  do 5 (split; [by vm_compute|]). by vm_compute.
Qed.

Definition worker_gateway : gateway_state :=
  {| gw_vm_id := 1; total_sync_vms := 2; sync_master := false; sync_done := false;
     last_sync_request_us := 0; did_request := false |}.

Lemma gateway_forwards_witness :
  exists packet s', Vehicle.on_receive (brake_rx OSharedMemory) OSharedMemory worker = (Ok tt, s') /\
    advanced worker s' /\
    out (Protocol.world s') = out (Protocol.world worker) ++ [OnWire packet] /\
    wire_carries packet {| mac := BROADCAST; port := Ports.GATEWAY_PORT |}
      (relayed worker worker_gateway (control_message NONE 0 (bs "brake!"))
         (microseconds_of (clock (Protocol.world worker) (n_clock (Protocol.world worker))))).
Proof.
  apply (gateway_forwards worker worker_gateway (vm_engine vm1_mac) (brake_rx OSharedMemory));
    [exact worker_configured|by vm_compute|by vm_compute|done|by split; [|repeat constructor]
    |by vm_compute|done|by repeat split|by repeat constructor|by vm_compute].
Defined.

(** What [fanout_message] puts on the bus for one peer. *)
Definition fanned (s : proc) (g : gateway_state) (m : Message) (p : Z) (x : effect) : Prop :=
  exists blob now, x = OnBus blob /\ is_u64 now /\
    bus_carries blob {| mac := NIC.mac (Protocol.nic s); port := p |} (relayed s g m now).

Lemma fanout_loop s g rx ports t :
  configured s -> message_ok (rx_msg rx) -> bytes_ok (body (rx_msg rx)) -> Forall is_u16 ports ->
  Z.of_nat (length (body (rx_msg rx))) <= 1351 ->
  advanced s t ->
  exists xs t',
    for_each ports (fun p =>
      now ← Protocol.on_io get_microseconds_now;
      Communicator.send_message {| mac := my_mac (app (Protocol.upper s)); port := p |}
        (set_timestamp now (readdress (rx_msg rx) (Protocol.current_group_id (Protocol.grp s)) (gw_vm_id g)
           (cport (app (Protocol.upper s))))) ;; skip) t = (Ok tt, t') /\
    advanced s t' /\ out (Protocol.world t') = out (Protocol.world t) ++ xs /\
    Forall2 (fanned s g (rx_msg rx)) ports xs.
Proof.
  intros Hc Hm Hb Hp Hl. revert t. induction Hp as [|p ports Hp _ IH]; intros t Ht.
  { exists [], t. rewrite app_nil_r. by repeat split; try constructor; apply Ht. }
  cbn [for_each].
  set (t1 := Protocol.set_world (get_microseconds_now (Protocol.world t)).2 t).
  set (now := microseconds_of (clock (Protocol.world t) (n_clock (Protocol.world t)))).
  assert (advanced s t1) as Ht1 by (etrans; [exact Ht|apply advanced_world]).
  assert (NIC.mac (Protocol.nic t1) = NIC.mac (Protocol.nic s)) as En by (by destruct Ht1 as ((?&?&->)&_)).
  assert (my_mac (app (Protocol.upper s)) = NIC.mac (Protocol.nic s)) as Emy by apply Hc.
  assert (message_ok (relayed s g (rx_msg rx) now)) as Hmok by (by apply relayed_ok; [| |apply clock_u64]).
  destruct (send_message_bus t1 {| mac := NIC.mac (Protocol.nic s); port := p |} (relayed s g (rx_msg rx) now))
    as (blob & t2 & E & Ha & Hout & Hbc); try done.
  { by eapply advanced_configured. }
  { pose proof (length_build_message _ Hmok) as H.
    change (body (relayed _ _ _ _)) with (body (rx_msg rx)) in H. lia. }
  destruct (IH t2) as (xs & t' & E' & Ha' & Hout' & Hf); [by etrans|].
  exists (OnBus blob :: xs), t'. split; [|split; [done|split]].
  - rewrite (bind_ok _ _ _ tt t2); [exact E'|].
    rewrite (bind_ok _ _ _ now t1) by done. rewrite Emy. by rewrite (bind_ok _ _ _ 0 t2).
  - rewrite Hout', Hout. by rewrite <- app_assoc.
  - constructor; [|done]. exists blob, now. split; [done|]. split; [apply clock_u64|done].
Qed.

(** Claim C6. A message from Ethernet is put on the bus once for every peer
    component, in the order of the peer ports, each time addressed to that
    port of the own vehicle and with the body, type and identifier received. *)
Theorem gateway_fans_out s g rx o :
  configured s -> knd (app (Protocol.upper s)) = Gateway g -> rx_origin rx = OEthernet ->
  message_ok (rx_msg rx) -> bytes_ok (body (rx_msg rx)) ->
  Forall is_u16 (peer_ports (app (Protocol.upper s))) ->
  Z.of_nat (length (body (rx_msg rx))) <= 1351 ->
  exists xs s', Vehicle.on_receive rx o s = (Ok tt, s') /\ advanced s s' /\
    out (Protocol.world s') = out (Protocol.world s) ++ xs /\
    Forall2 (fanned s g (rx_msg rx)) (peer_ports (app (Protocol.upper s))) xs.
Proof.
  intros Hc Hk Ho Hm Hb Hp Hl.
  destruct (fanout_loop s g rx (peer_ports (app (Protocol.upper s))) s) as (xs & s' & E & H); try done.
  exists xs, s'. split; [|done].
  unfold Vehicle.on_receive, get_app. rewrite (bind_ok _ _ _ (app (Protocol.upper s)) s) by done.
  rewrite Hk. unfold gateway_on_receive. rewrite Ho. unfold fanout_message, get_app.
  rewrite (bind_ok _ _ _ (app (Protocol.upper s)) s) by done.
  by rewrite (bind_ok _ _ _ (Protocol.current_group_id (Protocol.grp s)) s).
Qed.

Definition worker_with_peers : proc :=
  (mod_app (set_peer_ports (Car.all_ports)) worker).2.

Lemma gateway_fans_out_witness :
  exists xs s', Vehicle.on_receive (brake_rx OEthernet) OEthernet worker_with_peers = (Ok tt, s') /\
    advanced worker_with_peers s' /\
    out (Protocol.world s') = out (Protocol.world worker_with_peers) ++ xs /\
    Forall2 (fanned worker_with_peers worker_gateway (control_message NONE 0 (bs "brake!"))) [101; 102] xs.
Proof.
  apply (gateway_fans_out worker_with_peers worker_gateway (brake_rx OEthernet));
    [exact worker_configured|by vm_compute|done|by repeat split|by repeat constructor
    |by repeat constructor|done].
Defined.

End gateway.

(** ** The communicator *)

Section communicator.
Import Communicator.

(** Messages are taken from the queue in the order in which they
    were put in, none is lost, and a receive on an empty queue has no effect. *)
Theorem queue_fifo {C} (s : node C) rxs :
  queue (Protocol.upper s) = [] ->
  let s1 := fold_left (fun s rx => (enqueue rx s).2) rxs s in
  queue (Protocol.upper s1) = rxs /\
  (forall rx rest, rxs = rx :: rest ->
     exists s2, receive s1 = (Ok (Some rx), s2) /\ queue (Protocol.upper s2) = rest) /\
  (rxs = [] -> try_receive s1 = (Ok (false, None), s1)).
Proof.
  intros Hq s1.
  assert (forall s : node C, queue (Protocol.upper (fold_left (fun s rx => (enqueue rx s).2) rxs s)) =
                    queue (Protocol.upper s) ++ rxs) as Hf.
  { clear. induction rxs as [|rx rxs IH]; intros s; cbn; [by rewrite app_nil_r|].
    rewrite IH. cbn. by rewrite <- app_assoc. }
  assert (queue (Protocol.upper s1) = rxs) as E by (unfold s1; by rewrite Hf, Hq).
  split; [done|]. split.
  - intros rx rest ->. unfold receive, get_comm. rewrite (bind_ok _ _ _ (Protocol.upper s1) s1) by done.
    rewrite E. eexists. split; [reflexivity|done].
  - intros ->. unfold try_receive. rewrite (bind_ok _ _ _ None s1); [done|].
    unfold receive, get_comm. rewrite (bind_ok _ _ _ (Protocol.upper s1) s1) by done. by rewrite E.
Qed.

Lemma queue_fifo_witness :
  let rxs := [brake_rx OSharedMemory; brake_rx OEthernet] in
  exists s2, receive (fold_left (fun s rx => (enqueue rx s).2) rxs worker) = (Ok (Some (brake_rx OSharedMemory)), s2) /\
    queue (Protocol.upper s2) = [brake_rx OEthernet].
Proof. exact (proj1 (proj2 (queue_fifo worker [brake_rx OSharedMemory; brake_rx OEthernet] eq_refl)) _ _ eq_refl). Defined.

(** The message [Communicator::send] builds. *)
Definition outgoing (s : Vehicle.proc) (ty : Z) (data : bytes) : Message :=
  let c := Protocol.upper s in
  {| group_id := u8 (Protocol.current_group_id (Protocol.grp s));
     orig_vm := vm_id_from_mac (mac (local c)); orig_port := port (local c);
     timestamp := microseconds_of (clock (Protocol.world s) (n_clock (Protocol.world s)));
     type := ty; msg_id := next_msg_id c; msgac := 0; body := data; control := NONE |}.

Lemma outgoing_ok s ty data :
  configured s -> is_i32 ty -> is_u64 (next_msg_id (Protocol.upper s)) -> message_ok (outgoing s ty data).
Proof.
  intros (_ & [Hl Hb] & _ & El & Hp & _) Ht Hi. unfold message_ok, outgoing. cbn. rewrite El. cbn.
  split; [apply u8_range|]. split.
  { unfold vm_id_from_mac, LENGTH, bytes_ok in *. destruct (NIC.mac _) as [|? [|? [|? [|? [|? [|x l]]]]]]; try done.
    rewrite !Forall_cons in Hb. cbn. tauto. }
  split; [done|]. split; [apply clock_u64|]. done.
Qed.
(** [Communicator::send] to an endpoint of the own vehicle. *)
Lemma comm_send_bus s to ty data :
  configured s -> is_i32 ty -> is_u64 (next_msg_id (Protocol.upper s)) ->
  mac to = NIC.mac (Protocol.nic s) -> is_u16 (port to) -> bytes_ok data ->
  Z.of_nat (length data) <= 1351 ->
  exists blob s', Communicator.send to ty data s = (Ok 0, s') /\ advanced s s' /\
    next_msg_id (Protocol.upper s') = u64 (next_msg_id (Protocol.upper s) + 1) /\
    out (Protocol.world s') = out (Protocol.world s) ++ [OnBus blob] /\
    bus_carries blob to (outgoing s ty data).
Proof.
  intros Hc Ht Hi Hm Hp Hb Hl.
  pose proof (outgoing_ok s ty data Hc Ht Hi) as Hok.
  set (s1 := Protocol.set_world (get_microseconds_now (Protocol.world s)).2 s).
  set (s2 := (mod_comm (set_next_id (u64 (next_msg_id (Protocol.upper s) + 1))) s1).2).
  set (m := outgoing s ty data) in *.
  set (s3 := logged (log_text (bs "SEND") (group_id m) (orig_vm m) (orig_port m) (timestamp m) ty (msg_id m)) s2).
  assert (advanced s s3) as Ha.
  { split; [|done]. exists (Protocol.upper s3), (Protocol.world s3). by destruct s. }
  destruct (send_bus s3 to m) as (blob & E & Hbc);
    [by eapply advanced_configured|done|done|done|done| |].
  { pose proof (length_build_message m Hok) as H. change (body m) with data in H. lia. }
  exists blob, (Protocol.set_world (emit (OnBus blob) (Protocol.world s3)) s3).
  split; [|split; [etrans; [exact Ha|apply advanced_world]|]];
    [|split; [reflexivity|split; [reflexivity|exact Hbc]]].
  unfold Communicator.send. rewrite (bind_ok _ _ _ (timestamp m) s1) by done.
  rewrite (bind_ok _ _ _ (Protocol.upper s) s1) by done.
  rewrite (bind_ok _ _ _ tt s2) by done.
  rewrite (bind_ok _ _ _ (Protocol.current_group_id (Protocol.grp s)) s2) by done.
  rewrite (bind_ok _ _ _ tt s3) by done. exact E.
Qed.

(** A component's message to its own vehicle goes out once, carries
    the component's group, machine, port and the next message identifier, and
    the identifier counter advances by one (modulo 2^64). *)
Theorem component_send s to ty data :
  configured s -> is_i32 ty -> is_u64 (next_msg_id (Protocol.upper s)) ->
  mac to = NIC.mac (Protocol.nic s) -> is_u16 (port to) -> bytes_ok data ->
  Z.of_nat (length data) <= 1351 ->
  exists blob s', Communicator.send to ty data s = (Ok 0, s') /\ advanced s s' /\
    next_msg_id (Protocol.upper s') = u64 (next_msg_id (Protocol.upper s) + 1) /\
    out (Protocol.world s') = out (Protocol.world s) ++ [OnBus blob] /\
    bus_carries blob to (outgoing s ty data).
Proof. apply comm_send_bus. Qed.

Definition brake_process : Vehicle.proc :=
  Vehicle.initialize_communicator false (vm_engine vm1_mac) Vehicle.Brake Ports.BRAKE_PORT vm_io.

Lemma brake_configured : configured brake_process.
Proof. apply initialize_configured; [by split; [|repeat constructor]|done]. Qed.

Lemma component_send_witness :
  exists blob s', Communicator.send {| mac := vm1_mac; port := 101 |} 102 (bs "hello") brake_process = (Ok 0, s') /\
    advanced brake_process s' /\ next_msg_id (Protocol.upper s') = 1 /\
    out (Protocol.world s') = [] ++ [OnBus blob] /\
    bus_carries blob {| mac := vm1_mac; port := 101 |} (outgoing brake_process 102 (bs "hello")).
Proof.
  apply (component_send brake_process {| mac := vm1_mac; port := 101 |} 102 (bs "hello"));
    [exact brake_configured|done|done|done|done|by repeat constructor|done].
Defined.

(** ** Components *)

(** The commands a component answers and what it answers. *)
Definition reply (k : Vehicle.kind) (text : bytes) : option bytes :=
  match k with
  | Vehicle.Brake =>
      if bool_decide (text = bs "brake!") || bool_decide (text = bs "hazard!")
      then Some (bs "ack-brake") else None
  | Vehicle.Steering _ => Some (bs "ack-steering")
  | Vehicle.Transmission _ => Some (bs "ack-gear")
  | Vehicle.Airbag =>
      if bool_decide (text = bs "collision!") then Some (bs "airbag_deployed")
      else if bool_decide (text = bs "diagnostic?") then Some (bs "airbag_diag_ok") else None
  | _ => None
  end.

Lemma send_text_gate s (t : string) :
  configured s -> is_u64 (next_msg_id (Protocol.upper s)) ->
  find (bs "TO=") (bs t) 0 = None -> bytes_ok (bs t) -> Z.of_nat (length (bs t)) <= 1351 ->
  exists blob s', Vehicle.send_text t s = (Ok tt, s') /\ advanced s s' /\
    out (Protocol.world s') = out (Protocol.world s) ++ [OnBus blob] /\
    bus_carries blob {| mac := NIC.mac (Protocol.nic s); port := Ports.GATEWAY_PORT |}
      (outgoing s (Vehicle.cport (app (Protocol.upper s))) (bs t)).
Proof.
  intros Hc Hi Hf Hb Hl. pose proof Hc as (_ & _ & _ & _ & Hp & _ & Hg & _).
  destruct (comm_send_bus s (Vehicle.to_gate (app (Protocol.upper s)))
              (Vehicle.cport (app (Protocol.upper s))) (bs t)) as (blob & s' & E & Ha & _ & Ho & Hbc);
    rewrite ?Hg; try done.
  { unfold is_u16, is_i32 in *. lia. }
  exists blob, s'. split; [|split; [done|split; [done|by rewrite <- Hg]]].
  unfold Vehicle.send_text, Vehicle.send_local, Vehicle.get_app.
  rewrite (bind_ok _ _ _ 0 s'); [done|].
  rewrite (bind_ok _ _ _ (app (Protocol.upper s)) s) by done. rewrite Hf. exact E.
Qed.
End communicator.

Section components.
Import Vehicle Communicator.

(** The process after [on_receive] has turned the steering wheel, if it does. *)
Definition steer (text : bytes) (angle : Z) : Z :=
  if bool_decide (text = bs "steer-left") then Z.rem (angle + 350) 360
  else if bool_decide (text = bs "steer-right") then Z.rem (angle + 10) 360 else angle.

(** One message with body [t] to the gateway, nothing else. *)
Definition replies (s s' : proc) (t : bytes) : Prop :=
  exists blob m, out (Protocol.world s') = out (Protocol.world s) ++ [OnBus blob] /\
    bus_carries blob {| mac := NIC.mac (Protocol.nic s); port := Ports.GATEWAY_PORT |} m /\
    body m = t /\ type m = cport (app (Protocol.upper s)) /\ control m = NONE.

Lemma send_text_replies s (t : string) :
  configured s -> is_u64 (next_msg_id (Protocol.upper s)) ->
  find (bs "TO=") (bs t) 0 = None -> bytes_ok (bs t) -> Z.of_nat (length (bs t)) <= 1351 ->
  exists s', send_text t s = (Ok tt, s') /\ knd (app (Protocol.upper s')) = knd (app (Protocol.upper s)) /\
    replies s s' (bs t).
Proof.
  intros Hc Hi Hf Hb Hl. destruct (send_text_gate s t Hc Hi Hf Hb Hl) as (blob & s' & E & Ha & Ho & Hbc).
  exists s'. split; [done|]. split; [by destruct Ha as (_ & -> & _)|]. by exists blob, (outgoing s (cport (app (Protocol.upper s))) (bs t)).
Qed.

(** [send_text] with one of the fixed texts. *)
Ltac text_reply Hc Hi t :=
  destruct (send_text_replies _ t Hc Hi) as (s' & E & Hk' & Hr);
    [reflexivity | by repeat constructor | done | ].

(** Every ECU answers exactly the commands it knows, each with one
    message to the gateway of its vehicle, and is silent on all others; the
    steering angle changes as commanded and nothing else about the component
    does. *)
Theorem component_replies s rx o :
  configured s -> is_u64 (next_msg_id (Protocol.upper s)) ->
  (forall g, knd (app (Protocol.upper s)) <> Gateway g) ->
  let k := knd (app (Protocol.upper s)) in
  let text := body (rx_msg rx) in
  match reply k text with
  | None => Vehicle.on_receive rx o s = (Ok tt, s)
  | Some t => exists s', Vehicle.on_receive rx o s = (Ok tt, s') /\ replies s s' t /\
      knd (app (Protocol.upper s')) =
        match k with Steering a => Steering (steer text a) | _ => k end
  end.
Proof.
  intros Hc Hi Hg k text. subst k text. unfold Vehicle.on_receive, get_app.
  rewrite (bind_ok _ _ _ (app (Protocol.upper s)) s) by done.
  destruct (knd (app (Protocol.upper s))) as [rpm| |angle|gear| |g] eqn:Hk; cbn [reply];
    unfold brake_on_receive, steering_on_receive, transmission_on_receive, airbag_on_receive; [done|..].
  - destruct (bool_decide _ || bool_decide _); [|done]. text_reply Hc Hi "ack-brake"%string.
    exists s'. by rewrite Hk', Hk.
  - set (txt := body (rx_msg rx)).
    set (s1 := (mod_app (set_kind (Steering (steer txt angle))) s).2).
    destruct (send_text_replies s1 "ack-steering") as (s' & E & Hk' & Hr); [done..|by repeat constructor|done|].
    exists s'. split; [|split; [done|by rewrite Hk']].
    rewrite <- E. unfold steer in s1. unfold mod_app, mod_comm, modify, skip, mbind, M_bind.
    destruct (bool_decide (txt = bs "steer-left")); [done|].
    destruct (bool_decide (txt = bs "steer-right")); [done|].
    f_equal. unfold s1, mod_app, mod_comm, modify. cbn. rewrite <- Hk. by destruct s as [?????? [?????? []] ?].
  - text_reply Hc Hi "ack-gear"%string. exists s'. by rewrite Hk', Hk.
  - destruct (bool_decide (_ = bs "collision!")).
    { text_reply Hc Hi "airbag_deployed"%string. exists s'. by rewrite Hk', Hk. }
    destruct (bool_decide (_ = bs "diagnostic?")); [|done].
    text_reply Hc Hi "airbag_diag_ok"%string. exists s'. by rewrite Hk', Hk.
  - by destruct (Hg g).
Qed.

Lemma component_replies_witness :
  exists s', Vehicle.on_receive (brake_rx OSharedMemory) OSharedMemory brake_process = (Ok tt, s') /\
    replies brake_process s' (bs "ack-brake") /\ knd (app (Protocol.upper s')) = Brake.
Proof.
  exact (component_replies brake_process (brake_rx OSharedMemory) OSharedMemory brake_configured
           ltac:(done) ltac:(done)).
Defined.

End components.

(** ** Release from the start barrier *)

Section barrier.
Import Vehicle Communicator.

(** The gateway has been released. *)
Definition released (s : proc) : Prop :=
  exists g, knd (app (Protocol.upper s)) = Gateway g /\ sync_done g = true.

Lemma notify_sync_done_released s :
  (exists g, knd (app (Protocol.upper s)) = Gateway g) ->
  exists s', notify_sync_done s = (Ok tt, s') /\ released s' /\ Protocol.syn s' = Protocol.syn s /\
    Protocol.portObservers s' = Protocol.portObservers s.
Proof.
  intros [g Hk]. unfold notify_sync_done, get_app.
  rewrite (bind_ok _ _ _ (app (Protocol.upper s)) s) by done. rewrite Hk.
  eexists. split; [reflexivity|]. split; [|by destruct s]. by exists (gw_set_done g).
Qed.

Lemma forward_go_released order c msg po s :
  control msg = GO -> released s ->
  exists s', Protocol.forward_to order c msg po s = (Ok tt, s') /\ released s' /\
    Protocol.syn s' = Protocol.syn s.
Proof.
  intros Hc Hr. unfold Protocol.forward_to. rewrite decide_True by (by rewrite Hc).
  unfold Protocol.get_group_of, Protocol.get_current_group.
  do 3 (rewrite (bind_ok _ _ _ _ s) by reflexivity). rewrite Hc.
  destruct (_ || _ || _ || _); [|by exists s].
  cbn [Protocol.po_on_control comm_port_observer on_control]. unfold get_comm.
  rewrite (bind_ok _ _ _ _ s) by reflexivity. destruct (has_on_sync_done _); [|by exists s].
  destruct (notify_sync_done_released s) as (s' & E & H1 & H2 & _).
  { destruct Hr as (g & ? & _). by exists g. }
  by exists s'.
Qed.

(** Claim C10. An authentic GO of its own group releases a gateway that waits
    at the barrier: the whole notification returns normally, the release is
    recorded, and the thread that repeats READY stops sending. *)
Theorem go_releases_gateway order c msg s :
  parse_message (c_payload c) = Ok msg -> control msg = GO ->
  verify_msgac (msgac msg) (body msg) = true ->
  Protocol.is_message_internal msg s = true ->
  Protocol.sync_go_received (Protocol.syn s) = false ->
  Protocol.has_sync_done_callback (Protocol.syn s) = true ->
  (exists g, knd (app (Protocol.upper s)) = Gateway g) ->
  exists s', Protocol.notify_by_port order c s = (Ok tt, s') /\ released s' /\
    Protocol.sync_go_received (Protocol.syn s') = true /\ gateway_ready_round s' = (Ok tt, s').
Proof.
  intros Hp Hc Hv Hint Hgo Hcb Hg. unfold Protocol.notify_by_port.
  rewrite Hp, (bind_ok _ _ _ msg s) by done. rewrite Hv, andb_false_r.
  set (m := set_body _ msg). assert (control m = GO) as Hm by (by destruct msg).
  assert (Protocol.is_message_internal m s = true) as Hint' by (by destruct msg).
  set (s1 := Protocol.set_syn (Protocol.mark_go_received (Protocol.syn s)) s).
  destruct (notify_sync_done_released s1) as (s2 & E & H1 & H2 & H3); [by destruct s|].
  rewrite (bind_ok _ _ _ Protocol.Continue s2).
  - rewrite (bind_ok _ _ _ (Protocol.portObservers s2) s2) by done.
    destruct (for_each_ok (fun t => released t /\ Protocol.syn t = Protocol.syn s2)
                (Protocol.portObservers s2) (Protocol.forward_to order c m) s2)
      as (s' & Es' & (g & Hk & Hd) & Hs'); [done| |].
    { intros po t _ [Ht Hs]. destruct (forward_go_released order c m po t Hm Ht) as (t' & E' & H4 & H5).
      exists t'. split; [done|]. split; [done|]. congruence. }
    exists s'. split; [done|]. split; [by exists g|]. split; [by rewrite Hs', H2|].
    unfold gateway_ready_round, get_app. rewrite (bind_ok _ _ _ _ s') by reflexivity.
    by rewrite Hk, Hd, orb_true_r.
  - unfold Protocol.handle_control. rewrite Hm, Hint'. unfold Protocol.handle_go.
    rewrite (bind_ok _ _ _ (Protocol.syn s) s) by done. rewrite Hgo, Hcb.
    rewrite (bind_ok _ _ _ tt s1) by done. by rewrite (bind_ok _ _ _ tt s2).
Qed.

Lemma go_releases_gateway_witness :
  exists s', Protocol.notify_by_port sorted_groups
      (capsule_from vm0_mac (build_message (control_message GO 0 []))) worker = (Ok tt, s') /\
    released s' /\ Protocol.sync_go_received (Protocol.syn s') = true /\
    gateway_ready_round s' = (Ok tt, s').
Proof.
  apply (go_releases_gateway sorted_groups _ (control_message GO 0 []));
    try (by vm_compute). exists worker_gateway. by vm_compute.
Defined.
End barrier.

(** ** Start-up *)

Section startup.
Import Car.

(** Given a machine number and a node count on the command line, in
    either order, the program starts the gateway and, unless the machine is a
    coordinator (its number divisible by ten), one process per component; all
    take their place in the group that the machine number gives, and the
    components are each other's peers. *)
Theorem main_starts v n :
  is_i32 v -> is_i32 n -> 0 <= v -> n <> 0 ->
  exists gw ps,
    main [bs "vm_id=" ++ dec v; bs "total_sync_vms=" ++ dec n] = Ok (Run (gw :: ps)) /\
    main [bs "total_sync_vms=" ++ dec n; bs "vm_id=" ++ dec v] = Ok (Run (gw :: ps)) /\
    p_kind gw = Vehicle.make_gateway v n (bool_decide (v mod 10 = 0)) /\
    p_group gw = v / 10 /\ p_peers gw = [Ports.POWERTRAIN_PORT; Ports.BRAKE_PORT] /\
    p_nodes_count gw = Z.of_nat (length ps) /\
    (v mod 10 = 0 -> ps = []) /\
    (v mod 10 <> 0 -> p_kind <$> ps = [Vehicle.Powertrain 900; Vehicle.Brake] /\
       Forall (fun p => p_group p = u8 (v / 10) /\ p_nodes_count p = 2 /\
                        p_port p ∉ p_peers p) ps).
Proof.
  intros Hv Hn Hpos Hn0. unfold main, parse_args.
  rewrite !parse_arg_vm by done. cbn [mbind outcome_bind]. rewrite !parse_arg_total by done.
  cbn [mbind outcome_bind]. rewrite !parse_arg_vm by done. cbn [mbind outcome_bind a_vm_id a_total].
  rewrite (proj2 (Z.ltb_ge _ _)), (proj2 (Z.eqb_neq _ _)) by lia. cbn [orb].
  unfold start. rewrite Z.rem_mod_nonneg, Z.quot_div_nonneg by lia.
  eexists _, _. split; [reflexivity|]. split; [reflexivity|].
  destruct (Z.eqb_spec (v mod 10) 0) as [E|E].
  - rewrite bool_decide_true by done. by repeat split.
  - rewrite bool_decide_false by done. do 4 (split; [done|]). split; [done|]. intros _.
    split; [done|]. repeat constructor; cbn; set_solver by done.
Qed.

Lemma main_starts_witness :
  exists gw ps,
    main [bs "vm_id=" ++ dec 31; bs "total_sync_vms=" ++ dec 2] = Ok (Run (gw :: ps)) /\
    p_group gw = 3 /\ p_kind <$> ps = [Vehicle.Powertrain 900; Vehicle.Brake].
Proof.
  destruct (main_starts 31 2) as (gw & ps & H1 & _ & _ & H4 & _ & _ & _ & H8); [done..|].
  exists gw, ps. split; [done|]. split; [done|]. by apply H8.
Defined.

(** A missing or negative machine number, or a missing or zero node
    count, ends the program with status 1 and starts nothing; an argument
    without a number ends it with an exception. *)
Theorem main_rejects v n :
  is_i32 v -> is_i32 n ->
  (v < 0 \/ n = 0 -> main [bs "vm_id=" ++ dec v; bs "total_sync_vms=" ++ dec n] = Ok (Exit 1)) /\
  main [bs "total_sync_vms=" ++ dec n] = Ok (Exit 1) /\
  main [bs "vm_id=" ++ dec v] = Ok (Exit 1) /\
  main [bs "vm_id="] = Throw invalid_argument.
Proof.
  intros Hv Hn. unfold main, parse_args.
  rewrite !parse_arg_vm by done. cbn [mbind outcome_bind]. rewrite !parse_arg_total by done.
  cbn [mbind outcome_bind a_vm_id a_total]. split; [|split; [done|split; [|done]]].
  - intros [H | -> ]; [by rewrite (proj2 (Z.ltb_lt _ _) H)|by rewrite orb_true_r].
  - by rewrite orb_true_r.
Qed.

Lemma main_rejects_witness :
  main [bs "vm_id=" ++ dec (-3); bs "total_sync_vms=" ++ dec 2] = Ok (Exit 1) /\
  main [bs "vm_id="] = Throw invalid_argument.
Proof. split; apply (main_rejects (-3) 2); done || by left. Defined.
End startup.
