(* ===== verification/TlsAes.v ===== *)
(** * AES of the TLS client (src/busybox/networking/tls_aes.c)

    Key expansion, the forward and inverse ciphers on the sixteen-element state
    and CBC mode.  Reading past the round keys and a length that is not a
    multiple of the block size (the unsigned length would wrap) are undefined. *)

From Stdlib Require Import Ring.
From S2P Require Import Prelude.

Module TlsAes.

Definition sbox : list Z :=
  [0x63; 0x7c; 0x77; 0x7b; 0xf2; 0x6b; 0x6f; 0xc5; 0x30; 0x01; 0x67; 0x2b; 0xfe; 0xd7; 0xab; 0x76;
   0xca; 0x82; 0xc9; 0x7d; 0xfa; 0x59; 0x47; 0xf0; 0xad; 0xd4; 0xa2; 0xaf; 0x9c; 0xa4; 0x72; 0xc0;
   0xb7; 0xfd; 0x93; 0x26; 0x36; 0x3f; 0xf7; 0xcc; 0x34; 0xa5; 0xe5; 0xf1; 0x71; 0xd8; 0x31; 0x15;
   0x04; 0xc7; 0x23; 0xc3; 0x18; 0x96; 0x05; 0x9a; 0x07; 0x12; 0x80; 0xe2; 0xeb; 0x27; 0xb2; 0x75;
   0x09; 0x83; 0x2c; 0x1a; 0x1b; 0x6e; 0x5a; 0xa0; 0x52; 0x3b; 0xd6; 0xb3; 0x29; 0xe3; 0x2f; 0x84;
   0x53; 0xd1; 0x00; 0xed; 0x20; 0xfc; 0xb1; 0x5b; 0x6a; 0xcb; 0xbe; 0x39; 0x4a; 0x4c; 0x58; 0xcf;
   0xd0; 0xef; 0xaa; 0xfb; 0x43; 0x4d; 0x33; 0x85; 0x45; 0xf9; 0x02; 0x7f; 0x50; 0x3c; 0x9f; 0xa8;
   0x51; 0xa3; 0x40; 0x8f; 0x92; 0x9d; 0x38; 0xf5; 0xbc; 0xb6; 0xda; 0x21; 0x10; 0xff; 0xf3; 0xd2;
   0xcd; 0x0c; 0x13; 0xec; 0x5f; 0x97; 0x44; 0x17; 0xc4; 0xa7; 0x7e; 0x3d; 0x64; 0x5d; 0x19; 0x73;
   0x60; 0x81; 0x4f; 0xdc; 0x22; 0x2a; 0x90; 0x88; 0x46; 0xee; 0xb8; 0x14; 0xde; 0x5e; 0x0b; 0xdb;
   0xe0; 0x32; 0x3a; 0x0a; 0x49; 0x06; 0x24; 0x5c; 0xc2; 0xd3; 0xac; 0x62; 0x91; 0x95; 0xe4; 0x79;
   0xe7; 0xc8; 0x37; 0x6d; 0x8d; 0xd5; 0x4e; 0xa9; 0x6c; 0x56; 0xf4; 0xea; 0x65; 0x7a; 0xae; 0x08;
   0xba; 0x78; 0x25; 0x2e; 0x1c; 0xa6; 0xb4; 0xc6; 0xe8; 0xdd; 0x74; 0x1f; 0x4b; 0xbd; 0x8b; 0x8a;
   0x70; 0x3e; 0xb5; 0x66; 0x48; 0x03; 0xf6; 0x0e; 0x61; 0x35; 0x57; 0xb9; 0x86; 0xc1; 0x1d; 0x9e;
   0xe1; 0xf8; 0x98; 0x11; 0x69; 0xd9; 0x8e; 0x94; 0x9b; 0x1e; 0x87; 0xe9; 0xce; 0x55; 0x28; 0xdf;
   0x8c; 0xa1; 0x89; 0x0d; 0xbf; 0xe6; 0x42; 0x68; 0x41; 0x99; 0x2d; 0x0f; 0xb0; 0x54; 0xbb; 0x16].

Definition rsbox : list Z :=
  [0x52; 0x09; 0x6a; 0xd5; 0x30; 0x36; 0xa5; 0x38; 0xbf; 0x40; 0xa3; 0x9e; 0x81; 0xf3; 0xd7; 0xfb;
   0x7c; 0xe3; 0x39; 0x82; 0x9b; 0x2f; 0xff; 0x87; 0x34; 0x8e; 0x43; 0x44; 0xc4; 0xde; 0xe9; 0xcb;
   0x54; 0x7b; 0x94; 0x32; 0xa6; 0xc2; 0x23; 0x3d; 0xee; 0x4c; 0x95; 0x0b; 0x42; 0xfa; 0xc3; 0x4e;
   0x08; 0x2e; 0xa1; 0x66; 0x28; 0xd9; 0x24; 0xb2; 0x76; 0x5b; 0xa2; 0x49; 0x6d; 0x8b; 0xd1; 0x25;
   0x72; 0xf8; 0xf6; 0x64; 0x86; 0x68; 0x98; 0x16; 0xd4; 0xa4; 0x5c; 0xcc; 0x5d; 0x65; 0xb6; 0x92;
   0x6c; 0x70; 0x48; 0x50; 0xfd; 0xed; 0xb9; 0xda; 0x5e; 0x15; 0x46; 0x57; 0xa7; 0x8d; 0x9d; 0x84;
   0x90; 0xd8; 0xab; 0x00; 0x8c; 0xbc; 0xd3; 0x0a; 0xf7; 0xe4; 0x58; 0x05; 0xb8; 0xb3; 0x45; 0x06;
   0xd0; 0x2c; 0x1e; 0x8f; 0xca; 0x3f; 0x0f; 0x02; 0xc1; 0xaf; 0xbd; 0x03; 0x01; 0x13; 0x8a; 0x6b;
   0x3a; 0x91; 0x11; 0x41; 0x4f; 0x67; 0xdc; 0xea; 0x97; 0xf2; 0xcf; 0xce; 0xf0; 0xb4; 0xe6; 0x73;
   0x96; 0xac; 0x74; 0x22; 0xe7; 0xad; 0x35; 0x85; 0xe2; 0xf9; 0x37; 0xe8; 0x1c; 0x75; 0xdf; 0x6e;
   0x47; 0xf1; 0x1a; 0x71; 0x1d; 0x29; 0xc5; 0x89; 0x6f; 0xb7; 0x62; 0x0e; 0xaa; 0x18; 0xbe; 0x1b;
   0xfc; 0x56; 0x3e; 0x4b; 0xc6; 0xd2; 0x79; 0x20; 0x9a; 0xdb; 0xc0; 0xfe; 0x78; 0xcd; 0x5a; 0xf4;
   0x1f; 0xdd; 0xa8; 0x33; 0x88; 0x07; 0xc7; 0x31; 0xb1; 0x12; 0x10; 0x59; 0x27; 0x80; 0xec; 0x5f;
   0x60; 0x51; 0x7f; 0xa9; 0x19; 0xb5; 0x4a; 0x0d; 0x2d; 0xe5; 0x7a; 0x9f; 0x93; 0xc9; 0x9c; 0xef;
   0xa0; 0xe0; 0x3b; 0x4d; 0xae; 0x2a; 0xf5; 0xb0; 0xc8; 0xeb; 0xbb; 0x3c; 0x83; 0x53; 0x99; 0x61;
   0x17; 0x2b; 0x04; 0x7e; 0xba; 0x77; 0xd6; 0x26; 0xe1; 0x69; 0x14; 0x63; 0x55; 0x21; 0x0c; 0x7d].

(** [t[i]] for an index that the code keeps within the table. *)
Definition tab (t : list Z) (i : Z) : Z := nth (Z.to_nat i) t 0.

Definition Subword (x : Z) : Z :=
  Z.lor (Z.lor (Z.shiftl (tab sbox (Z.shiftr x 24)) 24)
               (Z.shiftl (tab sbox (Z.land (Z.shiftr x 16) 255)) 16))
        (Z.lor (Z.shiftl (tab sbox (Z.land (Z.shiftr x 8) 255)) 8)
               (tab sbox (Z.land x 255))).

Definition Rcon : list Z := [0x01; 0x02; 0x04; 0x08; 0x10; 0x20; 0x40; 0x80; 0x1b; 0x36].

(** [get_unaligned_be32((uint32_t* )key + i)] *)
Definition get_be32 (key : bytes) (i : nat) : Z := be_val (take 4 (drop (4 * i) key)).

(** The body of the second loop: the words known so far, in order, and the
    counters [j] and [k]. *)
Definition expand_word (words_key : nat) (st : list Z * nat * nat) : list Z * nat * nat :=
  let '(ws, j, k) := st in
  let i := length ws in
  let tempa := nth (i - 1) ws 0 in
  let tempa :=
    if (j =? 0)%nat then
      let t := Z.lor (u32 (Z.shiftl tempa 8)) (Z.shiftr tempa 24) in
      Z.lxor (Subword t) (Z.shiftl (nth k Rcon 0) 24)
    else if (6 <? words_key)%nat && (j =? 4)%nat then Subword tempa
    else tempa in
  let ws := ws ++ [Z.lxor (nth (i - words_key) ws 0) tempa] in
  if (S j =? words_key)%nat then (ws, O, S k) else (ws, S j, k).

(** [KeyExpansion]: the number of rounds and the round keys. *)
Definition KeyExpansion (key : bytes) (key_len : nat) : nat * list Z :=
  let words_key := (key_len / 4)%nat in
  let rounds := (6 + key_len / 4)%nat in
  let words_RoundKey := (28 + key_len)%nat in
  let first := get_be32 key <$> seq 0 words_key in
  (rounds, (Nat.iter (words_RoundKey - words_key) (expand_word words_key) (first, O, O)).1.1).

(** [struct tls_aes] *)
Record tls_aes := { key : list Z; rounds : nat }.

Definition aes_setkey (k : bytes) (key_len : nat) : tls_aes :=
  let '(r, ks) := KeyExpansion k key_len in {| key := ks; rounds := r |}.

(** ** The rounds; the state is the list [astate[0..15]] *)

(** The four bytes of a round-key word. *)
Definition word_bytes (n : Z) : list Z :=
  [Z.shiftr n 24; Z.land (Z.shiftr n 16) 255; Z.land (Z.shiftr n 8) 255; Z.land n 255].

Definition AddRoundKey (astate : list Z) (RoundKeys : list Z) : outcome (list Z) :=
  match RoundKeys with
  | n0 :: n1 :: n2 :: n3 :: _ =>
      Ok (zip_with Z.lxor astate (word_bytes n0 ++ word_bytes n1 ++ word_bytes n2 ++ word_bytes n3))
  | _ => Undef
  end.

Definition SubBytes (astate : list Z) : list Z := tab sbox <$> astate.
Definition InvSubBytes (astate : list Z) : list Z := tab rsbox <$> astate.

(** [ASTATE(col,row)], read and written. *)
Definition ASTATE (col row : nat) (s : list Z) : Z := nth (col * 4 + row) s 0.
Definition put (col row : nat) (v : Z) (s : list Z) : list Z := <[(col * 4 + row)%nat := v]> s.
(** [ASTATE(c,r) = ASTATE(c',r)] *)
Definition move (c c' r : nat) (s : list Z) : list Z := put c r (ASTATE c' r s) s.

(** The swaps of the second row, common to both directions. *)
Definition swap_row2 (s : list Z) : list Z :=
  let v := ASTATE 0 2 s in let s := put 2 2 v (move 0 2 2 s) in
  let v := ASTATE 1 2 s in put 3 2 v (move 1 3 2 s).

Definition ShiftRows (s : list Z) : list Z :=
  let v := ASTATE 0 1 s in
  let s := put 3 1 v (move 2 3 1 (move 1 2 1 (move 0 1 1 s))) in
  let s := swap_row2 s in
  let v := ASTATE 3 3 s in
  put 0 3 v (move 1 0 3 (move 2 1 3 (move 3 2 3 s))).

Definition InvShiftRows (s : list Z) : list Z :=
  let v := ASTATE 3 1 s in
  let s := put 0 1 v (move 1 0 1 (move 2 1 1 (move 3 2 1 s))) in
  let s := swap_row2 s in
  let v := ASTATE 0 3 s in
  put 3 3 v (move 2 3 3 (move 1 2 3 (move 0 1 3 s))).

(** [x ^ ((-(int)(x >> 8)) & 0x11b)] *)
Definition reduce (x : Z) : Z := Z.lxor x (Z.land (- Z.shiftr x 8) 0x11b).

Definition mix_column (a b c d : Z) : list Z :=
  let x := Z.lxor (Z.lxor (Z.lxor (Z.lxor (Z.shiftl a 1) b) (Z.shiftl b 1)) c) d in
  let y := Z.lxor (Z.lxor (Z.lxor (Z.lxor a (Z.shiftl b 1)) c) (Z.shiftl c 1)) d in
  let z := Z.lxor (Z.lxor (Z.lxor (Z.lxor a b) (Z.shiftl c 1)) d) (Z.shiftl d 1) in
  let t := Z.lxor (Z.lxor (Z.lxor (Z.lxor a (Z.shiftl a 1)) b) c) (Z.shiftl d 1) in
  [reduce x; reduce y; reduce z; reduce t].

Fixpoint MixColumns (astate : list Z) : list Z :=
  match astate with
  | a :: b :: c :: d :: rest => mix_column a b c d ++ MixColumns rest
  | _ => []
  end.

Definition Multiply (x : Z) : Z :=
  let y := Z.shiftr x 8 in
  Z.land (Z.lxor (Z.lxor (Z.lxor (Z.lxor x y) (Z.shiftl y 1)) (Z.shiftl y 3)) (Z.shiftl y 4)) 255.

Definition xors (l : list Z) : Z := fold_left Z.lxor l 0.

Definition inv_mix_column (a b c d : Z) : list Z :=
  let s := Z.shiftl in
  [Multiply (xors [s a 1; s a 2; s a 3; b; s b 1; s b 3; c; s c 2; s c 3; d; s d 3]);
   Multiply (xors [a; s a 3; s b 1; s b 2; s b 3; c; s c 1; s c 3; d; s d 2; s d 3]);
   Multiply (xors [a; s a 2; s a 3; b; s b 3; s c 1; s c 2; s c 3; d; s d 1; s d 3]);
   Multiply (xors [a; s a 1; s a 3; b; s b 2; s b 3; c; s c 3; s d 1; s d 2; s d 3])].

Fixpoint InvMixColumns (astate : list Z) : list Z :=
  match astate with
  | a :: b :: c :: d :: rest => inv_mix_column a b c d ++ InvMixColumns rest
  | _ => []
  end.

(** The loop of [aes_encrypt_1] with [rounds] still to go; entered with zero
    the counter would wrap. *)
Fixpoint encrypt_loop (rounds : nat) (RoundKey astate : list Z) : outcome (list Z) :=
  match rounds with
  | O => Undef
  | S r =>
      s ← AddRoundKey astate RoundKey;
      let s := ShiftRows (SubBytes s) in
      match r with
      | O => AddRoundKey s (drop 4 RoundKey)
      | _ => encrypt_loop r (drop 4 RoundKey) (MixColumns s)
      end
  end.

Definition aes_encrypt_1 (aes : tls_aes) (astate : list Z) : outcome (list Z) :=
  encrypt_loop (rounds aes) (key aes) astate.

(** The loop of [aes_decrypt_1]; the round key in use is at [4 * (rounds - 1)]. *)
Fixpoint decrypt_loop (rounds : nat) (ks astate : list Z) : outcome (list Z) :=
  match rounds with
  | O => Undef
  | S r =>
      s ← AddRoundKey (InvSubBytes (InvShiftRows astate)) (drop (4 * r) ks);
      match r with
      | O => Ok s
      | _ => decrypt_loop r ks (InvMixColumns s)
      end
  end.

Definition aes_decrypt_1 (aes : tls_aes) (astate : list Z) : outcome (list Z) :=
  s ← AddRoundKey astate (drop (rounds aes * 4) (key aes));
  decrypt_loop (rounds aes) (key aes) s.

Definition aes_encrypt_one_block (aes : tls_aes) (data : bytes) : outcome bytes :=
  if (length data <? 16)%nat then Undef
  else s ← aes_encrypt_1 aes (take 16 data); Ok (map u8 s).

(** ** CBC; the fuel is the number of blocks *)

Fixpoint cbc_encrypt_loop (fuel : nat) (aes : tls_aes) (iv2 pt : bytes) : outcome bytes :=
  match pt, fuel with
  | [], _ => Ok []
  | _, O => Undef
  | _, S f =>
      if (length pt <? 16)%nat then Undef
      else
        s ← aes_encrypt_1 aes (zip_with Z.lxor (take 16 pt) iv2);
        let ct := map u8 s in
        rest ← cbc_encrypt_loop f aes ct (drop 16 pt);
        Ok (ct ++ rest)
  end.

Definition aes_cbc_encrypt (aes : tls_aes) (iv data : bytes) : outcome bytes :=
  cbc_encrypt_loop (length data) aes (take 16 iv) data.

Fixpoint cbc_decrypt_loop (fuel : nat) (aes : tls_aes) (ivbuf ct : bytes) : outcome bytes :=
  match ct, fuel with
  | [], _ => Ok []
  | _, O => Undef
  | _, S f =>
      if (length ct <? 16)%nat then Undef
      else
        let ivnext := take 16 ct in
        s ← aes_decrypt_1 aes ivnext;
        rest ← cbc_decrypt_loop f aes ivnext (drop 16 ct);
        Ok (zip_with Z.lxor s ivbuf ++ rest)
  end.

Definition aes_cbc_decrypt (aes : tls_aes) (iv data : bytes) : outcome bytes :=
  cbc_decrypt_loop (length data) aes (take 16 iv) data.

(** ** Test vectors (FIPS 197, appendix C) *)

Definition fips_plain : bytes :=
  [0x00; 0x11; 0x22; 0x33; 0x44; 0x55; 0x66; 0x77; 0x88; 0x99; 0xaa; 0xbb; 0xcc; 0xdd; 0xee; 0xff].
Definition fips_key (n : nat) : bytes := Z.of_nat <$> seq 0 n.

Example fips_aes128 :
  aes_encrypt_one_block (aes_setkey (fips_key 16) 16) fips_plain =
  Ok [0x69; 0xc4; 0xe0; 0xd8; 0x6a; 0x7b; 0x04; 0x30; 0xd8; 0xcd; 0xb7; 0x80; 0x70; 0xb4; 0xc5; 0x5a].
Proof. vm_compute. reflexivity. Qed.

Example fips_aes192 :
  aes_encrypt_one_block (aes_setkey (fips_key 24) 24) fips_plain =
  Ok [0xdd; 0xa9; 0x7c; 0xa4; 0x86; 0x4c; 0xdf; 0xe0; 0x6e; 0xaf; 0x70; 0xa0; 0xec; 0x0d; 0x71; 0x91].
Proof. vm_compute. reflexivity. Qed.

Example fips_aes256 :
  aes_encrypt_one_block (aes_setkey (fips_key 32) 32) fips_plain =
  Ok [0x8e; 0xa2; 0xb7; 0xca; 0x51; 0x67; 0x45; 0xbf; 0xea; 0xfc; 0x49; 0x90; 0x4b; 0x49; 0x60; 0x89].
Proof. vm_compute. reflexivity. Qed.

(** ** The inverse cipher undoes the cipher *)

Definition state_ok (s : list Z) : Prop := length s = 16%nat /\ bytes_ok s.

Definition byte_range : list Z := Z.of_nat <$> seq 0 256.

Lemma in_byte_range b : is_u8 b -> b ∈ byte_range.
Proof.
  intros Hb. apply list_elem_of_fmap. exists (Z.to_nat b). unfold is_u8 in Hb.
  split; [lia|]. apply elem_of_seq. lia.
Qed.

(** A statement about all bytes, decided by evaluation. *)
Lemma byte_forall (P : Z -> bool) :
  forallb P byte_range = true -> forall b, is_u8 b -> P b = true.
Proof. intros H b Hb. rewrite forallb_forall in H. apply H. apply list_elem_of_In, in_byte_range, Hb. Qed.

Definition sbox_ok (b : Z) : bool :=
  (0 <=? tab sbox b) && (tab sbox b <? 256) && (tab rsbox (tab sbox b) =? b).

Lemma sbox_all : forallb sbox_ok byte_range = true.
Proof. vm_compute. reflexivity. Qed.

Lemma sbox_byte b : is_u8 b -> is_u8 (tab sbox b) /\ tab rsbox (tab sbox b) = b.
Proof.
  intros Hb.
  pose proof (byte_forall sbox_ok sbox_all b Hb) as H. unfold sbox_ok in H. unfold is_u8. lia.
Qed.

Lemma InvSubBytes_SubBytes s : bytes_ok s -> InvSubBytes (SubBytes s) = s.
Proof.
  intros H. unfold InvSubBytes, SubBytes. rewrite <- list_fmap_compose.
  induction H as [|b s Hb _ IH]; [done|]. cbn. rewrite IH. f_equal. by apply sbox_byte.
Qed.

Lemma SubBytes_ok s : state_ok s -> state_ok (SubBytes s).
Proof.
  intros [Hl Hb]. split; [by unfold SubBytes; rewrite length_fmap|].
  apply Forall_fmap. eapply Forall_impl; [exact Hb|]. intros b H. cbn. by apply sbox_byte.
Qed.

(** Take a sixteen-element state apart. *)
Ltac sixteen s Hl :=
  do 16 (destruct s as [|? s]; [discriminate Hl|]); destruct s; [|discriminate Hl].

Lemma InvShiftRows_ShiftRows s : length s = 16%nat -> InvShiftRows (ShiftRows s) = s.
Proof. intros Hl. sixteen s Hl. reflexivity. Qed.

Lemma ShiftRows_perm s : length s = 16%nat ->
  ShiftRows s = (fun i => nth i s 0) <$> [0; 5; 10; 15; 4; 9; 14; 3; 8; 13; 2; 7; 12; 1; 6; 11]%nat.
Proof. intros Hl. sixteen s Hl. reflexivity. Qed.

Lemma ShiftRows_ok s : state_ok s -> state_ok (ShiftRows s).
Proof.
  intros [Hl Hb]. rewrite ShiftRows_perm by done. split; [done|].
  apply Forall_fmap, Forall_forall. intros i _. cbn.
  destruct (nth_in_or_default i s 0) as [Hi| -> ]; [|done].
  apply (proj1 (Forall_forall _ _) Hb). by apply list_elem_of_In.
Qed.

(** Equations between xors, bit by bit in the Boolean ring. *)
Ltac xor_ring :=
  apply Z.bits_inj'; let n := fresh "n" in intros n _; rewrite ?Z.lxor_spec, ?Z.bits_0; ring.

Lemma Multiply_xor x y : Multiply (Z.lxor x y) = Z.lxor (Multiply x) (Multiply y).
Proof.
  unfold Multiply. rewrite !Z.shiftr_lxor, !Z.shiftl_lxor. apply Z.bits_inj'. intros n _.
  rewrite ?Z.lxor_spec, ?Z.land_spec, ?Z.lxor_spec. ring.
Qed.

Definition xtime (a : Z) : Z := reduce (Z.shiftl a 1).

Lemma reduce_bit x : 0 <= x < 512 -> reduce x = if Z.testbit x 8 then Z.lxor x 0x11b else x.
Proof.
  intros Hx. unfold reduce. rewrite Z.shiftr_div_pow2 by lia.
  assert (x / 2 ^ 8 = Z.b2z (Z.testbit x 8)) as ->.
  { rewrite Z.testbit_spec' by lia. rewrite Z.mod_small; [done|].
    split; [apply Z.div_pos; lia|apply Z.div_lt_upper_bound; lia]. }
  destruct (Z.testbit x 8); cbn; [by rewrite Z.land_m1_l|by rewrite Z.lxor_0_r].
Qed.

Lemma reduce_xor x y : 0 <= x < 512 -> 0 <= y < 512 ->
  reduce (Z.lxor x y) = Z.lxor (reduce x) (reduce y).
Proof.
  intros Hx Hy. assert (0 <= Z.lxor x y < 512) by (by apply (lxor_bound x y 9)).
  rewrite !reduce_bit by done. rewrite Z.lxor_spec.
  destruct (Z.testbit x 8), (Z.testbit y 8); cbn [xorb]; xor_ring.
Qed.

(** Multiplication by the constants of the inverse matrix. *)
Definition mul_e (x : Z) : Z := Multiply (Z.lxor (Z.lxor (Z.shiftl x 1) (Z.shiftl x 2)) (Z.shiftl x 3)).
Definition mul_b (x : Z) : Z := Multiply (Z.lxor (Z.lxor x (Z.shiftl x 1)) (Z.shiftl x 3)).
Definition mul_d (x : Z) : Z := Multiply (Z.lxor (Z.lxor x (Z.shiftl x 2)) (Z.shiftl x 3)).
Definition mul_9 (x : Z) : Z := Multiply (Z.lxor x (Z.shiftl x 3)).

Lemma inv_mix_column_linear a b c d :
  inv_mix_column a b c d =
  let x4 p q r t := Z.lxor (Z.lxor p q) (Z.lxor r t) in
  [x4 (mul_e a) (mul_b b) (mul_d c) (mul_9 d); x4 (mul_9 a) (mul_e b) (mul_b c) (mul_d d);
   x4 (mul_d a) (mul_9 b) (mul_e c) (mul_b d); x4 (mul_b a) (mul_d b) (mul_9 c) (mul_e d)].
Proof.
  unfold inv_mix_column, mul_e, mul_b, mul_d, mul_9, xors. cbn [fold_left].
  rewrite <- !Multiply_xor.
  do 4 (apply (f_equal2 cons); [apply f_equal; xor_ring|]). done.
Qed.

Lemma reduce_byte b : is_u8 b -> reduce b = b.
Proof.
  intros Hb. unfold is_u8 in Hb. rewrite reduce_bit by lia.
  assert (Z.testbit b 8 = false) as ->; [|done].
  apply Z.testbit_false; [lia|]. by rewrite Z.div_small by lia.
Qed.

Lemma shl_byte b : is_u8 b -> 0 <= Z.shiftl b 1 < 512.
Proof. intros Hb. unfold is_u8 in Hb. rewrite Z.shiftl_mul_pow2 by lia. lia. Qed.

Lemma mix_column_linear a b c d :
  is_u8 a -> is_u8 b -> is_u8 c -> is_u8 d ->
  mix_column a b c d =
  let x5 p q r t u := Z.lxor (Z.lxor (Z.lxor (Z.lxor p q) r) t) u in
  [x5 (xtime a) b (xtime b) c d; x5 a (xtime b) c (xtime c) d;
   x5 a b (xtime c) d (xtime d); x5 a (xtime a) b c (xtime d)].
Proof.
  intros Ha Hb Hc Hd. pose proof (shl_byte a Ha). pose proof (shl_byte b Hb).
  pose proof (shl_byte c Hc). pose proof (shl_byte d Hd).
  assert (forall x, is_u8 x -> 0 <= x < 512) as Hw by (unfold is_u8; lia).
  unfold mix_column, xtime. cbv zeta.
  rewrite !reduce_xor by (repeat (assumption || apply (lxor_bound _ _ 9) || apply Hw)).
  by rewrite !(reduce_byte a), !(reduce_byte b), !(reduce_byte c), !(reduce_byte d) by done.
Qed.

(** The sixteen products of the two matrices, on one byte. *)
Definition unit_ok (b : Z) : bool :=
  let X := xtime b in
  (Z.lxor (Z.lxor (Z.lxor (Z.lxor (mul_e X) (mul_b b)) (mul_d b)) (mul_9 b)) (mul_9 X) =? b) &&
  (Z.lxor (Z.lxor (Z.lxor (Z.lxor (mul_e b) (mul_e X)) (mul_b X)) (mul_d b)) (mul_9 b) =? 0) &&
  (Z.lxor (Z.lxor (Z.lxor (Z.lxor (mul_e b) (mul_b b)) (mul_b X)) (mul_d X)) (mul_9 b) =? 0) &&
  (Z.lxor (Z.lxor (Z.lxor (Z.lxor (mul_e b) (mul_b b)) (mul_d b)) (mul_d X)) (mul_9 X) =? 0).

Lemma unit_all : forallb unit_ok byte_range = true.
Proof. vm_compute. reflexivity. Qed.

Lemma unit_facts b : is_u8 b ->
  let X := xtime b in
  Z.lxor (Z.lxor (Z.lxor (Z.lxor (mul_e X) (mul_b b)) (mul_d b)) (mul_9 b)) (mul_9 X) = b /\
  Z.lxor (Z.lxor (Z.lxor (Z.lxor (mul_e b) (mul_e X)) (mul_b X)) (mul_d b)) (mul_9 b) = 0 /\
  Z.lxor (Z.lxor (Z.lxor (Z.lxor (mul_e b) (mul_b b)) (mul_b X)) (mul_d X)) (mul_9 b) = 0 /\
  Z.lxor (Z.lxor (Z.lxor (Z.lxor (mul_e b) (mul_b b)) (mul_d b)) (mul_d X)) (mul_9 X) = 0.
Proof.
  intros Hb X. pose proof (byte_forall unit_ok unit_all b Hb) as H.
  unfold unit_ok in H. fold X in H. rewrite !andb_true_iff, !Z.eqb_eq in H. tauto.
Qed.

Lemma mul_xor x y :
  mul_e (Z.lxor x y) = Z.lxor (mul_e x) (mul_e y) /\ mul_b (Z.lxor x y) = Z.lxor (mul_b x) (mul_b y) /\
  mul_d (Z.lxor x y) = Z.lxor (mul_d x) (mul_d y) /\ mul_9 (Z.lxor x y) = Z.lxor (mul_9 x) (mul_9 y).
Proof.
  unfold mul_e, mul_b, mul_d, mul_9. rewrite !Z.shiftl_lxor, <- !Multiply_xor.
  repeat split; apply f_equal; xor_ring.
Qed.

Lemma inv_mix_mix a b c d :
  is_u8 a -> is_u8 b -> is_u8 c -> is_u8 d ->
  match mix_column a b c d with
  | [x; y; z; t] => inv_mix_column x y z t = [a; b; c; d]
  | _ => False
  end.
Proof.
  intros Ha Hb Hc Hd. rewrite mix_column_linear by done. cbv beta iota zeta.
  rewrite inv_mix_column_linear. cbv beta zeta.
  rewrite !(fun x y => proj1 (mul_xor x y)), !(fun x y => proj1 (proj2 (mul_xor x y))),
    !(fun x y => proj1 (proj2 (proj2 (mul_xor x y)))), !(fun x y => proj2 (proj2 (proj2 (mul_xor x y)))).
  destruct (unit_facts a Ha) as (A1 & A2 & A3 & A4). destruct (unit_facts b Hb) as (B1 & B2 & B3 & B4).
  destruct (unit_facts c Hc) as (C1 & C2 & C3 & C4). destruct (unit_facts d Hd) as (D1 & D2 & D3 & D4).
  assert (forall p q r t p', p = p' -> q = 0 -> r = 0 -> t = 0 -> p' = Z.lxor (Z.lxor p q) (Z.lxor r t)) as Hx.
  { intros p q r t p' <- -> -> ->. by rewrite !Z.lxor_0_r. }
  f_equal; [|f_equal; [|f_equal; [|f_equal]]]; symmetry.
  - etrans; [exact (Hx _ _ _ _ _ A1 B2 C3 D4)|xor_ring].
  - etrans; [exact (Hx _ _ _ _ _ B1 A4 C2 D3)|xor_ring].
  - etrans; [exact (Hx _ _ _ _ _ C1 A3 B4 D2)|xor_ring].
  - etrans; [exact (Hx _ _ _ _ _ D1 A2 B3 C4)|xor_ring].
Qed.

Lemma reduce_range x : 0 <= x < 512 -> is_u8 (reduce x).
Proof.
  intros Hx. rewrite reduce_bit by done. unfold is_u8. change 256 with (2 ^ 8).
  assert (0 <= x) by lia.
  destruct (Z.testbit x 8) eqn:E.
  - split; [apply Z.lxor_nonneg; lia|].
    apply bits_bound; [lia|apply Z.lxor_nonneg; lia|]. intros i Hi. rewrite Z.lxor_spec.
    destruct (Z.eq_dec i 8) as [ -> |Hn]; [by rewrite E|].
    rewrite (bits_above x 9), (bits_above 0x11b 9) by lia. done.
  - split; [lia|]. apply bits_bound; [lia|lia|]. intros i Hi.
    destruct (Z.eq_dec i 8) as [ -> |Hn]; [done|]. apply (bits_above x 9); lia.
Qed.

Lemma mix_column_ok a b c d :
  is_u8 a -> is_u8 b -> is_u8 c -> is_u8 d -> bytes_ok (mix_column a b c d).
Proof.
  intros Ha Hb Hc Hd. pose proof (shl_byte a Ha). pose proof (shl_byte b Hb).
  pose proof (shl_byte c Hc). pose proof (shl_byte d Hd).
  assert (forall x, is_u8 x -> 0 <= x < 512) as Hw by (unfold is_u8; lia).
  unfold mix_column. cbv zeta.
  repeat constructor; apply reduce_range; repeat (assumption || apply (lxor_bound _ _ 9) || apply Hw).
Qed.

Lemma MixColumns_cons a b c d rest :
  MixColumns (a :: b :: c :: d :: rest) = mix_column a b c d ++ MixColumns rest.
Proof. done. Qed.

Lemma MixColumns_ok s : state_ok s -> state_ok (MixColumns s) /\ InvMixColumns (MixColumns s) = s.
Proof.
  intros [Hl Hb].
  assert (forall n s, length s = (4 * n)%nat -> bytes_ok s ->
    length (MixColumns s) = (4 * n)%nat /\ bytes_ok (MixColumns s) /\ InvMixColumns (MixColumns s) = s) as H.
  { clear. induction n as [|n IH]; intros s Hl Hb; [by destruct s|].
    do 4 (destruct s as [|? s]; [cbn in Hl; lia|]).
    unfold bytes_ok in Hb. rewrite !Forall_cons in Hb. destruct Hb as (Ha & Hb & Hc & Hd & Hr).
    destruct (IH s ltac:(cbn in Hl; lia) Hr) as (H1 & H2 & H3).
    pose proof (inv_mix_mix _ _ _ _ Ha Hb Hc Hd) as Hi. pose proof (mix_column_ok _ _ _ _ Ha Hb Hc Hd) as Ho.
    rewrite MixColumns_cons. destruct (mix_column z z0 z1 z2) as [|x [|y [|w [|t [|]]]]]; try done.
    split; [cbn in *; lia|]. split; [by apply bytes_ok_app|].
    change (inv_mix_column x y w t ++ InvMixColumns (MixColumns s) = z :: z0 :: z1 :: z2 :: s).
    by rewrite Hi, H3. }
  destruct (H 4%nat s Hl Hb) as (H1 & H2 & H3). by split.
Qed.

(** *** Round keys *)

Lemma word_bytes_ok n : is_u32 n -> length (word_bytes n) = 4%nat /\ bytes_ok (word_bytes n).
Proof.
  intros Hn. split; [done|]. unfold word_bytes, is_u32 in *.
  assert (forall x, is_u8 (Z.land x 255)) as Hl.
  { intros x. unfold is_u8. change 255 with (Z.ones 8). rewrite Z.land_ones by lia.
    by apply Z.mod_pos_bound. }
  repeat constructor; try apply Hl.
  - apply Z.shiftr_nonneg. lia.
  - rewrite Z.shiftr_div_pow2 by lia. apply Z.div_lt_upper_bound; lia.
Qed.

Definition keys_ok (ks : list Z) : Prop := Forall is_u32 ks.

(** Adding four round keys twice gives the state back. *)
Lemma AddRoundKey_inv s ks :
  state_ok s -> keys_ok ks -> (4 <= length ks)%nat ->
  exists s', AddRoundKey s ks = Ok s' /\ state_ok s' /\ AddRoundKey s' ks = Ok s.
Proof.
  intros [Hl Hb] Hk Hlk. do 4 (destruct ks as [|? ks]; [cbn in Hlk; lia|]).
  unfold keys_ok in Hk. rewrite !Forall_cons in Hk. destruct Hk as (K0 & K1 & K2 & K3 & _).
  unfold AddRoundKey. set (w := word_bytes z ++ _).
  assert (length w = 16%nat /\ bytes_ok w) as [Hw Hwb].
  { unfold w. split; [done|]. rewrite !bytes_ok_app. repeat split; by apply word_bytes_ok. }
  clearbody w. eexists. split; [reflexivity|]. split.
  - split; [rewrite length_zip_with; lia|].
    clear -Hb Hwb. revert w Hwb. induction Hb as [|b s Hb _ IH]; intros w Hw; [constructor|].
    destruct Hw as [|x w Hx Hw]; [constructor|]. cbn. constructor; [by apply (lxor_bound _ _ 8)|by apply IH].
  - f_equal. assert (length s = length w) as E by lia. clear -E. revert w E.
    induction s as [|b s IH]; intros [|x w] E; try done. cbn. rewrite IH by (cbn in E; lia).
    f_equal. by rewrite Z.lxor_assoc, Z.lxor_nilpotent, Z.lxor_0_r.
Qed.

Lemma keys_ok_drop n ks : keys_ok ks -> keys_ok (drop n ks).
Proof. apply Forall_drop. Qed.

(** What is left to do once the decryption has come down to round [n]. *)
Definition after (ks : list Z) (n : nat) (s : list Z) : outcome (list Z) :=
  match n with O => Ok s | S _ => decrypt_loop n ks (InvMixColumns s) end.

(** One round undone. *)
Lemma decrypt_step ks n s :
  state_ok s -> keys_ok ks -> (4 * n + 4 <= length ks)%nat ->
  exists s1, AddRoundKey s (drop (4 * n) ks) = Ok s1 /\ state_ok (ShiftRows (SubBytes s1)) /\
    decrypt_loop (S n) ks (ShiftRows (SubBytes s1)) = after ks n s.
Proof.
  intros Hs Hk Hl.
  destruct (AddRoundKey_inv s (drop (4 * n) ks)) as (s1 & E1 & Hs1 & E2);
    [done|by apply keys_ok_drop|rewrite length_drop; lia|].
  exists s1. split; [done|]. split; [by apply ShiftRows_ok, SubBytes_ok|].
  cbn [decrypt_loop]. rewrite InvShiftRows_ShiftRows by (by apply SubBytes_ok).
  rewrite InvSubBytes_SubBytes by apply Hs1. by rewrite E2.
Qed.

Lemma encrypt_loop_S r RoundKey astate :
  encrypt_loop (S r) RoundKey astate =
  s ← AddRoundKey astate RoundKey;
  match r with
  | O => AddRoundKey (ShiftRows (SubBytes s)) (drop 4 RoundKey)
  | _ => encrypt_loop r (drop 4 RoundKey) (MixColumns (ShiftRows (SubBytes s)))
  end.
Proof. done. Qed.

(** The decryption loop, run from the last round down, undoes the encryption
    loop run with the same keys. *)
Lemma decrypt_encrypt_loop r n ks s :
  state_ok s -> keys_ok ks -> (4 * (n + S r) + 4 <= length ks)%nat ->
  exists c t, encrypt_loop (S r) (drop (4 * n) ks) s = Ok c /\ state_ok c /\
    AddRoundKey c (drop (4 * (n + S r)) ks) = Ok t /\
    decrypt_loop (n + S r) ks t = after ks n s.
Proof.
  revert n s. induction r as [|r IH]; intros n s Hs Hk Hl.
  - destruct (decrypt_step ks n s Hs Hk ltac:(lia)) as (s1 & E1 & H2 & E2).
    destruct (AddRoundKey_inv (ShiftRows (SubBytes s1)) (drop (4 * (n + 1)) ks)) as (c & Ec & Hc & Ec');
      [done|by apply keys_ok_drop|rewrite length_drop; lia|].
    exists c, (ShiftRows (SubBytes s1)). rewrite encrypt_loop_S, E1. cbn [mbind outcome_bind].
    rewrite drop_drop. replace (4 * n + 4)%nat with (4 * (n + 1))%nat by lia.
    split; [done|]. split; [done|]. split; [done|]. by rewrite Nat.add_1_r.
  - destruct (decrypt_step ks n s Hs Hk ltac:(lia)) as (s1 & E1 & H2 & E2).
    destruct (MixColumns_ok _ H2) as [Hm Em].
    destruct (IH (S n) _ Hm Hk ltac:(lia)) as (c & t & Ec & Hc & Et & Ed).
    exists c, t. rewrite encrypt_loop_S, E1. cbn [mbind outcome_bind].
    rewrite drop_drop. replace (4 * n + 4)%nat with (4 * S n)%nat by lia.
    split; [done|]. split; [done|]. replace (n + S (S r))%nat with (S n + S r)%nat by lia.
    split; [done|]. rewrite Ed. cbn [after]. by rewrite Em.
Qed.

(** A key schedule long enough for its rounds. *)
Definition aes_ok (aes : tls_aes) : Prop :=
  (0 < rounds aes)%nat /\ keys_ok (key aes) /\ (4 * rounds aes + 4 <= length (key aes))%nat.

Lemma decrypt_encrypt aes s :
  aes_ok aes -> state_ok s ->
  exists c, aes_encrypt_1 aes s = Ok c /\ state_ok c /\ aes_decrypt_1 aes c = Ok s.
Proof.
  intros (Hr & Hk & Hl) Hs. unfold aes_encrypt_1, aes_decrypt_1.
  destruct (rounds aes) as [|r]; [lia|].
  destruct (decrypt_encrypt_loop r 0 (key aes) s Hs Hk Hl) as (c & t & Ec & Hc & Et & Ed).
  exists c. rewrite drop_0 in Ec. split; [done|]. split; [done|].
  change (0 + S r)%nat with (S r) in *. replace (S r * 4)%nat with (4 * S r)%nat by lia.
  by rewrite Et.
Qed.

Lemma zip_xor_cancel a b : length a = length b -> zip_with Z.lxor (zip_with Z.lxor a b) b = a.
Proof.
  revert b. induction a as [|x a IH]; intros [|y b] E; try done. cbn.
  rewrite IH by (cbn in E; lia). f_equal. by rewrite Z.lxor_assoc, Z.lxor_nilpotent, Z.lxor_0_r.
Qed.

Lemma zip_xor_bytes a b : bytes_ok a -> bytes_ok b -> bytes_ok (zip_with Z.lxor a b).
Proof.
  intros Ha. revert b. induction Ha as [|x a Hx _ IH]; intros b Hb; [constructor|].
  destruct Hb as [|y b Hy Hb]; [constructor|]. constructor; [by apply (lxor_bound _ _ 8)|by apply IH].
Qed.

Lemma map_u8_bytes s : bytes_ok s -> map u8 s = s.
Proof. induction 1 as [|b s Hb _ IH]; [done|]. cbn. rewrite IH. by rewrite u8_id. Qed.

Lemma cbc_loop_roundtrip aes n iv pt f :
  aes_ok aes -> state_ok iv -> bytes_ok pt -> length pt = (16 * n)%nat -> (n <= f)%nat ->
  exists ct, cbc_encrypt_loop f aes iv pt = Ok ct /\ length ct = length pt /\ bytes_ok ct /\
    forall f', (n <= f')%nat -> cbc_decrypt_loop f' aes iv ct = Ok pt.
Proof.
  intros Ha. revert iv pt f. induction n as [|n IH]; intros iv pt f Hiv Hb Hl Hf.
  { destruct pt; [|cbn in Hl; lia]. exists []. destruct f; (split; [done|]);
      (split; [done|split; [constructor|]]); by intros [|]. }
  destruct f as [|f]; [lia|].
  assert (state_ok (take 16 pt)) as Ht.
  { split; [rewrite length_take; lia|by apply bytes_ok_take]. }
  assert (state_ok (zip_with Z.lxor (take 16 pt) iv)) as Hx.
  { split; [rewrite length_zip_with; destruct Ht, Hiv; lia|]. apply zip_xor_bytes; [apply Ht|apply Hiv]. }
  destruct (decrypt_encrypt aes _ Ha Hx) as (c & Ec & Hc & Ed).
  destruct (IH c (drop 16 pt) f Hc) as (ct & E & El & Eb & Er);
    [by apply bytes_ok_drop|rewrite length_drop; lia|lia|].
  exists (c ++ ct). pose proof Hc as [Hcl Hcb].
  assert (pt <> []) as Hne by (by intros -> ).
  split; [|split; [|split]].
  - destruct pt as [|p0 pt']; [done|]. cbn [cbc_encrypt_loop].
    rewrite (proj2 (Nat.ltb_ge _ _)) by lia. rewrite Ec. cbn [mbind outcome_bind].
    rewrite map_u8_bytes by done. by rewrite E.
  - rewrite length_app, El, length_drop. lia.
  - by apply bytes_ok_app.
  - intros [|f'] Hf'; [lia|]. destruct (c ++ ct) as [|x0 x] eqn:Ex.
    { destruct c; [done|discriminate Ex]. }
    rewrite <- Ex. cbn [cbc_decrypt_loop]. rewrite Ex, <- Ex.
    rewrite (proj2 (Nat.ltb_ge _ _)) by (rewrite length_app; lia).
    rewrite (take_app_len c) by done. rewrite Ed. cbn [mbind outcome_bind].
    rewrite (drop_app_len c) by done. rewrite Er by lia. cbn [mbind outcome_bind].
    rewrite zip_xor_cancel by (destruct Ht, Hiv; lia). by rewrite take_drop.
Qed.

(** *** The key schedule *)

Lemma expand_word_length wk st : length (expand_word wk st).1.1 = S (length st.1.1).
Proof.
  destruct st as [[ws j] k]. unfold expand_word.
  destruct (S j =? wk)%nat; cbn [fst]; rewrite length_app; cbn; lia.
Qed.

Lemma tab_sbox_byte i : is_u8 (tab sbox i).
Proof.
  unfold tab. destruct (nth_in_or_default (Z.to_nat i) sbox 0) as [H| -> ]; [|done].
  assert (forallb (fun x => (0 <=? x) && (x <? 256)) sbox = true) as Hs by (vm_compute; reflexivity).
  rewrite forallb_forall in Hs. specialize (Hs _ H). cbn beta in Hs. unfold is_u8. lia.
Qed.

Lemma shifted_byte b k : is_u8 b -> 0 <= k <= 24 -> is_u32 (Z.shiftl b k).
Proof.
  intros Hb Hk. unfold is_u8, is_u32 in *. rewrite Z.shiftl_mul_pow2 by lia.
  assert (0 < 2 ^ k <= 2 ^ 24) by (split; [apply Z.pow_pos_nonneg; lia|apply Z.pow_le_mono_r; lia]).
  nia.
Qed.

Lemma Subword_u32 x : is_u32 (Subword x).
Proof.
  unfold Subword. pose proof (tab_sbox_byte (Z.land x 255)) as Hb.
  assert (is_u32 (tab sbox (Z.land x 255))) by (unfold is_u8, is_u32 in *; lia).
  repeat (assumption || apply (lor_bound _ _ 32) || (apply shifted_byte; [apply tab_sbox_byte|lia])).
Qed.

Lemma nth_u32 ws i : keys_ok ws -> is_u32 (nth i ws 0).
Proof.
  intros H. destruct (nth_in_or_default i ws 0) as [Hi| -> ]; [|done].
  apply (proj1 (Forall_forall _ _) H). by apply list_elem_of_In.
Qed.

Lemma expand_word_ok wk st : keys_ok st.1.1 -> keys_ok (expand_word wk st).1.1.
Proof.
  destruct st as [[ws j] k]. cbn [fst]. intros H. unfold expand_word.
  set (tempa := if (j =? 0)%nat then _ else _).
  assert (is_u32 tempa) as Ht.
  { unfold tempa. pose proof (nth_u32 ws (length ws - 1) H). destruct (j =? 0)%nat.
    - apply (lxor_bound _ _ 32); [apply Subword_u32|]. apply shifted_byte; [|lia].
      destruct (nth_in_or_default k Rcon 0) as [Hk| -> ]; [|done].
      assert (forallb (fun x => (0 <=? x) && (x <? 256)) Rcon = true) as Hs by reflexivity.
      rewrite forallb_forall in Hs. specialize (Hs _ Hk). cbn beta in Hs. unfold is_u8. lia.
    - case_match; [apply Subword_u32|done]. }
  assert (keys_ok (ws ++ [Z.lxor (nth (length ws - wk) ws 0) tempa])) as Hk.
  { apply Forall_app. split; [done|]. repeat constructor; by apply (lxor_bound _ _ 32); [apply nth_u32|]. }
  by destruct (S j =? wk)%nat.
Qed.

Lemma get_be32_u32 k i : bytes_ok k -> is_u32 (get_be32 k i).
Proof.
  intros H. unfold get_be32, be_val.
  assert (bytes_ok (reverse (take 4 (drop (4 * i) k)))) as Hb.
  { apply bytes_ok_reverse. by apply bytes_ok_take, bytes_ok_drop. }
  pose proof (le_val_range _ Hb) as Hr. unfold is_u32.
  assert (Z.of_nat (length (reverse (take 4 (drop (4 * i) k)))) <= 4) as Hl
    by (rewrite length_reverse, length_take; lia).
  assert (256 ^ Z.of_nat (length (reverse (take 4 (drop (4 * i) k)))) <= 256 ^ 4)
    by (apply Z.pow_le_mono_r; lia). lia.
Qed.

Lemma KeyExpansion_ok k key_len :
  bytes_ok k -> let '(r, ks) := KeyExpansion k key_len in
  r = (6 + key_len / 4)%nat /\ length ks = (28 + key_len)%nat /\ keys_ok ks.
Proof.
  intros Hk. unfold KeyExpansion. split; [done|].
  assert (key_len / 4 <= key_len)%nat as Hle by (apply Nat.Div0.div_le_upper_bound; lia).
  set (wk := (key_len / 4)%nat) in *.
  assert (forall n st, length (Nat.iter n (expand_word wk) st).1.1 = (n + length st.1.1)%nat) as Hl.
  { induction n as [|n IH]; intros st; [done|].
    change (Nat.iter (S n) (expand_word wk) st) with (expand_word wk (Nat.iter n (expand_word wk) st)).
    rewrite expand_word_length, IH. lia. }
  split.
  - rewrite Hl. cbn [fst]. rewrite length_fmap, length_seq. lia.
  - assert (forall n st, keys_ok st.1.1 -> keys_ok (Nat.iter n (expand_word wk) st).1.1) as Hi.
    { induction n as [|n IH]; intros st Hst; [done|].
      change (Nat.iter (S n) (expand_word wk) st) with (expand_word wk (Nat.iter n (expand_word wk) st)).
      by apply expand_word_ok, IH. }
    apply Hi. cbn [fst]. apply Forall_fmap, Forall_forall. intros i _. by apply get_be32_u32.
Qed.

Lemma aes_setkey_ok k key_len :
  bytes_ok k -> key_len ∈ [16; 24; 32]%nat -> aes_ok (aes_setkey k key_len).
Proof.
  intros Hk Hl. pose proof (KeyExpansion_ok k key_len Hk) as H. unfold aes_setkey.
  destruct (KeyExpansion k key_len) as [r ks]. destruct H as (-> & H1 & H2).
  unfold aes_ok. cbn [rounds key]. rewrite H1.
  assert (4 * (key_len / 4) = key_len)%nat by (set_unfold in Hl; naive_solver).
  split; [lia|]. split; [done|lia].
Qed.

(** Claim C19. For every AES key (128, 192 or 256 bits), every initialisation
    vector and every message of whole blocks, CBC encryption returns a message
    of the same length and CBC decryption under the same key and vector gives
    the plaintext back. *)
Theorem aes_cbc_roundtrip k key_len iv data n :
  bytes_ok k -> key_len ∈ [16; 24; 32]%nat -> length iv = 16%nat -> bytes_ok iv ->
  bytes_ok data -> length data = (16 * n)%nat ->
  let aes := aes_setkey k key_len in
  exists ct, aes_cbc_encrypt aes iv data = Ok ct /\ length ct = length data /\ bytes_ok ct /\
    aes_cbc_decrypt aes iv ct = Ok data.
Proof.
  intros Hk Hkl Hiv Hivb Hd Hl aes. unfold aes_cbc_encrypt, aes_cbc_decrypt.
  rewrite (take_ge iv) by lia.
  destruct (cbc_loop_roundtrip aes n iv data (length data)) as (ct & E1 & E2 & E3 & E4);
    [by apply aes_setkey_ok|by split|done|done|lia|].
  exists ct. split; [done|]. split; [done|]. split; [done|]. apply E4. lia.
Qed.

Lemma aes_cbc_roundtrip_witness :
  exists ct, aes_cbc_encrypt (aes_setkey (fips_key 32) 32) fips_plain (fips_plain ++ fips_plain) = Ok ct /\
    length ct = 32%nat /\ bytes_ok ct /\
    aes_cbc_decrypt (aes_setkey (fips_key 32) 32) fips_plain ct = Ok (fips_plain ++ fips_plain).
Proof.
  apply (aes_cbc_roundtrip (fips_key 32) 32 fips_plain (fips_plain ++ fips_plain) 2);
    [by repeat constructor|set_solver|done|by repeat constructor|by repeat constructor|done].
Defined.

End TlsAes.
