(* ===== verification/TlsFe.v ===== *)
(** * Curve25519 (src/busybox/networking/tls_fe.c)

    Field elements are 32-byte little-endian arrays; the arithmetic is done
    byte by byte with 32-bit carries and is only partly reduced.  Where the C
    code lets a result share storage with an argument (lm_add, xc_double and
    xc_diffadd), every argument is read before the shared result is written, so
    functions on lists model it.  Functions that are compiled out are not
    modelled. *)

From S2P Require Import Prelude.
From Stdlib Require Import Zdiv Setoid Morphisms.

Module TlsFe.

Definition F25519_SIZE : nat := 32.

Definition at_ (x : bytes) (i : nat) : Z := nth i x 0.

(** [for (i = 0; i < ...; i++) { c += x[i]; x[i] = (byte)c; c >>= 8; }] *)
Fixpoint carry (c : Z) (x : bytes) : bytes * Z :=
  match x with
  | [] => ([], c)
  | t :: x' =>
      let c := u32 (c + t) in
      let '(r, c') := carry (Z.shiftr c 8) x' in (u8 c :: r, c')
  end.

Definition fe_reduce (x : bytes) (c : Z) : bytes :=
  let x := take 31 x ++ [Z.land c 127] in
  let c := u32 (Z.shiftr c 7 * 19) in
  (carry c x).1.

(** [fe_select(x, minusp, condition)] *)
Definition fe_select (dst src : bytes) (condition : bool) : bytes := if condition then src else dst.

Definition fe_normalize (x : bytes) : bytes :=
  let x := fe_reduce x (at_ x 31) in
  let '(minusp, c) := carry 19 (take 31 x) in
  let c := u32 (c + u32 (at_ x 31 - 128)) in
  fe_select x (minusp ++ [u8 c]) (Z.land c (Z.shiftl 1 15) =? 0).

(** The loops [c >>= 8; c = f(i, c); r[i] = (byte)c;] from index [i], [n] rounds. *)
Fixpoint column_loop (f : nat -> Z -> Z) (n i : nat) (c : Z) : bytes * Z :=
  match n with
  | O => ([], c)
  | S n' =>
      let c := f i (Z.shiftr c 8) in
      let '(r, c') := column_loop f n' (S i) c in (u8 c :: r, c')
  end.

Definition lm_add (a b : bytes) : bytes :=
  let '(r, c) := column_loop (fun i c => u32 (c + (at_ a i + at_ b i))) F25519_SIZE 0 0 in
  fe_reduce r c.

(** [c += 65280 + a[i] - b[i]; r[i] = c; c >>= 8;] *)
Fixpoint sub_loop (a b : bytes) (n i : nat) (c : Z) : bytes * Z :=
  match n with
  | O => ([], c)
  | S n' =>
      let c := u32 (c + u32 (65280 + at_ a i - at_ b i)) in
      let '(r, c') := sub_loop a b n' (S i) (Z.shiftr c 8) in (u8 c :: r, c')
  end.

Definition lm_sub (a b : bytes) : bytes :=
  let '(r, c) := sub_loop a b (F25519_SIZE - 1) 0 218 in
  let c := u32 (c + u32 (at_ a 31 - at_ b 31)) in
  fe_reduce r c.

(** The two inner loops of the multiplication for column [i]. *)
Definition mul_column (a b : bytes) (i : nat) (c : Z) : Z :=
  let c := fold_left (fun c j => u32 (c + u32 (at_ a j * at_ b (i - j)))) (seq 0 (S i)) c in
  fold_left (fun c j => u32 (c + u32 (at_ a j * at_ b (i + F25519_SIZE - j) * 38)))
    (seq (S i) (F25519_SIZE - S i)) c.

Definition fe_mul__distinct (a b : bytes) : bytes :=
  let '(r, c) := column_loop (mul_column a b) F25519_SIZE 0 0 in
  fe_reduce r c.

Definition fe_mul_c (a : bytes) (b : Z) : bytes :=
  let '(r, c) := column_loop (fun i c => u32 (c + u32 (b * at_ a i))) F25519_SIZE 0 0 in
  fe_reduce r c.

Abbreviation mul := fe_mul__distinct.

(** [s = r * r; r = s * x] *)
Definition square_mul (x r : bytes) : bytes := mul (mul r r) x.

Definition fe_inv__distinct (x : bytes) : bytes :=
  let r := x in
  let r := Nat.iter 249 (square_mul x) r in
  let s := mul r r in
  let r := mul s s in
  let s := mul r x in
  let r := mul s s in
  Nat.iter 2 (square_mul x) r.

Definition xc_diffadd (x1 z1 x2 z2 x3 z3 : bytes) : bytes * bytes :=
  let a := lm_add x2 z2 in
  let b := lm_sub x3 z3 in
  let da := mul a b in
  let b := lm_sub x2 z2 in
  let a := lm_add x3 z3 in
  let cb := mul a b in
  let a := lm_add da cb in
  let b := mul a a in
  let x5 := mul z1 b in
  let a := lm_sub da cb in
  let b := mul a a in
  let z5 := mul x1 b in
  (x5, z5).

Definition xc_double (x1 z1 : bytes) : bytes * bytes :=
  let x1sq := mul x1 x1 in
  let z1sq := mul z1 z1 in
  let x1z1 := mul x1 z1 in
  let a := lm_sub x1sq z1sq in
  let x3 := mul a a in
  let a := fe_mul_c x1z1 486662 in
  let a := lm_add x1sq a in
  let a := lm_add z1sq a in
  let x1sq := mul x1z1 a in
  let z3 := fe_mul_c x1sq 4 in
  (x3, z3).

Definition f25519_zero : bytes := replicate 32 0.
Definition small (b : Z) : bytes := b :: replicate 31 0.
Definition f25519_one : bytes := small 1.
Definition basepoint9 : bytes := small 9.

(** [struct Z]'s working points, P_(m-1) and P_m. *)
Record ladder := { xm1 : bytes; zm1 : bytes; xm : bytes; zm : bytes }.

(** [(e[i >> 3] >> (i & 7)) & 1] *)
Definition bit_of (e : bytes) (i : Z) : Z :=
  Z.land (Z.shiftr (at_ e (Z.to_nat (Z.shiftr i 3))) (Z.land i 7)) 1.

(** One round; with the bit set the four arrays move down by two
    ([memmove(XM1, XM1 + 2 * F25519_SIZE, 4 * F25519_SIZE)]). *)
Definition ladder_step (q : bytes) (bit : Z) (z : ladder) : ladder :=
  let '(xm1, zm1) := xc_diffadd q f25519_one (xm z) (zm z) (xm1 z) (zm1 z) in
  let '(xm, zm) := xc_double (xm z) (zm z) in
  let '(xms, zms) := xc_diffadd xm1 zm1 xm zm q f25519_one in
  if bit =? 0 then {| xm1 := xm1; zm1 := zm1; xm := xm; zm := zm |}
  else {| xm1 := xm; zm1 := zm; xm := xms; zm := zms |}.

(** [for (i = 253; i >= 0; i--)], with [n] rounds left. *)
Fixpoint ladder_loop (e q : bytes) (n : nat) (z : ladder) : ladder :=
  match n with
  | O => z
  | S i => ladder_loop e q i (ladder_step q (bit_of e (Z.of_nat i)) z)
  end.

(** [q == NULL] means the base point. *)
Definition curve25519 (e : bytes) (q : option bytes) : bytes :=
  let q := default basepoint9 q in
  let z := ladder_loop e q 254
             {| xm1 := f25519_one; zm1 := f25519_zero; xm := q; zm := f25519_one |} in
  let zm1 := fe_inv__distinct (zm z) in
  fe_normalize (mul zm1 (xm z)).

(** The clamping of the random private key; [random] are the bytes
    [tls_get_random] gave. *)
Definition clamp (random : bytes) : bytes :=
  let k := <[0%nat := Z.land (at_ random 0) 0xf8]> random in
  <[31%nat := Z.lor (Z.land (at_ k 31) 0x7f) 0x40]> k.

Definition curve_x25519_compute_pubkey_and_premaster (random peerkey32 : bytes) : bytes * bytes :=
  let privkey := clamp random in
  (curve25519 privkey None, curve25519 privkey (Some peerkey32)).

(** ** The specification: the same ladder on integers modulo 2^255 - 19 *)

Definition p : Z := 2 ^ 255 - 19.

Definition spec_diffadd (x1 z1 x2 z2 x3 z3 : Z) : Z * Z :=
  let da := (x2 + z2) * (x3 - z3) in
  let cb := (x3 + z3) * (x2 - z2) in
  ((z1 * ((da + cb) * (da + cb))) mod p, (x1 * ((da - cb) * (da - cb))) mod p).

Definition spec_double (x1 z1 : Z) : Z * Z :=
  let d := x1 * x1 - z1 * z1 in
  ((d * d) mod p, (4 * (x1 * z1 * (z1 * z1 + (x1 * x1 + 486662 * (x1 * z1))))) mod p).

Record zladder := { sxm1 : Z; szm1 : Z; sxm : Z; szm : Z }.

Definition spec_step (q bit : Z) (z : zladder) : zladder :=
  let '(xm1, zm1) := spec_diffadd q 1 (sxm z) (szm z) (sxm1 z) (szm1 z) in
  let '(xm, zm) := spec_double (sxm z) (szm z) in
  let '(xms, zms) := spec_diffadd xm1 zm1 xm zm q 1 in
  if bit =? 0 then {| sxm1 := xm1; szm1 := zm1; sxm := xm; szm := zm |}
  else {| sxm1 := xm; szm1 := zm; sxm := xms; szm := zms |}.

Fixpoint spec_loop (e : bytes) (q : Z) (n : nat) (z : zladder) : zladder :=
  match n with
  | O => z
  | S i => spec_loop e q i (spec_step q (bit_of e (Z.of_nat i)) z)
  end.

(** [x ^ e mod p] by repeated squaring. *)
Fixpoint powmod (x : Z) (e : positive) : Z :=
  match e with
  | xH => x mod p
  | xO e' => let y := powmod x e' in (y * y) mod p
  | xI e' => let y := powmod x e' in (y * y mod p * x) mod p
  end.

Definition x25519_spec (e : bytes) (q : Z) : Z :=
  let z := spec_loop e q 254 {| sxm1 := 1; szm1 := 0; sxm := q; szm := 1 |} in
  (powmod (szm z) (Z.to_pos (p - 2)) * sxm z) mod p.


(** ** Congruence modulo p *)

#[local] Notation "a == b" := (eqm p a b) (at level 70).

Lemma p_pos : 0 < p.
Proof. reflexivity. Qed.

Lemma eqm_mod a : a mod p == a.
Proof. unfold eqm. by rewrite Z.mod_mod. Qed.

Lemma eqm_add_mul a k : a + k * p == a.
Proof. unfold eqm. by rewrite Z.mod_add. Qed.

#[local] Existing Instances eqm_setoid Zplus_eqm Zminus_eqm Zmult_eqm.

(** A field element: 32 bytes; [fe_ok] adds that it is below 2p. *)
Definition fe (x : bytes) : Prop := length x = 32%nat /\ bytes_ok x.
Definition fe_ok (x : bytes) : Prop := fe x /\ le_val x < 2 ^ 255 + 2 ^ 30.

Lemma at_byte x i : bytes_ok x -> is_u8 (at_ x i).
Proof.
  intros H. unfold at_. destruct (nth_in_or_default i x 0) as [Hi| -> ]; [|done].
  apply (proj1 (Forall_forall _ _) H). by apply list_elem_of_In.
Qed.

Lemma u8_shift c : 0 <= c -> c = u8 c + 256 * Z.shiftr c 8.
Proof.
  intros H. unfold u8. rewrite Z.shiftr_div_pow2 by lia.
  pose proof (Z_div_mod_eq_full c (2 ^ 8)). lia.
Qed.

Lemma shiftr_bound c n k : 0 <= k -> 0 <= n -> 0 <= c < 2 ^ (n + k) -> 0 <= Z.shiftr c k < 2 ^ n.
Proof.
  intros Hk Hn Hc. rewrite Z.shiftr_div_pow2 by lia. split; [apply Z.div_pos; lia|].
  apply Z.div_lt_upper_bound; [lia|]. rewrite <- Z.pow_add_r by lia. rewrite (Z.add_comm k). lia.
Qed.

(** *** Carry propagation *)

Lemma carry_val x c :
  bytes_ok x -> 0 <= c < 2 ^ 31 ->
  let '(r, c') := carry c x in
  length r = length x /\ bytes_ok r /\ 0 <= c' < 2 ^ 31 /\
  le_val r + 256 ^ Z.of_nat (length x) * c' = c + le_val x.
Proof.
  intros Hx. revert c. induction Hx as [|t x Ht _ IH]; intros c Hc; cbn [carry].
  { split; [done|]. split; [constructor|]. split; [lia|]. cbn [le_val length].
    change (256 ^ Z.of_nat 0) with 1. lia. }
  unfold is_u8 in Ht. rewrite u32_id by (unfold is_u32; lia).
  assert (0 <= Z.shiftr (c + t) 8 < 2 ^ 31) as Hs.
  { pose proof (shiftr_bound (c + t) 24 8). lia. }
  specialize (IH _ Hs). destruct (carry (Z.shiftr (c + t) 8) x) as [r c'].
  destruct IH as (H1 & H2 & H3 & H4). cbn [length le_val].
  split; [lia|]. split; [constructor; [apply u8_range|done]|]. split; [done|].
  rewrite Nat2Z.inj_succ, Z.pow_succ_r by lia.
  pose proof (u8_shift (c + t) ltac:(lia)). nia.
Qed.

(** The reduction replaces [256^31 * c] by something congruent that fits. *)
Lemma fe_reduce_ok x c :
  (31 <= length x)%nat -> bytes_ok x -> 0 <= c < 2 ^ 32 ->
  fe_ok (fe_reduce x c) /\ le_val (fe_reduce x c) == le_val (take 31 x) + 256 ^ 31 * c.
Proof.
  intros Hl Hx Hc. unfold fe_reduce.
  assert (bytes_ok (take 31 x ++ [Z.land c 127])) as Hb.
  { apply bytes_ok_app. split; [by apply bytes_ok_take|]. repeat constructor.
    - apply Z.land_nonneg. lia.
    - change 127 with (Z.ones 7). rewrite Z.land_ones by lia.
      pose proof (Z.mod_pos_bound c (2 ^ 7)). lia. }
  assert (0 <= Z.shiftr c 7 < 2 ^ 25) as Hs by (by apply (shiftr_bound c 25 7)).
  rewrite (u32_id (Z.shiftr c 7 * 19)) by (unfold is_u32; lia).
  pose proof (carry_val _ (Z.shiftr c 7 * 19) Hb ltac:(lia)) as Hv.
  destruct (carry _ _) as [r c'] eqn:E. cbn [fst].
  rewrite length_app, length_take, Nat.min_l in Hv by lia. cbn [length] in Hv.
  destruct Hv as (H1 & H2 & H3 & H4). rewrite le_val_app, length_take, Nat.min_l in H4 by lia.
  cbn [le_val] in H4.
  pose proof (le_val_range (take 31 x) ltac:(by apply bytes_ok_take)) as Ht.
  rewrite length_take, Nat.min_l in Ht by lia.
  assert (Z.land c 127 = c mod 128) as Hm by (change 127 with (Z.ones 7); by rewrite Z.land_ones).
  assert (Z.shiftr c 7 = c / 128) as Hd by (by rewrite Z.shiftr_div_pow2).
  rewrite Hm, Hd in *. pose proof (Z.mod_pos_bound c 128 ltac:(lia)) as Hmb.
  pose proof (Z_div_mod_eq_full c 128) as Hdm.
  change (256 ^ Z.of_nat (31 + 1)) with (2 ^ 256) in H4. change (256 ^ Z.of_nat 31) with (2 ^ 248) in *.
  pose proof (le_val_range r H2) as Hr.
  assert (c' = 0) as -> by (clear -H4 Ht Hmb Hs Hr H3; nia).
  split.
  - split; [split; [lia|done]|]. clear -H4 Ht Hmb Hs. lia.
  - assert (le_val r = le_val (take 31 x) + 256 ^ 31 * c + (- (c / 128)) * p) as ->.
    { change (256 ^ 31) with (2 ^ 248). unfold p. clear -H4 Hdm. lia. }
    apply eqm_add_mul.
Qed.

(** *** Columns *)

(** [sum 256^k * T (i + k)] for [k < n]. *)
Fixpoint columns (T : nat -> Z) (n i : nat) : Z :=
  match n with O => 0 | S n' => T i + 256 * columns T n' (S i) end.

Lemma column_loop_val f T n i c :
  (forall j d, (i <= j < i + S n)%nat -> 0 <= d < 2 ^ 24 -> f j d = d + T j /\ 0 <= d + T j < 2 ^ 32) ->
  0 <= c < 2 ^ 32 ->
  let '(r, c') := column_loop f (S n) i c in
  length r = S n /\ bytes_ok r /\ 0 <= c' < 2 ^ 32 /\
  le_val (take n r) + 256 ^ Z.of_nat n * c' = Z.shiftr c 8 + columns T (S n) i.
Proof.
  revert i c. induction n as [|n IH]; intros i c Hf Hc.
  - cbn [column_loop columns take le_val length].
    destruct (Hf i (Z.shiftr c 8)) as [E H]; [lia|by apply (shiftr_bound c 24 8)|]. rewrite E.
    split; [done|]. split; [repeat constructor; apply u8_range|]. split; [done|].
    change (256 ^ Z.of_nat 0) with 1. lia.
  - destruct (Hf i (Z.shiftr c 8)) as [E H]; [lia|by apply (shiftr_bound c 24 8)|].
    specialize (IH (S i) (Z.shiftr c 8 + T i)).
    assert (column_loop f (S (S n)) i c =
            let '(r, c') := column_loop f (S n) (S i) (Z.shiftr c 8 + T i) in
            (u8 (Z.shiftr c 8 + T i) :: r, c')) as -> by (rewrite <- E; done).
    destruct (column_loop f (S n) (S i) (Z.shiftr c 8 + T i)) as [r c'].
    destruct IH as (H1 & H2 & H3 & H4); [intros j d Hj; apply Hf; lia|done|].
    split; [cbn [length]; lia|]. split; [constructor; [apply u8_range|done]|]. split; [done|].
    change (take (S n) (u8 (Z.shiftr c 8 + T i) :: r)) with (u8 (Z.shiftr c 8 + T i) :: take n r).
    cbn [le_val]. rewrite Nat2Z.inj_succ, Z.pow_succ_r by lia.
    change (columns T (S (S n)) i) with (T i + 256 * columns T (S n) (S i)).
    pose proof (u8_shift (Z.shiftr c 8 + T i) ltac:(lia)). nia.
Qed.

(** A whole operation: columns, then reduction. *)
Lemma column_op f T :
  (forall j d, (j < 32)%nat -> 0 <= d < 2 ^ 24 -> f j d = d + T j /\ 0 <= d + T j < 2 ^ 32) ->
  let '(r, c) := column_loop f 32 0 0 in
  fe_ok (fe_reduce r c) /\ le_val (fe_reduce r c) == columns T 32 0.
Proof.
  intros Hf. pose proof (column_loop_val f T 31 0 0) as H.
  destruct (column_loop f 32 0 0) as [r c].
  destruct H as (H1 & H2 & H3 & H4); [intros; apply Hf; lia|lia|].
  destruct (fe_reduce_ok r c) as [Hok Hv]; [lia|done|done|]. split; [done|].
  rewrite Hv. change (256 ^ 31) with (256 ^ Z.of_nat 31). rewrite H4. done.
Qed.

Lemma columns_ext T T' n i :
  (forall j, (i <= j < i + n)%nat -> T j = T' j) -> columns T n i = columns T' n i.
Proof.
  revert i. induction n as [|n IH]; intros i H; [done|]. cbn [columns].
  rewrite (H i) by lia. by rewrite (IH (S i)) by (intros; apply H; lia).
Qed.

Lemma columns_linear T T' k n i :
  columns (fun j => T j + k * T' j) n i = columns T n i + k * columns T' n i.
Proof. revert i. induction n as [|n IH]; intros i; cbn [columns]; [lia|]. rewrite IH. ring. Qed.

Lemma columns_at x n : length x = n -> columns (at_ x) n 0 = le_val x.
Proof.
  assert (forall pre x, columns (at_ (pre ++ x)) (length x) (length pre) = le_val x) as H.
  { clear. intros pre x. revert pre. induction x as [|b x IH]; intros pre; [done|].
    cbn [columns length le_val]. f_equal.
    - unfold at_. rewrite app_nth2 by lia. by rewrite Nat.sub_diag.
    - specialize (IH (pre ++ [b])). rewrite <- app_assoc, length_app in IH. cbn [app length] in IH.
      rewrite Nat.add_1_r in IH. by rewrite IH. }
  intros <-. apply (H []).
Qed.

Lemma lm_add_ok a b :
  fe a -> fe b -> fe_ok (lm_add a b) /\ le_val (lm_add a b) == le_val a + le_val b.
Proof.
  intros [Hla Ha] [Hlb Hb]. unfold lm_add, F25519_SIZE.
  pose proof (column_op (fun i c => u32 (c + (at_ a i + at_ b i))) (fun i => at_ a i + 1 * at_ b i)) as H.
  destruct (column_loop _ 32 0 0) as [r c].
  destruct H as [H1 H2].
  { intros j d Hj Hd. pose proof (at_byte a j Ha). pose proof (at_byte b j Hb). unfold is_u8 in *.
    rewrite u32_id by (unfold is_u32; lia). lia. }
  split; [done|]. rewrite H2, columns_linear, !columns_at by done. by rewrite Z.mul_1_l.
Qed.

Lemma fe_mul_c_ok a b :
  fe a -> 0 <= b < 2 ^ 20 -> fe_ok (fe_mul_c a b) /\ le_val (fe_mul_c a b) == b * le_val a.
Proof.
  intros [Hla Ha] Hb. unfold fe_mul_c, F25519_SIZE.
  pose proof (column_op (fun i c => u32 (c + u32 (b * at_ a i))) (fun i => 0 + b * at_ a i)) as H.
  destruct (column_loop _ 32 0 0) as [r c].
  destruct H as [H1 H2].
  { intros j d Hj Hd. pose proof (at_byte a j Ha). unfold is_u8 in *.
    assert (0 <= b * at_ a j < 2 ^ 28) by nia.
    rewrite (u32_id (b * at_ a j)) by (unfold is_u32; lia). rewrite u32_id by (unfold is_u32; lia). lia. }
  split; [done|]. rewrite H2, (columns_linear (fun _ => 0)), !columns_at by done.
  assert (forall n i, columns (fun _ => 0) n i = 0) as -> by (induction n; intros; cbn; [done|rewrite IHn; lia]).
  done.
Qed.

(** *** Multiplication: column [i] of the product of [a] and [b] is the sum
    over [j] of [a_j] times element [i] of [b] rotated [j] times, where an
    element that leaves at the top re-enters at the bottom times 38. *)

Definition rot (l : bytes) : bytes := 38 * at_ l 31 :: take 31 l.

Lemma rot_length l : length l = 32%nat -> length (rot l) = 32%nat.
Proof. intros H. unfold rot. cbn. rewrite length_take. lia. Qed.

Lemma at_rot l i : length l = 32%nat -> (i < 32)%nat ->
  at_ (rot l) i = match i with O => 38 * at_ l 31 | S i' => at_ l i' end.
Proof.
  intros Hl Hi. destruct i as [|i]; [done|]. unfold rot, at_. cbn [nth].
  rewrite <- (take_drop 31 l) at 2. rewrite app_nth1; [done|]. rewrite length_take. lia.
Qed.

Lemma le_val_split l : length l = 32%nat -> le_val l = le_val (take 31 l) + 256 ^ 31 * at_ l 31.
Proof.
  intros Hl. rewrite <- (take_drop 31 l) at 1. rewrite le_val_app, length_take, Nat.min_l by lia.
  change (256 ^ Z.of_nat 31) with (256 ^ 31). f_equal. f_equal.
  assert (length (drop 31 l) = 1%nat) as Hd by (rewrite length_drop; lia).
  unfold at_. rewrite <- (take_drop 31 l) at 2.
  rewrite app_nth2; rewrite length_take, Nat.min_l by lia; [|lia]. rewrite Nat.sub_diag.
  destruct (drop 31 l) as [|x [|]]; try done. cbn. lia.
Qed.

Lemma rot_val l : length l = 32%nat -> le_val (rot l) == 256 * le_val l.
Proof.
  intros Hl. rewrite (le_val_split l) by done. unfold rot. cbn [le_val].
  assert (256 * (le_val (take 31 l) + 256 ^ 31 * at_ l 31) =
          38 * at_ l 31 + 256 * le_val (take 31 l) + 2 * at_ l 31 * p) as ->.
  { unfold p. change (256 ^ 31) with (2 ^ 248). lia. }
  by rewrite eqm_add_mul.
Qed.

Lemma at_rot_iter b j i : length b = 32%nat -> (j <= 32)%nat -> (i < 32)%nat ->
  length (Nat.iter j rot b) = 32%nat /\
  at_ (Nat.iter j rot b) i = if (j <=? i)%nat then at_ b (i - j) else 38 * at_ b (i + 32 - j).
Proof.
  intros Hb. revert i. induction j as [|j IH]; intros i Hj Hi.
  { split; [done|]. cbn. by rewrite Nat.sub_0_r. }
  change (Nat.iter (S j) rot b) with (rot (Nat.iter j rot b)).
  destruct (IH 0%nat) as [Hl _]; [lia|lia|].
  split; [by apply rot_length|]. rewrite at_rot by done. destruct i as [|i].
  - destruct (IH 31%nat) as [_ ->]; [lia|lia|]. rewrite (proj2 (Nat.leb_le _ _)) by lia.
    cbn [Nat.leb]. f_equal; f_equal; lia.
  - destruct (IH i) as [_ ->]; [lia|lia|]. cbn [Nat.leb].
    destruct (j <=? i)%nat eqn:E; f_equal; f_equal; lia.
Qed.

(** The product by rows. *)
Fixpoint rows (a b : bytes) (i : nat) : Z :=
  match a with [] => 0 | x :: a' => x * at_ b i + rows a' (rot b) i end.

Lemma rows_val a b : length b = 32%nat -> columns (rows a b) 32 0 == le_val a * le_val b.
Proof.
  revert b. induction a as [|x a IH]; intros b Hb.
  { assert (forall n i, columns (rows [] b) n i = 0) as -> by (induction n; intros; cbn in *; [done|rewrite IHn; lia]).
    done. }
  rewrite (columns_ext _ (fun i => rows a (rot b) i + x * at_ b i)) by (intros; cbn; lia).
  rewrite columns_linear, columns_at by done. rewrite IH by (by apply rot_length).
  rewrite rot_val by done. cbn [le_val]. replace ((x + 256 * le_val a) * le_val b) with (le_val a * (256 * le_val b) + x * le_val b) by ring.
  done.
Qed.

Lemma rows_sum a b i : rows a b i =
  foldr (fun j s => at_ a j * at_ (Nat.iter j rot b) i + s) 0 (seq 0 (length a)).
Proof.
  revert b. induction a as [|x a IH]; intros b; [done|]. cbn [rows length seq foldr].
  f_equal. rewrite IH, <- seq_shift.
  generalize (seq 0 (length a)) as l. induction l as [|j l IHl]; [done|]. cbn [foldr map].
  rewrite IHl. f_equal. change (at_ (x :: a) (S j)) with (at_ a j). do 2 f_equal.
  exact (Nat.iter_swap j _ rot b).
Qed.

(** The running sums of the inner loops, without the 32-bit wrap. *)
Lemma fold_u32 {A} (g : A -> Z) (l : list A) c B :
  (forall x, x ∈ l -> 0 <= g x <= B) -> 0 <= c -> c + B * Z.of_nat (length l) < 2 ^ 32 -> 0 <= B ->
  fold_left (fun c x => u32 (c + u32 (g x))) l c = c + foldr (fun x s => g x + s) 0 l /\
  0 <= foldr (fun x s => g x + s) 0 l <= B * Z.of_nat (length l).
Proof.
  revert c. induction l as [|x l IH]; intros c Hg Hc Hb HB; cbn [fold_left foldr length]; [lia|].
  cbn [length] in Hb. rewrite Nat2Z.inj_succ in *. pose proof (Hg x ltac:(set_solver)).
  rewrite (u32_id (g x)) by (unfold is_u32; nia). rewrite (u32_id (c + g x)) by (unfold is_u32; nia).
  destruct (IH (c + g x)) as [E H0]; [intros; apply Hg; set_solver|lia|nia|done|].
  rewrite E. split; [lia|nia].
Qed.

Lemma foldr_sum_app {A} (g : A -> Z) l1 l2 :
  foldr (fun x s => g x + s) 0 (l1 ++ l2) =
  foldr (fun x s => g x + s) 0 l1 + foldr (fun x s => g x + s) 0 l2.
Proof. induction l1 as [|x l1 IH]; cbn [app foldr]; [lia|]. rewrite IH. lia. Qed.

Lemma foldr_sum_ext {A} (g h : A -> Z) l :
  (forall x, x ∈ l -> g x = h x) ->
  foldr (fun x s => g x + s) 0 l = foldr (fun x s => h x + s) 0 l.
Proof.
  induction l as [|x l IH]; intros H; cbn [foldr]; [done|].
  rewrite (H x) by set_solver. rewrite IH; [done|]. intros; apply H; set_solver.
Qed.

Lemma mul_column_val a b i d :
  fe a -> fe b -> (i < 32)%nat -> 0 <= d < 2 ^ 24 ->
  mul_column a b i d = d + rows a b i /\ 0 <= d + rows a b i < 2 ^ 32.
Proof.
  intros [Hla Ha] [Hlb Hb] Hi Hd. unfold mul_column, F25519_SIZE.
  assert (forall j k, 0 <= at_ a j * at_ b k <= 65025) as Hp.
  { intros j k. pose proof (at_byte a j Ha). pose proof (at_byte b k Hb). unfold is_u8 in *. nia. }
  destruct (fold_u32 (fun j => at_ a j * at_ b (i - j)) (seq 0 (S i)) d 2470950) as [E1 H1];
    [intros j _; specialize (Hp j (i - j)%nat); lia|lia|rewrite length_seq; nia|lia|].
  rewrite E1. rewrite length_seq in H1.
  set (s1 := foldr _ 0 (seq 0 (S i))) in *.
  destruct (fold_u32 (fun j => at_ a j * at_ b (i + 32 - j) * 38) (seq (S i) (32 - S i)) (d + s1) 2470950)
    as [E2 H2]; [intros j _; specialize (Hp j (i + 32 - j)%nat); lia|lia|rewrite length_seq; nia|lia|].
  rewrite E2. rewrite length_seq in H2. set (s2 := foldr _ 0 (seq (S i) _)) in *.
  assert (rows a b i = s1 + s2) as ->; [|split; [lia|nia]].
  rewrite rows_sum, Hla. replace (seq 0 32) with (seq 0 (S i) ++ seq (0 + S i) (32 - S i))
    by (rewrite <- seq_app; f_equal; lia).
  rewrite foldr_sum_app. subst s1 s2. f_equal; apply foldr_sum_ext; intros j Hj%elem_of_seq;
    destruct (at_rot_iter b j i) as [_ ->]; try done; try lia.
  - by rewrite (proj2 (Nat.leb_le _ _)) by lia.
  - rewrite (proj2 (Nat.leb_gt _ _)) by lia. lia.
Qed.

Lemma mul_ok a b : fe a -> fe b -> fe_ok (mul a b) /\ le_val (mul a b) == le_val a * le_val b.
Proof.
  intros Ha Hb. unfold fe_mul__distinct, F25519_SIZE.
  pose proof (column_op (mul_column a b) (rows a b)) as H.
  destruct (column_loop _ 32 0 0) as [r c].
  destruct H as [H1 H2]; [intros; by apply mul_column_val|]. split; [done|].
  rewrite H2. apply rows_val. apply Hb.
Qed.

(** *** Subtraction adds 2p first, so the subtrahend must be below 2p. *)

Lemma sub_loop_val a b n i c :
  bytes_ok a -> bytes_ok b -> 0 <= c < 2 ^ 16 ->
  let '(r, c') := sub_loop a b n i c in
  length r = n /\ bytes_ok r /\ 0 <= c' < 2 ^ 16 /\
  le_val r + 256 ^ Z.of_nat n * c' = c + columns (fun j => 65280 + at_ a j + (-1) * at_ b j) n i.
Proof.
  intros Ha Hb. revert i c. induction n as [|n IH]; intros i c Hc; cbn [sub_loop columns].
  { split; [done|]. split; [constructor|]. split; [lia|]. change (256 ^ Z.of_nat 0) with 1. cbn [le_val]. lia. }
  pose proof (at_byte a i Ha). pose proof (at_byte b i Hb). unfold is_u8 in *.
  rewrite (u32_id (65280 + _ - _)) by (unfold is_u32; lia). rewrite u32_id by (unfold is_u32; lia).
  set (d := c + (65280 + at_ a i - at_ b i)) in *.
  assert (0 <= Z.shiftr d 8 < 2 ^ 16) as Hs by (apply (shiftr_bound d 16 8); unfold d; lia).
  specialize (IH (S i) _ Hs). destruct (sub_loop a b n (S i) (Z.shiftr d 8)) as [r c'].
  destruct IH as (H1 & H2 & H3 & H4). cbn [length le_val].
  split; [lia|]. split; [constructor; [apply u8_range|done]|]. split; [done|].
  rewrite Nat2Z.inj_succ, Z.pow_succ_r by lia.
  pose proof (u8_shift d ltac:(unfold d; lia)). unfold d in *. nia.
Qed.

Lemma columns_take x n : (n <= length x)%nat -> columns (at_ x) n 0 = le_val (take n x).
Proof.
  intros Hn. rewrite <- (columns_at (take n x) n) by (rewrite length_take; lia).
  apply columns_ext. intros j Hj. unfold at_. rewrite <- (take_drop n x) at 1.
  rewrite app_nth1; [done|]. rewrite length_take. lia.
Qed.

Lemma columns_const k n i : 255 * columns (fun _ => k) n i = k * (256 ^ Z.of_nat n - 1).
Proof.
  revert i. induction n as [|n IH]; intros i; cbn [columns]; [change (256 ^ Z.of_nat 0) with 1; lia|].
  rewrite Nat2Z.inj_succ, Z.pow_succ_r by lia. specialize (IH (S i)). lia.
Qed.

Lemma lm_sub_ok a b :
  fe a -> fe_ok b -> fe_ok (lm_sub a b) /\ le_val (lm_sub a b) == le_val a - le_val b.
Proof.
  intros [Hla Ha] [[Hlb Hb] Hbb]. unfold lm_sub, F25519_SIZE. change (32 - 1)%nat with 31%nat.
  pose proof (sub_loop_val a b 31 0 218 Ha Hb ltac:(lia)) as H.
  destruct (sub_loop a b 31 0 218) as [r c]. destruct H as (H1 & H2 & H3 & H4).
  rewrite columns_linear in H4.
  rewrite (columns_ext _ (fun j => 65280 + 1 * at_ a j)), columns_linear in H4 by (intros; lia).
  rewrite !columns_take in H4 by lia.
  pose proof (columns_const 65280 31 0) as Hk.
  pose proof (le_val_split a Hla) as Va. pose proof (le_val_split b Hlb) as Vb.
  pose proof (at_byte a 31 Ha) as A. pose proof (at_byte b 31 Hb) as B. unfold is_u8 in A, B.
  pose proof (le_val_range r H2) as Hr. rewrite H1 in Hr.
  pose proof (le_val_range a Ha) as Hra.
  change (256 ^ Z.of_nat 31) with (2 ^ 248) in *. change (256 ^ 31) with (2 ^ 248) in *.
  set (cf := c + (at_ a 31 - at_ b 31)).
  assert (le_val r + 2 ^ 248 * cf = le_val a - le_val b + 2 * p) as HV by (unfold cf, p; lia).
  assert (0 <= cf < 2 ^ 17) as Hcf by (unfold cf in *; unfold p in HV; split; [nia|lia]).
  assert (u32 (c + u32 (at_ a 31 - at_ b 31)) = cf) as ->.
  { unfold u32. rewrite Zplus_mod_idemp_r. apply Z.mod_small. unfold cf in Hcf. lia. }
  destruct (fe_reduce_ok r cf) as [Hok Hv]; [lia|done|lia|]. split; [done|].
  rewrite Hv, take_ge by lia. change (256 ^ 31) with (2 ^ 248). rewrite HV.
  by rewrite eqm_add_mul.
Qed.

(** *** Normalisation gives the canonical representative. *)

Lemma fe_normalize_ok x :
  fe x -> fe (fe_normalize x) /\ le_val (fe_normalize x) = le_val x mod p.
Proof.
  intros [Hl Hx]. unfold fe_normalize.
  pose proof (at_byte x 31 Hx) as B31. unfold is_u8 in B31.
  destruct (fe_reduce_ok x (at_ x 31)) as [[[Hl' Hx'] Hb'] Hv]; [lia|done|lia|].
  rewrite <- le_val_split in Hv by done. set (y := fe_reduce x (at_ x 31)) in *. clearbody y.
  unfold eqm in Hv. rewrite <- Hv. clear Hv B31.
  pose proof (carry_val (take 31 y) 19 ltac:(by apply bytes_ok_take) ltac:(lia)) as Hc.
  destruct (carry 19 (take 31 y)) as [r c]. rewrite length_take, Nat.min_l in Hc by lia.
  destruct Hc as (H1 & H2 & H3 & H4).
  pose proof (at_byte y 31 Hx') as Y31. unfold is_u8 in Y31.
  pose proof (le_val_range r H2) as Hr. rewrite H1 in Hr.
  pose proof (le_val_split y Hl') as Vy. pose proof (le_val_range y Hx') as Ry.
  change (256 ^ Z.of_nat 31) with (2 ^ 248) in *. change (256 ^ 31) with (2 ^ 248) in *.
  set (d := c + (at_ y 31 - 128)).
  assert (le_val r + 2 ^ 248 * d = le_val y - p) as HV by (unfold d, p; lia).
  assert (u32 (c + u32 (at_ y 31 - 128)) = u32 d) as ->.
  { unfold u32, d. by rewrite Zplus_mod_idemp_r. }
  assert (-128 <= d < 128) as Hd by (unfold p in HV; unfold d in *; split; [lia|nia]).
  clearbody d. destruct (Z.lt_ge_cases (le_val y) p) as [Hlt|Hge].
  - assert (d < 0) as Hneg by nia.
    assert (u32 d = 2 ^ 32 + d) as -> by (unfold u32; symmetry; apply Zmod_unique with (-1); lia).
    assert (Z.land (2 ^ 32 + d) (Z.shiftl 1 15) =? 0 = false) as ->.
    { apply Z.eqb_neq. intros E. assert (Z.testbit (Z.land (2 ^ 32 + d) (Z.shiftl 1 15)) 15 = false) as Hb
        by (by rewrite E). rewrite Z.land_spec, andb_true_r in Hb.
      rewrite Z.testbit_false in Hb by lia.
      assert ((2 ^ 32 + d) / 2 ^ 15 = 2 ^ 17 - 1) as Eq by (symmetry; apply Zdiv_unique with (2 ^ 15 + d); lia).
      rewrite Eq in Hb. discriminate Hb. }
    cbn [fe_select]. split; [by split|]. rewrite Z.mod_small; [done|lia].
  - assert (0 <= d) as Hpos by nia.
    rewrite (u32_id d) by (unfold is_u32; lia).
    assert (Z.land d (Z.shiftl 1 15) =? 0 = true) as ->.
    { apply Z.eqb_eq. apply Z.bits_inj'. intros n Hn. rewrite Z.land_spec, Z.bits_0.
      destruct (Z.eq_dec n 15) as [ -> |Hn15]; [by rewrite (bits_above d 7) by lia|].
      change (Z.shiftl 1 15) with (2 ^ 15). by rewrite Z.pow2_bits_false, andb_false_r by lia. }
    cbn [fe_select]. rewrite (u8_id d) by (unfold is_u8; lia). split.
    + split; [rewrite length_app; cbn; lia|]. apply bytes_ok_app. split; [done|]. repeat constructor; lia.
    + rewrite le_val_app, H1. cbn [le_val]. change (256 ^ Z.of_nat 31) with (2 ^ 248).
      assert (le_val y mod p = le_val y - p) as ->.
      { symmetry. apply Zmod_unique with 1; [unfold p in *; lia|lia]. }
      lia.
Qed.

(** *** Curve operations *)

Lemma fe_ok_fe x : fe_ok x -> fe x.
Proof. by intros [? _]. Qed.
#[local] Hint Resolve fe_ok_fe : fe.

(** [x] represents the residue [v]. *)
Definition rep (x : bytes) (v : Z) : Prop := fe_ok x /\ le_val x == v.
(** The same for an input that need not be reduced. *)
Definition rep' (x : bytes) (v : Z) : Prop := fe x /\ le_val x == v.

Lemma rep_weak x v : rep x v -> rep' x v.
Proof. intros [[H _] E]. by split. Qed.

Lemma rep_eqm x v w : rep x v -> v == w -> rep x w.
Proof. intros [H E] Hw. split; [done|]. by rewrite E. Qed.

Lemma rep_add x y v w : rep' x v -> rep' y w -> rep (lm_add x y) (v + w).
Proof. intros [H1 E1] [H2 E2]. destruct (lm_add_ok x y H1 H2) as [H E]. split; [done|]. by rewrite E, E1, E2. Qed.
Lemma rep_sub x y v w : rep' x v -> rep y w -> rep (lm_sub x y) (v - w).
Proof. intros [H1 E1] [H2 E2]. destruct (lm_sub_ok x y H1 H2) as [H E]. split; [done|]. by rewrite E, E1, E2. Qed.
Lemma rep_mul x y v w : rep' x v -> rep' y w -> rep (mul x y) (v * w).
Proof. intros [H1 E1] [H2 E2]. destruct (mul_ok x y H1 H2) as [H E]. split; [done|]. by rewrite E, E1, E2. Qed.
Lemma rep_mul_c x v k : rep' x v -> 0 <= k < 2 ^ 20 -> rep (fe_mul_c x k) (k * v).
Proof. intros [H1 E1] Hk. destruct (fe_mul_c_ok x k H1 Hk) as [H E]. split; [done|]. by rewrite E, E1. Qed.

Create HintDb fe25519.
#[local] Hint Resolve rep_weak rep_add rep_sub rep_mul rep_mul_c : fe25519.

Lemma diffadd_rep x1 z1 x2 z2 x3 z3 v1 w1 v2 w2 v3 w3 :
  rep' x1 v1 -> rep' z1 w1 -> rep' x2 v2 -> rep z2 w2 -> rep' x3 v3 -> rep z3 w3 ->
  let '(x5, z5) := xc_diffadd x1 z1 x2 z2 x3 z3 in
  let '(v5, w5) := spec_diffadd v1 w1 v2 w2 v3 w3 in rep x5 v5 /\ rep z5 w5.
Proof.
  intros H1 H2 H3 H4 H5 H6. unfold xc_diffadd, spec_diffadd.
  split; (eapply rep_eqm; [|symmetry; apply eqm_mod]); auto 12 with fe25519.
Qed.

Lemma double_rep x1 z1 v1 w1 :
  rep' x1 v1 -> rep' z1 w1 ->
  let '(x3, z3) := xc_double x1 z1 in
  let '(v3, w3) := spec_double v1 w1 in rep x3 v3 /\ rep z3 w3.
Proof.
  intros H1 H2. unfold xc_double, spec_double.
  split; (eapply rep_eqm; [|symmetry; apply eqm_mod]).
  - auto 12 with fe25519.
  - apply rep_mul_c; [|lia]. apply rep_weak, rep_mul; [auto with fe25519|].
    apply rep_weak, rep_add; [auto with fe25519|]. apply rep_weak, rep_add; [auto with fe25519|].
    apply rep_weak, rep_mul_c; [auto with fe25519|lia].
Qed.

Definition ladder_rep (z : ladder) (s : zladder) : Prop :=
  rep' (xm1 z) (sxm1 s) /\ rep (zm1 z) (szm1 s) /\ rep' (xm z) (sxm s) /\ rep (zm z) (szm s).

Lemma rep_small b : 0 <= b < 256 -> rep (small b) b.
Proof.
  intros Hb. assert (le_val (small b) = b) as E.
  { unfold small. cbn. lia. }
  split; [|by rewrite E]. split; [|rewrite E; lia]. split; [done|].
  unfold small. constructor; [done|]. apply Forall_replicate. done.
Qed.

Lemma step_rep q v bit z s :
  rep' q v -> ladder_rep z s -> ladder_rep (ladder_step q bit z) (spec_step v bit s).
Proof.
  intros Hq (H1 & H2 & H3 & H4). unfold ladder_step, spec_step.
  pose proof (rep_small 1 ltac:(lia)) as Hone. pose proof (rep_weak _ _ Hone) as Hone'.
  pose proof (diffadd_rep q f25519_one (xm z) (zm z) (xm1 z) (zm1 z) _ _ _ _ _ _ Hq Hone' H3 H4 H1 H2) as D1.
  destruct (xc_diffadd q f25519_one _ _ _ _) as [x5 z5], (spec_diffadd v 1 _ _ _ _) as [v5 w5].
  destruct D1 as [D1 D2].
  pose proof (double_rep (xm z) (zm z) _ _ H3 (rep_weak _ _ H4)) as D3.
  destruct (xc_double (xm z) (zm z)) as [x6 z6], (spec_double _ _) as [v6 w6]. destruct D3 as [D3 D4].
  pose proof (diffadd_rep x5 z5 x6 z6 q f25519_one _ _ _ _ _ _ (rep_weak _ _ D1) (rep_weak _ _ D2)
                (rep_weak _ _ D3) D4 Hq Hone) as D5.
  destruct (xc_diffadd x5 z5 _ _ _ _) as [x7 z7], (spec_diffadd v5 w5 _ _ _ _) as [v7 w7].
  destruct D5 as [D5 D6]. destruct (bit =? 0); unfold ladder_rep; cbn; auto with fe25519.
Qed.

Lemma loop_rep e q v n z s :
  rep' q v -> ladder_rep z s -> ladder_rep (ladder_loop e q n z) (spec_loop e v n s).
Proof. intros Hq. revert z s. induction n as [|n IH]; intros z s H; [done|]. apply IH. by apply step_rep. Qed.

(** *** Inversion raises to p - 2 *)

Lemma rep_pow_mul x y v a b :
  rep' x (v ^ a) -> rep' y (v ^ b) -> 0 <= a -> 0 <= b -> rep (mul x y) (v ^ (a + b)).
Proof. intros H1 H2 Ha Hb. rewrite Z.pow_add_r by done. by apply rep_mul. Qed.

Lemma square_mul_rep x r v a :
  rep' x v -> rep' r (v ^ a) -> 0 <= a -> rep (square_mul x r) (v ^ (2 * a + 1)).
Proof.
  intros Hx Hr Ha. unfold square_mul. replace (2 * a + 1) with ((a + a) + 1) by lia.
  apply rep_pow_mul; [apply rep_weak; by apply rep_pow_mul|by rewrite Z.pow_1_r|lia|lia].
Qed.

Lemma iter_square_mul x r v a n :
  rep' x v -> rep' r (v ^ a) -> 0 <= a ->
  rep' (Nat.iter n (square_mul x) r) (v ^ (2 ^ Z.of_nat n * (a + 1) - 1)).
Proof.
  intros Hx Hr Ha. induction n as [|n IH].
  - replace (2 ^ Z.of_nat 0 * (a + 1) - 1) with a by (change (2 ^ Z.of_nat 0) with 1; lia). exact Hr.
  - rewrite Nat2Z.inj_succ, Z.pow_succ_r by lia.
    assert (0 < 2 ^ Z.of_nat n) by (apply Z.pow_pos_nonneg; lia).
    replace (2 * 2 ^ Z.of_nat n * (a + 1) - 1) with (2 * (2 ^ Z.of_nat n * (a + 1) - 1) + 1) by lia.
    apply rep_weak, square_mul_rep; [done|done|nia].
Qed.

(** The chain after the first 249 rounds. *)
Lemma inv_tail x r v e :
  rep' x v -> rep' r (v ^ e) -> 0 <= e ->
  let s := mul r r in
  let r := mul s s in
  let s := mul r x in
  let r := mul s s in
  rep' (Nat.iter 2 (square_mul x) r) (v ^ (32 * e + 11)).
Proof.
  intros Hx Hr He s1 r1 s2 r2.
  assert (rep' x (v ^ 1)) as Hx1 by (by rewrite Z.pow_1_r).
  assert (rep' s1 (v ^ (e + e))) as H1 by (by apply rep_weak, rep_pow_mul).
  assert (rep' r1 (v ^ (e + e + (e + e)))) as H2 by (apply rep_weak, rep_pow_mul; try done; lia).
  assert (rep' s2 (v ^ (e + e + (e + e) + 1))) as H3 by (apply rep_weak, rep_pow_mul; try done; lia).
  assert (rep' r2 (v ^ (e + e + (e + e) + 1 + (e + e + (e + e) + 1)))) as H4
    by (apply rep_weak, rep_pow_mul; try done; lia).
  pose proof (iter_square_mul x r2 v _ 2 Hx H4 ltac:(lia)) as H5.
  change (2 ^ Z.of_nat 2) with 4 in H5.
  replace (4 * (e + e + (e + e) + 1 + (e + e + (e + e) + 1) + 1) - 1) with (32 * e + 11) in H5 by lia.
  exact H5.
Qed.

Lemma inv_rep x v : rep' x v -> rep' (fe_inv__distinct x) (v ^ (p - 2)).
Proof.
  intros Hx. unfold fe_inv__distinct.
  assert (rep' x (v ^ 1)) as Hx1 by (by rewrite Z.pow_1_r).
  pose proof (iter_square_mul x x v 1 249 Hx Hx1 ltac:(lia)) as H.
  set (e := 2 ^ Z.of_nat 249 * (1 + 1) - 1) in *.
  assert (0 <= e) as He by (vm_compute; discriminate).
  assert (p - 2 = 32 * e + 11) as -> by (vm_compute; reflexivity). clearbody e.
  by apply inv_tail.
Qed.

Lemma powmod_ok x e : powmod x e == x ^ Z.pos e.
Proof.
  induction e as [e IH|e IH|]; cbn [powmod]; cbv zeta.
  - rewrite eqm_mod, eqm_mod, IH. rewrite Pos2Z.inj_xI.
    replace (2 * Z.pos e + 1) with (Z.pos e + Z.pos e + 1) by lia.
    by rewrite !Z.pow_add_r, Z.pow_1_r by lia.
  - rewrite eqm_mod, IH. rewrite Pos2Z.inj_xO.
    replace (2 * Z.pos e) with (Z.pos e + Z.pos e) by lia. by rewrite Z.pow_add_r by lia.
  - rewrite eqm_mod. by rewrite Z.pow_1_r.
Qed.

Lemma curve25519_spec e q :
  (forall u, q = Some u -> length u = 32%nat /\ bytes_ok u) ->
  let r := curve25519 e q in
  length r = 32%nat /\ bytes_ok r /\
  le_val r = x25519_spec e (le_val (default basepoint9 q)).
Proof.
  intros Hq. unfold curve25519, x25519_spec. set (u := default basepoint9 q).
  assert (rep' u (le_val u)) as Hu.
  { destruct q as [u'|]; cbn in u; [split; [by apply Hq|done]|]. split; [|done].
    by apply fe_ok_fe, (rep_small 9). }
  pose proof (rep_small 1 ltac:(lia)) as Hone.
  assert (rep f25519_zero 0) as Hz by (apply (rep_small 0); lia).
  pose proof (loop_rep e u (le_val u) 254 {| xm1 := f25519_one; zm1 := f25519_zero; xm := u; zm := f25519_one |}
    {| sxm1 := 1; szm1 := 0; sxm := le_val u; szm := 1 |} Hu) as HL.
  destruct HL as (_ & _ & Hx & Hzm); [by repeat split; apply Hone || apply Hz || apply Hu|].
  set (z := ladder_loop _ _ _ _) in *. set (s := spec_loop _ _ _ _) in *. clearbody z s.
  pose proof (inv_rep _ _ (rep_weak _ _ Hzm)) as Hi.
  destruct (rep_mul _ _ _ _ Hi Hx) as [[Hf _] Hv].
  destruct (fe_normalize_ok _ Hf) as [[H1 H2] H3]. split; [exact H1|]. split; [exact H2|].
  rewrite H3. change (le_val (mul (fe_inv__distinct (zm z)) (xm z)) ==
                      powmod (szm s) (Z.to_pos (p - 2)) * sxm s).
  rewrite Hv, powmod_ok. rewrite Z2Pos.id by reflexivity. apply eqm_refl.
Qed.

Lemma curve25519_bytes e q : (forall u, q = Some u -> length u = 32%nat /\ bytes_ok u) ->
  curve25519 e q = le_bytes 32 (x25519_spec e (le_val (default basepoint9 q))).
Proof.
  intros Hq. pose proof (curve25519_spec e q Hq) as Hs. cbv zeta in Hs. revert Hs. generalize (curve25519 e q). intros r (L & B & <-).
  rewrite <- L. by rewrite le_bytes_le_val.
Qed.

(** Claim C20. The byte-wise, lazily reduced arithmetic computes X25519: for
    every scalar and every 32-byte point, canonical or not, the result of
    [curve25519] is the canonical little-endian encoding of the value that the
    Montgomery ladder over the integers modulo 2^255 - 19 gives. *)
Theorem curve25519_correct e q :
  (forall u, q = Some u -> length u = 32%nat /\ bytes_ok u) ->
  let r := curve25519 e q in
  length r = 32%nat /\ bytes_ok r /\
  le_val r = x25519_spec e (le_val (default basepoint9 q)).
Proof. apply curve25519_spec. Qed.

Lemma curve25519_correct_witness :
  le_val (curve25519 (small 1) (Some (small 9))) = x25519_spec (small 1) 9.
Proof.
  refine (proj2 (proj2 (curve25519_correct (small 1) (Some (small 9)) _))).
  intros u [= <-]. split; [reflexivity|]. repeat constructor; done.
Defined.

End TlsFe.
