(* ===== verification/TlsAesGcm.v ===== *)
(** * AES-GCM of the TLS client (src/busybox/networking/tls_aesgcm.c, tls.c)

    The field multiplication and GHASH of tls_aesgcm.c on sixteen-byte blocks,
    for the 64-bit little-endian targets (the words of a block are swapped
    around every shift), and the record code of tls.c built on them: encryption
    of an outgoing record in place and decryption of an incoming one, where the
    output overlaps the input by eight bytes.  A length is a natural number
    below 2^32.  Reading or writing past a buffer is undefined. *)

From Stdlib Require Import Ring.
From S2P Require Import Prelude TlsAes.

Module TlsAesGcm.
Import TlsAes.

(** ** Buffers *)

(** [xorbuf3]: the [count] bytes written at the destination. *)
Definition xorbuf3 (src1 src2 : bytes) (count : nat) : outcome bytes :=
  if (length src1 <? count)%nat || (length src2 <? count)%nat then Undef
  else Ok (zip_with Z.lxor (take count src1) (take count src2)).

(** [xorbuf]: the destination buffer afterwards. *)
Definition xorbuf (dst src : bytes) (count : nat) : outcome bytes :=
  d ← xorbuf3 dst src count; Ok (d ++ drop count dst).

(** The [i]-th [w]-byte word of a buffer in memory order, read and written. *)
Definition word (w i : nat) (x : bytes) : Z := le_val (take w (drop (w * i) x)).
Definition set_word (w i : nat) (v : Z) (x : bytes) : bytes :=
  take (w * i) x ++ le_bytes w v ++ drop (w * i + w) x.

(** [d[0] ^= s[0]; d[1] ^= s[1]] on 64-bit words. *)
Definition xorbuf_aligned_AES_BLOCK_SIZE (d s : bytes) : bytes :=
  let d := set_word 8 0 (Z.lxor (word 8 0 d) (word 8 0 s)) d in
  set_word 8 1 (Z.lxor (word 8 1 d) (word 8 1 s)) d.

(** Byte swaps of a little-endian machine. *)
Definition SWAP_BE32 (z : Z) : Z := be_val (le_bytes 4 z).
Definition SWAP_BE64 (z : Z) : Z := be_val (le_bytes 8 z).

(** ** Multiplication and GHASH *)

Definition RIGHTSHIFTX (x : bytes) : bytes :=
  let carryIn := if Z.land (nth 15 x 0) 1 =? 0 then 0 else Z.shiftl 0xE1 (64 - 8) in
  let tt := SWAP_BE64 (word 8 0 x) in
  let carryOut := u64 (Z.shiftl tt (64 - 1)) in
  let tt := Z.lxor (Z.shiftr tt 1) carryIn in
  let x := set_word 8 0 (SWAP_BE64 tt) x in
  let tt := SWAP_BE64 (word 8 1 x) in
  let tt := Z.lxor (Z.shiftr tt 1) carryOut in
  set_word 8 1 (SWAP_BE64 tt) x.

(** The inner loop over the bits of one byte of [Y]; the marker bit of [y]
    reaches the sign after eight rounds, so 32 rounds of fuel are more than
    enough. *)
Fixpoint bit_loop (fuel : nat) (y : Z) (Zb X : bytes) : outcome (bytes * bytes) :=
  match fuel with
  | O => Undef
  | S f =>
      let Zb := if Z.land y 0x80 =? 0 then Zb else xorbuf_aligned_AES_BLOCK_SIZE Zb X in
      let X := RIGHTSHIFTX X in
      let y := u32 (Z.shiftl y 1) in
      if i32 y <? 0 then Ok (Zb, X) else bit_loop f y Zb X
  end.

Fixpoint byte_loop (Y : bytes) (Zb X : bytes) : outcome bytes :=
  match Y with
  | [] => Ok Zb
  | Yi :: Y' => '(Zb, X) ← bit_loop 32 (Z.lor 0x800000 Yi) Zb X; byte_loop Y' Zb X
  end.

(** [GMULT(X, Y)]: the block left in [X]. *)
Definition GMULT (X Y : bytes) : outcome bytes := byte_loop (take 16 Y) (replicate 16 0) X.

(** The loop over the whole blocks: the accumulator and the bytes left. *)
Fixpoint ghash_blocks (blocks : nat) (h x c : bytes) : outcome (bytes * bytes) :=
  match blocks with
  | O => Ok (x, c)
  | S b =>
      if (length c <? 16)%nat then Undef
      else
        x ← GMULT (xorbuf_aligned_AES_BLOCK_SIZE x c) h;
        ghash_blocks b h x (drop 16 c)
  end.

Definition aSz : nat := 13.

(** The part that hashes in the ciphertext. *)
Definition ghash_cipher (h x c : bytes) (cSz : nat) : outcome bytes :=
  if (cSz =? 0)%nat then Ok x
  else
    '(x, c) ← ghash_blocks (cSz / 16) h x c;
    if (cSz mod 16 =? 0)%nat then Ok x
    else x ← xorbuf x c (cSz mod 16); GMULT x h.

Definition aesgcm_GHASH (h a c : bytes) (cSz : nat) : outcome bytes :=
  x ← GMULT (take 16 a) h;
  x ← ghash_cipher h x c cSz;
  let x := set_word 4 1 (Z.lxor (word 4 1 x) (SWAP_BE32 (u32 (Z.of_nat aSz * 8)))) x in
  let x := set_word 4 3 (Z.lxor (word 4 3 x) (SWAP_BE32 (u32 (Z.of_nat cSz * 8)))) x in
  GMULT x h.

(** ** Records *)

Definition TLS_MAJ : Z := 3.
Definition TLS_MIN : Z := 3.

(** The part of [tls_state_t] the two functions use; the sequence number is
    kept as the 64-bit value whose bytes in memory are big-endian. *)
Record tls_state := {
  aes_encrypt : tls_aes;
  aes_decrypt : tls_aes;
  H : bytes;
  client_write_IV : bytes;
  server_write_IV : bytes;
  write_seq64_be : Z }.

Definition set_seq (tls : tls_state) (s : Z) : tls_state :=
  {| aes_encrypt := aes_encrypt tls; aes_decrypt := aes_decrypt tls; H := H tls;
     client_write_IV := client_write_IV tls; server_write_IV := server_write_IV tls;
     write_seq64_be := s |}.

(** [COUNTER(nonce) = htonl(cnt)] *)
Definition set_counter (nonce : bytes) (cnt : Z) : bytes := take 12 nonce ++ be_bytes 4 (u32 cnt).

(** The encryption loop over [buf]; one round encrypts at most a block, so the
    number of bytes is enough fuel. *)
Fixpoint ctr_loop (fuel : nat) (aes : tls_aes) (nonce : bytes) (cnt : Z) (buf : bytes)
    (remaining : nat) : outcome bytes :=
  if (remaining =? 0)%nat then Ok []
  else match fuel with
  | O => Undef
  | S f =>
      let cnt := cnt + 1 in
      scratch ← aes_encrypt_one_block aes (set_counter nonce cnt);
      let n := if (16 <? remaining)%nat then 16%nat else remaining in
      d ← xorbuf3 buf scratch n;
      rest ← ctr_loop f aes nonce cnt (drop n buf) (remaining - n);
      Ok (d ++ rest)
  end.

(** [xwrite_encrypted_aesgcm]: the record handed to [xwrite]. *)
Definition xwrite_encrypted_aesgcm (tls : tls_state) (buf : bytes) (size : nat) (type : Z) :
    outcome (bytes * tls_state) :=
  let sz := Z.of_nat size in
  let t64 := write_seq64_be tls in
  let aad := le_bytes 8 t64 ++ [u8 type; TLS_MAJ; TLS_MIN; u8 (Z.shiftr sz 8)] ++
             le_bytes 4 (Z.land sz 255) in
  let nonce := take 4 (client_write_IV tls) ++ le_bytes 8 t64 ++ replicate 4 0 in
  let tls' := set_seq tls (SWAP_BE64 (u64 (1 + SWAP_BE64 t64))) in
  ct ← ctr_loop size (aes_encrypt tls) nonce 1 buf size;
  authtag ← aesgcm_GHASH (H tls) aad ct size;
  scratch ← aes_encrypt_one_block (aes_encrypt tls) (set_counter nonce 1);
  let authtag := xorbuf_aligned_AES_BLOCK_SIZE authtag scratch in
  let size2 := sz + 8 + 16 in
  Ok ([u8 type; TLS_MAJ; TLS_MIN; u8 (Z.shiftr size2 8); Z.land size2 255] ++
      le_bytes 8 t64 ++ ct ++ authtag, tls').

(** The decryption loop works on the one buffer: bytes read at [o + 8] are
    written at [o]. *)
Fixpoint decrypt_in_place (fuel : nat) (aes : tls_aes) (nonce : bytes) (cnt : Z) (buf : bytes)
    (o remaining : nat) : outcome bytes :=
  if (remaining =? 0)%nat then Ok buf
  else match fuel with
  | O => Undef
  | S f =>
      let cnt := cnt + 1 in
      scratch ← aes_encrypt_one_block aes (set_counter nonce cnt);
      let n := if (16 <? remaining)%nat then 16%nat else remaining in
      d ← xorbuf3 scratch (drop (o + 8) buf) n;
      decrypt_in_place f aes nonce cnt (take o buf ++ d ++ drop (o + n) buf) (o + n) (remaining - n)
  end.

Definition tls_aesgcm_decrypt (tls : tls_state) (buf : bytes) (size : nat) : outcome bytes :=
  let nonce := take 4 (server_write_IV tls) ++ take 8 buf ++ replicate 4 0 in
  decrypt_in_place size (aes_decrypt tls) nonce 1 buf 0 size.

(** ** Blocks as integers *)

Definition block_ok (x : bytes) : Prop := length x = 16%nat /\ bytes_ok x.

Lemma le_val_cons_lxor b v : is_u8 b -> 0 <= v -> b + 256 * v = Z.lxor b (Z.shiftl v 8).
Proof.
  intros Hb Hv. rewrite <- Z.add_nocarry_lxor.
  - rewrite Z.shiftl_mul_pow2 by lia. lia.
  - apply Z.bits_inj'. intros i Hi. rewrite Z.land_spec, Z.bits_0.
    destruct (Z.lt_ge_cases i 8) as [Hlt|Hge].
    + by rewrite (Z.shiftl_spec_low v 8 i Hlt), andb_false_r.
    + by rewrite (bits_above b 8 i).
Qed.

Lemma le_val_zip_xor a b : bytes_ok a -> bytes_ok b -> length a = length b ->
  le_val (zip_with Z.lxor a b) = Z.lxor (le_val a) (le_val b).
Proof.
  intros Ha. revert b. induction Ha as [|x a Hx Ha IH]; intros [|y b] Hb Hl; try done.
  inversion Hb as [|? ? Hy Hb']; subst. cbn [zip_with le_val]. injection Hl as Hl.
  rewrite IH by done. pose proof (le_val_range a Ha) as [Ra _]. pose proof (le_val_range b Hb') as [Rb _].
  rewrite !le_val_cons_lxor by (try done; try (apply lxor_bound; done); apply Z.lxor_nonneg; lia).
  rewrite Z.shiftl_lxor. xor_ring.
Qed.

Lemma zip_with_snoc (l k : bytes) x y : length l = length k ->
  zip_with Z.lxor (l ++ [x]) (k ++ [y]) = zip_with Z.lxor l k ++ [Z.lxor x y].
Proof. intros H. by rewrite zip_with_app. Qed.

Lemma reverse_zip_xor (a b : bytes) : length a = length b ->
  reverse (zip_with Z.lxor a b) = zip_with Z.lxor (reverse a) (reverse b).
Proof.
  revert b. induction a as [|x a IH]; intros [|y b] Hl; try done.
  injection Hl as Hl. cbn [zip_with]. rewrite !reverse_cons, IH, zip_with_snoc; [done| |done].
  by rewrite !length_reverse.
Qed.

Lemma be_val_zip_xor a b : bytes_ok a -> bytes_ok b -> length a = length b ->
  be_val (zip_with Z.lxor a b) = Z.lxor (be_val a) (be_val b).
Proof.
  intros Ha Hb Hl. unfold be_val. rewrite reverse_zip_xor by done.
  apply le_val_zip_xor; [by apply bytes_ok_reverse..|]. by rewrite !length_reverse.
Qed.

Lemma SWAP_BE64_le l : length l = 8%nat -> bytes_ok l -> SWAP_BE64 (le_val l) = be_val l.
Proof. intros H Hb. unfold SWAP_BE64. rewrite <- H at 1. by rewrite le_bytes_le_val. Qed.

Lemma le_bytes_SWAP_BE64 t : is_u64 t -> le_bytes 8 (SWAP_BE64 t) = be_bytes 8 t.
Proof.
  intros Ht. unfold SWAP_BE64, be_val, be_bytes. set (l := reverse (le_bytes 8 t)).
  assert (length l = 8%nat) as Hl by (unfold l; by rewrite length_reverse, length_le_bytes).
  rewrite <- Hl at 1. apply le_bytes_le_val, bytes_ok_reverse, le_bytes_ok.
Qed.

(** A block is its two halves. *)
Lemma block_split x : block_ok x ->
  exists a b, x = a ++ b /\ length a = 8%nat /\ length b = 8%nat /\ bytes_ok a /\ bytes_ok b.
Proof.
  intros [Hl Hb]. exists (take 8 x), (drop 8 x). rewrite take_drop, length_take, length_drop.
  repeat split; [lia|lia|auto with bytes|auto with bytes].
Qed.

Lemma word_halves a b : length a = 8%nat -> length b = 8%nat ->
  word 8 0 (a ++ b) = le_val a /\ word 8 1 (a ++ b) = le_val b.
Proof.
  intros Ha Hb. unfold word. cbn [Nat.mul]. rewrite drop_0, take_app_len by done.
  split; [done|]. by rewrite drop_app_len, take_ge by (done || lia).
Qed.

Lemma set_word_halves a b v : length a = 8%nat -> length b = 8%nat ->
  set_word 8 0 v (a ++ b) = le_bytes 8 v ++ b /\ set_word 8 1 v (a ++ b) = a ++ le_bytes 8 v.
Proof.
  intros Ha Hb. unfold set_word. cbn [Nat.mul Nat.add]. split.
  - by rewrite take_0, drop_app_len by done.
  - rewrite take_app_len by done. rewrite (drop_ge (a ++ b)) by (rewrite length_app; lia).
    by rewrite app_nil_r.
Qed.

Lemma xorbuf_aligned_zip d s : block_ok d -> (16 <= length s)%nat -> bytes_ok s ->
  xorbuf_aligned_AES_BLOCK_SIZE d s = zip_with Z.lxor d (take 16 s).
Proof.
  intros Hd Hs Hb. destruct (block_split d Hd) as (a & b & -> & La & Lb & Ba & Bb).
  destruct (block_split (take 16 s)) as (p & q & E & Lp & Lq & Bp & Bq).
  { split; [rewrite length_take; lia|auto with bytes]. }
  rewrite <- (take_drop 16 s), E, take_app_len, <- app_assoc by (rewrite length_app; lia).
  unfold xorbuf_aligned_AES_BLOCK_SIZE.
  destruct (word_halves a b La Lb) as [-> _].
  assert (word 8 0 (p ++ q ++ drop 16 s) = le_val p) as ->.
  { unfold word. cbn [Nat.mul]. by rewrite drop_0, take_app_len. }
  assert (word 8 1 (p ++ q ++ drop 16 s) = le_val q) as ->.
  { unfold word. cbn [Nat.mul]. by rewrite drop_app_len, take_app_len. }
  destruct (set_word_halves a b (Z.lxor (le_val a) (le_val p)) La Lb) as [-> _].
  destruct (word_halves (le_bytes 8 (Z.lxor (le_val a) (le_val p))) b) as [_ ->];
    [apply length_le_bytes|done|].
  destruct (set_word_halves (le_bytes 8 (Z.lxor (le_val a) (le_val p))) b
              (Z.lxor (le_val b) (le_val q))) as [_ ->]; [apply length_le_bytes|done|].
  rewrite <- !le_val_zip_xor by (done || lia). rewrite zip_with_app by lia. f_equal.
  - rewrite <- (le_bytes_le_val (zip_with Z.lxor a p)) at 2 by by apply zip_xor_bytes.
    by rewrite length_zip_with, La, Lp.
  - rewrite <- (le_bytes_le_val (zip_with Z.lxor b q)) at 2 by by apply zip_xor_bytes.
    by rewrite length_zip_with, Lb, Lq.
Qed.

Lemma xorbuf_aligned_ok d s : block_ok d -> (16 <= length s)%nat -> bytes_ok s ->
  block_ok (xorbuf_aligned_AES_BLOCK_SIZE d s) /\
  be_val (xorbuf_aligned_AES_BLOCK_SIZE d s) = Z.lxor (be_val d) (be_val (take 16 s)).
Proof.
  intros [Hl Hb] Hs Hsb. rewrite xorbuf_aligned_zip by done.
  assert (length (take 16 s) = 16%nat) as Ht by (rewrite length_take; lia). split.
  - split; [rewrite length_zip_with; lia|apply zip_xor_bytes; auto with bytes].
  - apply be_val_zip_xor; [done|auto with bytes|lia].
Qed.

(** ** The multiplication is that of GF(2^128)

    A block is the integer whose most significant bit is the coefficient of
    [x^0]; [mulx] multiplies by [x] modulo [x^128 + x^7 + x^2 + x + 1], and the
    product is the sum of the multiples [x^i * a] over the bits [i] of the
    second factor (NIST SP 800-38D, section 6.3). *)

Definition mulx (v : Z) : Z := Z.lxor (Z.shiftr v 1) (if Z.odd v then Z.shiftl 0xE1 120 else 0).

Definition xor_sum (f : nat -> Z) (n : nat) : Z := fold_left (fun z i => Z.lxor z (f i)) (seq 0 n) 0.

Definition gf_mul (a b : Z) : Z :=
  xor_sum (fun i => if Z.testbit b (127 - Z.of_nat i) then Nat.iter i mulx a else 0) 128.

(** GHASH of a sequence of blocks. *)
Definition ghash (h : Z) (blocks : list Z) : Z :=
  fold_left (fun y x => gf_mul (Z.lxor y x) h) blocks 0.

Lemma shift_halves hi lo c : 0 <= hi < 2 ^ 64 -> 0 <= lo < 2 ^ 64 -> 0 <= c < 2 ^ 64 ->
  Z.lxor (Z.shiftr hi 1) c * 2 ^ 64 + Z.lxor (Z.shiftr lo 1) (u64 (Z.shiftl hi 63)) =
  Z.lxor (Z.shiftr (hi * 2 ^ 64 + lo) 1) (Z.shiftl c 64).
Proof.
  intros Hhi Hlo Hc.
  assert (0 <= Z.shiftr lo 1 < 2 ^ 64) as Hs by (rewrite Z.shiftr_div_pow2 by lia; Z.div_mod_to_equations; lia).
  assert (0 <= u64 (Z.shiftl hi 63) < 2 ^ 64) as Hu by apply u64_range.
  rewrite (add_mul_lxor _ (Z.lxor (Z.shiftr lo 1) _)) by first [lia | by apply lxor_bound].
  rewrite (add_mul_lxor hi lo) by lia.
  rewrite Z.shiftl_lxor, Z.shiftr_lxor, !Z.lxor_assoc. apply Z.bits_inj'. intros i Hi.
  rewrite !Z.lxor_spec. unfold u64. rewrite Z.testbit_mod_pow2 by lia.
  rewrite (Z.shiftr_spec (Z.shiftl hi 64)), (Z.shiftr_spec lo) by lia.
  destruct (Z.lt_ge_cases i 64) as [Hlt|Hge].
  - rewrite !(Z.shiftl_spec_low _ 64 i) by lia.
    destruct (Z.eq_dec i 63) as [->|Hne].
    + rewrite (Z.shiftl_spec hi 64 (63 + 1)), (Z.shiftl_spec hi 63 63) by lia.
      rewrite (bits_above lo 64 (63 + 1)) by lia.
      change (63 + 1 - 64) with 0. change (63 - 63) with 0. change (63 <? 64) with true.
      by destruct (Z.testbit hi 0).
    + rewrite (Z.shiftl_spec_low hi 64 (i + 1)), (Z.shiftl_spec_low hi 63 i) by lia.
      rewrite andb_false_r. by destruct (Z.testbit lo (i + 1)).
  - rewrite !Z.shiftl_spec by lia. rewrite Z.shiftr_spec by lia.
    rewrite (bits_above lo 64 (i + 1)) by lia.
    destruct (Z.ltb_spec i 64); [lia|]. replace (i - 64 + 1) with (i + 1 - 64) by lia. cbn.
    by destruct (Z.testbit hi (i + 1 - 64)), (Z.testbit c (i - 64)).
Qed.

Lemma land_1_odd z : (Z.land z 1 =? 0) = negb (Z.odd z).
Proof.
  change 1 with (Z.ones 1) at 1. rewrite Z.land_ones by lia. rewrite Zodd_mod. change (2 ^ 1) with 2.
  pose proof (Z.mod_pos_bound z 2). destruct (Z.eqb_spec (z mod 2) 0), (Z.eqb_spec (z mod 2) 1); try done; lia.
Qed.

Lemma odd_last a b : length b = 8%nat -> Z.odd (nth 7 b 0) = Z.odd (be_val (a ++ b)).
Proof.
  intros Hb. do 8 (destruct b as [|? b]; [discriminate Hb|]). destruct b; [|discriminate Hb].
  rewrite be_val_app. unfold be_val. cbn.
  match goal with |- Z.odd ?z = Z.odd ?w => replace w with (z + 2 * ((w - z) / 2)) by (Z.div_mod_to_equations; lia) end.
  by rewrite Z.odd_add_mul_2.
Qed.

Lemma RIGHTSHIFTX_mulx x : block_ok x ->
  block_ok (RIGHTSHIFTX x) /\ be_val (RIGHTSHIFTX x) = mulx (be_val x).
Proof.
  intros Hx. destruct (block_split x Hx) as (a & b & -> & La & Lb & Ba & Bb).
  unfold RIGHTSHIFTX. destruct (word_halves a b La Lb) as [-> _].
  rewrite SWAP_BE64_le by done. rewrite land_1_odd.
  rewrite app_nth2 by lia. rewrite La. change (15 - 8)%nat with 7%nat.
  rewrite (odd_last a b) by done.
  set (c := if negb (Z.odd (be_val (a ++ b))) then 0 else Z.shiftl 225 (64 - 8)).
  assert (0 <= c < 2 ^ 64) as Hc by (unfold c; destruct (negb _); vm_compute; split; congruence).
  pose proof (be_val_range a Ba) as Ra. rewrite La in Ra. pose proof (be_val_range b Bb) as Rb. rewrite Lb in Rb.
  change (256 ^ Z.of_nat 8) with (2 ^ 64) in *.
  set (t0 := Z.lxor (Z.shiftr (be_val a) 1) c).
  assert (is_u64 t0) as H0.
  { apply lxor_bound; [|done]. rewrite Z.shiftr_div_pow2 by lia. Z.div_mod_to_equations; lia. }
  destruct (set_word_halves a b (SWAP_BE64 t0) La Lb) as [-> _].
  rewrite le_bytes_SWAP_BE64 by done.
  destruct (word_halves (be_bytes 8 t0) b) as [_ ->]; [apply length_be_bytes|done|].
  rewrite SWAP_BE64_le by done.
  set (t1 := Z.lxor (Z.shiftr (be_val b) 1) (u64 (Z.shiftl (be_val a) (64 - 1)))).
  assert (is_u64 t1) as H1.
  { apply lxor_bound; [|apply u64_range]. rewrite Z.shiftr_div_pow2 by lia. Z.div_mod_to_equations; lia. }
  destruct (set_word_halves (be_bytes 8 t0) b (SWAP_BE64 t1)) as [_ ->]; [apply length_be_bytes|done|].
  rewrite le_bytes_SWAP_BE64 by done. split.
  { split; [by rewrite length_app, !length_be_bytes|]. apply bytes_ok_app. auto with bytes. }
  rewrite be_val_app, length_be_bytes, !be_val_be_bytes by (change (256 ^ Z.of_nat 8) with (2 ^ 64); done).
  change (256 ^ Z.of_nat 8) with (2 ^ 64). unfold t0, t1. rewrite shift_halves by done.
  unfold mulx. rewrite be_val_app, Lb. change (256 ^ Z.of_nat 8) with (2 ^ 64).
  unfold c. rewrite be_val_app, Lb. change (256 ^ Z.of_nat 8) with (2 ^ 64).
  by destruct (Z.odd (be_val a * 2 ^ 64 + be_val b)).
Qed.

(** The tests the inner loop makes, apart from the blocks. *)
Fixpoint loop_bits (fuel : nat) (y : Z) : option (list bool) :=
  match fuel with
  | O => None
  | S f =>
      let b := negb (Z.land y 0x80 =? 0) in
      let y := u32 (Z.shiftl y 1) in
      if i32 y <? 0 then Some [b] else (fun l => b :: l) <$> loop_bits f y
  end.

Definition msb_bits (b : Z) : list bool := Z.testbit b <$> [7; 6; 5; 4; 3; 2; 1; 0].

Definition loop_bits_ok (b : Z) : bool :=
  match loop_bits 32 (Z.lor 0x800000 b) with
  | Some l => bool_decide (l = msb_bits b)
  | None => false
  end.

Lemma loop_bits_all : forallb loop_bits_ok byte_range = true.
Proof. vm_compute. reflexivity. Qed.

Lemma loop_bits_byte b : is_u8 b -> loop_bits 32 (Z.lor 0x800000 b) = Some (msb_bits b).
Proof.
  intros Hb. pose proof (byte_forall loop_bits_ok loop_bits_all b Hb) as E. unfold loop_bits_ok in E.
  destruct (loop_bits 32 (Z.lor 0x800000 b)) as [l|]; [|done]. by apply bool_decide_eq_true in E as ->.
Qed.

(** One step of the multiplication on integers. *)
Definition gf_step (zv : Z * Z) (b : bool) : Z * Z :=
  (if b then Z.lxor zv.1 zv.2 else zv.1, mulx zv.2).

Lemma bit_loop_spec f y l Zb X : loop_bits f y = Some l -> block_ok Zb -> block_ok X ->
  exists Z' X', bit_loop f y Zb X = Ok (Z', X') /\ block_ok Z' /\ block_ok X' /\
    (be_val Z', be_val X') = fold_left gf_step l (be_val Zb, be_val X).
Proof.
  revert y l Zb X. induction f as [|f IH]; intros y l Zb X Hl HZ HX; [done|].
  cbn [loop_bits bit_loop] in *.
  destruct (RIGHTSHIFTX_mulx X HX) as [HX' EX].
  destruct (xorbuf_aligned_ok Zb X HZ) as [HZx EZ]; [destruct HX; lia|by destruct HX|].
  rewrite take_ge in EZ by (destruct HX; lia).
  set (Zb' := if Z.land y 128 =? 0 then Zb else _).
  assert (block_ok Zb') as HZ' by (unfold Zb'; by destruct (_ =? _)).
  assert ((be_val Zb', be_val (RIGHTSHIFTX X)) = gf_step (be_val Zb, be_val X) (negb (Z.land y 128 =? 0))) as E.
  { unfold gf_step, Zb'. cbn [fst snd]. rewrite EX. by destruct (_ =? _); cbn [negb]; rewrite ?EZ. }
  destruct (i32 (u32 (Z.shiftl y 1)) <? 0).
  - injection Hl as <-. exists Zb', (RIGHTSHIFTX X). by cbn [fold_left].
  - destruct (loop_bits f _) as [l'|] eqn:El; [|done]. injection Hl as <-.
    destruct (IH _ l' Zb' (RIGHTSHIFTX X) El HZ' HX') as (Z2 & X2 & E2 & ? & ? & E3).
    exists Z2, X2. cbn [fold_left]. by rewrite <- E.
Qed.

Lemma byte_loop_spec Y Zb X : bytes_ok Y -> block_ok Zb -> block_ok X ->
  exists Z', byte_loop Y Zb X = Ok Z' /\ block_ok Z' /\
    be_val Z' = (fold_left gf_step (mjoin (msb_bits <$> Y)) (be_val Zb, be_val X)).1.
Proof.
  intros HY. revert Zb X. induction HY as [|y Y Hy _ IH]; intros Zb X HZ HX; [by exists Zb|].
  destruct (bit_loop_spec 32 _ _ Zb X (loop_bits_byte y Hy) HZ HX) as (Z1 & X1 & E1 & HZ1 & HX1 & E).
  destruct (IH Z1 X1 HZ1 HX1) as (Z' & E2 & HZ' & E3).
  exists Z'. cbn [byte_loop]. unfold mbind, outcome_bind. rewrite E1. split; [done|]. split; [done|].
  change (mjoin (msb_bits <$> y :: Y)) with (msb_bits y ++ mjoin (msb_bits <$> Y)).
  by rewrite fold_left_app, <- E.
Qed.

(** The bits of a byte string, most significant first. *)
Lemma testbit_add_high a b n i : 0 <= n -> 0 <= b < 2 ^ n -> 0 <= i ->
  Z.testbit (a * 2 ^ n + b) i = if i <? n then Z.testbit b i else Z.testbit a (i - n).
Proof.
  intros Hn Hb Hi. rewrite add_mul_lxor, Z.lxor_spec by done.
  destruct (Z.ltb_spec i n); [by rewrite Z.shiftl_spec_low|].
  rewrite (bits_above b n i), Z.shiftl_spec by lia. apply xorb_false_r.
Qed.

Lemma msb_bits_be Y : bytes_ok Y ->
  mjoin (msb_bits <$> Y) =
  (fun i => Z.testbit (be_val Y) (8 * Z.of_nat (length Y) - 1 - Z.of_nat i)) <$> seq 0 (8 * length Y).
Proof.
  induction 1 as [|y Y Hy HY IH]; [done|].
  change (mjoin (msb_bits <$> y :: Y)) with (msb_bits y ++ mjoin (msb_bits <$> Y)). cbn [length].
  replace (8 * S (length Y))%nat with (8 + 8 * length Y)%nat by lia.
  rewrite seq_app, fmap_app. change (y :: Y) with ([y] ++ Y).
  pose proof (be_val_range Y HY) as R. replace (256 ^ Z.of_nat (length Y)) with (2 ^ (8 * Z.of_nat (length Y))) in R
    by (rewrite Z.pow_mul_r by lia; done).
  assert (be_val ([y] ++ Y) = y * 2 ^ (8 * Z.of_nat (length Y)) + be_val Y) as E.
  { rewrite be_val_app. replace (be_val [y]) with y by (unfold be_val; cbn; lia).
    by rewrite (Z.pow_mul_r 2 8) by lia. }
  rewrite E. f_equal.
  - change (msb_bits y) with ((fun i => Z.testbit y (7 - Z.of_nat i)) <$> seq 0 8).
    apply list_fmap_ext. intros k i Hi. apply lookup_seq in Hi as [-> Hk].
    rewrite testbit_add_high by lia.
    destruct (Z.ltb_spec (8 * Z.of_nat (S (length Y)) - 1 - Z.of_nat (0 + k)) (8 * Z.of_nat (length Y))); [lia|].
    f_equal. lia.
  - rewrite IH. rewrite Nat.add_0_l, <- (fmap_add_seq 8 0), <- list_fmap_compose.
    apply list_fmap_ext. intros k i Hi. apply lookup_seq in Hi as [-> Hk]. cbn [compose].
    rewrite testbit_add_high by lia.
    destruct (Z.ltb_spec (8 * Z.of_nat (S (length Y)) - 1 - Z.of_nat (8 + (0 + k))) (8 * Z.of_nat (length Y))); [|lia].
    f_equal. lia.
Qed.

Lemma gf_fold (f : nat -> bool) n x :
  fold_left gf_step (f <$> seq 0 n) (0, x) =
  (xor_sum (fun i => if f i then Nat.iter i mulx x else 0) n, Nat.iter n mulx x).
Proof.
  induction n as [|n IH]; [done|].
  rewrite seq_S, fmap_app, fold_left_app, IH. cbn [fmap list_fmap fold_left Nat.add].
  unfold gf_step at 1. cbn [fst snd]. unfold xor_sum. rewrite seq_S, fold_left_app. cbn [fold_left Nat.add Nat.iter nat_rect].
  destruct (f n); [done|]. by rewrite Z.lxor_0_r.
Qed.

Lemma be_val_zeros n : be_val (replicate n 0) = 0.
Proof.
  unfold be_val. rewrite reverse_replicate. induction n as [|n IH]; [done|]. cbn. by rewrite IH.
Qed.

Lemma zero_bytes_ok n : bytes_ok (replicate n 0).
Proof. apply Forall_replicate. by vm_compute. Qed.

(** [GMULT] is the field product. *)
Lemma GMULT_gf_mul X Y : block_ok X -> block_ok Y ->
  exists Z', GMULT X Y = Ok Z' /\ block_ok Z' /\ be_val Z' = gf_mul (be_val X) (be_val Y).
Proof.
  intros HX [Ly By]. unfold GMULT. rewrite take_ge by lia.
  destruct (byte_loop_spec Y (replicate 16 0) X By) as (Z' & E & HZ & EZ);
    [by split; [|apply zero_bytes_ok]|done|].
  exists Z'. split; [done|]. split; [done|].
  rewrite EZ, be_val_zeros, msb_bits_be, gf_fold, Ly by done. cbn [fst].
  unfold gf_mul. change (8 * Z.of_nat 16 - 1) with 127. change (8 * 16)%nat with 128%nat. reflexivity.
Qed.

#[local] Opaque gf_mul GMULT.

(** ** GHASH of the padded data and the lengths *)

(** The first [n] blocks of a byte string. *)
Fixpoint chunks (n : nat) (l : bytes) : list Z :=
  match n with
  | O => []
  | S n' => be_val (take 16 l) :: chunks n' (drop 16 l)
  end.

Definition pad16 (l : bytes) : bytes := l ++ replicate ((16 - length l mod 16) mod 16) 0.
Definition blocks_of (l : bytes) : list Z := chunks (length (pad16 l) / 16) (pad16 l).

(** [A] and [C] padded with zeros and the block of the two bit lengths. *)
Definition gcm_blocks (a c : bytes) : list Z :=
  blocks_of a ++ blocks_of c ++ [8 * Z.of_nat (length a) * 2 ^ 64 + 8 * Z.of_nat (length c)].

#[local] Abbreviation absorb h := (fun y x => gf_mul (Z.lxor y x) h).

Lemma fold_left_cons {A B} (f : A -> B -> A) x l a : fold_left f (x :: l) a = fold_left f l (f a x).
Proof. done. Qed.

Lemma chunks_S n l : chunks (S n) l = chunks n l ++ [be_val (take 16 (drop (16 * n) l))].
Proof.
  revert l. induction n as [|n IH]; intros l; [by cbn|].
  change (chunks (S (S n)) l) with (be_val (take 16 l) :: chunks (S n) (drop 16 l)).
  rewrite IH, drop_drop. change (chunks (S n) l) with (be_val (take 16 l) :: chunks n (drop 16 l)).
  cbn [app]. by replace (16 + 16 * n)%nat with (16 * S n)%nat by lia.
Qed.

Lemma chunks_app n l k : (16 * n <= length l)%nat -> chunks n (l ++ k) = chunks n l.
Proof.
  revert l. induction n as [|n IH]; intros l Hl; [done|]. cbn [chunks].
  rewrite take_app_le, drop_app_le by lia. rewrite IH; [done|]. rewrite length_drop. lia.
Qed.

Lemma blocks_of_split c :
  blocks_of c = chunks (length c / 16) c ++
    if (length c mod 16 =? 0)%nat then []
    else [be_val (drop (16 * (length c / 16)) c ++ replicate (16 - length c mod 16) 0)].
Proof.
  pose proof (Nat.div_mod_eq (length c) 16) as Hd. pose proof (Nat.mod_upper_bound (length c) 16) as Hm.
  unfold blocks_of, pad16. set (q := (length c / 16)%nat) in *. set (r := (length c mod 16)%nat) in *.
  destruct (Nat.eqb_spec r 0) as [E|E].
  - rewrite E. cbn [Nat.sub]. rewrite Nat.mod_same by lia. cbn [replicate]. rewrite !app_nil_r. done.
  - rewrite Nat.mod_small by lia. rewrite length_app, length_replicate.
    replace (length c + (16 - r))%nat with ((S q) * 16)%nat by lia. rewrite Nat.div_mul by lia.
    rewrite chunks_S, chunks_app by lia. do 2 f_equal. rewrite drop_app_le by lia.
    rewrite take_ge; [done|]. rewrite length_app, length_drop, length_replicate. lia.
Qed.

Section ghash.
Context (h : bytes) (Hh : block_ok h).

Lemma ghash_blocks_spec n x c : block_ok x -> bytes_ok c -> (16 * n <= length c)%nat ->
  exists x', ghash_blocks n h x c = Ok (x', drop (16 * n) c) /\ block_ok x' /\
    be_val x' = fold_left (absorb (be_val h)) (chunks n c) (be_val x).
Proof.
  revert x c. induction n as [|n IH]; intros x c Hx Hc Hl; [by exists x|].
  cbn [ghash_blocks chunks]. rewrite fold_left_cons.
  destruct (Nat.ltb_spec (length c) 16); [lia|].
  destruct (xorbuf_aligned_ok x c Hx) as [Hd Ed]; [lia|done|].
  destruct (GMULT_gf_mul _ h Hd Hh) as (x1 & E1 & Hx1 & V1).
  unfold mbind, outcome_bind. rewrite E1.
  destruct (IH x1 (drop 16 c)) as (x' & E2 & Hx' & V2);
    [done|auto with bytes|rewrite length_drop; lia|].
  exists x'. rewrite E2, drop_drop. replace (16 + 16 * n)%nat with (16 * S n)%nat by lia. split; [done|]. split; [done|].
  by rewrite V2, V1, Ed.
Qed.

Lemma zip_xor_zeros (l : bytes) n : length l = n -> zip_with Z.lxor l (replicate n 0) = l.
Proof.
  intros <-. induction l as [|x l IH]; [done|]. cbn. by rewrite IH, Z.lxor_0_r.
Qed.

Lemma xorbuf_partial x c r : block_ok x -> bytes_ok c -> length c = r -> (r < 16)%nat ->
  exists x', xorbuf x c r = Ok x' /\ block_ok x' /\
    be_val x' = Z.lxor (be_val x) (be_val (c ++ replicate (16 - r) 0)).
Proof.
  intros [Lx Bx] Hc Hl Hr. unfold xorbuf, xorbuf3.
  destruct (Nat.ltb_spec (length x) r); [lia|]. destruct (Nat.ltb_spec (length c) r); [lia|].
  cbn [orb mbind outcome_bind]. rewrite (take_ge c) by lia.
  assert (zip_with Z.lxor (take r x) c ++ drop r x = zip_with Z.lxor x (c ++ replicate (16 - r) 0)) as E.
  { rewrite <- (take_drop r x) at 3. rewrite zip_with_app by (rewrite length_take; lia).
    by rewrite (zip_xor_zeros (drop r x)) by (rewrite length_drop; lia). }
  assert (bytes_ok (c ++ replicate (16 - r) 0)) as Hp by (apply bytes_ok_app; split; [done|apply zero_bytes_ok]).
  assert (length (c ++ replicate (16 - r) 0) = 16%nat) as Lp by (rewrite length_app, length_replicate; lia).
  eexists. split; [by rewrite E|]. split.
  - split; [rewrite length_zip_with; lia|by apply zip_xor_bytes].
  - apply be_val_zip_xor; [done..|lia].
Qed.

(** Xoring a length into a 32-bit word of the block. *)
Lemma set_word_swap x i v : block_ok x -> is_u32 v -> (i < 4)%nat ->
  let x' := set_word 4 i (Z.lxor (word 4 i x) (SWAP_BE32 v)) x in
  block_ok x' /\ be_val x' = Z.lxor (be_val x) (v * 2 ^ (96 - 32 * Z.of_nat i)).
Proof.
  intros [Lx Bx] Hv Hi x'.
  set (m := take 4 (drop (4 * i) x)). set (k := replicate (4 * i) 0 ++ be_bytes 4 v ++ replicate (12 - 4 * i) 0).
  assert (length m = 4%nat) as Lm by (unfold m; rewrite length_take, length_drop; lia).
  assert (bytes_ok m) as Bm by (unfold m; auto with bytes).
  assert (x = take (4 * i) x ++ m ++ drop (4 * i + 4) x) as Ex.
  { unfold m. rewrite <- drop_drop, take_drop, take_drop. done. }
  assert (x' = zip_with Z.lxor x k) as ->.
  { unfold x', set_word, word. fold m. change (SWAP_BE32 v) with (le_val (be_bytes 4 v)).
    rewrite <- le_val_zip_xor by (auto with bytes; rewrite length_be_bytes; lia).
    rewrite Ex at 3. unfold k. rewrite !zip_with_app
      by (rewrite ?length_take, ?length_replicate, ?length_be_bytes; lia).
    rewrite !zip_xor_zeros by (rewrite ?length_take, ?length_drop; lia). do 2 f_equal.
    rewrite <- (le_bytes_le_val (zip_with Z.lxor m (be_bytes 4 v))) at 2 by (apply zip_xor_bytes; auto with bytes).
    by rewrite length_zip_with, length_be_bytes, Lm. }
  assert (length k = 16%nat) as Lk by (unfold k; rewrite !length_app, !length_replicate, length_be_bytes; lia).
  assert (bytes_ok k) as Bk.
  { unfold k. apply bytes_ok_app. split; [apply zero_bytes_ok|]. apply bytes_ok_app. split; [auto with bytes|apply zero_bytes_ok]. }
  split; [split; [rewrite length_zip_with; lia|by apply zip_xor_bytes]|].
  rewrite be_val_zip_xor by (done || lia). f_equal. unfold k.
  rewrite !be_val_app, !be_val_zeros, be_val_be_bytes by (change (256 ^ Z.of_nat 4) with (2 ^ 32); done).
  rewrite length_replicate, Z.mul_0_l, Z.add_0_l, Z.add_0_r. f_equal.
  change 256 with (2 ^ 8). rewrite <- Z.pow_mul_r by lia. f_equal. lia.
Qed.

Lemma lengths_xor c y : 8 * Z.of_nat c < 2 ^ 32 ->
  Z.lxor (Z.lxor y (104 * 2 ^ (96 - 32 * Z.of_nat 1))) (8 * Z.of_nat c * 2 ^ (96 - 32 * Z.of_nat 3)) =
  Z.lxor y (104 * 2 ^ 64 + 8 * Z.of_nat c).
Proof.
  intros Hc. change (96 - 32 * Z.of_nat 1) with 64. change (2 ^ (96 - 32 * Z.of_nat 3)) with 1.
  rewrite Z.mul_1_r, Z.lxor_assoc. f_equal. rewrite (add_mul_lxor 104) by lia.
  by rewrite Z.shiftl_mul_pow2.
Qed.

Lemma ghash_cipher_spec x c : block_ok x -> bytes_ok c ->
  exists x', ghash_cipher h x c (length c) = Ok x' /\ block_ok x' /\
    be_val x' = fold_left (absorb (be_val h)) (blocks_of c) (be_val x).
Proof.
  intros Hx0 Bc. unfold ghash_cipher.
  rewrite blocks_of_split. destruct (Nat.eqb_spec (length c) 0) as [El|El].
  { rewrite El. exists x. by cbn. }
  pose proof (Nat.div_mod_eq (length c) 16) as Hd. pose proof (Nat.mod_upper_bound (length c) 16) as Hm.
  destruct (ghash_blocks_spec (length c / 16) x c) as (x1 & E & Hx & V); [done|done|lia|].
  unfold mbind, outcome_bind. rewrite E, fold_left_app, <- V.
  destruct (Nat.eqb_spec (length c mod 16) 0) as [Er|Er]; [by exists x1|].
  destruct (xorbuf_partial x1 (drop (16 * (length c / 16)) c) (length c mod 16)) as (x2 & E2 & Hx2 & V2);
    [done|auto with bytes|rewrite length_drop; lia|lia|].
  rewrite E2. destruct (GMULT_gf_mul x2 h Hx2 Hh) as (x3 & E3 & Hx3 & V3).
  exists x3. split; [done|]. split; [done|]. rewrite fold_left_cons, V3, V2. reflexivity.
Qed.

(** [aesgcm_GHASH] on the padded additional data is GHASH of the message. *)
Lemma aesgcm_GHASH_spec a c : length a = 13%nat -> bytes_ok a -> bytes_ok c ->
  8 * Z.of_nat (length c) < 2 ^ 32 ->
  exists s, aesgcm_GHASH h (a ++ [0; 0; 0]) c (length c) = Ok s /\ block_ok s /\
    be_val s = ghash (be_val h) (gcm_blocks a c).
Proof.
  intros La Ba Bc Hc. unfold aesgcm_GHASH.
  assert (block_ok (take 16 (a ++ [0; 0; 0]))) as H0.
  { rewrite take_ge by (rewrite length_app; cbn; lia). split; [rewrite length_app; cbn; lia|].
    apply bytes_ok_app. split; [done|]. apply (zero_bytes_ok 3). }
  destruct (GMULT_gf_mul _ h H0 Hh) as (x0 & E0 & Hx0 & V0).
  rewrite E0. cbn [mbind outcome_bind].
  destruct (ghash_cipher_spec x0 c Hx0 Bc) as (x1 & E1 & Hx1 & V1).
  rewrite E1. cbn [mbind outcome_bind].
  rewrite (u32_id (Z.of_nat aSz * 8)), (u32_id (Z.of_nat (length c) * 8)) by (unfold is_u32, aSz; lia).
  destruct (set_word_swap x1 1 (Z.of_nat aSz * 8) Hx1) as [Hx2 V2]; [done|lia|].
  set (x2 := set_word 4 1 _ x1) in *.
  destruct (set_word_swap x2 3 (Z.of_nat (length c) * 8) Hx2) as [Hx3 V3]; [unfold is_u32; lia|lia|].
  destruct (GMULT_gf_mul _ h Hx3 Hh) as (s & Es & Hs & Vs).
  exists s. split; [done|]. split; [done|].
  rewrite Vs, V3, V2, V1, V0. unfold ghash, gcm_blocks.
  rewrite !fold_left_app, fold_left_cons, La. cbn [fold_left].
  change (Z.of_nat aSz * 8) with 104. rewrite (Z.mul_comm (Z.of_nat (length c))), lengths_xor by done.
  change (8 * Z.of_nat 13) with 104. do 3 f_equal.
  rewrite blocks_of_split, La. change (13 / 16)%nat with 0%nat. change (13 mod 16)%nat with 13%nat.
  cbn [chunks app Nat.mul Nat.eqb Nat.sub]. rewrite fold_left_cons. cbn [fold_left]. rewrite drop_0, Z.lxor_0_l.
  rewrite take_ge by (rewrite length_app; cbn; lia). reflexivity.
Qed.
End ghash.

(** Claim C21. For every hash key, thirteen bytes of additional data and
    ciphertext (of less than 2^29 bytes), [aesgcm_GHASH] returns the sixteen
    bytes of GHASH, over GF(2^128), of the two zero-padded strings and their
    lengths. *)
Theorem aesgcm_GHASH_correct h a c : block_ok h -> length a = 13%nat -> bytes_ok a -> bytes_ok c ->
  8 * Z.of_nat (length c) < 2 ^ 32 ->
  aesgcm_GHASH h (a ++ [0; 0; 0]) c (length c) = Ok (be_bytes 16 (ghash (be_val h) (gcm_blocks a c))).
Proof.
  intros Hh La Ba Bc Hc. destruct (aesgcm_GHASH_spec h Hh a c La Ba Bc Hc) as (s & E & [Ls Bs] & V).
  rewrite E, <- V, <- Ls. by rewrite be_bytes_be_val.
Qed.

Definition sample_key : bytes := [0x66; 0xe9; 0x4b; 0xd4; 0xef; 0x8a; 0x2c; 0x3b; 0x88; 0x4c; 0xfa; 0x59; 0xca; 0x34; 0x2b; 0x2e].

Lemma aesgcm_GHASH_correct_witness :
  aesgcm_GHASH sample_key (replicate 13 7 ++ [0; 0; 0]) (replicate 20 5) 20 =
  Ok (be_bytes 16 (ghash (be_val sample_key) (gcm_blocks (replicate 13 7) (replicate 20 5)))).
Proof.
  apply (aesgcm_GHASH_correct sample_key (replicate 13 7) (replicate 20 5)).
  - split; [reflexivity|]. by repeat constructor.
  - reflexivity.
  - by repeat constructor.
  - by repeat constructor.
  - reflexivity.
Defined.

(** ** Records *)

Lemma encrypt_block_ok aes d : aes_ok aes -> length d = 16%nat -> bytes_ok d ->
  exists s, aes_encrypt_one_block aes d = Ok s /\ block_ok s.
Proof.
  intros Ha Ld Bd. unfold aes_encrypt_one_block. destruct (Nat.ltb_spec (length d) 16); [lia|].
  rewrite take_ge by lia. destruct (decrypt_encrypt aes d Ha) as (c & E & [Lc Bc] & _); [done|].
  rewrite E. cbn [mbind outcome_bind]. exists c. by rewrite map_u8_bytes.
Qed.

Lemma set_counter_ok nonce cnt : (12 <= length nonce)%nat -> bytes_ok nonce ->
  length (set_counter nonce cnt) = 16%nat /\ bytes_ok (set_counter nonce cnt).
Proof.
  intros Hl Hb. unfold set_counter. rewrite length_app, length_take, length_be_bytes. split; [lia|].
  apply bytes_ok_app. auto with bytes.
Qed.

Lemma xor_xor_block (a s : bytes) n : length a = n -> (n <= length s)%nat ->
  zip_with Z.lxor (take n s) (zip_with Z.lxor a (take n s)) = a.
Proof.
  intros Ha Hs. assert (length (take n s) = length a) as Hl by (rewrite length_take; lia).
  revert Hl. generalize (take n s). clear. intros s. revert s.
  induction a as [|x a IH]; intros [|y s] Hl; try done. cbn. injection Hl as Hl.
  rewrite IH by done. f_equal. rewrite (Z.lxor_comm x), <- Z.lxor_assoc, Z.lxor_nilpotent. apply Z.lxor_0_l.
Qed.

(** Both loops use the same key stream, and the in-place decryption never
    overwrites a byte it still has to read. *)
Lemma ctr_loop_roundtrip f aes nonce cnt pt :
  aes_ok aes -> (12 <= length nonce)%nat -> bytes_ok nonce -> bytes_ok pt -> (length pt <= f)%nat ->
  exists ct, ctr_loop f aes nonce cnt pt (length pt) = Ok ct /\ length ct = length pt /\ bytes_ok ct /\
    forall pre gap tail, length gap = 8%nat ->
      exists rest, decrypt_in_place f aes nonce cnt (pre ++ gap ++ ct ++ tail) (length pre) (length pt)
                   = Ok (pre ++ pt ++ rest).
Proof.
  intros Ha Hn Hnb. revert cnt pt. induction f as [|f IH]; intros cnt pt Hp Hf.
  { destruct pt; [|cbn in Hf; lia]. exists []. repeat split; [constructor|]. intros. by eexists. }
  cbn [ctr_loop decrypt_in_place]. destruct (Nat.eqb_spec (length pt) 0) as [E0|E0].
  { apply nil_length_inv in E0 as ->. exists []. repeat split; [constructor|]. intros. by eexists. }
  destruct (set_counter_ok nonce (cnt + 1) Hn Hnb) as [Lc Bc].
  destruct (encrypt_block_ok aes _ Ha Lc Bc) as (s & Es & Ls & Bs). rewrite Es. cbn [mbind outcome_bind].
  set (n := if (16 <? length pt)%nat then 16%nat else length pt).
  assert (1 <= n <= 16 /\ n <= length pt)%nat as Hnn by (unfold n; destruct (Nat.ltb_spec 16 (length pt)); lia).
  destruct (IH (cnt + 1) (drop n pt)) as (ct & E & L & B & D); [auto with bytes|rewrite length_drop; lia|].
  rewrite length_drop in E, L, D. unfold xorbuf3 at 1.
  destruct (Nat.ltb_spec (length pt) n); [lia|]. destruct (Nat.ltb_spec (length s) n); [lia|].
  cbn [orb mbind outcome_bind]. rewrite E. cbn [mbind outcome_bind].
  set (d := zip_with Z.lxor (take n pt) (take n s)).
  assert (length d = n) as Ld by (unfold d; rewrite length_zip_with, !length_take; lia).
  exists (d ++ ct). split; [done|]. split; [rewrite length_app; lia|]. split.
  { apply bytes_ok_app. split; [|done]. apply zip_xor_bytes; auto with bytes. }
  intros pre gap tail Hg. unfold xorbuf3.
  assert (drop (length pre + 8) (pre ++ gap ++ (d ++ ct) ++ tail) = d ++ ct ++ tail) as ->.
  { rewrite app_assoc, drop_app_len by (rewrite length_app; lia). by rewrite <- app_assoc. }
  destruct (Nat.ltb_spec (length s) n); [lia|].
  destruct (Nat.ltb_spec (length (d ++ ct ++ tail)) n) as [Hx|_]; [rewrite length_app in Hx; lia|].
  cbn [orb mbind outcome_bind].
  rewrite (take_app_len d), take_app_length by done.
  unfold d at 1. rewrite (xor_xor_block (take n pt) s n) by (rewrite ?length_take; lia).
  assert (drop (length pre + n) (pre ++ gap ++ (d ++ ct) ++ tail) = drop n (gap ++ d) ++ ct ++ tail) as ->.
  { rewrite <- drop_drop, drop_app_length, <- app_assoc, app_assoc.
    by rewrite drop_app_le by (rewrite length_app; lia). }
  destruct (D (pre ++ take n pt) (drop n (gap ++ d)) tail) as (rest & Er);
    [rewrite length_drop, length_app; lia|].
  rewrite length_app, length_take, Nat.min_l, <- app_assoc in Er by lia.
  exists rest. rewrite Er. by rewrite <- app_assoc, (app_assoc (take n pt)), take_drop.
Qed.

(** Byte [i] is masked with byte [i mod 16] of the encrypted counter block. *)
Definition masked (aes : tls_aes) (nonce : bytes) (cnt : Z) (pt ct : bytes) (i : nat) : Prop :=
  exists ks, aes_encrypt_one_block aes (take 12 nonce ++ be_bytes 4 (u32 (cnt + 1 + Z.of_nat (i / 16)))) = Ok ks /\
    nth i ct 0 = Z.lxor (nth i pt 0) (nth (i mod 16) ks 0).

Lemma nth_zip_xor (a b : bytes) i : (i < length a)%nat -> (i < length b)%nat ->
  nth i (zip_with Z.lxor a b) 0 = Z.lxor (nth i a 0) (nth i b 0).
Proof.
  revert a b. induction i as [|i IH]; intros [|x a] [|y b] Ha Hb; cbn in *; try lia. apply IH; lia.
Qed.

Lemma nth_take_lt (l : bytes) n i : (i < n)%nat -> nth i (take n l) 0 = nth i l 0.
Proof. revert n i. induction l as [|x l IH]; intros [|n] [|i] H; cbn; try done; try lia. apply IH. lia. Qed.

Lemma nth_drop_add (l : bytes) n i : nth i (drop n l) 0 = nth (n + i) l 0.
Proof. revert n. induction l as [|x l IH]; intros [|n]; cbn; try done. by destruct i. Qed.

Lemma ctr_loop_stream f aes nonce cnt pt ct :
  ctr_loop f aes nonce cnt pt (length pt) = Ok ct -> forall i, (i < length pt)%nat -> masked aes nonce cnt pt ct i.
Proof.
  revert cnt pt ct. induction f as [|f IH]; intros cnt pt ct E i Hi; cbn [ctr_loop] in E;
    (destruct (Nat.eqb_spec (length pt) 0) as [?|_]; [lia|]); [done|].
  destruct (aes_encrypt_one_block aes (set_counter nonce (cnt + 1))) as [s| |] eqn:Es; [|done..].
  cbn [mbind outcome_bind] in E. set (n := if (16 <? length pt)%nat then 16%nat else length pt) in *.
  assert (n <= length pt /\ n <= 16 /\ (n < length pt -> n = 16))%nat as Hn
    by (unfold n; destruct (Nat.ltb_spec 16 (length pt)); lia).
  unfold xorbuf3 in E. destruct (Nat.ltb_spec (length pt) n); [lia|].
  destruct (Nat.ltb_spec (length s) n) as [?|Hs]; [done|]. cbn [orb mbind outcome_bind] in E.
  destruct (ctr_loop f _ _ _ _ _) as [rest| |] eqn:Er; [|done..]. injection E as <-.
  assert (length (zip_with Z.lxor (take n pt) (take n s)) = n) as Lz by (rewrite length_zip_with, !length_take; lia).
  destruct (Nat.lt_ge_cases i n) as [Hlt|Hge].
  - exists s. rewrite Nat.div_small, Nat.mod_small by lia.
    split; [by replace (cnt + 1 + Z.of_nat 0) with (cnt + 1) by lia|].
    rewrite app_nth1 by lia. rewrite nth_zip_xor by (rewrite length_take; lia).
    by rewrite !nth_take_lt by lia.
  - rewrite <- length_drop in Er. specialize (IH _ _ _ Er (i - n)%nat ltac:(rewrite length_drop; lia)).
    destruct IH as (ks & E & V). replace n with 16%nat in * by lia.
    replace i with (1 * 16 + (i - 16))%nat by lia. exists ks.
    rewrite Nat.div_add_l, (Nat.add_comm (1 * 16)), Nat.Div0.mod_add by lia. split.
    + rewrite <- E. do 4 f_equal. lia.
    + rewrite app_nth2 by lia. rewrite Lz, nth_drop_add in *.
      replace (i - 16 + 1 * 16 - 16)%nat with (i - 16)%nat by lia. rewrite V.
      by replace (16 + (i - 16))%nat with (i - 16 + 1 * 16)%nat by lia.
Qed.

Lemma next_seq s : is_u64 s ->
  be_val (le_bytes 8 (SWAP_BE64 (u64 (1 + SWAP_BE64 s)))) = (be_val (le_bytes 8 s) + 1) mod 2 ^ 64.
Proof.
  intros Hs. rewrite le_bytes_SWAP_BE64 by apply u64_range.
  rewrite be_val_be_bytes by apply u64_range. unfold u64, SWAP_BE64. f_equal. lia.
Qed.

Lemma be_bytes_2 n : 0 <= n < 2 ^ 16 -> be_bytes 2 n = [u8 (Z.shiftr n 8); Z.land n 255].
Proof.
  intros Hn. unfold be_bytes, u8. cbn [le_bytes reverse rev_append]. unfold reverse. cbn [rev_append].
  rewrite Z.shiftr_div_pow2 by lia. change 255 with (Z.ones 8). rewrite Z.land_ones by lia. done.
Qed.

(** The additional data as the code lays it out, with three zero bytes behind. *)
Lemma aad_layout type m : let n := Z.of_nat m in n < 2 ^ 16 ->
  ([type; 3; 3] ++ be_bytes 2 n) ++ [0; 0; 0] =
  [type; TLS_MAJ; TLS_MIN; u8 (Z.shiftr n 8)] ++ le_bytes 4 (Z.land n 255).
Proof.
  intros n Hn. rewrite be_bytes_2 by lia. cbn [app]. do 4 f_equal.
  assert (0 <= Z.land n 255 < 256) as R.
  { change 255 with (Z.ones 8). rewrite Z.land_ones by lia. apply Z.mod_pos_bound. lia. }
  cbn [le_bytes]. rewrite Z.mod_small, Z.div_small by lia. done.
Qed.

(** The tag: GHASH masked with the encryption of counter block one. *)
Definition gcm_tag (h : bytes) (aad ct y0 : bytes) : bytes :=
  be_bytes 16 (Z.lxor (ghash (be_val h) (gcm_blocks aad ct)) (be_val y0)).

(** The decryption changes the bytes it produces and no other. *)
Lemma decrypt_in_place_frame f aes nonce cnt buf o n buf' : (o + n + 8 <= length buf)%nat ->
  decrypt_in_place f aes nonce cnt buf o n = Ok buf' ->
  length buf' = length buf /\ drop (o + n) buf' = drop (o + n) buf.
Proof.
  revert cnt buf o n. induction f as [|f IH]; intros cnt buf o n Hl E; cbn [decrypt_in_place] in E;
    (destruct (Nat.eqb_spec n 0) as [?|Hn]; [by injection E as <-|]); [done|].
  destruct (aes_encrypt_one_block _ _) as [s| |]; [|done..]. cbn [mbind outcome_bind] in E.
  set (k := if (16 <? n)%nat then 16%nat else n) in *.
  assert (k <= n)%nat as Hk by (unfold k; destruct (Nat.ltb_spec 16 n); lia).
  unfold xorbuf3 in E. destruct (Nat.ltb_spec (length s) k) as [?|Hs]; [done|]. rewrite length_drop in E.
  destruct (Nat.ltb_spec (length buf - (o + 8)) k); [lia|]. cbn [orb mbind outcome_bind] in E.
  set (d := zip_with Z.lxor (take k s) (take k (drop (o + 8) buf))) in E.
  assert (length d = k) as Ld by (unfold d; rewrite length_zip_with, !length_take, length_drop; lia).
  assert (length (take o buf ++ d ++ drop (o + k) buf) = length buf) as Lb by (rewrite !length_app, length_take, length_drop; lia).
  apply IH in E as [E1 E2]; [|lia]. split; [lia|]. replace (o + k + (n - k))%nat with (o + n)%nat in E2 by lia.
  rewrite E2, app_assoc, drop_app_ge, drop_drop by (rewrite length_app, length_take; lia). f_equal. rewrite length_app, length_take. lia.
Qed.

(** So what follows the record in the buffer stays. *)
Lemma decrypt_tail f aes nonce cnt pt a more rest : length a = (length pt + 24)%nat ->
  decrypt_in_place f aes nonce cnt (a ++ more) 0 (length pt) = Ok (pt ++ rest) -> exists junk, rest = junk ++ more /\ length junk = 24%nat.
Proof.
  intros La E. apply decrypt_in_place_frame in E as [_ E]; [|rewrite length_app; lia]. cbn [Nat.add] in E.
  rewrite drop_app_length, drop_app_le in E by lia. exists (drop (length pt) a). split; [done|]. rewrite length_drop. lia.
Qed.

(** For every key, hash key, salt, sequence number and record of at most 2^14
    bytes, [xwrite_encrypted_aesgcm] writes the header with the record's length,
    the sequence number as explicit nonce, the plaintext masked with the AES
    counter stream from counter two, and the GCM tag over header and ciphertext;
    the sequence number advances by one; and a peer with the same key and salt
    gets the plaintext back from [tls_aesgcm_decrypt], in place. *)
Lemma gcm_record_spec tls pt type :
  aes_ok (aes_encrypt tls) -> block_ok (H tls) ->
  (4 <= length (client_write_IV tls))%nat -> bytes_ok (client_write_IV tls) ->
  is_u64 (write_seq64_be tls) -> is_u8 type -> bytes_ok pt -> (length pt <= 2 ^ 14)%nat ->
  let seq := le_bytes 8 (write_seq64_be tls) in
  let nonce := take 4 (client_write_IV tls) ++ seq in
  let hdr (n : nat) := [type; 3; 3] ++ be_bytes 2 (Z.of_nat n) in
  exists ct y0, length ct = length pt /\
    aes_encrypt_one_block (aes_encrypt tls) (nonce ++ [0; 0; 0; 1]) = Ok y0 /\
    let tag := gcm_tag (H tls) (seq ++ hdr (length pt)) ct y0 in
    xwrite_encrypted_aesgcm tls pt (length pt) type =
      Ok (hdr (length pt + 24)%nat ++ seq ++ ct ++ tag, set_seq tls (SWAP_BE64 (u64 (1 + SWAP_BE64 (write_seq64_be tls))))) /\
    (forall i, (i < length pt)%nat -> masked (aes_encrypt tls) nonce 1 pt ct i) /\
    forall peer more, aes_decrypt peer = aes_encrypt tls -> server_write_IV peer = client_write_IV tls ->
      exists junk, tls_aesgcm_decrypt peer (seq ++ ct ++ tag ++ more) (length pt) = Ok (pt ++ junk ++ more) /\ length junk = 24%nat.
Proof.
  intros Ha Hh Liv Biv Hseq Ht Hp Hl seq nonce hdr.
  change (2 ^ 14)%nat with (Z.to_nat (2 ^ 14)) in Hl.
  set (nonce16 := nonce ++ replicate 4 0).
  assert (length nonce = 12%nat) as Ln by (unfold nonce, seq; rewrite length_app, length_take, length_le_bytes; lia).
  assert (bytes_ok nonce) as Bn by (unfold nonce, seq; apply bytes_ok_app; auto with bytes).
  assert (12 <= length nonce16)%nat as Ln16 by (unfold nonce16; rewrite length_app; lia).
  assert (bytes_ok nonce16) as Bn16 by (apply bytes_ok_app; split; [done|apply zero_bytes_ok]).
  assert (take 12 nonce16 = nonce) as Etk by (unfold nonce16; by apply take_app_len).
  destruct (ctr_loop_roundtrip (length pt) (aes_encrypt tls) nonce16 1 pt Ha Ln16 Bn16 Hp) as (ct & Ec & Lc & Bc & D); [lia|].
  destruct (set_counter_ok nonce16 1 Ln16 Bn16) as [L1 B1].
  destruct (encrypt_block_ok _ _ Ha L1 B1) as (y0 & Ey & Ly & By).
  assert (set_counter nonce16 1 = nonce ++ [0; 0; 0; 1]) as E1 by (unfold set_counter; by rewrite Etk).
  destruct (aesgcm_GHASH_spec (H tls) Hh (seq ++ hdr (length pt)) ct) as (s & Es & Hs & Vs).
  { unfold seq, hdr. rewrite !length_app, length_le_bytes, length_be_bytes. done. }
  { unfold seq, hdr. apply bytes_ok_app. split; [auto with bytes|]. apply bytes_ok_app.
    split; [|auto with bytes]. constructor; [done|]. by repeat constructor. }
  { done. }
  { rewrite Lc. lia. }
  destruct (xorbuf_aligned_ok s y0 Hs) as [[Lt Bt] Vt]; [lia|done|]. rewrite take_ge, Vs in Vt by lia.
  exists ct, y0. split; [done|]. split; [by rewrite <- E1|]. intros tag.
  assert (xorbuf_aligned_AES_BLOCK_SIZE s y0 = tag) as Etag.
  { unfold tag, gcm_tag. rewrite <- Vt, <- Lt. by rewrite be_bytes_be_val. }
  split; [|split].
  - unfold xwrite_encrypted_aesgcm. fold seq. rewrite (u8_id type) by done.
    replace (take 4 (client_write_IV tls) ++ seq ++ replicate 4 0) with nonce16
      by (unfold nonce16, nonce; by rewrite <- app_assoc).
    rewrite Ec. cbn [mbind outcome_bind].
    replace (seq ++ [type; TLS_MAJ; TLS_MIN; u8 (Z.shiftr (Z.of_nat (length pt)) 8)] ++
             le_bytes 4 (Z.land (Z.of_nat (length pt)) 255)) with ((seq ++ hdr (length pt)) ++ [0; 0; 0]).
    2:{ unfold hdr. rewrite <- app_assoc. f_equal. apply aad_layout. lia. }
    rewrite Lc in Es. rewrite Es. cbn [mbind outcome_bind]. rewrite Ey. cbn [mbind outcome_bind].
    rewrite Etag. unfold hdr. rewrite (be_bytes_2 (Z.of_nat (length pt + 24))) by lia.
    by replace (Z.of_nat (length pt) + 8 + 16) with (Z.of_nat (length pt + 24)) by lia.
  - intros i Hi. destruct (ctr_loop_stream _ _ _ _ _ _ Ec i Hi) as (ks & Eks & V).
    exists ks. rewrite Etk in Eks. rewrite (take_ge nonce) by lia. done.
  - intros peer more Ek Eiv. unfold tls_aesgcm_decrypt. rewrite Ek, Eiv, take_app_len by apply length_le_bytes.
    replace (take 4 (client_write_IV tls) ++ seq ++ replicate 4 0) with nonce16
      by (unfold nonce16, nonce; by rewrite <- app_assoc).
    destruct (D [] seq (tag ++ more)) as (rest & Er); [apply length_le_bytes|]. cbn [app length] in Er.
    assert (length (seq ++ ct ++ tag) = (length pt + 24)%nat) as La.
    { rewrite <- Etag. unfold seq. rewrite !length_app, length_le_bytes. lia. }
    rewrite !(app_assoc seq), !(app_assoc (seq ++ ct)) in Er |- *. rewrite <- !(app_assoc seq) in Er |- *.
    destruct (decrypt_tail _ _ _ _ _ _ _ _ La Er) as (junk & -> & Lj). by exists junk.
Qed.

Definition sample_state : tls_state :=
  {| aes_encrypt := aes_setkey (fips_key 16) 16; aes_decrypt := aes_setkey (fips_key 16) 16;
     H := sample_key; client_write_IV := [1; 2; 3; 4]; server_write_IV := [1; 2; 3; 4];
     write_seq64_be := 2 ^ 56 |}.

End TlsAesGcm.
