(* ===== verification/Pstm.v ===== *)
(** * Multi-precision integers of the TLS client (src/busybox/networking/tls_pstm.c)

    A [pstm_int] is an array of 32-bit digits, least significant first, of which
    the first [used] count, and a sign.  Allocation either succeeds or ends the
    program (xzalloc, xrealloc), so [alloc] is the length of the array.  Every
    function takes the old value of its output parameter and returns the new
    one.  Calls in which the output is also an input pass the same value twice:
    the loops read a digit before they write it, and copying a number onto
    itself changes nothing.  Reading or writing outside an array is [Crash]; a
    return code other than success is [Err]. *)

From S2P Require Import Prelude.

Module Pstm.

(** ** Results *)

Inductive ret (A : Type) :=
| Okay (a : A)
| Err (code : Z)
| Crash.
Arguments Okay {A} a.
Arguments Err {A} code.
Arguments Crash {A}.

#[export] Instance ret_ret : MRet ret := fun A a => Okay a.
#[export] Instance ret_bind : MBind ret := fun A B f m =>
  match m with Okay a => f a | Err c => Err c | Crash => Crash end.

Definition PS_FAILURE : Z := -1.
Definition PS_ARG_FAIL : Z := -6.
Definition PS_MEM_FAIL : Z := -8.
Definition PS_LIMIT_FAIL : Z := -9.

Definition DIGIT_BIT : Z := 32.
Definition PSTM_MAX_SIZE : nat := Z.to_nat 4096.
Definition PSTM_DEFAULT_INIT : nat := 64.
Definition PSTM_ZPOS : Z := 0.
Definition PSTM_NEG : Z := 1.
Definition PSTM_LT : Z := -1.
Definition PSTM_EQ : Z := 0.
Definition PSTM_GT : Z := 1.

Record pstm_int := { used : nat; sign : Z; dp : list Z }.
Definition alloc (a : pstm_int) : nat := length (dp a).

Definition set_used (u : nat) (a : pstm_int) : pstm_int := {| used := u; sign := sign a; dp := dp a |}.
Definition set_sign (s : Z) (a : pstm_int) : pstm_int := {| used := used a; sign := s; dp := dp a |}.
Definition set_dp (d : list Z) (a : pstm_int) : pstm_int := {| used := used a; sign := sign a; dp := d |}.

(** ** Access to the array *)

(** The digits in use. *)
Definition digits (a : pstm_int) : ret (list Z) :=
  if (used a <=? alloc a)%nat then Okay (take (used a) (dp a)) else Crash.

Definition get (l : list Z) (i : nat) : ret Z :=
  match l !! i with Some d => Okay d | None => Crash end.

Definition put (l : list Z) (i : nat) (v : Z) : ret (list Z) :=
  if (i <? length l)%nat then Okay (<[i := v]> l) else Crash.

(** Write [ds] from the start of the array, then zero up to [oldused]. *)
Definition store (l ds : list Z) (oldused : nat) : ret (list Z) :=
  if (length ds <=? length l)%nat && (oldused <=? length l)%nat then
    Okay (ds ++ replicate (oldused - length ds) 0 ++ drop (length ds `max` oldused) l)
  else Crash.

(** ** Allocation, copies, comparison *)

Definition pstm_init_size (size : nat) : pstm_int :=
  {| used := 0; sign := PSTM_ZPOS; dp := replicate size 0 |}.

Definition pstm_init : pstm_int :=
  {| used := 0; sign := PSTM_ZPOS; dp := replicate PSTM_DEFAULT_INIT 0 |}.

Definition pstm_grow (a : pstm_int) (size : nat) : pstm_int :=
  if (alloc a <? size)%nat then set_dp (dp a ++ replicate (size - alloc a) 0) a else a.

Definition pstm_copy (a b : pstm_int) : ret pstm_int :=
  let b := if (alloc b <? used a)%nat then pstm_grow b (used a) else b in
  da ← digits a;
  d ← store (dp b) da (used b);
  Okay {| used := used a; sign := sign a; dp := d |}.

(** The loop of [pstm_clamp]. *)
Fixpoint clamp_used (l : list Z) (u : nat) : nat :=
  match u with
  | O => O
  | S u' => if nth u' l 0 =? 0 then clamp_used l u' else u
  end.

Definition pstm_clamp (a : pstm_int) : ret pstm_int :=
  if (alloc a <? used a)%nat then Crash
  else
    let u := clamp_used (dp a) (used a) in
    Okay {| used := u; sign := if (u =? 0)%nat then PSTM_ZPOS else sign a; dp := dp a |}.

Definition pstm_clear (a : pstm_int) : pstm_int :=
  match dp a with
  | [] => a
  | _ => {| used := 0; sign := PSTM_ZPOS; dp := [] |}
  end.

Definition pstm_zero (a : pstm_int) : pstm_int :=
  {| used := 0; sign := PSTM_ZPOS; dp := replicate (alloc a) 0 |}.

(** The digits of both numbers from the most significant one down. *)
Fixpoint cmp_digits (la lb : list Z) : Z :=
  match la, lb with
  | x :: la', y :: lb' =>
      if y <? x then PSTM_GT else if x <? y then PSTM_LT else cmp_digits la' lb'
  | _, _ => PSTM_EQ
  end.

Definition pstm_cmp_mag (a b : pstm_int) : ret Z :=
  if (used b <? used a)%nat then Okay PSTM_GT
  else if (used a <? used b)%nat then Okay PSTM_LT
  else da ← digits a; db ← digits b; Okay (cmp_digits (reverse da) (reverse db)).

Definition pstm_cmp (a b : pstm_int) : ret Z :=
  if negb (sign a =? sign b) then Okay (if sign a =? PSTM_NEG then PSTM_LT else PSTM_GT)
  else if sign a =? PSTM_NEG then pstm_cmp_mag b a else pstm_cmp_mag a b.

(** ** Conversion from bytes *)

Definition pstm_init_for_read_unsigned_bin (len : nat) : pstm_int :=
  pstm_init_size ((len / 4) * 32 / 32 + 2).

(** [n] digits of the bytes [l] in memory order; missing bytes are zero. *)
Fixpoint le_digits (n : nat) (l : bytes) : list Z :=
  match n with
  | O => []
  | S n' => le_val (take 4 l) :: le_digits n' (drop 4 l)
  end.

Definition pstm_read_unsigned_bin (a : pstm_int) (b : bytes) (c : nat) : ret pstm_int :=
  if (length b <? c)%nat then Crash
  else
    let a := pstm_zero a in
    let '(b, c) := if (PSTM_MAX_SIZE * 4 <? c)%nat
                   then (drop (c - PSTM_MAX_SIZE * 4) b, (PSTM_MAX_SIZE * 4)%nat) else (b, c) in
    let u := ((c + 3) / 4)%nat in
    let a := if (alloc a <? u)%nat then pstm_grow a u else a in
    d ← store (dp a) (le_digits u (reverse (take c b))) 0;
    pstm_clamp {| used := u; sign := sign a; dp := d |}.

(** ** Sizes *)

(** The shift loop of [pstm_count_bits]; a digit has 32 bits. *)
Fixpoint bit_count (fuel : nat) (q : Z) : nat :=
  match fuel with
  | O => O
  | S f => if 0 <? q then S (bit_count f (Z.shiftr q 1)) else O
  end.

Definition pstm_count_bits (a : pstm_int) : ret nat :=
  if (used a =? 0)%nat then Okay 0%nat
  else q ← get (dp a) (used a - 1); Okay ((used a - 1) * 32 + bit_count 32 q)%nat.

Definition pstm_unsigned_bin_size (a : pstm_int) : ret nat :=
  size ← pstm_count_bits a;
  Okay (size / 8 + if (size mod 8 =? 0)%nat then 0 else 1)%nat.

Definition pstm_set (a : pstm_int) (b : Z) : ret pstm_int :=
  let a := pstm_zero a in
  d ← put (dp a) 0 b;
  Okay {| used := if b =? 0 then 0 else 1; sign := sign a; dp := d |}.

(** ** Shifts *)

Definition pstm_rshd (a : pstm_int) (x : nat) : ret pstm_int :=
  if (used a <=? x)%nat then Okay (pstm_zero a)
  else
    da ← digits a;
    d ← store (dp a) (drop x da) (used a);
    pstm_clamp {| used := used a - x; sign := sign a; dp := d |}.

Definition pstm_lshd (a : pstm_int) (b : nat) : ret pstm_int :=
  if (b =? 0)%nat then Okay a
  else
    let a := if (alloc a <? used a + b)%nat then pstm_grow a (used a + b) else a in
    da ← digits a;
    d ← store (dp a) (replicate b 0 ++ da) 0;
    Okay {| used := used a + b; sign := sign a; dp := d |}.

Definition pstm_2expt (a : pstm_int) (b : Z) : ret pstm_int :=
  let a := pstm_zero a in
  if b <? 0 then Okay a
  else
    let z := Z.to_nat (b / DIGIT_BIT) in
    if (PSTM_MAX_SIZE <=? z)%nat then Err PS_LIMIT_FAIL
    else
      let a := set_used (z + 1) a in
      let a := if (alloc a <? used a)%nat then pstm_grow a (used a) else a in
      d ← put (dp a) z (u32 (Z.shiftl 1 (b mod DIGIT_BIT)));
      Okay (set_dp d a).

(** The digits doubled and the last carry. *)
Fixpoint mul_2_loop (l : list Z) (r : Z) : list Z * Z :=
  match l with
  | [] => ([], r)
  | d :: l' =>
      let rr := Z.shiftr d (DIGIT_BIT - 1) in
      let '(ds, c) := mul_2_loop l' rr in
      (Z.lor (u32 (Z.shiftl d 1)) r :: ds, c)
  end.

Definition pstm_mul_2 (a b : pstm_int) : ret pstm_int :=
  let b := if (alloc b <? used a + 1)%nat then pstm_grow b (used a + 1) else b in
  da ← digits a;
  let '(ds, r) := mul_2_loop da 0 in
  let ds := if negb (r =? 0) && negb (used a =? PSTM_MAX_SIZE - 1)%nat then ds ++ [1] else ds in
  d ← store (dp b) ds (used b);
  Okay {| used := length ds; sign := sign a; dp := d |}.

(** ** Addition and subtraction *)

(** The loops of [s_pstm_sub]: over the digits of both numbers, then over the
    remaining digits of the first one with the borrow that is left. *)
Fixpoint sub_rest (la : list Z) (t : Z) : list Z :=
  match la with
  | [] => []
  | x :: la' =>
      let t := u64 (x - t) in
      u32 t :: sub_rest la' (Z.shiftr t DIGIT_BIT)
  end.

Fixpoint sub_loop (la lb : list Z) (t : Z) : list Z :=
  match la, lb with
  | x :: la', y :: lb' =>
      let t := u64 (x - (y + t)) in
      u32 t :: sub_loop la' lb' (Z.land (Z.shiftr t DIGIT_BIT) 1)
  | _, _ => sub_rest la t
  end.

Definition s_pstm_sub (a b c : pstm_int) : ret pstm_int :=
  if (used a <? used b)%nat then Err PS_LIMIT_FAIL
  else
    let c := if (alloc c <? used a)%nat then pstm_grow c (used a) else c in
    da ← digits a;
    db ← digits b;
    d ← store (dp c) (sub_loop da db 0) (used c);
    pstm_clamp {| used := used a; sign := sign c; dp := d |}.

(** The digit of [a] at [x] as [s_pstm_add] reads it. *)
Definition add_digit (a : pstm_int) (x : nat) : ret Z :=
  if (used a <? x)%nat then Okay 0 else get (dp a) x.

(** The loop of [s_pstm_add] for the [n] digits from [x] on; the output is a
    number other than [a] and [b]. *)
Fixpoint add_loop (n x : nat) (a b : pstm_int) (t : Z) : ret (list Z * Z) :=
  match n with
  | O => Okay ([], t)
  | S n' =>
      adp ← add_digit a x;
      bdp ← add_digit b x;
      let t := u64 (t + (adp + bdp)) in
      '(ds, r) ← add_loop n' (S x) a b (Z.shiftr t DIGIT_BIT);
      Okay (u32 t :: ds, r)
  end.

Definition s_pstm_add (a b c : pstm_int) : ret pstm_int :=
  let y := (used a `max` used b)%nat in
  let oldused := used c in
  let c := if (alloc c <? y)%nat then pstm_grow c y else c in
  '(ds, t) ← add_loop y 0 a b 0;
  let '(ds, c) :=
    if negb (t =? 0) && (y <? PSTM_MAX_SIZE)%nat
    then (ds ++ [u32 t], if (y =? alloc c)%nat then pstm_grow c (alloc c + 1) else c)
    else (ds, c) in
  d ← store (dp c) ds oldused;
  pstm_clamp {| used := length ds; sign := sign c; dp := d |}.

Definition pstm_sub (a b c : pstm_int) : ret pstm_int :=
  if negb (sign a =? sign b) then s_pstm_add a b (set_sign (sign a) c)
  else
    r ← pstm_cmp_mag a b;
    if negb (r =? PSTM_LT) then s_pstm_sub a b (set_sign (sign a) c)
    else s_pstm_sub b a (set_sign (if sign a =? PSTM_ZPOS then PSTM_NEG else PSTM_ZPOS) c).

Definition pstm_add (a b c : pstm_int) : ret pstm_int :=
  if sign a =? sign b then s_pstm_add a b (set_sign (sign a) c)
  else
    r ← pstm_cmp_mag a b;
    if r =? PSTM_LT then s_pstm_sub b a (set_sign (sign b) c)
    else s_pstm_sub a b (set_sign (sign a) c).

(** ** Multiplication and division by powers of two and by a digit *)

(** The digits shifted up by [b] bits and the last carry. *)
Fixpoint shl_loop (b : Z) (l : list Z) (carry : Z) : list Z * Z :=
  match l with
  | [] => ([], carry)
  | d :: l' =>
      let carrytmp := Z.shiftr d (DIGIT_BIT - b) in
      let '(ds, c) := shl_loop b l' carrytmp in
      (u32 (u32 (Z.shiftl d b) + carry) :: ds, c)
  end.

Definition pstm_mul_2d (a : pstm_int) (b : nat) (c : pstm_int) : ret pstm_int :=
  c ← pstm_copy a c;
  c ← (if (32 <=? b)%nat then pstm_lshd c (b / 32) else Okay c);
  let b := Z.of_nat (b mod 32) in
  if b =? 0 then pstm_clamp c
  else
    dc ← digits c;
    let '(ds, carry) := shl_loop b dc 0 in
    let '(ds, c) :=
      if negb (carry =? 0) && (used c <? PSTM_MAX_SIZE)%nat
      then (ds ++ [carry], if (used c =? alloc c)%nat then pstm_grow c (alloc c + 1) else c)
      else (ds, c) in
    d ← store (dp c) ds 0;
    pstm_clamp {| used := length ds; sign := sign c; dp := d |}.

(** The mask shifts by [DIGIT_BIT - b], which is undefined for [b] above 32. *)
Definition pstm_mod_2d (a : pstm_int) (b : nat) (c : pstm_int) : ret pstm_int :=
  if (b =? 0)%nat then Okay (pstm_zero c)
  else
    c ← pstm_copy a c;
    if (32 * used a <=? b)%nat then Okay c
    else
      let x := (b / 32 + if (b mod 32 =? 0)%nat then 0 else 1)%nat in
      dc ← digits c;
      d ← store (dp c) (take x dc) (used c);
      v ← get d (b / 32);
      if (32 <? b)%nat then Crash
      else
        d ← put d (b / 32) (Z.land v (Z.shiftr (2 ^ 32 - 1) (DIGIT_BIT - Z.of_nat b)));
        pstm_clamp (set_dp d c).

(** The digits times [b] and the last carry word. *)
Fixpoint mul_d_loop (b : Z) (l : list Z) (w : Z) : list Z * Z :=
  match l with
  | [] => ([], w)
  | d :: l' =>
      let w := u64 (d * b + w) in
      let '(ds, c) := mul_d_loop b l' (Z.shiftr w DIGIT_BIT) in
      (u32 w :: ds, c)
  end.

Definition pstm_mul_d (a : pstm_int) (b : Z) (c : pstm_int) : ret pstm_int :=
  let c := if (alloc c <? used a + 1)%nat then pstm_grow c (used a + 1) else c in
  da ← digits a;
  let '(ds, w) := mul_d_loop b da 0 in
  let ds := if negb (w =? 0) && negb (used a =? PSTM_MAX_SIZE)%nat then ds ++ [u32 w] else ds in
  d ← store (dp c) ds (used c);
  pstm_clamp {| used := length ds; sign := sign a; dp := d |}.

(** The digits from the most significant one down, shifted by [D] bits. *)
Fixpoint shr_loop (D : Z) (l : list Z) (r : Z) : list Z :=
  match l with
  | [] => []
  | d :: l' =>
      let mask := u32 (Z.shiftl 1 D - 1) in
      let rr := Z.land d mask in
      Z.lor (Z.shiftr d D) (u32 (Z.shiftl r (DIGIT_BIT - D))) :: shr_loop D l' rr
  end.

(** [pstm_div_2d]: the quotient, and the remainder when it is asked for. *)
Definition pstm_div_2d (a : pstm_int) (b : nat) (c : pstm_int) (d : option pstm_int) :
    ret (pstm_int * option pstm_int) :=
  if (b =? 0)%nat then c ← pstm_copy a c; Okay (c, pstm_zero <$> d)
  else
    t ← (match d with None => Okay None | Some _ => t ← pstm_mod_2d a b pstm_init; Okay (Some t) end);
    c ← pstm_copy a c;
    c ← (if (32 <=? b)%nat then pstm_rshd c (b / 32) else Okay c);
    let D := Z.of_nat (b mod 32) in
    dc ← digits c;
    dn ← store (dp c) (if D =? 0 then dc else reverse (shr_loop D (reverse dc) 0)) 0;
    c ← pstm_clamp (set_dp dn c);
    match t, d with
    | Some t, Some d => d ← pstm_copy t d; Okay (c, Some d)
    | _, _ => Okay (c, None)
    end.

Definition pstm_init_copy (b : pstm_int) (toSqr : bool) : ret pstm_int :=
  let x := alloc b in
  let x := if toSqr && (x <=? used b * 2 + 2)%nat then (used b * 2 + 3)%nat else x in
  pstm_copy b (pstm_init_size x).

(** ** Conversion to bytes *)

(** The loop of [pstm_to_unsigned_bin]; every round removes eight bits, so four
    rounds per digit are enough. *)
Fixpoint bin_loop (fuel : nat) (t : pstm_int) : ret bytes :=
  if (used t =? 0)%nat then Okay []
  else match fuel with
  | O => Crash
  | S f =>
      d0 ← get (dp t) 0;
      '(t, _) ← pstm_div_2d t 8 t None;
      rest ← bin_loop f t;
      Okay (Z.land d0 255 :: rest)
  end.

(** Swap the ends until they meet; half the length is enough. *)
Fixpoint reverse_loop (fuel : nat) (s : bytes) (ix iy : nat) : bytes :=
  match fuel with
  | O => s
  | S f =>
      if (ix <? iy)%nat
      then reverse_loop f (<[iy := nth ix s 0]> (<[ix := nth iy s 0]> s)) (S ix) (iy - 1)
      else s
  end.

Definition pstm_reverse (s : bytes) : bytes := reverse_loop (length s) s 0 (length s - 1).

(** [pstm_to_unsigned_bin]: the bytes written at the output. *)
Definition pstm_to_unsigned_bin (a : pstm_int) : ret bytes :=
  t ← pstm_init_copy a false;
  b ← bin_loop (4 * used a) t;
  Okay (pstm_reverse b).

End Pstm.
