(* ===== verification/PstmFacts.v ===== *)
(** * What the multi-precision operations compute

    The value of a digit list, the invariant of a [pstm_int] (digits beyond
    [used] are zero, the leading digit is not) and, for every operation of
    [Pstm], the value and the allocation of its result. *)

From S2P Require Import Prelude Pstm.

Module PstmFacts.
Import Pstm.

Definition B : Z := 2 ^ 32.

(** ** Values of digit lists *)

Fixpoint dval (l : list Z) : Z :=
  match l with [] => 0 | d :: l' => d + B * dval l' end.

Abbreviation digits_ok := (Forall is_u32).
Abbreviation zeros := (Forall (eq 0)).

Lemma B_pos : 0 < B. Proof. done. Qed.
Lemma Bpow_pos n : 0 < B ^ Z.of_nat n. Proof. apply Z.pow_pos_nonneg; [done|lia]. Qed.
Lemma Bpow_S n : B ^ Z.of_nat (S n) = B * B ^ Z.of_nat n.
Proof. rewrite Nat2Z.inj_succ, Z.pow_succ_r by lia. done. Qed.
Lemma Bpow_add n m : B ^ Z.of_nat (n + m) = B ^ Z.of_nat n * B ^ Z.of_nat m.
Proof. rewrite Nat2Z.inj_add, Z.pow_add_r by lia. done. Qed.
Lemma Bpow_mono n m : (n <= m)%nat -> B ^ Z.of_nat n <= B ^ Z.of_nat m.
Proof. intros. apply Z.pow_le_mono_r; [done|lia]. Qed.

Lemma dval_app l k : dval (l ++ k) = dval l + B ^ Z.of_nat (length l) * dval k.
Proof.
  induction l as [|d l IH]; [cbn; lia|]. cbn [app dval length]. rewrite IH, Bpow_S. ring.
Qed.

Lemma dval_range l : digits_ok l -> 0 <= dval l < B ^ Z.of_nat (length l).
Proof.
  induction 1 as [|d l Hd _ IH]; [cbn; lia|]. cbn [dval length]. rewrite Bpow_S.
  unfold is_u32 in Hd. fold B in Hd. pose proof B_pos. nia.
Qed.

Lemma dval_zeros l : zeros l -> dval l = 0.
Proof. induction 1 as [|d l <- _ IH]; [done|]. cbn [dval]. rewrite IH. lia. Qed.

Lemma dval_replicate n : dval (replicate n 0) = 0.
Proof. apply dval_zeros, Forall_replicate. done. Qed.

Lemma dval_take_drop n l : dval l = dval (take n l) + B ^ Z.of_nat (length (take n l)) * dval (drop n l).
Proof. rewrite <- dval_app, take_drop. done. Qed.

Lemma digits_ok_app l k : digits_ok (l ++ k) <-> digits_ok l /\ digits_ok k.
Proof. apply Forall_app. Qed.

Lemma zeros_ok l : zeros l -> digits_ok l.
Proof. intros H. eapply Forall_impl; [exact H|]. intros ? <-. by vm_compute. Qed.

Lemma replicate_zeros n : zeros (replicate n 0).
Proof. by apply Forall_replicate. Qed.

Create HintDb pstm.
#[export] Hint Resolve replicate_zeros zeros_ok Forall_take Forall_drop : pstm.

Lemma zeros_drop_mono n m l : (n <= m)%nat -> zeros (drop n l) -> zeros (drop m l).
Proof.
  intros Hnm H. replace m with (n + (m - n))%nat by lia. rewrite <- drop_drop. by apply Forall_drop.
Qed.

(** A list whose value fits in [n] digits has zeros above. *)
Lemma dval_small_zeros l : digits_ok l -> dval l = 0 -> zeros l.
Proof.
  induction 1 as [|d l Hd Hl IH]; intros E; [constructor|]. cbn [dval] in E.
  pose proof (dval_range l Hl). unfold is_u32 in Hd. pose proof B_pos.
  constructor; [nia|apply IH; nia].
Qed.

Lemma dval_nth l i : digits_ok l -> nth i l 0 = dval l / B ^ Z.of_nat i mod B.
Proof.
  intros H. revert i. induction H as [|d l Hd Hl IH]; intros i.
  - replace (nth i [] 0) with 0 by (by destruct i). cbn [dval].
    by rewrite Z.div_0_l by (pose proof (Bpow_pos i); lia).
  - unfold is_u32 in Hd. fold B in Hd. destruct i as [|i]; cbn [nth dval].
    + change (B ^ Z.of_nat 0) with 1. rewrite Z.div_1_r, (Z.mul_comm B), Z.mod_add by done.
      by rewrite Z.mod_small.
    + rewrite IH, Bpow_S, <- Z.div_div by (try done; pose proof (Bpow_pos i); lia).
      rewrite (Z.mul_comm B (dval l)), Z.div_add by done. by rewrite (Z.div_small d), Z.add_0_l by done.
Qed.

(** A non-zero leading digit bounds the value from below. *)
Lemma dval_top l n : digits_ok l -> nth n l 0 <> 0 -> B ^ Z.of_nat n <= dval l.
Proof.
  intros H Hn. rewrite dval_nth in Hn by done. destruct (Z.lt_ge_cases (dval l) (B ^ Z.of_nat n)) as [Hlt|]; [|lia].
  pose proof (dval_range l H). rewrite Z.div_small in Hn by lia. done.
Qed.

(** ** The invariant *)

(** Everything but the trimming of leading zeros. *)
Record pre (a : pstm_int) : Prop := {
  pre_used : (used a <= length (dp a))%nat;
  pre_digits : digits_ok (dp a);
  pre_zeros : zeros (drop (used a) (dp a));
  pre_sign : sign a = PSTM_ZPOS \/ sign a = PSTM_NEG }.

Record wf (a : pstm_int) : Prop := {
  wf_pre : pre a;
  wf_top : used a = 0%nat \/ nth (used a - 1) (dp a) 0 <> 0;
  wf_pos : used a = 0%nat -> sign a = PSTM_ZPOS }.

Definition mag (a : pstm_int) : Z := dval (dp a).
Definition value (a : pstm_int) : Z := if sign a =? PSTM_NEG then - mag a else mag a.

#[export] Hint Resolve wf_pre pre_used pre_digits pre_zeros pre_sign : pstm.

Lemma mag_digits a : pre a -> mag a = dval (take (used a) (dp a)).
Proof.
  intros H. unfold mag. rewrite (dval_take_drop (used a)), (dval_zeros (drop _ _)) by apply H. lia.
Qed.

Lemma mag_lt a : pre a -> 0 <= mag a < B ^ Z.of_nat (used a).
Proof.
  intros H. rewrite mag_digits by done.
  assert (digits_ok (take (used a) (dp a))) as Hd by (apply Forall_take, H).
  pose proof (dval_range _ Hd) as R. rewrite length_take in R. pose proof (pre_used a H).
  by replace (used a `min` length (dp a))%nat with (used a) in R by lia.
Qed.

Lemma mag_ge a : wf a -> used a <> 0%nat -> B ^ Z.of_nat (used a - 1) <= mag a.
Proof.
  intros [Hp Ht _] Hu. destruct Ht as [?|Ht]; [done|]. apply dval_top; [apply Hp|done].
Qed.

Lemma mag_zero a : wf a -> mag a = 0 <-> used a = 0%nat.
Proof.
  intros H. split; intros E.
  - destruct (Nat.eq_dec (used a) 0%nat) as [|Hu]; [done|]. pose proof (mag_ge a H Hu).
    pose proof (Bpow_pos (used a - 1)). lia.
  - pose proof (mag_lt a (wf_pre a H)). rewrite E in *. change (B ^ Z.of_nat 0) with 1 in *. lia.
Qed.

(** [used] is determined by the value. *)
Lemma used_le a n : wf a -> mag a < B ^ Z.of_nat n -> (used a <= n)%nat.
Proof.
  intros H Hm. destruct (Nat.le_gt_cases (used a) n) as [|Hgt]; [done|].
  pose proof (mag_ge a H ltac:(lia)). pose proof (Bpow_mono n (used a - 1) ltac:(lia)). lia.
Qed.

Lemma used_gt a n : wf a -> B ^ Z.of_nat n <= mag a -> (n < used a)%nat.
Proof.
  intros H Hm. destruct (Nat.lt_ge_cases n (used a)) as [|Hge]; [done|].
  pose proof (mag_lt a (wf_pre a H)). pose proof (Bpow_mono (used a) n Hge). lia.
Qed.

Lemma zeros_above a n : pre a -> (used a <= n)%nat -> zeros (drop n (dp a)).
Proof. intros H Hn. eapply zeros_drop_mono; [exact Hn|apply H]. Qed.

(** ** Array access *)

Lemma digits_spec a : pre a ->
  exists l, digits a = Okay l /\ length l = used a /\ digits_ok l /\ dval l = mag a /\ l = take (used a) (dp a).
Proof.
  intros H. exists (take (used a) (dp a)). unfold digits, alloc.
  destruct (Nat.leb_spec (used a) (length (dp a))) as [Hl|Hl]; [|pose proof (pre_used a H); lia].
  split; [done|]. split; [rewrite length_take; lia|]. split; [apply Forall_take, H|].
  split; [by rewrite mag_digits|done].
Qed.

Lemma store_spec l ds o : (length ds <= length l)%nat -> (o <= length l)%nat ->
  digits_ok ds -> digits_ok l -> zeros (drop (length ds `max` o) l) ->
  exists d, store l ds o = Okay d /\ length d = length l /\ digits_ok d /\ dval d = dval ds /\
    zeros (drop (length ds) d) /\ take (length ds) d = ds.
Proof.
  intros H1 H2 Hd Hl Hz. unfold store.
  destruct (Nat.leb_spec (length ds) (length l)); [|lia]. destruct (Nat.leb_spec o (length l)); [|lia].
  cbn [andb]. eexists. split; [done|].
  assert (zeros (replicate (o - length ds) 0 ++ drop (length ds `max` o) l)) as Hr.
  { apply Forall_app. auto with pstm. }
  split; [rewrite !length_app, length_replicate, length_drop; lia|].
  split; [apply digits_ok_app; auto with pstm|].
  split; [rewrite dval_app, (dval_zeros _ Hr); lia|].
  rewrite drop_app_length, take_app_length. done.
Qed.

Lemma clamp_used_le l u : (clamp_used l u <= u)%nat.
Proof. induction u as [|u IH]; cbn; [done|]. destruct (_ =? _); lia. Qed.

Lemma clamp_used_zeros l u : zeros (drop u l) -> zeros (drop (clamp_used l u) l).
Proof.
  induction u as [|u IH]; cbn; [done|]. intros H. destruct (Z.eqb_spec (nth u l 0) 0) as [E|]; [|done].
  apply IH. destruct (Nat.lt_ge_cases u (length l)) as [Hlt|Hge]; [|rewrite drop_ge by lia; constructor].
  destruct (lookup_lt_is_Some_2 l u Hlt) as [d Hd].
  rewrite (drop_S l d u Hd). constructor; [|done]. by rewrite (nth_lookup_Some l u 0 d Hd) in E.
Qed.

Lemma clamp_used_top l u : clamp_used l u = 0%nat \/ nth (clamp_used l u - 1) l 0 <> 0.
Proof.
  induction u as [|u IH]; cbn; [by left|]. destruct (Z.eqb_spec (nth u l 0) 0) as [E|E]; [done|].
  right. cbn. by rewrite ?Nat.sub_0_r.
Qed.

Lemma clamp_spec a : pre a ->
  exists c, pstm_clamp a = Okay c /\ wf c /\ mag c = mag a /\ alloc c = alloc a /\
    (used c <= used a)%nat /\ (mag a <> 0 -> sign c = sign a) /\ dp c = dp a.
Proof.
  intros [Hu Hd Hz Hs]. unfold pstm_clamp, alloc. destruct (Nat.ltb_spec (length (dp a)) (used a)); [lia|].
  pose proof (clamp_used_le (dp a) (used a)). pose proof (clamp_used_zeros (dp a) (used a) Hz) as Hz'.
  eexists. split; [done|]. unfold mag. cbn [dp used sign]. split; [|split; [done|split; [done|split; [done|split; [|done]]]]].
  - split; [split; cbn [dp used sign]; [lia|done|done|]|apply clamp_used_top|]; cbn [used sign].
    + destruct (Nat.eqb_spec (clamp_used (dp a) (used a)) 0); [by left|done].
    + by intros ->.
  - intros Hm. destruct (Nat.eqb_spec (clamp_used (dp a) (used a)) 0) as [E|]; [|done].
    rewrite E, drop_0 in Hz'. by rewrite dval_zeros in Hm.
Qed.

(** [r] returns a trimmed number of magnitude [v], of sign [s] unless it is
    zero, in an array of [n] digits. *)
Definition computes (r : ret pstm_int) (v s : Z) (n : nat) : Prop :=
  exists c, r = Okay c /\ wf c /\ mag c = v /\ (v <> 0 -> sign c = s) /\ alloc c = n.

Abbreviation is_sign s := (s = PSTM_ZPOS \/ s = PSTM_NEG).

(** The last steps of most operations: write the digits and trim. *)
Lemma finish_spec l ds o s u n : u = length ds -> n = length l ->
  (length ds <= length l)%nat -> (o <= length l)%nat -> digits_ok ds -> digits_ok l ->
  zeros (drop (length ds `max` o) l) -> is_sign s ->
  computes (d ← store l ds o; pstm_clamp {| used := u; sign := s; dp := d |}) (dval ds) s n.
Proof.
  intros -> -> H1 H2 H3 H4 H5 H6. destruct (store_spec l ds o) as (d & E & L & D & V & Zr & _); [done..|].
  unfold mbind, ret_bind. rewrite E.
  destruct (clamp_spec {| used := length ds; sign := s; dp := d |}) as (c & Ec & W & M & A & _ & S & _).
  { split; cbn; [lia|done|done|done]. }
  exists c. unfold mag, alloc in *. cbn [dp sign] in *. split; [done|]. split; [done|].
  split; [congruence|]. split; [intros Hv; apply S; congruence|congruence].
Qed.

Lemma wf_of_bounds a : pre a -> B ^ Z.of_nat (used a - 1) <= mag a -> used a <> 0%nat -> wf a.
Proof.
  intros H Hm Hu. split; [done| |done]. right. rewrite dval_nth by apply H. fold (mag a).
  pose proof (mag_lt a H). pose proof (Bpow_pos (used a - 1)).
  replace (used a) with (S (used a - 1)) in * by lia. rewrite Bpow_S in *.
  replace (S (used a - 1) - 1)%nat with (used a - 1)%nat in * by lia.
  rewrite Z.mod_small.
  - assert (1 <= mag a / B ^ Z.of_nat (used a - 1)) by (apply Z.div_le_lower_bound; lia). lia.
  - split; [apply Z.div_pos; lia|]. apply Z.div_lt_upper_bound; lia.
Qed.

Lemma grow_spec a n : pre a ->
  pre (pstm_grow a n) /\ mag (pstm_grow a n) = mag a /\ used (pstm_grow a n) = used a /\
  sign (pstm_grow a n) = sign a /\ alloc (pstm_grow a n) = (alloc a `max` n)%nat.
Proof.
  intros [Hu Hd Hz Hs]. unfold pstm_grow, mag, alloc. destruct (Nat.ltb_spec (length (dp a)) n) as [Hl|Hl].
  - cbn. rewrite length_app, length_replicate, dval_app, dval_replicate.
    split; [split; cbn; [rewrite length_app; lia|apply digits_ok_app; auto with pstm| |done]|].
    + rewrite drop_app_le by lia. apply Forall_app. auto with pstm.
    + repeat split; lia.
  - split; [by split|]. repeat split; lia.
Qed.

(** Growing on demand, as most operations begin. *)
Lemma grow_if a n : pre a ->
  let a' := if (alloc a <? n)%nat then pstm_grow a n else a in
  pre a' /\ mag a' = mag a /\ used a' = used a /\ sign a' = sign a /\ alloc a' = (alloc a `max` n)%nat.
Proof.
  intros H. destruct (Nat.ltb_spec (alloc a) n); [by apply grow_spec|].
  split; [done|]. repeat split; lia.
Qed.

Lemma init_size_spec n : wf (pstm_init_size n) /\ mag (pstm_init_size n) = 0 /\ alloc (pstm_init_size n) = n.
Proof.
  unfold mag, alloc. cbn. rewrite dval_replicate, length_replicate. split; [|done].
  split; [split; cbn; [lia|auto with pstm|auto with pstm|by left]|by left|done].
Qed.

Lemma zero_spec a : wf (pstm_zero a) /\ mag (pstm_zero a) = 0 /\ alloc (pstm_zero a) = alloc a.
Proof. apply (init_size_spec (alloc a)). Qed.

Lemma copy_spec a b : wf a -> pre b ->
  exists c, pstm_copy a b = Okay c /\ wf c /\ mag c = mag a /\ sign c = sign a /\ used c = used a /\
    alloc c = (alloc b `max` used a)%nat.
Proof.
  intros Ha Hb. unfold pstm_copy. pose proof (grow_if b (used a) Hb) as G. cbn zeta in G.
  set (b' := if _ : bool then _ else _) in *. destruct G as (Pb & _ & Ub & _ & Ab).
  destruct (digits_spec a (wf_pre a Ha)) as (da & Ea & La & Da & Va & _). rewrite Ea. cbn [mbind ret_bind].
  destruct (store_spec (dp b') da (used b')) as (d & E & L & D & V & Zr & T);
    [fold (alloc b'); lia|fold (alloc b'); apply Pb|done|apply Pb|apply zeros_above; [done|lia]|].
  rewrite E. cbn [mbind ret_bind]. eexists. split; [done|]. unfold alloc in *. cbn [dp sign used].
  assert (pre {| used := used a; sign := sign a; dp := d |}) as Hp.
  { split; cbn; [lia|done|by rewrite <- La|apply Ha]. }
  assert (mag {| used := used a; sign := sign a; dp := d |} = mag a) as Hm by (unfold mag at 1; cbn; congruence).
  split; [|repeat split; [done|lia]].
  destruct (Nat.eq_dec (used a) 0%nat) as [E0|E0].
  - split; [done|by left|]. intros _. by apply Ha.
  - apply wf_of_bounds; [done| |done]. rewrite Hm. cbn [used]. by apply mag_ge.
Qed.

Lemma init_copy_spec a b : wf a ->
  exists c, pstm_init_copy a b = Okay c /\ wf c /\ mag c = mag a /\ sign c = sign a /\ used c = used a /\
    (alloc a <= alloc c)%nat /\ (b = true -> alloc a <= used a * 2 + 2 -> used a * 2 + 3 <= alloc c)%nat.
Proof.
  intros Ha. unfold pstm_init_copy.
  set (x := if _ : bool then _ else _).
  destruct (init_size_spec x) as (W & _ & A).
  destruct (copy_spec a (pstm_init_size x) Ha (wf_pre _ W)) as (c & E & Wc & M & S & U & Ac).
  exists c. split; [done|]. split; [done|]. split; [done|]. split; [done|]. split; [done|].
  rewrite Ac, A. pose proof (pre_used a (wf_pre a Ha)) as Hu. fold (alloc a) in Hu. unfold x. destruct b; cbn [andb].
  - destruct (Nat.leb_spec (alloc a) (used a * 2 + 2)); split; intros; lia.
  - split; [lia|done].
Qed.

(** ** Comparison *)

Definition cmpz (x y : Z) : Z := if x <? y then PSTM_LT else if x =? y then PSTM_EQ else PSTM_GT.

Lemma cmp_digits_spec la lb : length la = length lb -> digits_ok la -> digits_ok lb ->
  cmp_digits (reverse la) (reverse lb) = cmpz (dval la) (dval lb).
Proof.
  revert lb. induction la as [|x la IH] using rev_ind; intros lb Hl Ha Hb.
  { destruct lb; [done|discriminate]. }
  destruct lb as [|y lb _] using rev_ind; [rewrite length_app in Hl; cbn in Hl; lia|].
  rewrite !length_app in Hl. cbn in Hl. apply digits_ok_app in Ha as [Ha Hx], Hb as [Hb Hy].
  rewrite !reverse_snoc, !dval_app. cbn [cmp_digits dval]. rewrite IH by (done || lia).
  replace (length lb) with (length la) by lia.
  pose proof (dval_range la Ha) as Ra. pose proof (dval_range lb Hb) as Rb.
  replace (length lb) with (length la) in Rb by lia. set (P := B ^ Z.of_nat (length la)) in *.
  assert (0 < P) by lia. unfold cmpz.
  destruct (Z.ltb_spec y x).
  { destruct (Z.ltb_spec (dval la + P * (x + B * 0)) (dval lb + P * (y + B * 0))); [nia|].
    destruct (Z.eqb_spec (dval la + P * (x + B * 0)) (dval lb + P * (y + B * 0))); [nia|done]. }
  destruct (Z.ltb_spec x y).
  { destruct (Z.ltb_spec (dval la + P * (x + B * 0)) (dval lb + P * (y + B * 0))); [done|nia]. }
  assert (x = y) as -> by lia.
  destruct (Z.ltb_spec (dval la) (dval lb)), (Z.ltb_spec (dval la + P * (y + B * 0)) (dval lb + P * (y + B * 0))); try lia.
  destruct (Z.eqb_spec (dval la) (dval lb)), (Z.eqb_spec (dval la + P * (y + B * 0)) (dval lb + P * (y + B * 0))); lia.
Qed.

(** For trimmed numbers, and for any two of the same length. *)
Lemma cmp_mag_same a b : pre a -> pre b -> used a = used b ->
  pstm_cmp_mag a b = Okay (cmpz (mag a) (mag b)).
Proof.
  intros Ha Hb Hu. unfold pstm_cmp_mag. rewrite Hu, Nat.ltb_irrefl.
  destruct (digits_spec a Ha) as (da & -> & La & Da & <- & _).
  destruct (digits_spec b Hb) as (db & -> & Lb & Db & <- & _). cbn [mbind ret_bind].
  by rewrite cmp_digits_spec by (done || lia).
Qed.

Lemma cmp_mag_spec a b : wf a -> wf b -> pstm_cmp_mag a b = Okay (cmpz (mag a) (mag b)).
Proof.
  intros Ha Hb. destruct (Nat.lt_trichotomy (used a) (used b)) as [Hl|[He|Hl]].
  - unfold pstm_cmp_mag. destruct (Nat.ltb_spec (used b) (used a)); [lia|].
    destruct (Nat.ltb_spec (used a) (used b)); [|lia]. unfold cmpz.
    destruct (Z.ltb_spec (mag a) (mag b)) as [|Hge]; [done|].
    pose proof (mag_lt a (wf_pre a Ha)). pose proof (mag_ge b Hb ltac:(lia)).
    pose proof (Bpow_mono (used a) (used b - 1) ltac:(lia)). lia.
  - by apply cmp_mag_same; [apply Ha|apply Hb|].
  - unfold pstm_cmp_mag. destruct (Nat.ltb_spec (used b) (used a)); [|lia]. unfold cmpz.
    pose proof (mag_lt b (wf_pre b Hb)). pose proof (mag_ge a Ha ltac:(lia)).
    pose proof (Bpow_mono (used b) (used a - 1) ltac:(lia)).
    destruct (Z.ltb_spec (mag a) (mag b)); [lia|]. destruct (Z.eqb_spec (mag a) (mag b)); [lia|done].
Qed.

Lemma cmpz_lt x y : (cmpz x y =? PSTM_LT) = (x <? y).
Proof. unfold cmpz. destruct (x <? y); [done|]. by destruct (x =? y). Qed.

Lemma cmpz_gt x y : (cmpz x y =? PSTM_GT) = (y <? x).
Proof.
  unfold cmpz. destruct (Z.ltb_spec x y), (Z.ltb_spec y x), (Z.eqb_spec x y); try done; lia.
Qed.

(** ** Sizes *)

Lemma bit_count_spec f q : 0 <= q < 2 ^ Z.of_nat f ->
  Z.of_nat (bit_count f q) = if q =? 0 then 0 else Z.log2 q + 1.
Proof.
  revert q. induction f as [|f IH]; intros q Hq; [change (2 ^ Z.of_nat 0) with 1 in Hq; by replace q with 0 by lia|].
  rewrite Nat2Z.inj_succ, Z.pow_succ_r in Hq by lia. cbn [bit_count].
  destruct (Z.ltb_spec 0 q); [|by replace q with 0 by lia].
  rewrite Nat2Z.inj_succ, IH by (rewrite Z.shiftr_div_pow2 by lia; Z.div_mod_to_equations; lia).
  destruct (Z.eqb_spec q 0); [lia|]. rewrite Z.shiftr_div_pow2 by lia. change (2 ^ 1) with 2.
  destruct (Z.eqb_spec (q / 2) 0) as [E|E].
  - assert (q = 1) as -> by (Z.div_mod_to_equations; lia). done.
  - rewrite <- Z.div2_div. destruct (Z.eq_dec (Z.div2 q) 0) as [E2|E2]; [rewrite Z.div2_div in E2; lia|].
    assert (1 < q) by (Z.div_mod_to_equations; lia).
    pose proof (Z.log2_shiftr q 1 ltac:(lia)) as L. rewrite Z.shiftr_div_pow2 in L by lia.
    change (2 ^ 1) with 2 in L. rewrite Z.div2_div, L.
    assert (1 <= Z.log2 q) by (apply Z.log2_le_pow2; lia). lia.
Qed.

Lemma count_bits_spec a : wf a ->
  exists n, pstm_count_bits a = Okay n /\ Z.of_nat n = (if mag a =? 0 then 0 else Z.log2 (mag a) + 1).
Proof.
  intros Ha. unfold pstm_count_bits. destruct (Nat.eqb_spec (used a) 0) as [E|E].
  { exists 0%nat. apply (mag_zero a Ha) in E as ->. done. }
  destruct (Z.eqb_spec (mag a) 0) as [Em|Em]; [by apply (mag_zero a Ha) in Em|].
  pose proof (pre_used a (wf_pre a Ha)). pose proof (mag_ge a Ha E). pose proof (mag_lt a (wf_pre a Ha)).
  destruct (lookup_lt_is_Some_2 (dp a) (used a - 1)) as [q Hq]; [lia|]. unfold get. rewrite Hq. cbn [mbind ret_bind].
  eexists. split; [done|].
  assert (nth (used a - 1) (dp a) 0 = q) as Eq by by apply nth_lookup_Some.
  rewrite dval_nth in Eq by apply Ha. fold (mag a) in Eq.
  set (u := (used a - 1)%nat) in *. replace (used a) with (S u) in * by lia. rewrite Bpow_S in *.
  pose proof (Bpow_pos u). rewrite Z.mod_small in Eq
    by (split; [apply Z.div_pos; lia|apply Z.div_lt_upper_bound; lia]).
  assert (1 <= q < B) as Hqr.
  { subst q. split; [apply Z.div_le_lower_bound; lia|apply Z.div_lt_upper_bound; lia]. }
  rewrite Nat2Z.inj_add, Nat2Z.inj_mul, bit_count_spec by (change (2 ^ Z.of_nat 32) with B; lia).
  destruct (Z.eqb_spec q 0); [lia|]. rewrite <- Eq. unfold B. rewrite <- Z.pow_mul_r by lia.
  rewrite <- Z.shiftr_div_pow2, Z.log2_shiftr by lia.
  assert (32 * Z.of_nat u <= Z.log2 (mag a)).
  { apply Z.log2_le_pow2; [lia|]. unfold B in *. rewrite Z.pow_mul_r by lia. lia. }
  lia.
Qed.

(** ** Digit shifts *)

Lemma set_spec a b : (1 <= alloc a)%nat -> is_u32 b -> computes (pstm_set a b) b PSTM_ZPOS (alloc a).
Proof.
  intros Ha Hb. unfold pstm_set, put, pstm_zero. cbn [dp sign]. rewrite length_replicate.
  destruct (Nat.ltb_spec 0 (alloc a)); [|lia]. cbn [mbind ret_bind]. destruct (alloc a) as [|n]; [lia|].
  cbn [replicate insert list_insert]. eexists. split; [done|]. unfold mag, alloc, computes. cbn [dp sign used].
  rewrite length_cons, length_replicate. cbn [dval]. rewrite dval_replicate. unfold is_u32 in Hb.
  split; [|repeat split; lia].
  destruct (Z.eqb_spec b 0) as [->|E].
  - split; [split; cbn; [lia|by constructor; auto with pstm|by constructor; auto with pstm|by left]|by left|done].
  - split; [split; cbn; [lia|by constructor; auto with pstm|auto with pstm|by left]|by right|done].
Qed.

Lemma rshd_spec a x : wf a -> computes (pstm_rshd a x) (mag a / B ^ Z.of_nat x) (sign a) (alloc a).
Proof.
  intros Ha. pose proof (mag_lt a (wf_pre a Ha)) as Hm. pose proof (Bpow_pos x). unfold pstm_rshd.
  destruct (Nat.leb_spec (used a) x) as [Hx|Hx].
  - destruct (zero_spec a) as (W & M & A). exists (pstm_zero a). pose proof (Bpow_mono (used a) x Hx).
    rewrite Z.div_small by lia. done.
  - destruct (digits_spec a (wf_pre a Ha)) as (da & -> & La & Da & Va & _). cbn [mbind ret_bind].
    assert (mag a / B ^ Z.of_nat x = dval (drop x da)) as ->.
    { rewrite <- Va, (dval_take_drop x da), length_take, La, Nat.min_l by lia.
      rewrite (Z.mul_comm (B ^ _)), Z.div_add by lia.
      pose proof (dval_range (take x da) ltac:(auto with pstm)) as R. rewrite length_take, Nat.min_l in R by lia.
      rewrite Z.div_small; lia. }
    pose proof (pre_used a (wf_pre a Ha)).
    apply finish_spec; [rewrite length_drop; lia|done|rewrite length_drop; lia|done|auto with pstm|apply Ha| |apply Ha].
    apply zeros_above; [apply Ha|lia].
Qed.

Lemma lshd_spec a b : pre a ->
  exists c, pstm_lshd a b = Okay c /\ pre c /\ mag c = mag a * B ^ Z.of_nat b /\ sign c = sign a /\
    used c = (used a + b)%nat /\ alloc c = (alloc a `max` (used a + b))%nat /\ (wf a -> mag a <> 0 -> wf c).
Proof.
  intros Ha. unfold pstm_lshd. destruct (Nat.eqb_spec b 0) as [->|Hb].
  { exists a. change (B ^ Z.of_nat 0) with 1. pose proof (pre_used a Ha). unfold alloc.
    split; [done|]. split; [done|]. split; [lia|]. split; [done|]. split; [lia|]. split; [lia|done]. }
  pose proof (grow_if a (used a + b) Ha) as G. cbn zeta in G. set (a' := if _ : bool then _ else _) in *.
  destruct G as (Pa & Ma & Ua & Sa & Aa).
  destruct (digits_spec a' Pa) as (da & -> & La & Da & Va & _). cbn [mbind ret_bind].
  assert (length (replicate b 0 ++ da) = (used a + b)%nat) as Lr by (rewrite length_app, length_replicate; lia).
  destruct (store_spec (dp a') (replicate b 0 ++ da) 0) as (d & E & L & D & V & Zr & T);
    [rewrite Lr; fold (alloc a'); lia|lia|apply digits_ok_app; auto with pstm|apply Pa|
     apply zeros_above; [done|lia]|].
  rewrite E. cbn [mbind ret_bind]. rewrite Ua. eexists. split; [done|]. rewrite dval_app, dval_replicate, length_replicate in V.
  assert (pre {| used := used a + b; sign := sign a'; dp := d |}) as Hp.
  { unfold alloc in *. split; cbn; [lia|done|by rewrite <- Lr|apply Pa]. }
  assert (mag {| used := used a + b; sign := sign a'; dp := d |} = mag a * B ^ Z.of_nat b) as Hm
    by (unfold mag at 1; cbn [dp]; rewrite V, Va, Ma; lia).
  split; [done|]. split; [done|]. split; [done|]. split; [done|]. split; [unfold alloc in *; cbn [dp]; congruence|].
  intros Wa Hz. assert (used a <> 0%nat) by (intros E0; apply (mag_zero a Wa) in E0; done).
  apply wf_of_bounds; [done| |cbn; lia]. rewrite Hm. cbn [used]. pose proof (mag_ge a Wa ltac:(done)).
  replace (used a + b - 1)%nat with (used a - 1 + b)%nat by lia. rewrite Bpow_add. pose proof (Bpow_pos b). nia.
Qed.

Lemma dval_insert l i v : (i < length l)%nat ->
  dval (<[i := v]> l) = dval l + (v - nth i l 0) * B ^ Z.of_nat i.
Proof.
  revert i. induction l as [|d l IH]; intros [|i] Hi; cbn [length] in Hi; try lia;
    cbn [insert list_insert dval nth].
  - change (B ^ Z.of_nat 0) with 1. lia.
  - change (list_insert i v l) with (<[i := v]> l). rewrite IH, Bpow_S by lia. ring.
Qed.

Lemma digits_ok_insert l i v : digits_ok l -> is_u32 v -> digits_ok (<[i := v]> l).
Proof. intros. by apply Forall_insert. Qed.

Lemma nth_replicate_0 n i : nth i (replicate n 0) 0 = 0.
Proof. revert i. induction n; intros [|i]; cbn; auto. Qed.

Lemma two_expt_spec a b : 0 <= b -> b / 32 < 4096 ->
  computes (pstm_2expt a b) (2 ^ b) PSTM_ZPOS (alloc a `max` (Z.to_nat (b / 32) + 1)).
Proof.
  intros Hb Hz. unfold pstm_2expt. destruct (Z.ltb_spec b 0); [lia|].
  unfold DIGIT_BIT, PSTM_MAX_SIZE. set (z := Z.to_nat (b / 32)).
  destruct (Nat.leb_spec (Z.to_nat 4096) z) as [Hbad|_].
  { exfalso. assert (Z.of_nat z < 4096) by (unfold z; rewrite Z2Nat.id by (apply Z.div_pos; lia); done). lia. }
  set (a1 := if _ : bool then _ else _).
  assert (a1 = {| used := z + 1; sign := PSTM_ZPOS; dp := replicate (alloc a `max` (z + 1)) 0 |}) as ->.
  { unfold a1, pstm_grow, set_used, pstm_zero, alloc. cbn [dp used sign]. rewrite length_replicate.
    destruct (Nat.ltb_spec (length (dp a)) (z + 1)).
    - unfold set_dp. cbn [used sign dp]. rewrite <- replicate_add. do 2 f_equal. lia.
    - do 2 f_equal. lia. }
  set (n := (alloc a `max` (z + 1))%nat). set (v := u32 (Z.shiftl 1 (b mod 32))).
  assert (v = 2 ^ (b mod 32) /\ 1 <= v < B) as [Ev Hv].
  { pose proof (Z.mod_pos_bound b 32 ltac:(lia)).
    assert (1 <= 2 ^ (b mod 32) < B) as R.
    { split; [pose proof (Z.pow_pos_nonneg 2 (b mod 32)); lia|]. unfold B. apply Z.pow_lt_mono_r; lia. }
    unfold v. rewrite Z.shiftl_1_l, u32_id by (unfold is_u32; fold B; lia). done. }
  unfold put. cbn [dp]. rewrite length_replicate. destruct (Nat.ltb_spec z n); [|unfold n in *; lia].
  cbn [mbind ret_bind]. unfold set_dp. cbn [used sign].
  set (c := {| used := z + 1; sign := PSTM_ZPOS; dp := <[z:=v]> (replicate n 0) |}).
  assert (pre c) as Hp.
  { split; cbn [c used dp sign].
    - rewrite length_insert, length_replicate. lia.
    - apply digits_ok_insert; [auto with pstm|unfold is_u32; fold B; lia].
    - rewrite drop_insert_lt by lia. rewrite drop_replicate. auto with pstm.
    - by left. }
  assert (mag c = 2 ^ b) as Hm.
  { unfold mag, c. cbn [dp]. rewrite dval_insert by (rewrite length_replicate; lia).
    rewrite dval_replicate, nth_replicate_0, Ev. unfold B, z.
    rewrite <- Z.pow_mul_r, Z2Nat.id by (try apply Z.div_pos; lia).
    rewrite Z.sub_0_r, Z.add_0_l, <- Z.pow_add_r by (try apply Z.mod_pos_bound; try (apply Z.mul_nonneg_nonneg; [lia|apply Z.div_pos; lia]); lia).
    f_equal. pose proof (Z_div_mod_eq_full b 32). lia. }
  exists c. split; [done|]. split.
  - apply wf_of_bounds; [done| |cbn; lia]. rewrite Hm. cbn [c used].
    replace (z + 1 - 1)%nat with z by lia. unfold B, z. rewrite Z2Nat.id by (apply Z.div_pos; lia).
    rewrite <- Z.pow_mul_r by (try apply Z.div_pos; lia). apply Z.pow_le_mono_r; [lia|].
    pose proof (Z_div_mod_eq_full b 32). pose proof (Z.mod_pos_bound b 32). lia.
  - split; [done|]. split; [done|]. unfold alloc at 1. cbn [c dp]. by rewrite length_insert, length_replicate.
Qed.

Lemma mul_2_digit d r : is_u32 d -> 0 <= r <= 1 ->
  let x := Z.lor (u32 (Z.shiftl d 1)) r in
  is_u32 x /\ 0 <= Z.shiftr d 31 <= 1 /\ x + B * Z.shiftr d 31 = 2 * d + r.
Proof.
  intros Hd Hr x. unfold is_u32 in *. fold B in *.
  assert (Z.lor (u32 (Z.shiftl d 1)) r = u32 (Z.shiftl d 1) + r) as Ex.
  { rewrite Z.shiftl_mul_pow2 by lia. unfold u32.
    replace (d * 2 ^ 1 mod 2 ^ 32) with (2 * (d mod 2 ^ 31)).
    2:{ change (2 ^ 32) with (2 * 2 ^ 31). rewrite (Z.mul_comm d), Zmult_mod_distr_l. done. }
    rewrite <- Z.add_lor_land. rewrite <- (Z.add_0_r (Z.lor _ _)) at 1. f_equal. symmetry.
    apply Z.bits_inj'. intros n Hn. rewrite Z.land_spec, Z.bits_0.
    destruct (Z.eq_dec n 0) as [->|]; [by rewrite Z.testbit_even_0|].
    rewrite (bits_above r 1 n) by lia. apply andb_false_r. }
  unfold x. rewrite Ex, Z.shiftr_div_pow2, Z.shiftl_mul_pow2 by lia. unfold u32, B in *.
  change (2 ^ 1) with 2. change (2 ^ 31) with 2147483648. change (2 ^ 32) with 4294967296 in *.
  Z.div_mod_to_equations. lia.
Qed.

Lemma mul_2_loop_spec l r : digits_ok l -> 0 <= r <= 1 ->
  let '(ds, c) := mul_2_loop l r in
  digits_ok ds /\ length ds = length l /\ 0 <= c <= 1 /\ dval ds + B ^ Z.of_nat (length l) * c = 2 * dval l + r.
Proof.
  intros Hl. revert r. induction Hl as [|d l Hd Hl IH]; intros r Hr.
  { cbn. repeat split; try lia. constructor. }
  cbn [mul_2_loop]. destruct (mul_2_digit d r Hd Hr) as (Hx & Hc & E). change (DIGIT_BIT - 1) with 31.
  specialize (IH _ Hc). destruct (mul_2_loop l (Z.shiftr d 31)) as [ds c]. destruct IH as (D & L & C & V).
  cbn [dval length]. rewrite Bpow_S, L.
  split; [by constructor|]. split; [lia|]. split; [lia|]. nia.
Qed.

Lemma mul_2_spec a b : wf a -> pre b -> Z.of_nat (used a) < 4095 ->
  computes (pstm_mul_2 a b) (2 * mag a) (sign a) (alloc b `max` (used a + 1)).
Proof.
  intros Ha Hb Hu. unfold pstm_mul_2. pose proof (grow_if b (used a + 1) Hb) as G. cbn zeta in G.
  set (b' := if _ : bool then _ else _) in *. destruct G as (Pb & _ & Ub & _ & Ab).
  destruct (digits_spec a (wf_pre a Ha)) as (da & -> & La & Da & Va & _). cbn [mbind ret_bind].
  pose proof (mul_2_loop_spec da 0 Da ltac:(lia)) as M. destruct (mul_2_loop da 0) as [ds r].
  destruct M as (D & L & C & V). unfold PSTM_MAX_SIZE.
  destruct (Nat.eqb_spec (used a) (Z.to_nat 4096 - 1)); [lia|]. cbn [negb]. rewrite andb_true_r.
  set (ds' := if negb (r =? 0) then ds ++ [1] else ds).
  assert (digits_ok ds' /\ dval ds' = 2 * mag a /\ (length ds' = used a \/ length ds' = S (used a) /\ B ^ Z.of_nat (used a) <= dval ds')) as (D' & V' & L').
  { unfold ds'. destruct (Z.eqb_spec r 0) as [->|]; cbn [negb]; [repeat split; [done|lia|lia]|].
    assert (r = 1) as -> by lia. rewrite dval_app, L, length_app, La. cbn [dval length].
    pose proof (dval_range ds D). rewrite La in V. split; [apply digits_ok_app; split; [done|by repeat constructor]|].
    split; [lia|]. right. split; [lia|]. lia. }
  destruct (store_spec (dp b') ds' (used b')) as (d & E & Ld & Dd & Vd & Zd & T);
    [fold (alloc b'); lia|fold (alloc b'); apply Pb|done|apply Pb|apply zeros_above; [done|lia]|].
  rewrite E. cbn [mbind ret_bind]. set (c := {| used := length ds'; sign := sign a; dp := d |}).
  assert (pre c) as Pc by (split; cbn [c used dp sign]; [fold (alloc b') in Ld; lia|done|done|apply Ha]).
  assert (mag c = 2 * mag a) as Mc by (unfold mag at 1; cbn; congruence).
  exists c. split; [done|]. split; [|split; [done|split; [done|unfold alloc in *; cbn [c dp]; congruence]]].
  destruct (Nat.eq_dec (used a) 0%nat) as [E0|E0].
  - pose proof (proj2 (mag_zero a Ha) E0) as E1. assert (length ds' = 0)%nat as E2.
    { destruct L' as [L'|[L' L2]]; [lia|]. rewrite E0 in L2. change (B ^ Z.of_nat 0) with 1 in L2. lia. }
    split; [done|by left|]. intros _. by apply Ha.
  - apply wf_of_bounds; [done| |cbn; lia]. rewrite Mc. cbn [c used].
    pose proof (mag_ge a Ha E0). pose proof (Bpow_pos (used a - 1)).
    destruct L' as [->|[-> L']]; [lia|].
    replace (S (used a) - 1)%nat with (used a) by lia. lia.
Qed.

(** ** Subtraction *)

Lemma sub_rest_0 l : digits_ok l -> sub_rest l 0 = l.
Proof.
  induction 1 as [|d l Hd _ IH]; [done|]. cbn [sub_rest]. unfold is_u32 in Hd. rewrite Z.sub_0_r.
  rewrite (u64_id d) by (unfold is_u64; lia). rewrite u32_id by done.
  rewrite Z.shiftr_div_pow2, Z.div_small by (unfold DIGIT_BIT; lia). by rewrite IH.
Qed.

Lemma sub_rest_1 d l : digits_ok (d :: l) -> 1 <= d -> sub_rest (d :: l) 1 = (d - 1) :: l.
Proof.
  intros H H1. inversion H as [|? ? Hd Hl]; subst. cbn [sub_rest]. unfold is_u32 in Hd.
  rewrite (u64_id (d - 1)) by (unfold is_u64; lia). rewrite u32_id by (unfold is_u32; lia).
  rewrite Z.shiftr_div_pow2, Z.div_small by (unfold DIGIT_BIT; lia). by rewrite sub_rest_0.
Qed.

(** One digit of the first loop. *)
Lemma sub_digit x y t : is_u32 x -> is_u32 y -> 0 <= t <= 1 ->
  let w := u64 (x - (y + t)) in let t' := Z.land (Z.shiftr w 32) 1 in
  is_u32 (u32 w) /\ 0 <= t' <= 1 /\ u32 w - B * t' = x - y - t.
Proof.
  intros Hx Hy Ht w t'. assert (t' = w / 2 ^ 32 mod 2) as ->.
  { unfold t'. rewrite Z.shiftr_div_pow2 by lia. change 1 with (Z.ones 1). by rewrite Z.land_ones by lia. }
  unfold is_u32, w, u32, u64, B in *.
  change (2 ^ 64) with 18446744073709551616 in *. change (2 ^ 32) with 4294967296 in *.
  Z.div_mod_to_equations. lia.
Qed.

(** The borrow survives one digit of the second loop only; this is enough when
    the first digit above the second number absorbs it. *)
Lemma sub_loop_spec la lb t : digits_ok la -> digits_ok lb -> 0 <= t <= 1 -> (length lb <= length la)%nat ->
  dval lb + t <= dval (take (S (length lb)) la) ->
  digits_ok (sub_loop la lb t) /\ length (sub_loop la lb t) = length la /\
  dval (sub_loop la lb t) = dval la - dval lb - t.
Proof.
  intros Ha. revert lb t. induction Ha as [|x la Hx Ha IH]; intros [|y lb] t Hb Ht Hl Hv;
    cbn [length] in Hl; try lia.
  - cbn in *. split; [constructor|]. lia.
  - cbn [sub_loop]. cbn [length take dval] in Hv. rewrite take_0 in Hv. cbn [dval] in *.
    destruct (Z.eq_dec t 0) as [->|].
    + rewrite sub_rest_0 by by constructor. cbn [dval length]. split; [by constructor|]. lia.
    + replace t with 1 by lia. rewrite sub_rest_1 by (constructor || lia; done || lia).
      cbn [dval length]. split; [constructor; [unfold is_u32 in *; lia|done]|]. lia.
  - inversion Hb as [|? ? Hy Hb']; subst. cbn [sub_loop]. unfold DIGIT_BIT.
    destruct (sub_digit x y t Hx Hy Ht) as (Hw & Ht' & E). set (w := u64 (x - (y + t))) in *.
    set (t' := Z.land (Z.shiftr w 32) 1) in *.
    cbn [length] in Hv. rewrite firstn_cons in Hv. cbn [dval] in Hv.
    unfold is_u32 in Hx, Hy. fold B in Hx, Hy. pose proof B_pos as HB.
    destruct (IH lb t') as (D & L & V); [done|done|lia| |].
    { unfold is_u32 in Hw. fold B in Hw. nia. }
    cbn [dval length]. split; [by constructor|]. split; [lia|]. rewrite V. nia.
Qed.

(** [s_pstm_sub] is correct when the borrow of the digits of [b] is absorbed
    by the next digit of [a]. *)
Lemma s_sub_spec a b c : pre a -> pre b -> pre c -> (used b <= used a)%nat ->
  mag b <= dval (take (S (used b)) (take (used a) (dp a))) ->
  computes (s_pstm_sub a b c) (mag a - mag b) (sign c) (alloc c `max` used a).
Proof.
  intros Ha Hb Hc Hu Hv. unfold s_pstm_sub. destruct (Nat.ltb_spec (used a) (used b)); [lia|].
  pose proof (grow_if c (used a) Hc) as G. cbn zeta in G. set (c' := if _ : bool then _ else _) in *.
  destruct G as (Pc & _ & Uc & Sc & Ac).
  destruct (digits_spec a Ha) as (da & -> & La & Da & Va & Ea).
  destruct (digits_spec b Hb) as (db & -> & Lb & Db & Vb & _). cbn [mbind ret_bind].
  rewrite <- Ea, <- Lb, <- Vb in Hv.
  destruct (sub_loop_spec da db 0 Da Db ltac:(lia)) as (D & L & V); [lia|lia|].
  rewrite Z.sub_0_r, Va, Vb in V. rewrite <- V, <- Sc.
  apply finish_spec; [lia|by rewrite <- Ac|fold (alloc c'); lia|apply Pc|done|apply Pc| |apply Pc].
  apply zeros_above; [done|lia].
Qed.

(** The usual case: the numbers differ by at most one digit in length. *)
Lemma s_sub_close a b c : wf a -> wf b -> pre c -> mag b <= mag a -> (used a <= used b + 1)%nat ->
  computes (s_pstm_sub a b c) (mag a - mag b) (sign c) (alloc c `max` used a).
Proof.
  intros Ha Hb Hc Hm Hu. apply s_sub_spec; [apply Ha|apply Hb|done| |].
  - apply used_le; [done|]. pose proof (mag_lt a (wf_pre a Ha)). lia.
  - rewrite take_ge by (rewrite length_take; lia). by rewrite <- mag_digits by apply Ha.
Qed.

(** ** Addition *)

Lemma get_nth l i : (i < length l)%nat -> get l i = Okay (nth i l 0).
Proof.
  intros H. unfold get. destruct (lookup_lt_is_Some_2 l i H) as [d Hd]. rewrite Hd.
  by rewrite (nth_lookup_Some l i 0 d Hd).
Qed.

Lemma nth_zeros l n i : zeros (drop n l) -> (n <= i)%nat -> nth i l 0 = 0.
Proof.
  intros H Hi. destruct (l !! i) as [d|] eqn:E; [|by rewrite nth_overflow by by apply lookup_ge_None].
  rewrite (nth_lookup_Some l i 0 d E). symmetry. apply (proj1 (Forall_lookup _ _) H (i - n)%nat).
  rewrite lookup_drop. by replace (n + (i - n))%nat with i by lia.
Qed.

(** The digits of [l] from [x] on, [n] of them, zeros above the array. *)
Definition slice (l : list Z) (x n : nat) : list Z := (fun i => nth i l 0) <$> seq x n.

Lemma slice_mag a y : pre a -> (used a <= y)%nat -> dval (slice (dp a) 0 y) = mag a.
Proof.
  intros Ha Hy. unfold mag.
  pose proof (zeros_above a y Ha Hy) as Hz. clear Ha Hy. revert Hz. generalize (dp a) as l. intros l. revert y.
  induction l as [|x l IH]; intros y Hz.
  - apply dval_zeros, Forall_fmap, Forall_true. intros i. cbn. by destruct i.
  - destruct y as [|y]; [cbn in Hz; cbn [slice seq fmap list_fmap]; symmetry; by apply dval_zeros|].
    cbn [drop] in Hz. specialize (IH y Hz). unfold slice in *. cbn [seq fmap list_fmap dval nth].
    rewrite <- IH. do 2 f_equal. f_equal. rewrite <- fmap_S_seq, <- list_fmap_compose. done.
Qed.

Definition readable (a : pstm_int) (i : nat) : Prop := (i < alloc a)%nat \/ (used a < i)%nat.

Lemma add_digit_spec a i : pre a -> readable a i -> add_digit a i = Okay (nth i (dp a) 0).
Proof.
  intros Ha Hi. unfold add_digit. destruct (Nat.ltb_spec (used a) i).
  - by rewrite (nth_zeros (dp a) (used a)) by (apply Ha || lia).
  - apply get_nth. unfold readable, alloc in Hi. lia.
Qed.

Lemma nth_digit l i : digits_ok l -> 0 <= nth i l 0 < B.
Proof. intros H. rewrite dval_nth by done. apply Z.mod_pos_bound. done. Qed.

Lemma add_loop_spec a b n x t : pre a -> pre b -> 0 <= t <= 1 ->
  (forall i, (x <= i < x + n)%nat -> readable a i /\ readable b i) ->
  exists ds r, add_loop n x a b t = Okay (ds, r) /\ digits_ok ds /\ length ds = n /\ 0 <= r <= 1 /\
    dval ds + B ^ Z.of_nat n * r = dval (slice (dp a) x n) + dval (slice (dp b) x n) + t.
Proof.
  intros Ha Hb. revert x t. induction n as [|n IH]; intros x t Ht Hr.
  { exists [], t. cbn. repeat split; try lia. constructor. }
  cbn [add_loop]. destruct (Hr x ltac:(lia)) as [Ra Rb].
  rewrite (add_digit_spec a), (add_digit_spec b) by done. cbn [mbind ret_bind].
  pose proof (nth_digit (dp a) x (pre_digits a Ha)) as Na. pose proof (nth_digit (dp b) x (pre_digits b Hb)) as Nb.
  set (p := nth x (dp a) 0) in *. set (q := nth x (dp b) 0) in *. set (w := u64 (t + (p + q))).
  assert (0 <= Z.shiftr w DIGIT_BIT <= 1 /\ is_u32 (u32 w) /\ u32 w + B * Z.shiftr w DIGIT_BIT = t + p + q) as (C & D & E).
  { unfold DIGIT_BIT, w, is_u32. rewrite Z.shiftr_div_pow2 by lia. unfold u32, u64, B in *.
    change (2 ^ 64) with 18446744073709551616. change (2 ^ 32) with 4294967296 in *. Z.div_mod_to_equations. lia. }
  destruct (IH (S x) (Z.shiftr w DIGIT_BIT) C) as (ds & r & El & Dd & Ld & Cr & V).
  { intros i Hi. apply Hr. lia. }
  rewrite El. cbn [mbind ret_bind]. exists (u32 w :: ds), r. split; [done|]. split; [by constructor|].
  split; [cbn; lia|]. split; [done|]. unfold slice in *. cbn [seq fmap list_fmap dval]. fold p q. rewrite Bpow_S. nia.
Qed.

(** [s_pstm_add] reads one digit above the shorter number, so its array must
    have room for it. *)
Lemma s_add_spec a b c : pre a -> pre b -> pre c ->
  (used a < alloc a \/ used b <= used a)%nat -> (used b < alloc b \/ used a <= used b)%nat ->
  Z.of_nat (used a `max` used b) < 4096 ->
  exists n, computes (s_pstm_add a b c) (mag a + mag b) (sign c) n.
Proof.
  intros Ha Hb Hc H1 H2 H3. unfold s_pstm_add. set (y := (used a `max` used b)%nat) in *.
  pose proof (grow_if c y Hc) as G. cbn zeta in G. set (c' := if (alloc c <? y)%nat then _ else _) in *.
  destruct G as (Pc & _ & Uc & Sc & Ac).
  pose proof (pre_used a Ha) as Ua. pose proof (pre_used b Hb) as Ub. fold (alloc a) in Ua. fold (alloc b) in Ub.
  destruct (add_loop_spec a b y 0 0 Ha Hb ltac:(lia)) as (ds & r & -> & D & L & C & V).
  { intros i Hi. unfold readable. unfold y in Hi. lia. }
  cbn [mbind ret_bind]. rewrite !slice_mag in V by (done || lia). unfold PSTM_MAX_SIZE.
  destruct (Nat.ltb_spec y (Z.to_nat 4096)); [|lia]. rewrite andb_true_r.
  destruct (Z.eqb_spec r 0) as [->|Hr]; cbn [negb].
  - exists (alloc c'). replace (mag a + mag b) with (dval ds) by lia. rewrite <- Sc, <- Uc.
    apply finish_spec; [done|done|fold (alloc c'); lia|apply Pc|done|apply Pc|apply zeros_above; [done|lia]|apply Pc].
  - assert (r = 1) as -> by lia. change (u32 1) with 1.
    pose proof (grow_spec c' (alloc c' + 1) Pc) as (Pg & _ & Ug & Sg & Ag).
    set (c2 := if (y =? alloc c')%nat then pstm_grow c' (alloc c' + 1) else c').
    assert (pre c2 /\ used c2 = used c /\ sign c2 = sign c /\ (S y <= alloc c2)%nat) as (P2 & U2 & S2 & A2).
    { unfold c2. destruct (Nat.eqb_spec y (alloc c')); repeat split; try apply Pg; try apply Pc; try congruence; lia. }
    exists (alloc c2). replace (mag a + mag b) with (dval (ds ++ [1])) by (rewrite dval_app, L; cbn [dval]; lia).
    rewrite <- S2, <- U2.
    apply finish_spec; [done|done|rewrite length_app; cbn; fold (alloc c2); lia|apply P2| |apply P2| |apply P2].
    + apply digits_ok_app. split; [done|by apply Forall_singleton].
    + apply zeros_above; [done|rewrite length_app; cbn; lia].
Qed.

(** ** Signed subtraction and addition of numbers of similar length *)

Lemma value_nonneg a : sign a = PSTM_ZPOS -> value a = mag a.
Proof. unfold value. by intros ->. Qed.

Lemma computes_value r v s n : computes r v s n -> is_sign s ->
  exists c, r = Okay c /\ wf c /\ mag c = v /\ value c = (if s =? PSTM_NEG then - v else v) /\ alloc c = n.
Proof.
  intros (c & E & W & M & S & A) Hs. exists c. split; [done|]. split; [done|]. split; [done|]. split; [|done].
  unfold value. rewrite M. destruct (Z.eq_dec v 0) as [->|Hv]; [by destruct (_ =? _), (_ =? _)|].
  by rewrite S.
Qed.

Lemma set_sign_pre a s : pre a -> is_sign s -> pre (set_sign s a).
Proof. intros [? ? ? ?] ?. by split. Qed.

Lemma pstm_sub_pos a b c : wf a -> wf b -> pre c -> sign a = PSTM_ZPOS -> sign b = PSTM_ZPOS ->
  (used a <= used b + 1)%nat -> (used b <= used a + 1)%nat ->
  exists r, pstm_sub a b c = Okay r /\ wf r /\ value r = mag a - mag b /\ mag r = Z.abs (mag a - mag b) /\
    (alloc r >= alloc c /\ alloc r <= alloc c `max` (used a `max` used b))%nat.
Proof.
  intros Ha Hb Hc Sa Sb U1 U2. unfold pstm_sub. rewrite Sa, Sb. cbn [negb Z.eqb PSTM_ZPOS].
  rewrite cmp_mag_spec by done. cbn [mbind ret_bind]. rewrite cmpz_lt.
  destruct (Z.ltb_spec (mag a) (mag b)); cbn [negb].
  - destruct (computes_value _ _ _ _ (s_sub_close b a (set_sign PSTM_NEG c) Hb Ha
      (set_sign_pre c _ Hc (or_intror eq_refl)) ltac:(lia) U2)) as (r & E & W & M & V & A); [by right|].
    exists r. split; [done|]. split; [done|]. cbn in V, A. unfold alloc in *. cbn in A. repeat split; lia.
  - destruct (computes_value _ _ _ _ (s_sub_close a b (set_sign PSTM_ZPOS c) Ha Hb
      (set_sign_pre c _ Hc (or_introl eq_refl)) ltac:(lia) U1)) as (r & E & W & M & V & A); [by left|].
    exists r. split; [done|]. split; [done|]. cbn in V, A. unfold alloc in *. cbn in A. repeat split; lia.
Qed.

(** Adding a larger number to a negative one. *)
Lemma pstm_add_neg a b c : wf a -> wf b -> pre c -> sign a = PSTM_NEG -> sign b = PSTM_ZPOS ->
  mag a <= mag b -> (used b <= used a + 1)%nat ->
  exists r, pstm_add a b c = Okay r /\ wf r /\ mag r = mag b - mag a /\ value r = mag b - mag a /\
    alloc r = (alloc c `max` used b)%nat.
Proof.
  intros Ha Hb Hc Sa Sb Hm Hu. unfold pstm_add. rewrite Sa, Sb. cbn [Z.eqb PSTM_NEG PSTM_ZPOS].
  rewrite cmp_mag_spec by done. cbn [mbind ret_bind]. rewrite cmpz_lt.
  destruct (Z.ltb_spec (mag a) (mag b)) as [Hl|Hl].
  - destruct (computes_value _ _ _ _ (s_sub_close b a (set_sign PSTM_ZPOS c) Hb Ha
      (set_sign_pre c _ Hc (or_introl eq_refl)) ltac:(lia) Hu)) as (r & E & W & M & V & A); [by left|].
    exists r. split; [done|]. split; [done|]. split; [done|]. split; [done|]. exact A.
  - assert (used a = used b) as Eu.
    { assert (mag a = mag b) as Em by lia. apply Nat.le_antisymm.
      - apply used_le; [done|]. rewrite Em. apply mag_lt, Hb.
      - apply used_le; [done|]. rewrite <- Em. apply mag_lt, Ha. }
    destruct (computes_value _ _ _ _ (s_sub_close a b (set_sign PSTM_NEG c) Ha Hb
      (set_sign_pre c _ Hc (or_intror eq_refl)) ltac:(lia) ltac:(lia))) as (r & E & W & M & V & A); [by right|].
    exists r. split; [done|]. split; [done|]. cbn in V. split; [lia|]. split; [lia|]. rewrite A, Eu. done.
Qed.

(** ** Powers of two and single digits *)

Lemma shl_digit b d c : 0 < b < 32 -> is_u32 d -> 0 <= c < 2 ^ b ->
  let x := u32 (u32 (Z.shiftl d b) + c) in let k := Z.shiftr d (32 - b) in
  is_u32 x /\ 0 <= k < 2 ^ b /\ x + B * k = d * 2 ^ b + c.
Proof.
  intros Hb Hd Hc x k. unfold is_u32 in *. fold B in *.
  assert (B = 2 ^ (32 - b) * 2 ^ b) as EB by (unfold B; rewrite <- Z.pow_add_r by lia; f_equal; lia).
  pose proof (Z.pow_pos_nonneg 2 b ltac:(lia) ltac:(lia)). pose proof (Z.pow_pos_nonneg 2 (32 - b) ltac:(lia) ltac:(lia)).
  assert (k = d / 2 ^ (32 - b)) as Ek by (unfold k; by rewrite Z.shiftr_div_pow2 by lia).
  assert (u32 (Z.shiftl d b) = (d mod 2 ^ (32 - b)) * 2 ^ b) as Es.
  { unfold u32. fold B. rewrite Z.shiftl_mul_pow2, EB by lia. by rewrite Zmult_mod_distr_r. }
  pose proof (Z.mod_pos_bound d (2 ^ (32 - b)) ltac:(lia)) as Rm.
  assert (0 <= u32 (Z.shiftl d b) + c < B) as R by (rewrite Es; nia).
  assert (x = u32 (Z.shiftl d b) + c) as Ex by (unfold x; by rewrite u32_id).
  split; [by rewrite Ex|]. split.
  - rewrite Ek. split; [apply Z.div_pos; lia|]. apply Z.div_lt_upper_bound; lia.
  - rewrite Ex, Es, Ek. pose proof (Z_div_mod_eq_full d (2 ^ (32 - b))). nia.
Qed.

Lemma shl_loop_spec b l c : 0 < b < 32 -> digits_ok l -> 0 <= c < 2 ^ b ->
  let '(ds, r) := shl_loop b l c in
  digits_ok ds /\ length ds = length l /\ 0 <= r < 2 ^ b /\
  dval ds + B ^ Z.of_nat (length l) * r = dval l * 2 ^ b + c.
Proof.
  intros Hb Hl. revert c. induction Hl as [|d l Hd Hl IH]; intros c Hc.
  { cbn. split; [constructor|]. lia. }
  cbn [shl_loop]. destruct (shl_digit b d c Hb Hd Hc) as (Hx & Hk & E). unfold DIGIT_BIT.
  specialize (IH _ Hk). destruct (shl_loop b l (Z.shiftr d (32 - b))) as [ds r]. destruct IH as (D & L & R & V).
  cbn [dval length]. rewrite Bpow_S, L. split; [by constructor|]. split; [done|]. split; [done|]. nia.
Qed.

Lemma mul_2d_spec a b c : wf a -> pre c -> (b < 32)%nat -> Z.of_nat (used a) < 4096 ->
  exists n, computes (pstm_mul_2d a b c) (mag a * 2 ^ Z.of_nat b) (sign a) n /\
    (n >= alloc c /\ n >= used a)%nat /\ (n <= alloc c `max` used a + 1)%nat.
Proof.
  intros Ha Hc Hb Hu. unfold pstm_mul_2d.
  destruct (copy_spec a c Ha Hc) as (c1 & -> & W1 & M1 & S1 & U1 & A1). cbn [mbind ret_bind].
  destruct (Nat.leb_spec 32 b); [lia|]. cbn [mbind ret_bind]. rewrite Nat.mod_small by lia.
  destruct (Z.eqb_spec (Z.of_nat b) 0) as [Eb|Eb].
  { exists (alloc c1). replace (Z.of_nat b) with 0 by lia. rewrite Z.mul_1_r, <- M1, <- S1. split; [|lia].
    destruct (clamp_spec c1 (wf_pre _ W1)) as (c2 & E & W & M & A & _ & S & _). by exists c2. }
  destruct (digits_spec c1 (wf_pre _ W1)) as (dc & -> & Lc & Dc & Vc & _). cbn [mbind ret_bind].
  pose proof (shl_loop_spec (Z.of_nat b) dc 0 ltac:(lia) Dc ltac:(pose proof (Z.pow_pos_nonneg 2 (Z.of_nat b)); lia)) as Sp.
  destruct (shl_loop (Z.of_nat b) dc 0) as [ds r]. destruct Sp as (D & L & R & V).
  unfold PSTM_MAX_SIZE. destruct (Nat.ltb_spec (used c1) (Z.to_nat 4096)); [|lia]. rewrite andb_true_r.
  pose proof (pre_used c1 (wf_pre _ W1)) as Hu1. fold (alloc c1) in Hu1.
  destruct (Z.eqb_spec r 0) as [->|Hr]; cbn [negb].
  - exists (alloc c1). split; [|lia]. replace (mag a * 2 ^ Z.of_nat b) with (dval ds) by lia. rewrite <- S1.
    apply finish_spec; [done|done|fold (alloc c1); lia|lia|done|apply W1|apply zeros_above; [apply W1|lia]|apply W1].
  - pose proof (grow_spec c1 (alloc c1 + 1) (wf_pre _ W1)) as (Pg & _ & Ug & Sg & Ag).
    set (c2 := if (used c1 =? alloc c1)%nat then _ else c1).
    assert (pre c2 /\ used c2 = used c1 /\ sign c2 = sign a /\ (S (used c1) <= alloc c2)%nat /\
            (alloc c1 <= alloc c2 <= alloc c1 `max` (used c1 + 1))%nat) as (P2 & U2 & S2 & A2 & A3).
    { unfold c2. destruct (Nat.eqb_spec (used c1) (alloc c1)); repeat split; try apply Pg; try apply W1; try congruence; lia. }
    exists (alloc c2). split; [|lia].
    assert (is_u32 r) as Hr32.
    { unfold is_u32. split; [lia|]. apply Z.lt_trans with (2 ^ Z.of_nat b); [lia|]. apply Z.pow_lt_mono_r; lia. }
    replace (mag a * 2 ^ Z.of_nat b) with (dval (ds ++ [r])) by (rewrite dval_app; cbn [dval]; rewrite L; lia).
    rewrite <- S2.
    apply finish_spec; [done|done|rewrite length_app; cbn; fold (alloc c2); lia|lia| |apply P2| |apply P2].
    + apply digits_ok_app. split; [done|by apply Forall_singleton].
    + apply zeros_above; [done|rewrite length_app; cbn; lia].
Qed.

Lemma mul_d_loop_spec b l w : is_u32 b -> digits_ok l -> is_u32 w ->
  let '(ds, r) := mul_d_loop b l w in
  digits_ok ds /\ length ds = length l /\ is_u32 r /\ dval ds + B ^ Z.of_nat (length l) * r = dval l * b + w.
Proof.
  intros Hb Hl. revert w. induction Hl as [|d l Hd Hl IH]; intros w Hw.
  { cbn. split; [constructor|]. split; [done|]. split; [done|]. lia. }
  cbn [mul_d_loop]. unfold DIGIT_BIT. set (p := d * b + w).
  assert (0 <= p < B * B) as Rp by (unfold p, is_u32 in *; fold B in *; nia).
  rewrite (u64_id p) by (unfold is_u64; change (2 ^ 64) with (B * B); lia).
  assert (is_u32 (Z.shiftr p 32) /\ is_u32 (u32 p) /\ u32 p + B * Z.shiftr p 32 = p) as (C & D & E).
  { rewrite Z.shiftr_div_pow2 by lia. unfold is_u32, u32. fold B. pose proof (Z_div_mod_eq_full p B).
    pose proof (Z.mod_pos_bound p B ltac:(done)). pose proof B_pos.
    repeat split; try lia; [apply Z.div_pos; lia|apply Z.div_lt_upper_bound; lia]. }
  specialize (IH _ C). destruct (mul_d_loop b l (Z.shiftr p 32)) as [ds r]. destruct IH as (D' & L & R & V).
  cbn [dval length]. rewrite Bpow_S, L. split; [by constructor|]. split; [done|]. split; [done|].
  transitivity (u32 p + B * (dval ds + B ^ Z.of_nat (length l) * r)); [ring|]. rewrite V.
  transitivity (u32 p + B * Z.shiftr p 32 + B * (dval l * b)); [ring|]. rewrite E. unfold p. ring.
Qed.

Lemma mul_d_spec a b c : pre a -> pre c -> is_u32 b -> Z.of_nat (used a) < 4096 ->
  computes (pstm_mul_d a b c) (mag a * b) (sign a) (alloc c `max` (used a + 1)).
Proof.
  intros Ha Hc Hb Hu. unfold pstm_mul_d.
  pose proof (grow_if c (used a + 1) Hc) as G. cbn zeta in G. set (c' := if _ : bool then _ else _) in *.
  destruct G as (Pc & _ & Uc & _ & Ac).
  destruct (digits_spec a Ha) as (da & -> & La & Da & Va & _). cbn [mbind ret_bind].
  pose proof (mul_d_loop_spec b da 0 Hb Da ltac:(done)) as M. destruct (mul_d_loop b da 0) as [ds w].
  destruct M as (D & L & R & V). unfold PSTM_MAX_SIZE. destruct (Nat.eqb_spec (used a) (Z.to_nat 4096)); [lia|].
  cbn [negb]. rewrite andb_true_r. destruct (Z.eqb_spec w 0) as [->|Hw]; cbn [negb].
  - replace (mag a * b) with (dval ds) by lia.
    apply finish_spec; [done|by rewrite <- Ac|fold (alloc c'); lia|apply Pc|done|apply Pc|apply zeros_above; [done|lia]|apply Ha].
  - rewrite (u32_id w) by done.
    replace (mag a * b) with (dval (ds ++ [w])) by (rewrite dval_app; cbn [dval]; rewrite L; lia).
    apply finish_spec; [done|by rewrite <- Ac|rewrite length_app; cbn; fold (alloc c'); lia|apply Pc| |apply Pc| |apply Ha].
    + apply digits_ok_app. split; [done|by apply Forall_singleton].
    + apply zeros_above; [done|rewrite length_app; cbn; lia].
Qed.

Lemma shr_digit D d r : 0 < D < 32 -> is_u32 d -> 0 <= r < 2 ^ D ->
  let x := Z.lor (Z.shiftr d D) (u32 (Z.shiftl r (32 - D))) in let r' := Z.land d (u32 (Z.shiftl 1 D - 1)) in
  is_u32 x /\ 0 <= r' < 2 ^ D /\ r * B + d = x * 2 ^ D + r'.
Proof.
  intros HD Hd Hr x r'. unfold is_u32 in *. fold B in *.
  assert (B = 2 ^ (32 - D) * 2 ^ D) as EB by (unfold B; rewrite <- Z.pow_add_r by lia; f_equal; lia).
  pose proof (Z.pow_pos_nonneg 2 D ltac:(lia) ltac:(lia)). pose proof (Z.pow_pos_nonneg 2 (32 - D) ltac:(lia) ltac:(lia)).
  assert (2 ^ D < B) by (unfold B; apply Z.pow_lt_mono_r; lia).
  assert (r' = d mod 2 ^ D) as Er.
  { unfold r'. rewrite Z.shiftl_1_l, u32_id by (unfold is_u32; fold B; lia).
    replace (2 ^ D - 1) with (Z.ones D) by (rewrite Z.ones_equiv; lia). by rewrite Z.land_ones by lia. }
  assert (x = r * 2 ^ (32 - D) + d / 2 ^ D) as Ex.
  { unfold x. rewrite Z.shiftr_div_pow2, Z.shiftl_mul_pow2 by lia.
    rewrite (u32_id (r * _)) by (unfold is_u32; fold B; nia).
    assert (0 <= d / 2 ^ D < 2 ^ (32 - D)) as R
      by (split; [apply Z.div_pos; lia|apply Z.div_lt_upper_bound; lia]).
    rewrite Z.lor_comm, <- Z.shiftl_mul_pow2 by lia. by rewrite <- add_mul_lor, Z.shiftl_mul_pow2 by lia. }
  split; [|split].
  - rewrite Ex. split; [pose proof (Z.div_pos d (2 ^ D)); nia|].
    assert (d / 2 ^ D < 2 ^ (32 - D)) by (apply Z.div_lt_upper_bound; lia). nia.
  - rewrite Er. apply Z.mod_pos_bound. lia.
  - rewrite Ex, Er. pose proof (Z_div_mod_eq_full d (2 ^ D)). nia.
Qed.

Lemma shr_loop_spec D l r : 0 < D < 32 -> digits_ok l -> 0 <= r < 2 ^ D ->
  digits_ok (shr_loop D l r) /\ length (shr_loop D l r) = length l /\
  dval (reverse (shr_loop D l r)) = (r * B ^ Z.of_nat (length l) + dval (reverse l)) / 2 ^ D.
Proof.
  intros HD Hl. revert r. induction Hl as [|d l Hd Hl IH]; intros r Hr.
  { cbn. split; [constructor|]. split; [done|]. change (B ^ Z.of_nat 0) with 1. rewrite Z.div_small; lia. }
  cbn [shr_loop]. unfold DIGIT_BIT. destruct (shr_digit D d r HD Hd Hr) as (Hx & Hr' & E).
  set (x := Z.lor _ _) in *. set (r' := Z.land d _) in *.
  destruct (IH r' Hr') as (Ds & L & V). split; [by constructor|]. split; [cbn; lia|].
  rewrite !reverse_cons, !dval_app, !length_reverse, V, L. cbn [dval length]. rewrite Bpow_S.
  set (P := B ^ Z.of_nat (length l)). set (v := dval (reverse l)).
  replace (r * (B * P) + (v + P * (d + B * 0))) with (r' * P + v + x * P * 2 ^ D) by nia.
  rewrite Z.div_add by (pose proof (Z.pow_pos_nonneg 2 D); lia). ring.
Qed.

Lemma div_2d_spec a b c : wf a -> pre c -> sign a = PSTM_ZPOS ->
  exists q, pstm_div_2d a b c None = Okay (q, None) /\ wf q /\ mag q = mag a / 2 ^ Z.of_nat b /\
    sign q = PSTM_ZPOS /\ alloc q = (alloc c `max` used a)%nat.
Proof.
  intros Ha Hc Sa. unfold pstm_div_2d.
  destruct (copy_spec a c Ha Hc) as (c1 & -> & W1 & M1 & S1 & U1 & A1). cbn [mbind ret_bind].
  destruct (Nat.eqb_spec b 0) as [->|Hb].
  { exists c1. rewrite M1, S1. change (2 ^ Z.of_nat 0) with 1. by rewrite Z.div_1_r. }
  assert (exists c2, (if (32 <=? b)%nat then pstm_rshd c1 (b / 32) else Okay c1) = Okay c2 /\ wf c2 /\
    mag c2 = mag a / B ^ Z.of_nat (b / 32) /\ sign c2 = PSTM_ZPOS /\ alloc c2 = alloc c1) as (c2 & -> & W2 & M2 & S2 & A2).
  { destruct (Nat.leb_spec 32 b).
    - destruct (rshd_spec c1 (b / 32) W1) as (c2 & E & W & M & S & A). exists c2. rewrite M, M1.
      split; [done|]. split; [done|]. split; [done|]. split; [|done].
      destruct (Z.eq_dec (mag c2) 0) as [E0|E0]; [apply W; by apply (mag_zero c2 W)|]. rewrite S; congruence.
    - exists c1. rewrite Nat.div_small by lia. change (B ^ Z.of_nat 0) with 1. rewrite Z.div_1_r, S1. done. }
  cbn [mbind ret_bind]. set (D := Z.of_nat (b mod 32)).
  destruct (digits_spec c2 (wf_pre _ W2)) as (dc & -> & Lc & Dc & Vc & _). cbn [mbind ret_bind].
  set (ds := if D =? 0 then dc else reverse (shr_loop D (reverse dc) 0)).
  assert (0 <= D < 32) as HD by (unfold D; pose proof (Nat.mod_upper_bound b 32); lia).
  assert (digits_ok ds /\ length ds = used c2 /\ dval ds = mag c2 / 2 ^ D) as (Dd & Ld & Vd).
  { unfold ds. destruct (Z.eqb_spec D 0) as [->|HD0].
    - change (2 ^ 0) with 1. rewrite Z.div_1_r. done.
    - destruct (shr_loop_spec D (reverse dc) 0) as (D1 & L1 & V1);
        [lia|by apply Forall_reverse|pose proof (Z.pow_pos_nonneg 2 D); lia|].
      rewrite length_reverse in *. split; [by apply Forall_reverse|]. split; [lia|].
      rewrite V1, Z.mul_0_l, Z.add_0_l, reverse_involutive, Vc. done. }
  pose proof (pre_used c2 (wf_pre _ W2)) as Hu2.
  destruct (finish_spec (dp c2) ds 0 PSTM_ZPOS (used c2) (alloc c2)) as (q & E & W & M & S & A);
    [done|done|lia|lia|done|apply W2|apply zeros_above; [apply W2|lia]|by left|].
  unfold mbind, ret_bind in E |- *. destruct (store (dp c2) ds 0) as [d| |]; [|done..].
  unfold set_dp. rewrite S2, E. exists q. split; [done|]. split; [done|].
  split; [|split; [|congruence]].
  - rewrite M, Vd, M2. unfold B. rewrite <- Z.pow_mul_r, Z.div_div, <- Z.pow_add_r by (try apply Z.pow_pos_nonneg; lia).
    do 2 f_equal. unfold D. pose proof (Nat.div_mod_eq b 32). lia.
  - destruct (Z.eq_dec (mag q) 0) as [E0|E0]; [apply W; by apply (mag_zero q W)|]. apply S. congruence.
Qed.

(** ** Bytes *)

Lemma le_digits_spec n l : bytes_ok l ->
  digits_ok (le_digits n l) /\ length (le_digits n l) = n /\ dval (le_digits n l) = le_val (take (4 * n) l).
Proof.
  revert l. induction n as [|n IH]; intros l Hl; [by cbn|].
  destruct (IH (drop 4 l) ltac:(auto with bytes)) as (D & L & V). cbn [le_digits dval length].
  assert (bytes_ok (take 4 l)) as H4 by auto with bytes. pose proof (le_val_range _ H4) as R.
  assert (256 ^ Z.of_nat (length (take 4 l)) <= B) as HB.
  { rewrite length_take. change B with (256 ^ 4). apply Z.pow_le_mono_r; lia. }
  split; [constructor; [unfold is_u32; fold B; lia|done]|]. split; [lia|]. rewrite V.
  replace (4 * S n)%nat with (4 + 4 * n)%nat by lia.
  assert (take (4 + 4 * n) l = take 4 l ++ take (4 * n) (drop 4 l)) as ->.
  { rewrite <- (take_drop 4 l) at 1. rewrite take_app. f_equal; [by rewrite take_take, Nat.min_r by lia|].
    rewrite length_take. destruct (Nat.lt_ge_cases (length l) 4).
    - by rewrite (drop_ge l) by lia; rewrite !take_nil.
    - f_equal. lia. }
  rewrite le_val_app. destruct (Nat.lt_ge_cases (length l) 4).
  - rewrite (drop_ge l) by lia. rewrite take_nil. cbn [le_val]. lia.
  - rewrite length_take, Nat.min_l by lia. done.
Qed.

Lemma read_unsigned_bin_spec a b c : (c <= length b)%nat -> Z.of_nat c <= 16384 -> bytes_ok b ->
  computes (pstm_read_unsigned_bin a b c) (be_val (take c b)) PSTM_ZPOS (alloc a `max` ((c + 3) / 4)).
Proof.
  intros Hc Hm Hb. unfold pstm_read_unsigned_bin. destruct (Nat.ltb_spec (length b) c); [lia|].
  replace (PSTM_MAX_SIZE * 4)%nat with (Z.to_nat 16384) by (unfold PSTM_MAX_SIZE; lia). destruct (Nat.ltb_spec (Z.to_nat 16384) c); [lia|].
  set (u := ((c + 3) / 4)%nat). destruct (zero_spec a) as (W & M & A).
  pose proof (grow_if (pstm_zero a) u (wf_pre _ W)) as G. cbn zeta in G. set (a' := if _ : bool then _ else _) in *.
  destruct G as (Pa & Ma & Ua & Sa & Aa). rewrite A in Aa. change (used (pstm_zero a)) with 0%nat in Ua.
  destruct (le_digits_spec u (reverse (take c b))) as (D & L & V); [apply bytes_ok_reverse; auto with bytes|].
  assert (c <= 4 * u)%nat as Hu.
  { unfold u. pose proof (Nat.div_mod_eq (c + 3) 4). pose proof (Nat.mod_upper_bound (c + 3) 4). lia. }
  rewrite (take_ge (reverse (take c b))) in V by (rewrite length_reverse, length_take; lia).
  change (le_val (reverse (take c b))) with (be_val (take c b)) in V. rewrite <- V, <- Aa, Sa.
  apply finish_spec; [done|done|fold (alloc a'); lia|lia|done|apply Pa|apply zeros_above; [done|lia]|by left].
Qed.

(** The number of bytes of a value. *)
Definition nbits (m : Z) : Z := if m =? 0 then 0 else Z.log2 m + 1.
Definition nbytes (m : Z) : nat := Z.to_nat ((nbits m + 7) / 8).

Lemma nbytes_div m : 0 < m -> nbytes m = S (nbytes (m / 256)).
Proof.
  intros Hm. unfold nbytes, nbits. destruct (Z.eqb_spec m 0); [lia|]. pose proof (Z.log2_nonneg m).
  destruct (Z.lt_ge_cases m 256) as [Hl|Hl].
  - rewrite (Z.div_small m 256) by lia. cbn [Z.eqb]. assert (Z.log2 m < 8) by (apply Z.log2_lt_pow2; lia).
    change (Z.to_nat ((0 + 7) / 8)) with 0%nat.
    replace ((Z.log2 m + 1 + 7) / 8) with 1 by (Z.div_mod_to_equations; lia). done.
  - assert (8 <= Z.log2 m) by (apply Z.log2_le_pow2; lia).
    pose proof (Z.log2_shiftr m 8 ltac:(lia)) as L. rewrite Z.shiftr_div_pow2 in L by lia. change (2 ^ 8) with 256 in L.
    assert (1 <= m / 256) by (apply Z.div_le_lower_bound; lia).
    destruct (Z.eqb_spec (m / 256) 0); [lia|]. rewrite L. Z.div_mod_to_equations; lia.
Qed.

Lemma nbytes_range m : 0 <= m -> m < 256 ^ Z.of_nat (nbytes m).
Proof.
  intros Hm. unfold nbytes, nbits. destruct (Z.eqb_spec m 0); [by subst|].
  pose proof (Z.log2_nonneg m). pose proof (Z.log2_spec m ltac:(lia)) as [_ L].
  rewrite Z2Nat.id by (apply Z.div_pos; lia). change 256 with (2 ^ 8). rewrite <- Z.pow_mul_r by (try apply Z.div_pos; lia).
  eapply Z.lt_le_trans; [exact L|]. apply Z.pow_le_mono_r; [lia|]. Z.div_mod_to_equations; lia.
Qed.

Lemma nbytes_mono m n : 0 <= m <= n -> (nbytes m <= nbytes n)%nat.
Proof.
  intros H. unfold nbytes, nbits. apply Z2Nat.inj_le.
  1,2: destruct (_ =? 0); [done|]; apply Z.div_pos; try lia; match goal with |- context [Z.log2 ?x] => pose proof (Z.log2_nonneg x) end; lia.
  apply Z.div_le_mono; [lia|]. pose proof (Z.log2_le_mono m n ltac:(lia)). pose proof (Z.log2_nonneg n).
  destruct (Z.eqb_spec m 0), (Z.eqb_spec n 0); lia.
Qed.

Lemma unsigned_bin_size_spec a : wf a -> pstm_unsigned_bin_size a = Okay (nbytes (mag a)).
Proof.
  intros Ha. unfold pstm_unsigned_bin_size. destruct (count_bits_spec a Ha) as (n & -> & En). cbn [mbind ret_bind].
  f_equal. unfold nbytes, nbits. rewrite <- En. pose proof (Nat.div_mod_eq n 8). pose proof (Nat.mod_upper_bound n 8).
  apply Nat2Z.inj. rewrite Z2Nat.id by (apply Z.div_pos; lia).
  destruct (Nat.eqb_spec (n mod 8) 0); rewrite Nat2Z.inj_add; Z.div_mod_to_equations; lia.
Qed.

Lemma bin_loop_spec f t : wf t -> sign t = PSTM_ZPOS -> mag t < 256 ^ Z.of_nat f ->
  bin_loop f t = Okay (le_bytes (nbytes (mag t)) (mag t)).
Proof.
  revert t. induction f as [|f IH]; intros t Ht St Hm; pose proof (mag_lt t (wf_pre _ Ht)) as Rm.
  { assert (mag t = 0) as E0 by (change (256 ^ Z.of_nat 0) with 1 in Hm; lia).
    cbn [bin_loop]. rewrite (proj1 (mag_zero t Ht) E0), E0. done. }
  cbn [bin_loop]. destruct (Nat.eqb_spec (used t) 0) as [E0|E0].
  { by rewrite (proj2 (mag_zero t Ht) E0). }
  assert (mag t <> 0) by (by rewrite (mag_zero t Ht)). pose proof (pre_used t (wf_pre _ Ht)).
  rewrite get_nth by lia. cbn [mbind ret_bind].
  destruct (div_2d_spec t 8 t Ht (wf_pre _ Ht) St) as (q & -> & Wq & Mq & Sq & _). cbn [mbind ret_bind].
  change (2 ^ Z.of_nat 8) with 256 in Mq.
  rewrite IH; [|done|done|rewrite Mq; rewrite Nat2Z.inj_succ, Z.pow_succ_r in Hm by lia; apply Z.div_lt_upper_bound; lia].
  cbn [mbind ret_bind]. rewrite (nbytes_div (mag t)) by lia. cbn [le_bytes]. rewrite Mq. do 2 f_equal.
  rewrite dval_nth by apply Ht. fold (mag t). change (B ^ Z.of_nat 0) with 1. rewrite Z.div_1_r.
  change 255 with (Z.ones 8). rewrite Z.land_ones by lia. unfold B. Z.div_mod_to_equations; lia.
Qed.

Lemma reverse_loop_spec f (p m q : bytes) : (length m <= 2 * f + 1)%nat ->
  reverse_loop f (p ++ m ++ q) (length p) (length p + length m - 1) = p ++ reverse m ++ q.
Proof.
  revert p m q. induction f as [|f IH]; intros p m q Hm.
  { destruct m as [|x [|y m]]; [done|done|cbn in Hm; lia]. }
  cbn [reverse_loop]. destruct (Nat.ltb_spec (length p) (length p + length m - 1)) as [Hlt|Hge].
  - destruct m as [|x m]; [cbn in Hlt; lia|]. destruct m as [|y m _] using rev_ind; [cbn in Hlt; lia|].
    rewrite !length_cons, !length_app. cbn [length].
    replace (length p + S (length m + 1) - 1)%nat with (length p + S (length m))%nat by lia.
    assert (forall z w, p ++ (z :: m ++ [w]) ++ q = p ++ [z] ++ m ++ [w] ++ q) as Ez.
    { intros. cbn. by rewrite <- app_assoc. }
    rewrite !Ez.
    assert (nth (length p + S (length m)) (p ++ [x] ++ m ++ [y] ++ q) 0 = y) as ->.
    { rewrite app_nth2 by lia. replace (length p + S (length m) - length p)%nat with (S (length m)) by lia. cbn.
      rewrite app_nth2 by lia. by rewrite Nat.sub_diag. }
    assert (nth (length p) (p ++ [x] ++ m ++ [y] ++ q) 0 = x) as -> by (rewrite app_nth2, Nat.sub_diag by lia; done).
    assert (<[(length p + S (length m))%nat := x]> (<[length p := y]> (p ++ [x] ++ m ++ [y] ++ q)) =
            (p ++ [y]) ++ m ++ ([x] ++ q)) as ->.
    { rewrite <- (Nat.add_0_r (length p)) at 2. rewrite insert_app_r.
      change (<[0%nat := y]> ([x] ++ m ++ [y] ++ q)) with ((y :: m) ++ y :: q). rewrite insert_app_r.
      change (S (length m)) with (length (y :: m)). rewrite <- (Nat.add_0_r (length (y :: m))), insert_app_r.
      change (<[0%nat := x]> (y :: q)) with (x :: q). by rewrite <- app_assoc. }
    pose proof (IH (p ++ [y]) m ([x] ++ q)) as I. rewrite length_app in I. cbn [length] in I.
    rewrite !length_cons, length_app in Hm. cbn [length] in Hm.
    replace (S (length p)) with (length p + 1)%nat by lia.
    replace (length p + S (length m) - 1)%nat with (length p + 1 + length m - 1)%nat by lia.
    rewrite I by lia. rewrite reverse_cons, reverse_snoc. cbn [app]. by rewrite <- !app_assoc.
  - destruct m as [|x [|y m]]; [done|done|cbn in Hge; lia].
Qed.

Lemma pstm_reverse_spec s : pstm_reverse s = reverse s.
Proof.
  unfold pstm_reverse. pose proof (reverse_loop_spec (length s) [] s []) as E. cbn [length app] in E.
  rewrite !app_nil_r in E. apply E. lia.
Qed.

Lemma to_unsigned_bin_spec a : wf a -> sign a = PSTM_ZPOS ->
  pstm_to_unsigned_bin a = Okay (be_bytes (nbytes (mag a)) (mag a)).
Proof.
  intros Ha Sa. unfold pstm_to_unsigned_bin.
  destruct (init_copy_spec a false Ha) as (t & -> & W & M & S & U & _). cbn [mbind ret_bind].
  rewrite bin_loop_spec; [|done|congruence|].
  - cbn [mbind ret_bind]. rewrite pstm_reverse_spec, M. done.
  - rewrite M. pose proof (mag_lt a (wf_pre _ Ha)) as R. unfold B in R. change (2 ^ 32) with (256 ^ 4) in R.
    rewrite <- Z.pow_mul_r in R by lia. replace (Z.of_nat (4 * used a)) with (4 * Z.of_nat (used a)) by lia. apply R.
Qed.

End PstmFacts.
