(* ===== verification/PstmMul.v ===== *)
(** * Multiplication and Montgomery reduction

    src/busybox/networking/tls_pstm_mul_comba.c, tls_pstm_sqr_comba.c,
    tls_pstm_montgomery_reduce.c and the Montgomery set-up of tls_pstm.c, in the
    portable C variants that a 64-bit target compiles.  The products are
    computed column by column in a three-digit accumulator, into a scratch
    array that always has room for the result.  The scratch array of the
    reduction is modelled with its real size, which the code computes in bytes
    where it needs digits. *)

From S2P Require Import Prelude Pstm PstmFacts.

Module PstmMul.
Import Pstm PstmFacts.

(** ** Column products *)

Record acc := { c0 : Z; c1 : Z; c2 : Z }.

Definition COMBA_CLEAR : acc := {| c0 := 0; c1 := 0; c2 := 0 |}.
Definition COMBA_FORWARD (a : acc) : acc := {| c0 := c1 a; c1 := c2 a; c2 := 0 |}.

Definition MULADD (i j : Z) (a : acc) : acc :=
  let t := u64 (c0 a + i * j) in
  let x0 := u32 t in
  let t := u64 (c1 a + Z.shiftr t DIGIT_BIT) in
  {| c0 := x0; c1 := u32 t; c2 := u32 (c2 a + u32 (Z.shiftr t DIGIT_BIT)) |}.

Definition getz (l : list Z) (i : Z) : ret Z := if i <? 0 then Crash else get l (Z.to_nat i).

(** [n] rounds of an inner loop that steps up in [A] and down in [D]. *)
Fixpoint column_loop (step : Z -> Z -> acc -> acc) (n : nat) (A D : list Z) (tx ty : Z) (a : acc) : ret acc :=
  match n with
  | O => Okay a
  | S n' =>
      x ← getz A tx;
      y ← getz D ty;
      column_loop step n' A D (tx + 1) (ty - 1) (step x y a)
  end.

Definition mul_column (A D : list Z) (ix : Z) (a : acc) : ret acc :=
  let nA := Z.of_nat (length A) in
  let nD := Z.of_nat (length D) in
  let ty := Z.min ix (nD - 1) in
  let tx := ix - ty in
  let iy := Z.min (nA - tx) (ty + 1) in
  column_loop MULADD (Z.to_nat iy) A D tx ty (COMBA_FORWARD a).

(** The digits of [n] columns from [ix] on. *)
Fixpoint columns (col : Z -> acc -> ret acc) (n : nat) (ix : Z) (a : acc) : ret (list Z) :=
  match n with
  | O => Okay []
  | S n' =>
      a ← col ix a;
      rest ← columns col n' (ix + 1) a;
      Okay (c0 a :: rest)
  end.

Definition pstm_mul_comba_gen (A D C : pstm_int) : ret pstm_int :=
  let pa := (used A + used D)%nat in
  let C := if (alloc C <? pa)%nat then pstm_grow C pa else C in
  dA ← digits A;
  dD ← digits D;
  dst ← columns (mul_column dA dD) pa 0 COMBA_CLEAR;
  d ← store (dp C) dst (used C);
  pstm_clamp {| used := pa; sign := Z.lxor (sign A) (sign D); dp := d |}.

Definition pstm_mul_comba (A D C : pstm_int) : ret pstm_int := pstm_mul_comba_gen A D C.

(** ** Squaring: the products off the diagonal count twice *)

Definition SQRADD (i j : Z) (a : acc) : acc :=
  let t := u64 (c0 a + i * j) in
  let x0 := u32 t in
  let t := u64 (c1 a + Z.shiftr t DIGIT_BIT) in
  {| c0 := x0; c1 := u32 t; c2 := u32 (c2 a + u32 (Z.shiftr t DIGIT_BIT)) |}.

Definition SQRADD2 (i j : Z) (a : acc) : acc :=
  let t := u64 (i * j) in
  let tt := u64 (c0 a + t) in
  let x0 := u32 tt in
  let tt := u64 (c1 a + Z.shiftr tt DIGIT_BIT) in
  let x1 := u32 tt in
  let x2 := u32 (c2 a + u32 (Z.shiftr tt DIGIT_BIT)) in
  let tt := u64 (x0 + t) in
  let x0 := u32 tt in
  let tt := u64 (x1 + Z.shiftr tt DIGIT_BIT) in
  {| c0 := x0; c1 := u32 tt; c2 := u32 (x2 + u32 (Z.shiftr tt DIGIT_BIT)) |}.

Definition sqr_column (A : list Z) (ix : Z) (a : acc) : ret acc :=
  let nA := Z.of_nat (length A) in
  let ty := Z.min (nA - 1) ix in
  let tx := ix - ty in
  let iy := Z.min (nA - tx) (ty + 1) in
  let iy := Z.min iy (Z.shiftr (ty - tx + 1) 1) in
  a ← column_loop SQRADD2 (Z.to_nat iy) A A tx ty (COMBA_FORWARD a);
  if Z.land ix 1 =? 0
  then x ← getz A (Z.shiftr ix 1); Okay (SQRADD x x a)
  else Okay a.

Definition pstm_sqr_comba_gen (A D : pstm_int) : ret pstm_int :=
  let pa := (used A + used A)%nat in
  let D := if (alloc D <? pa)%nat then pstm_grow D pa else D in
  dA ← digits A;
  dst ← columns (sqr_column dA) pa 0 COMBA_CLEAR;
  d ← store (dp D) dst (used D);
  pstm_clamp {| used := pa; sign := sign D; dp := d |}.

Definition pstm_sqr_comba (A D : pstm_int) : ret pstm_int := pstm_sqr_comba_gen A D.

(** ** Montgomery arithmetic *)

Definition pstm_montgomery_setup (a : pstm_int) : ret Z :=
  b ← get (dp a) 0;
  if Z.land b 1 =? 0 then Err PS_ARG_FAIL
  else
    let x := u32 (u32 (Z.shiftl (Z.land (u32 (b + 2)) 4) 1) + b) in
    let x := u32 (x * u32 (2 - u32 (b * x))) in
    let x := u32 (x * u32 (2 - u32 (b * x))) in
    let x := u32 (x * u32 (2 - u32 (b * x))) in
    Okay (u32 (u64 (Z.shiftl 1 DIGIT_BIT - x))).

(** The loop of [pstm_montgomery_calc_normalization]. *)
Fixpoint double_mod (n : nat) (a b : pstm_int) : ret pstm_int :=
  match n with
  | O => Okay a
  | S n' =>
      a ← pstm_mul_2 a a;
      r ← pstm_cmp_mag a b;
      a ← (if r =? PSTM_LT then Okay a else s_pstm_sub a b a);
      double_mod n' a b
  end.

Definition pstm_montgomery_calc_normalization (a b : pstm_int) : ret pstm_int :=
  n ← pstm_count_bits b;
  let bits := (n mod 32)%nat in
  let bits := if (bits =? 0)%nat then 32%nat else bits in
  '(a, bits) ←
    (if (1 <? used b)%nat
     then a ← pstm_2expt a (Z.of_nat ((used b - 1) * 32 + bits - 1)); Okay (a, bits)
     else a ← pstm_set a 1; Okay (a, 1%nat));
  double_mod (32 - (bits - 1)) a b.

(** [while (cy) PROPCARRY] *)
Fixpoint prop_carry (l : list Z) (cy : Z) : ret (list Z) :=
  if cy =? 0 then Okay l
  else match l with
  | [] => Crash
  | c :: l' =>
      let t := u32 (c + cy) in
      r ← prop_carry l' (if t <? cy then 1 else 0);
      Okay (t :: r)
  end.

(** One round on the part of the scratch array from [c + x] on. *)
Fixpoint inner_mul (mu : Z) (ms l : list Z) (cy : Z) : ret (list Z) :=
  match ms with
  | [] => prop_carry l cy
  | m :: ms' =>
      match l with
      | [] => Crash
      | c :: l' =>
          let t := u64 (c + cy + mu * m) in
          r ← inner_mul mu ms' l' (u32 (Z.shiftr t DIGIT_BIT));
          Okay (u32 t :: r)
      end
  end.

(** [n] rounds; a round is done with the lowest digit of the part it works on.
    The result is the part of the array above these digits. *)
Fixpoint mont_rounds (n : nat) (ms : list Z) (mp : Z) (c : list Z) : ret (list Z) :=
  match n with
  | O => Okay c
  | S n' =>
      x ← get c 0;
      c ← inner_mul (u32 (x * mp)) ms c 0;
      mont_rounds n' ms mp (drop 1 c)
  end.

(** The number of digits of the scratch array; [paDlen] is the size in bytes of
    the buffer the caller passes, if any. *)
Definition scratch_digits (pa : nat) (paDlen : option nat) : nat :=
  match paDlen with
  | Some l => if (2 * pa + 1 <=? l)%nat then (l / 4)%nat else ((2 * pa + 1) / 4)%nat
  | None => ((2 * pa + 1) / 4)%nat
  end.

Definition pstm_montgomery_reduce (a m : pstm_int) (mp : Z) (paDlen : option nat) : ret pstm_int :=
  let pa := used m in
  if (alloc a <? pa)%nat then Err PS_LIMIT_FAIL
  else
    let size := scratch_digits pa paDlen in
    da ← digits a;
    ms ← digits m;
    if (size <? used a)%nat then Crash
    else
      c ← mont_rounds pa ms mp (da ++ replicate (size - used a) 0);
      if (length c <? pa + 1)%nat then Crash
      else
        d ← store (dp a) (take (pa + 1) c) (used a);
        a ← pstm_clamp {| used := pa + 1; sign := sign a; dp := d |};
        r ← pstm_cmp_mag a m;
        if r =? PSTM_LT then Okay a
        else match s_pstm_sub a m a with Err _ => Err PS_MEM_FAIL | r => r end.

(** ** Sums *)

(** [f 0 + ... + f (n-1)] *)
Fixpoint psum (f : nat -> Z) (n : nat) : Z :=
  match n with O => 0 | S n' => f 0%nat + psum (fun i => f (S i)) n' end.

(** [f 0 + B * f 1 + ... + B^(n-1) * f (n-1)] *)
Fixpoint wsum (f : nat -> Z) (n : nat) : Z :=
  match n with O => 0 | S n' => f 0%nat + B * wsum (fun i => f (S i)) n' end.

Lemma psum_ext f g n : (forall i, (i < n)%nat -> f i = g i) -> psum f n = psum g n.
Proof.
  revert f g. induction n as [|n IH]; intros f g H; [done|]. cbn [psum]. rewrite (H 0%nat) by lia. f_equal.
  apply IH. intros i Hi. apply H. lia.
Qed.

Lemma wsum_ext f g n : (forall i, (i < n)%nat -> f i = g i) -> wsum f n = wsum g n.
Proof.
  revert f g. induction n as [|n IH]; intros f g H; [done|]. cbn [wsum]. rewrite (H 0%nat) by lia. do 2 f_equal.
  apply IH. intros i Hi. apply H. lia.
Qed.

Lemma psum_app f n m : psum f (n + m) = psum f n + psum (fun i => f (n + i)%nat) m.
Proof. revert f. induction n as [|n IH]; intros f; [done|]. cbn [psum Nat.add]. rewrite IH. lia. Qed.

Lemma psum_zero f n : (forall i, (i < n)%nat -> f i = 0) -> psum f n = 0.
Proof.
  revert f. induction n as [|n IH]; intros f H; [done|]. cbn [psum]. rewrite (H 0%nat), IH by (intros; try apply H; lia). done.
Qed.

Lemma psum_bound f n k : (forall i, (i < n)%nat -> 0 <= f i <= k) -> 0 <= psum f n <= Z.of_nat n * k.
Proof.
  revert f. induction n as [|n IH]; intros f H; [cbn; lia|]. cbn [psum].
  pose proof (H 0%nat ltac:(lia)). specialize (IH (fun i => f (S i)) ltac:(intros; apply H; lia)). lia.
Qed.

Lemma wsum_zero f n : (forall i, f i = 0) -> wsum f n = 0.
Proof. revert f. induction n as [|n IH]; intros f H; [done|]. cbn [wsum]. rewrite H, IH by done. lia. Qed.

Lemma wsum_add f g n : wsum (fun i => f i + g i) n = wsum f n + wsum g n.
Proof. revert f g. induction n as [|n IH]; intros f g; [done|]. cbn [wsum]. rewrite IH. ring. Qed.

Lemma wsum_mul a f n : wsum (fun i => a * f i) n = a * wsum f n.
Proof. revert f. induction n as [|n IH]; intros f; cbn [wsum]; [lia|]. rewrite IH. ring. Qed.

Lemma wsum_nth l n : (length l <= n)%nat -> wsum (fun i => nth i l 0) n = dval l.
Proof.
  revert n. induction l as [|d l IH]; intros n Hn.
  - apply wsum_zero. by intros [|i].
  - destruct n as [|n]; [cbn in Hn; lia|]. cbn [wsum nth dval]. by rewrite IH by (cbn in Hn; lia).
Qed.

(** A column of the product of two digit lists. *)
Fixpoint col (A D : list Z) (k : nat) : Z :=
  match A with
  | [] => 0
  | a :: A' => a * nth k D 0 + match k with O => 0 | S k' => col A' D k' end
  end.

Lemma wsum_col A D n : (length A + length D <= n)%nat -> wsum (col A D) n = dval A * dval D.
Proof.
  revert n. induction A as [|a A IH]; intros n Hn.
  - cbn [col dval]. rewrite (wsum_ext _ (fun i => 0 * nth i D 0)) by done. rewrite wsum_mul. lia.
  - cbn [length] in Hn. destruct n as [|n]; [lia|].
    rewrite (wsum_ext _ (fun k => a * nth k D 0 + match k with O => 0 | S k' => col A D k' end)) by done.
    rewrite wsum_add, wsum_mul, wsum_nth by lia. cbn [wsum dval]. rewrite (wsum_ext _ (col A D)) by done.
    rewrite IH by lia. ring.
Qed.

Lemma col_psum A D k : col A D k = psum (fun i => nth i A 0 * nth (k - i) D 0) (S k).
Proof.
  revert k. induction A as [|a A IH]; intros k.
  - cbn [col]. symmetry. apply psum_zero. by intros [|i].
  - cbn [col psum nth]. rewrite Nat.sub_0_r. f_equal. destruct k as [|k]; [done|].
    rewrite IH. apply psum_ext. done.
Qed.

(** The terms the inner loop visits are all that count. *)
Lemma col_range A D ix tx ty n :
  ix = (tx + ty)%nat -> (n <= S ty)%nat ->
  (0 < tx -> length D <= S ty)%nat -> (n < S ty -> length A <= tx + n)%nat ->
  col A D ix = psum (fun z => nth (tx + z) A 0 * nth (ty - z) D 0) n.
Proof.
  intros -> Hn Htx Hend. rewrite col_psum. replace (S (tx + ty)) with (tx + (n + (S ty - n)))%nat by lia.
  rewrite !psum_app. rewrite psum_zero, Z.add_0_l.
  2:{ intros i Hi. rewrite (nth_overflow D) by lia. lia. }
  rewrite (psum_zero (fun i => nth (tx + (n + i)) A 0 * _)), Z.add_0_r.
  2:{ intros i Hi. rewrite (nth_overflow A) by lia. lia. }
  apply psum_ext. intros i Hi. do 2 f_equal. lia.
Qed.

(** ** The accumulator *)

Definition acc_val (a : acc) : Z := c0 a + B * c1 a + B * B * c2 a.
Definition acc_ok (a : acc) : Prop := is_u32 (c0 a) /\ is_u32 (c1 a) /\ is_u32 (c2 a).

Lemma acc_range a : acc_ok a -> 0 <= acc_val a < B * B * B.
Proof. intros (H0 & H1 & H2). unfold acc_val, is_u32, B in *. lia. Qed.

Lemma split32 t : 0 <= t < 2 ^ 64 ->
  is_u32 (u32 t) /\ 0 <= Z.shiftr t 32 < B /\ t = u32 t + B * Z.shiftr t 32.
Proof.
  intros Ht. rewrite Z.shiftr_div_pow2 by lia. unfold u32, is_u32, B.
  change (2 ^ 64) with 18446744073709551616 in *. change (2 ^ 32) with 4294967296. Z.div_mod_to_equations. lia.
Qed.

(** Adding a double word to the accumulator. *)
Lemma acc_add w a : 0 <= w -> acc_ok a -> w <= (B - 1) * (B - 1) -> acc_val a + w < B * B * B ->
  let t0 := u64 (c0 a + w) in let t1 := u64 (c1 a + Z.shiftr t0 32) in
  let r := {| c0 := u32 t0; c1 := u32 t1; c2 := u32 (c2 a + u32 (Z.shiftr t1 32)) |} in
  acc_ok r /\ acc_val r = acc_val a + w.
Proof.
  intros Hw (H0 & H1 & H2) Hb Hv t0 t1 r. unfold is_u32 in H0, H1, H2. fold B in H0, H1, H2.
  assert (t0 = c0 a + w) as E0 by (apply u64_id; unfold is_u64, B in *; lia).
  destruct (split32 t0) as (D0 & R0 & V0); [rewrite E0; unfold B in *; lia|].
  assert (t1 = c1 a + Z.shiftr t0 32) as E1 by (apply u64_id; unfold is_u64, B in *; lia).
  destruct (split32 t1) as (D1 & R1 & V1); [rewrite E1; unfold B in *; lia|].
  assert (u32 (Z.shiftr t1 32) = Z.shiftr t1 32) as E3 by (apply u32_id; unfold is_u32; fold B; lia).
  assert (acc_val a + w = u32 t0 + B * u32 t1 + B * B * (c2 a + Z.shiftr t1 32)) as V.
  { unfold acc_val. transitivity ((c0 a + w) + B * c1 a + B * B * c2 a); [ring|]. rewrite <- E0, V0 at 1.
    transitivity (u32 t0 + B * (c1 a + Z.shiftr t0 32) + B * B * c2 a); [ring|]. rewrite <- E1, V1 at 1. ring. }
  assert (0 <= c2 a + Z.shiftr t1 32 < B) as R2.
  { split; [lia|]. unfold is_u32 in D0, D1. unfold B in *. lia. }
  assert (u32 (c2 a + Z.shiftr t1 32) = c2 a + Z.shiftr t1 32) as E2 by by apply u32_id.
  unfold r, acc_ok. rewrite V. unfold acc_val. cbn [c0 c1 c2]. rewrite E3, E2. done.
Qed.

Lemma product_bound x y : is_u32 x -> is_u32 y -> 0 <= x * y <= (B - 1) * (B - 1).
Proof. unfold is_u32. fold B. intros. nia. Qed.

Lemma MULADD_spec i j a : is_u32 i -> is_u32 j -> acc_ok a -> acc_val a + i * j < B * B * B ->
  acc_ok (MULADD i j a) /\ acc_val (MULADD i j a) = acc_val a + i * j.
Proof.
  intros Hi Hj Ha Hv. pose proof (product_bound i j Hi Hj). apply acc_add; [lia|done|lia|done].
Qed.

Lemma SQRADD2_spec i j a : is_u32 i -> is_u32 j -> acc_ok a -> acc_val a + 2 * (i * j) < B * B * B ->
  acc_ok (SQRADD2 i j a) /\ acc_val (SQRADD2 i j a) = acc_val a + 2 * (i * j).
Proof.
  intros Hi Hj Ha Hv. pose proof (product_bound i j Hi Hj) as Hp. unfold SQRADD2, DIGIT_BIT.
  rewrite (u64_id (i * j)) by (unfold is_u64, B in *; lia).
  destruct (acc_add (i * j) a) as (O1 & V1); [lia|done|lia|lia|]. cbn zeta in *.
  destruct (acc_add (i * j) _ ltac:(lia) O1) as (O2 & V2); [lia|lia|]. cbn [c0 c1 c2] in O2, V2.
  split; [exact O2|]. rewrite V2. lia.
Qed.

Lemma forward_spec a : acc_ok a ->
  acc_ok (COMBA_FORWARD a) /\ acc_val a = c0 a + B * acc_val (COMBA_FORWARD a) /\ acc_val (COMBA_FORWARD a) < B * B.
Proof.
  intros (H0 & H1 & H2). unfold COMBA_FORWARD, acc_ok, acc_val. cbn [c0 c1 c2].
  split; [done|]. unfold is_u32 in *. split; [ring|unfold B; lia].
Qed.

(** ** Products *)

Definition adds (step : Z -> Z -> acc -> acc) (k : Z) : Prop :=
  forall i j a, is_u32 i -> is_u32 j -> acc_ok a -> acc_val a + k * (i * j) < B * B * B ->
    acc_ok (step i j a) /\ acc_val (step i j a) = acc_val a + k * (i * j).

Lemma MULADD_adds : adds MULADD 1.
Proof. intros i j a Hi Hj Ha Hv. rewrite Z.mul_1_l in *. by apply MULADD_spec. Qed.

Lemma SQRADD2_adds : adds SQRADD2 2.
Proof. intros i j a. apply SQRADD2_spec. Qed.

Lemma getz_nth l i : (i < length l)%nat -> getz l (Z.of_nat i) = Okay (nth i l 0).
Proof. intros H. unfold getz. destruct (Z.ltb_spec (Z.of_nat i) 0); [lia|]. rewrite Nat2Z.id. by apply get_nth. Qed.

Definition term (A D : list Z) (tx ty z : nat) : Z := nth (tx + z) A 0 * nth (ty - z) D 0.

Lemma term_bound A D tx ty z : digits_ok A -> digits_ok D -> 0 <= term A D tx ty z <= (B - 1) * (B - 1).
Proof.
  intros HA HD. apply product_bound; unfold is_u32; fold B; by apply nth_digit.
Qed.

Lemma column_loop_spec step k A D n tx ty tyz a : adds step k -> 0 <= k -> digits_ok A -> digits_ok D ->
  (tx + n <= length A)%nat -> (n <= S ty)%nat -> (n = 0 \/ ty < length D)%nat -> (n = 0%nat \/ tyz = Z.of_nat ty) ->
  acc_ok a -> acc_val a + k * psum (term A D tx ty) n < B * B * B ->
  exists a', column_loop step n A D (Z.of_nat tx) tyz a = Okay a' /\ acc_ok a' /\
    acc_val a' = acc_val a + k * psum (term A D tx ty) n.
Proof.
  intros Hs Hk HA HD. revert tx ty tyz a. induction n as [|n IH]; intros tx ty tyz a H1 H2 H3 H4 Ha Hv.
  { exists a. cbn. split; [done|]. split; [done|]. lia. }
  destruct H3 as [?|H3]; [done|]. destruct H4 as [?| -> ]; [done|]. cbn [column_loop psum] in *.
  rewrite (getz_nth A), (getz_nth D) by lia. cbn [mbind ret_bind].
  set (g := fun i => term A D tx ty (S i)) in *.
  assert (psum g n = psum (term A D (S tx) (ty - 1)) n) as Eg.
  { apply psum_ext. intros i Hi. unfold g, term. do 2 f_equal; lia. }
  pose proof (psum_bound g n ((B - 1) * (B - 1)) ltac:(intros; by apply term_bound)) as Rg.
  assert (term A D tx ty 0 = nth tx A 0 * nth ty D 0) as E0 by (unfold term; by rewrite Nat.add_0_r, Nat.sub_0_r).
  rewrite E0 in *.
  destruct (Hs (nth tx A 0) (nth ty D 0) a) as (O1 & V1);
    [unfold is_u32; by apply nth_digit|unfold is_u32; by apply nth_digit|done|nia|].
  replace (Z.of_nat tx + 1) with (Z.of_nat (S tx)) by lia.
  destruct (IH (S tx) (ty - 1)%nat (Z.of_nat ty - 1) _ ltac:(lia) ltac:(lia) ltac:(lia) ltac:(lia) O1) as (a' & E & O & V).
  { rewrite V1, <- Eg. lia. }
  exists a'. split; [done|]. split; [done|]. rewrite V, V1, <- Eg. ring.
Qed.

(** The columns, from their sums. *)
Lemma columns_spec colf f n ix a : acc_ok a ->
  (forall k b, (ix <= k < ix + n)%nat -> acc_ok b ->
     exists b', colf (Z.of_nat k) b = Okay b' /\ acc_ok b' /\ acc_val b' = acc_val (COMBA_FORWARD b) + f k) ->
  exists ds r, columns colf n (Z.of_nat ix) a = Okay ds /\ digits_ok ds /\ length ds = n /\ 0 <= r /\
    dval ds + B ^ Z.of_nat n * r = acc_val (COMBA_FORWARD a) + wsum (fun k => f (ix + k)%nat) n.
Proof.
  revert ix a. induction n as [|n IH]; intros ix a Ha Hf.
  { exists [], (acc_val (COMBA_FORWARD a)). destruct (forward_spec a Ha) as (O & _ & _).
    cbn. split; [done|]. split; [constructor|]. split; [done|]. pose proof (acc_range _ O). lia. }
  cbn [columns]. destruct (Hf ix a ltac:(lia) Ha) as (b & E & Ob & Vb). rewrite E. cbn [mbind ret_bind].
  replace (Z.of_nat ix + 1) with (Z.of_nat (S ix)) by lia.
  destruct (IH (S ix) b Ob) as (ds & r & E2 & D & L & R & V). { intros k c Hk. apply Hf. lia. }
  rewrite E2. cbn [mbind ret_bind]. exists (c0 b :: ds), r. destruct (forward_spec b Ob) as (_ & Fb & _).
  split; [done|]. split; [constructor; [apply Ob|done]|]. split; [cbn; lia|]. split; [done|].
  cbn [dval wsum]. rewrite Nat.add_0_r, Bpow_S.
  rewrite (wsum_ext _ (fun k => f (S ix + k)%nat)) by (intros; f_equal; lia).
  transitivity (c0 b + B * (dval ds + B ^ Z.of_nat n * r)); [ring|]. rewrite V.
  transitivity ((c0 b + B * acc_val (COMBA_FORWARD b)) + B * wsum (fun k => f (S ix + k)%nat) n); [ring|].
  rewrite <- Fb, Vb. ring.
Qed.

Lemma mul_column_spec A D k b : digits_ok A -> digits_ok D -> Z.of_nat (length A) < 2 ^ 31 ->
  (k < length A + length D)%nat -> acc_ok b ->
  exists b', mul_column A D (Z.of_nat k) b = Okay b' /\ acc_ok b' /\
    acc_val b' = acc_val (COMBA_FORWARD b) + col A D k.
Proof.
  intros HA HD Hn Hk Hb. unfold mul_column. destruct (forward_spec b Hb) as (Of & _ & Rf).
  destruct (Nat.eq_dec (length D) 0%nat) as [E0|E0].
  { rewrite E0. replace (Z.min (Z.of_nat k) (Z.of_nat 0 - 1)) with (-1) by lia.
    replace (Z.to_nat (Z.min (Z.of_nat (length A) - (Z.of_nat k - -1)) (-1 + 1))) with 0%nat by lia.
    exists (COMBA_FORWARD b). cbn [column_loop]. split; [done|]. split; [done|].
    apply nil_length_inv in E0 as ->. rewrite col_psum, psum_zero; [lia|]. intros i _. destruct (k - i)%nat; cbn; lia. }
  set (ty := Nat.min k (length D - 1)). set (tx := (k - ty)%nat). set (n := Nat.min (length A - tx) (S ty)).
  replace (Z.min (Z.of_nat k) (Z.of_nat (length D) - 1)) with (Z.of_nat ty) by lia.
  replace (Z.of_nat k - Z.of_nat ty) with (Z.of_nat tx) by lia.
  replace (Z.to_nat (Z.min (Z.of_nat (length A) - Z.of_nat tx) (Z.of_nat ty + 1))) with n by lia.
  rewrite (col_range A D k tx ty n) by lia. fold (term A D tx ty).
  pose proof (psum_bound (term A D tx ty) n ((B - 1) * (B - 1)) ltac:(intros; by apply term_bound)) as Rg.
  destruct (column_loop_spec MULADD 1 A D n tx ty (Z.of_nat ty) (COMBA_FORWARD b)) as (b' & E & O & V);
    [apply MULADD_adds|lia|done|done|lia|lia|lia|by right|done| |].
  { assert (Z.of_nat n <= 2 ^ 31) by lia. unfold B in *. nia. }
  exists b'. rewrite V. split; [done|]. split; [done|]. lia.
Qed.

Lemma columns_product colf A D n : digits_ok A -> digits_ok D -> n = (length A + length D)%nat ->
  (forall k b, (k < n)%nat -> acc_ok b ->
     exists b', colf (Z.of_nat k) b = Okay b' /\ acc_ok b' /\ acc_val b' = acc_val (COMBA_FORWARD b) + col A D k) ->
  exists ds, columns colf n 0 COMBA_CLEAR = Okay ds /\ digits_ok ds /\ length ds = n /\ dval ds = dval A * dval D.
Proof.
  intros HA HD -> Hf.
  destruct (columns_spec colf (col A D) (length A + length D) 0 COMBA_CLEAR) as (ds & r & E & Dd & L & R & V).
  { by repeat split. }
  { intros k b Hk. apply Hf. lia. }
  exists ds. split; [done|]. split; [done|]. split; [done|].
  rewrite (wsum_ext _ (col A D)), wsum_col in V by (done || lia).
  change (acc_val (COMBA_FORWARD COMBA_CLEAR)) with 0 in V.
  pose proof (dval_range A HA). pose proof (dval_range D HD). pose proof (dval_range ds Dd) as Rd.
  rewrite L in Rd. rewrite Bpow_add in *. set (P := B ^ Z.of_nat (length A) * B ^ Z.of_nat (length D)) in *.
  assert (0 < P) by lia. assert (dval A * dval D < P) by (unfold P; nia).
  assert (r = 0) as -> by nia. lia.
Qed.

Lemma sign_xor s t : is_sign s -> is_sign t -> is_sign (Z.lxor s t).
Proof. intros [->| ->] [->| ->]; [by left|by right|by right|by left]. Qed.

Lemma mul_comba_spec A D C : wf A -> wf D -> pre C -> Z.of_nat (used A) < 2 ^ 31 ->
  computes (pstm_mul_comba A D C) (mag A * mag D) (Z.lxor (sign A) (sign D)) (alloc C `max` (used A + used D)).
Proof.
  intros WA WD PC Hn. unfold pstm_mul_comba, pstm_mul_comba_gen.
  pose proof (grow_if C (used A + used D) PC) as G. cbn zeta in G. set (C' := if _ : bool then _ else _) in *.
  destruct G as (Pc & _ & Uc & _ & Ac).
  destruct (digits_spec A (wf_pre _ WA)) as (dA & -> & LA & DA & VA & _).
  destruct (digits_spec D (wf_pre _ WD)) as (dD & -> & LD & DD & VD & _). cbn [mbind ret_bind].
  destruct (columns_product (mul_column dA dD) dA dD (used A + used D)) as (ds & -> & Dd & L & V); [done|done|lia| |].
  { intros k b Hk. apply mul_column_spec; [done|done|lia|lia]. }
  cbn [mbind ret_bind]. rewrite <- VA, <- VD, <- V.
  apply finish_spec; [done|by rewrite <- Ac|fold (alloc C'); lia|apply Pc|done|apply Pc|apply zeros_above; [done|lia]|].
  apply sign_xor; [apply WA|apply WD].
Qed.

(** ** Squares *)

Lemma psum_snoc f n : psum f (S n) = psum f n + f n.
Proof. rewrite <- Nat.add_1_r, psum_app. cbn [psum]. rewrite Nat.add_0_r. lia. Qed.

(** A symmetric sum is twice its first half and the middle term. *)
Lemma psum_sym g n : (forall z, (z < n)%nat -> g z = g (n - 1 - z)%nat) ->
  psum g n = 2 * psum g (n / 2) + if Nat.odd n then g (n / 2)%nat else 0.
Proof.
  revert g. induction n as [n IH] using lt_wf_ind. intros g Hg.
  destruct n as [|[|n]]; [done|cbn [psum Nat.div Nat.divmod fst Nat.odd Nat.even negb]; cbn; lia|].
  replace (S (S n) / 2)%nat with (S (n / 2)) by (replace (S (S n)) with (1 * 2 + n)%nat by lia; by rewrite Nat.div_add_l by lia).
  change (Nat.odd (S (S n))) with (Nat.odd n).
  rewrite psum_snoc. cbn [psum]. rewrite (IH n ltac:(lia) (fun i => g (S i))).
  - replace (g (S n)) with (g 0%nat) by (rewrite (Hg 0%nat) by lia; f_equal; lia).
    destruct (Nat.odd n); lia.
  - intros z Hz. rewrite (Hg (S z)) by lia. f_equal. lia.
Qed.

Lemma sqr_column_spec A k b : digits_ok A -> Z.of_nat (length A) < 2 ^ 30 ->
  (k < length A + length A)%nat -> acc_ok b ->
  exists b', sqr_column A (Z.of_nat k) b = Okay b' /\ acc_ok b' /\
    acc_val b' = acc_val (COMBA_FORWARD b) + col A A k.
Proof.
  intros HA Hn Hk Hb. unfold sqr_column. destruct (forward_spec b Hb) as (Of & _ & Rf).
  set (ty := Nat.min (length A - 1) k). set (tx := (k - ty)%nat). set (n := (S ty - tx)%nat).
  replace (Z.min (Z.of_nat (length A) - 1) (Z.of_nat k)) with (Z.of_nat ty) by lia.
  replace (Z.of_nat k - Z.of_nat ty) with (Z.of_nat tx) by lia.
  assert (Z.of_nat ty - Z.of_nat tx + 1 = Z.of_nat n) as En by lia. rewrite En.
  rewrite (Z.shiftr_div_pow2 (Z.of_nat n)) by lia. change (2 ^ 1) with 2.
  assert (Z.of_nat n / 2 = Z.of_nat (n / 2)) as Eh by (rewrite Nat2Z.inj_div; done).
  assert (n / 2 <= n)%nat as Hh by (apply Nat.Div0.div_le_upper_bound; lia). rewrite Eh.
  replace (Z.to_nat _) with (n / 2)%nat by lia.
  assert (col A A k = 2 * psum (term A A tx ty) (n / 2) + if Nat.odd n then nth (k / 2) A 0 * nth (k / 2) A 0 else 0) as Ec.
  { rewrite (col_range A A k tx ty n) by lia. fold (term A A tx ty). rewrite psum_sym.
    - f_equal. destruct (Nat.odd n) eqn:Eo; [|done]. unfold term.
      apply Nat.odd_spec in Eo as [q Eq]. assert (n / 2 = q)%nat as -> by (rewrite Eq, Nat.add_comm, Nat.mul_comm, Nat.div_add by lia; done).
      assert (k / 2 = tx + q)%nat as ->.
      { replace k with (2 * (tx + q))%nat by lia. rewrite Nat.mul_comm, Nat.div_mul by lia. done. }
      do 2 f_equal. lia.
    - intros z Hz. unfold term. rewrite Z.mul_comm. do 2 f_equal; lia. }
  rewrite Ec.
  pose proof (psum_bound (term A A tx ty) (n / 2) ((B - 1) * (B - 1)) ltac:(intros; by apply term_bound)) as Rg.
  assert (Z.of_nat (n / 2) <= 2 ^ 30) as Rn by lia.
  destruct (column_loop_spec SQRADD2 2 A A (n / 2) tx ty (Z.of_nat ty) (COMBA_FORWARD b)) as (b' & E & O & V);
    [apply SQRADD2_adds|lia|done|done|lia|lia|lia|by right|done|unfold B in *; nia|].
  rewrite E. cbn [mbind ret_bind].
  assert ((Z.land (Z.of_nat k) 1 =? 0) = Nat.odd n) as ->.
  { change 1 with (Z.ones 1). rewrite Z.land_ones by lia. change (2 ^ 1) with 2.
    destruct (Nat.odd n) eqn:Eo.
    - apply Nat.odd_spec in Eo as [q Eq]. apply Z.eqb_eq. replace (Z.of_nat k) with (Z.of_nat (tx + q) * 2) by lia. by apply Z.mod_mul.
    - rewrite <- Nat.negb_even in Eo. apply negb_false_iff, Nat.even_spec in Eo as [q Eq]. apply Z.eqb_neq.
      destruct q as [|q].
      + replace (Z.of_nat k) with (1 + Z.of_nat ty * 2) by lia. rewrite Z.mod_add by lia. done.
      + replace (Z.of_nat k) with (1 + Z.of_nat (tx + q) * 2) by lia. rewrite Z.mod_add by lia. done. }
  destruct (Nat.odd n) eqn:Eo.
  - rewrite Z.shiftr_div_pow2 by lia. change (2 ^ 1) with 2.
    replace (Z.of_nat k / 2) with (Z.of_nat (k / 2)) by (rewrite Nat2Z.inj_div; done).
    assert (k / 2 < length A)%nat by (apply Nat.Div0.div_lt_upper_bound; lia).
    rewrite getz_nth by done. cbn [mbind ret_bind].
    pose proof (nth_digit A (k / 2) HA) as Rd. pose proof (product_bound (nth (k / 2) A 0) (nth (k / 2) A 0) Rd Rd) as Rp.
    destruct (MULADD_spec (nth (k / 2) A 0) (nth (k / 2) A 0) b' Rd Rd O) as (O2 & V2); [unfold B in *; nia|].
    exists (SQRADD (nth (k / 2) A 0) (nth (k / 2) A 0) b'). split; [done|]. split; [exact O2|].
    change (SQRADD (nth (k / 2) A 0) (nth (k / 2) A 0) b') with (MULADD (nth (k / 2) A 0) (nth (k / 2) A 0) b').
    rewrite V2, V. ring.
  - exists b'. split; [done|]. split; [done|]. rewrite V. ring.
Qed.

Lemma sqr_comba_spec A D : wf A -> pre D -> Z.of_nat (used A) < 2 ^ 30 ->
  computes (pstm_sqr_comba A D) (mag A * mag A) (sign D) (alloc D `max` (used A + used A)).
Proof.
  intros WA PD Hn. unfold pstm_sqr_comba, pstm_sqr_comba_gen.
  pose proof (grow_if D (used A + used A) PD) as G. cbn zeta in G. set (D' := if _ : bool then _ else _) in *.
  destruct G as (Pd & _ & Ud & Sd & Ad).
  destruct (digits_spec A (wf_pre _ WA)) as (dA & -> & LA & DA & VA & _). cbn [mbind ret_bind].
  destruct (columns_product (sqr_column dA) dA dA (used A + used A)) as (ds & -> & Dd & L & V); [done|done|lia| |].
  { intros k b Hk. apply sqr_column_spec; [done|lia|lia]. }
  cbn [mbind ret_bind]. rewrite <- VA, <- V, <- Sd.
  apply finish_spec; [done|by rewrite <- Ad|fold (alloc D'); lia|apply Pd|done|apply Pd|apply zeros_above; [done|lia]|apply Pd].
Qed.

(** ** The Montgomery constant *)

Lemma u32_offset z : exists j, u32 z = z + B * j.
Proof. exists (- (z / B)). unfold u32. fold B. rewrite Z.mod_eq by done. lia. Qed.

(** One Newton step doubles the number of correct bits. *)
Lemma newton_step b x P : (P * P | B) -> (P | b * x - 1) ->
  (P * P | b * u32 (x * u32 (2 - u32 (b * x))) - 1).
Proof.
  intros [m Hm] [e He]. destruct (u32_offset (b * x)) as [j1 ->]. destruct (u32_offset (2 - (b * x + B * j1))) as [j2 ->].
  destruct (u32_offset (x * (2 - (b * x + B * j1) + B * j2))) as [j3 ->].
  assert (b * x = 1 + e * P) as E by lia. exists (- (e * e) + m * (b * x * (j2 - j1) + b * j3)).
  transitivity (b * x * (2 - b * x) + B * (b * x * (j2 - j1) + b * j3) - 1); [ring|].
  rewrite Hm. transitivity (1 - (b * x - 1) * (b * x - 1) + m * (P * P) * (b * x * (j2 - j1) + b * j3) - 1); [ring|].
  rewrite He. ring.
Qed.

Lemma land_4 w : 0 <= w -> Z.land w 4 = 4 * (w / 4 mod 2).
Proof.
  intros Hw. change 4 with (2 ^ 2) at 1.
  assert (Z.land w (2 ^ 2) = if Z.testbit w 2 then 4 else 0) as ->.
  { apply Z.bits_inj'. intros i Hi. rewrite Z.land_spec, Z.pow2_bits_eqb by lia.
    destruct (Z.eqb_spec 2 i) as [<-|Hn]; [by destruct (Z.testbit w 2)|].
    rewrite andb_false_r. destruct (Z.testbit w 2); [|by rewrite Z.bits_0].
    change 4 with (2 ^ 2). rewrite Z.pow2_bits_false by lia. done. }
  rewrite Z.testbit_odd, Z.shiftr_div_pow2 by lia. change (2 ^ 2) with 4. rewrite Zodd_mod.
  pose proof (Z.mod_pos_bound (w / 4) 2). destruct (Z.eqb_spec (w / 4 mod 2) 1) as [->|]; lia.
Qed.

Lemma newton_start_16 r : 0 <= r < 16 -> r mod 2 = 1 -> (r * (8 * ((r + 2) / 4 mod 2) + r) - 1) mod 16 = 0.
Proof.
  intros Hr Ho. assert (exists h, r = 2 * h + 1 /\ 0 <= h < 8) as (h & -> & Hh).
  { exists (r / 2). Z.div_mod_to_equations. lia. }
  clear Hr Ho. assert (h = 0 \/ h = 1 \/ h = 2 \/ h = 3 \/ h = 4 \/ h = 5 \/ h = 6 \/ h = 7) as Hc by lia.
  by repeat (destruct Hc as [->|Hc]; [done|]); subst h.
Qed.

Lemma newton_start b : is_u32 b -> b mod 2 = 1 ->
  (16 | b * u32 (u32 (Z.shiftl (Z.land (u32 (b + 2)) 4) 1) + b) - 1).
Proof.
  intros Hb Ho. unfold is_u32 in Hb. rewrite land_4 by apply u32_range.
  set (e := u32 (b + 2) / 4 mod 2).
  assert (e = (b + 2) / 4 mod 2) as Ee.
  { unfold e, u32. change (2 ^ 32) with 4294967296 in *. Z.div_mod_to_equations. lia. }
  rewrite Z.shiftl_mul_pow2 by lia. pose proof (Z.mod_pos_bound ((b + 2) / 4) 2 ltac:(lia)).
  rewrite (u32_id (4 * e * 2 ^ 1)) by (unfold is_u32; lia).
  destruct (u32_offset (4 * e * 2 ^ 1 + b)) as [j ->]. rewrite Ee. clear Ee.
  set (q := b / 16). set (r := b mod 16). pose proof (Z.mod_pos_bound b 16 ltac:(lia)) as Rr. fold r in Rr.
  assert (b = 16 * q + r) as Eb by apply Z_div_mod_eq_full.
  assert (r mod 2 = 1) as Hr by (Z.div_mod_to_equations; lia).
  assert ((b + 2) / 4 mod 2 = (r + 2) / 4 mod 2) as -> by (Z.div_mod_to_equations; lia).
  pose proof (newton_start_16 r Rr Hr) as E16. apply Z.mod_divide in E16 as [k Hk]; [|lia].
  set (f := (r + 2) / 4 mod 2) in *. exists (k + q * (8 * f + r) + b * q + b * (B / 16) * j).
  change (2 ^ 1) with 2. assert (B = 16 * (B / 16)) as EB by done.
  transitivity ((r * (8 * f + r) - 1) + 16 * (q * (8 * f + r) + b * q) + b * B * j).
  - clearbody q f r. subst b. ring.
  - rewrite Hk, EB at 1. ring.
Qed.

Lemma montgomery_setup_spec a : wf a -> mag a mod 2 = 1 ->
  exists rho, pstm_montgomery_setup a = Okay rho /\ is_u32 rho /\ (B | rho * mag a + 1).
Proof.
  intros Ha Ho. assert (used a <> 0%nat) as Hu.
  { intros E. apply (mag_zero a Ha) in E. rewrite E in Ho. done. }
  pose proof (pre_used a (wf_pre _ Ha)). unfold pstm_montgomery_setup. rewrite get_nth by lia. cbn [mbind ret_bind].
  set (b := nth 0 (dp a) 0). assert (b = mag a mod B) as Eb.
  { unfold b. rewrite dval_nth by apply Ha. change (B ^ Z.of_nat 0) with 1. by rewrite Z.div_1_r. }
  assert (is_u32 b) as Hb by (rewrite Eb; apply Z.mod_pos_bound; done).
  assert (b mod 2 = 1) as Hb2 by (rewrite Eb; unfold B; Z.div_mod_to_equations; lia).
  assert ((Z.land b 1 =? 0) = false) as ->.
  { change 1 with (Z.ones 1). rewrite Z.land_ones by lia. change (2 ^ 1) with 2. by rewrite Hb2. }
  pose proof (newton_start b Hb Hb2) as N4. set (x0 := u32 (u32 (Z.shiftl _ 1) + b)) in *.
  pose proof (newton_step b x0 16 ltac:(by exists (2 ^ 24)) N4) as N8. change (16 * 16) with 256 in N8.
  set (x1 := u32 (x0 * _)) in *.
  pose proof (newton_step b x1 256 ltac:(by exists (2 ^ 16)) N8) as N16. change (256 * 256) with 65536 in N16.
  set (x2 := u32 (x1 * _)) in *.
  pose proof (newton_step b x2 65536 ltac:(by exists 1) N16) as N32. change (65536 * 65536) with B in N32.
  set (x3 := u32 (x2 * _)) in *.
  assert (is_u32 x3) as Hx by apply u32_range.
  exists (u32 (u64 (Z.shiftl 1 DIGIT_BIT - x3))). split; [done|]. split; [apply u32_range|].
  change (Z.shiftl 1 DIGIT_BIT) with B. unfold is_u32 in Hx. fold B in Hx.
  rewrite u64_id by (unfold is_u64, B in *; lia). destruct (u32_offset (B - x3)) as [j ->].
  destruct N32 as [k Hk]. exists (mag a * (1 + j) - k - x3 * (mag a / B)).
  rewrite (Z_div_mod_eq_full (mag a) B) at 1. rewrite <- Eb.
  transitivity (B * (mag a / B) * (B - x3 + B * j) + b * B * (1 + j) - (b * x3 - 1)); [ring|]. rewrite Hk.
  rewrite (Z_div_mod_eq_full (mag a) B) at 2. rewrite <- Eb. ring.
Qed.

(** ** Normalisation: B^n modulo an odd number of n digits *)

Lemma double_mod_spec n a b : wf a -> wf b -> sign a = PSTM_ZPOS -> mag a < mag b -> Z.of_nat (used b) < 4000 ->
  exists c, double_mod n a b = Okay c /\ wf c /\ sign c = PSTM_ZPOS /\ mag c = (mag a * 2 ^ Z.of_nat n) mod mag b /\
    (alloc a <= alloc c <= alloc a `max` (used b + 1))%nat.
Proof.
  revert a. induction n as [|n IH]; intros a Ha Hb Sa Hm Hu; pose proof (mag_lt a (wf_pre _ Ha)) as Ra.
  { exists a. cbn. split; [done|]. split; [done|]. split; [done|]. split; [rewrite Z.mod_small; lia|lia]. }
  cbn [double_mod].
  assert (used a <= used b)%nat as Hub by (apply used_le; [done|]; pose proof (mag_lt b (wf_pre _ Hb)); lia).
  destruct (mul_2_spec a a Ha (wf_pre _ Ha)) as (a1 & -> & W1 & M1 & S1 & A1); [lia|]. cbn [mbind ret_bind].
  rewrite cmp_mag_spec by done. cbn [mbind ret_bind]. rewrite cmpz_lt, M1.
  assert (sign a1 = PSTM_ZPOS) as Sa1.
  { destruct (Z.eq_dec (mag a1) 0) as [E0|E0]; [apply W1; by apply (mag_zero a1 W1)|]. rewrite S1; congruence. }
  assert (exists a2, (if 2 * mag a <? mag b then Okay a1 else s_pstm_sub a1 b a1) = Okay a2 /\ wf a2 /\
    sign a2 = PSTM_ZPOS /\ mag a2 < mag b /\ mag a2 = (2 * mag a) mod mag b /\ alloc a2 = alloc a1) as (a2 & -> & W2 & S2 & L2 & M2 & A2).
  { destruct (Z.ltb_spec (2 * mag a) (mag b)).
    - exists a1. repeat split; try done; try apply W1; [lia|rewrite Z.mod_small; lia].
    - assert (used a1 <= used b + 1)%nat.
      { apply used_le; [done|]. rewrite M1, Bpow_add. pose proof (mag_lt b (wf_pre _ Hb)). change (B ^ Z.of_nat 1) with B.
        unfold B in *. lia. }
      destruct (s_sub_close a1 b a1 W1 Hb (wf_pre _ W1)) as (a2 & E & W & M & S & A); [lia|done|].
      exists a2. split; [done|]. split; [done|]. pose proof (pre_used a1 (wf_pre _ W1)) as Pu. fold (alloc a1) in Pu.
      split; [|split; [lia|split; [|lia]]].
      + destruct (Z.eq_dec (mag a2) 0) as [E0|E0]; [apply W; by apply (mag_zero a2 W)|]. rewrite S; congruence.
      + rewrite M, M1. apply Z.mod_unique with 1; lia. }
  cbn [mbind ret_bind]. destruct (IH a2 W2 Hb S2 L2 Hu) as (c & E & W & S & M & A).
  exists c. split; [done|]. split; [done|]. split; [done|]. split; [|lia].
  rewrite M, M2, Zmult_mod_idemp_l, Nat2Z.inj_succ, Z.pow_succ_r by lia. f_equal. ring.
Qed.

(** The number of bits in the leading digit, 1 to 32. *)
Lemma top_bits b : wf b -> 0 < mag b ->
  exists n bits, pstm_count_bits b = Okay n /\ bits = (if (n mod 32 =? 0)%nat then 32%nat else (n mod 32)%nat) /\
    (1 <= bits <= 32)%nat /\ Z.log2 (mag b) = 32 * (Z.of_nat (used b) - 1) + Z.of_nat bits - 1 /\ (1 <= used b)%nat.
Proof.
  intros Hb Hm. destruct (count_bits_spec b Hb) as (n & En & Ln). destruct (Z.eqb_spec (mag b) 0); [lia|].
  assert (used b <> 0%nat) as Hub by (intros E; apply (mag_zero b Hb) in E; lia).
  pose proof (mag_lt b (wf_pre _ Hb)) as Rb. pose proof (mag_ge b Hb Hub) as Gb.
  assert (32 * Z.of_nat (used b - 1) <= Z.log2 (mag b) < 32 * Z.of_nat (used b)) as R.
  { split; [apply Z.log2_le_pow2|apply Z.log2_lt_pow2]; unfold B in *; try rewrite Z.pow_mul_r; lia. }
  eexists n, _. split; [done|]. split; [done|]. clear Rb Gb En Hb.
  pose proof (Nat.div_mod_eq n 32). pose proof (Nat.mod_upper_bound n 32).
  destruct (Nat.eqb_spec (n mod 32) 0); lia.
Qed.

Lemma two_expt_top a u bits : (1 <= u)%nat -> Z.of_nat u < 4000 -> (u <= alloc a)%nat -> (1 <= bits <= 32)%nat ->
  computes (pstm_2expt a (Z.of_nat ((u - 1) * 32 + bits - 1))) (2 ^ (32 * (Z.of_nat u - 1) + Z.of_nat bits - 1))
    PSTM_ZPOS (alloc a).
Proof.
  intros H1 H2 H3 H4.
  replace (Z.of_nat ((u - 1) * 32 + bits - 1)) with (32 * (Z.of_nat u - 1) + Z.of_nat bits - 1) by lia.
  set (e := 32 * (Z.of_nat u - 1) + Z.of_nat bits - 1).
  assert (e / 32 = Z.of_nat u - 1) as Ed by (unfold e; Z.div_mod_to_equations; lia).
  pose proof (two_expt_spec a e ltac:(lia) ltac:(lia)) as C. rewrite Ed in C.
  by replace (alloc a `max` (Z.to_nat (Z.of_nat u - 1) + 1))%nat with (alloc a) in C by lia.
Qed.

(** The starting point: the power of two with as many bits as [b]. *)
Definition norm_start (a b : pstm_int) (bits : nat) : ret (pstm_int * nat) :=
  if (1 <? used b)%nat
  then a ← pstm_2expt a (Z.of_nat ((used b - 1) * 32 + bits - 1)); Okay (a, bits)
  else a ← pstm_set a 1; Okay (a, 1%nat).

Lemma norm_start_spec a b bits : wf b -> 1 < mag b -> mag b mod 2 = 1 ->
  Z.log2 (mag b) = 32 * (Z.of_nat (used b) - 1) + Z.of_nat bits - 1 -> (1 <= bits <= 32)%nat -> (1 <= used b)%nat ->
  Z.of_nat (used b) < 4000 -> (used b <= alloc a)%nat ->
  exists c k, norm_start a b bits = Okay (c, k) /\ wf c /\ sign c = PSTM_ZPOS /\ mag c < mag b /\ alloc c = alloc a /\
    mag c * 2 ^ Z.of_nat (32 - (k - 1)) = B ^ Z.of_nat (used b).
Proof.
  intros Hb Hm Ho Hl Hbits Hu1 Hu Ha. unfold norm_start. destruct (Nat.ltb_spec 1 (used b)) as [Hgt|Hle].
  - destruct (two_expt_top a (used b) bits Hu1 Hu Ha Hbits) as (c & -> & W & M & S & A). cbn [mbind ret_bind].
    rewrite <- Hl in M. pose proof (Z.log2_spec (mag b) ltac:(lia)) as [L1 L2].
    pose proof (Z.pow_pos_nonneg 2 (Z.log2 (mag b)) ltac:(lia) ltac:(apply Z.log2_nonneg)).
    exists c, bits. split; [done|]. split; [done|]. split; [apply S; lia|]. split; [|split; [done|]].
    + rewrite M. destruct (Z.eq_dec (2 ^ Z.log2 (mag b)) (mag b)) as [E|]; [|lia].
      exfalso. assert (0 < Z.log2 (mag b)) by (apply Z.log2_pos; lia).
      rewrite <- E in Ho. replace (Z.log2 (mag b)) with (Z.succ (Z.log2 (mag b) - 1)) in Ho by lia.
      rewrite Z.pow_succ_r, Z.mul_comm, Z.mod_mul in Ho by lia. done.
    + rewrite M, <- Z.pow_add_r by lia. unfold B. rewrite <- Z.pow_mul_r by lia. f_equal. lia.
  - destruct (set_spec a 1) as (c & -> & W & M & S & A); [lia|done|]. cbn [mbind ret_bind].
    exists c, 1%nat. split; [done|]. split; [done|]. split; [by apply S|]. split; [lia|]. split; [done|].
    rewrite M. replace (used b) with 1%nat by lia. done.
Qed.

Lemma normalization_spec a b : wf b -> mag b mod 2 = 1 -> 1 < mag b -> Z.of_nat (used b) < 4000 ->
  (used b + 1 <= alloc a)%nat ->
  exists c, pstm_montgomery_calc_normalization a b = Okay c /\ wf c /\ sign c = PSTM_ZPOS /\
    mag c = B ^ Z.of_nat (used b) mod mag b /\ alloc c = alloc a.
Proof.
  intros Hb Ho H1 Hu Ha. unfold pstm_montgomery_calc_normalization.
  destruct (top_bits b Hb) as (n & bits & -> & Eb & Hbits & Hl & Hu1); [lia|]. cbn [mbind ret_bind]. rewrite <- Eb.
  fold (norm_start a b bits). clear Eb.
  destruct (norm_start_spec a b bits) as (a1 & k & -> & W1 & S1 & L1 & A1 & M1); [done|done|done|done|done|done|done|lia|].
  cbn [mbind ret_bind]. destruct (double_mod_spec (32 - (k - 1)) a1 b W1 Hb S1 L1 Hu) as (c & E & W & S & M & A).
  exists c. rewrite M1 in M. split; [done|]. split; [done|]. split; [done|]. split; [done|lia].
Qed.

End PstmMul.
