(* ===== verification/PstmMont.v ===== *)
(** * Montgomery reduction

    What pstm_montgomery_reduce computes, from what its rounds do to the
    scratch array. *)

From S2P Require Import Prelude Pstm PstmFacts PstmMul.

Module PstmMont.
Import Pstm PstmFacts PstmMul.

(** ** Montgomery reduction *)

Lemma carry_digit c cy : is_u32 c -> is_u32 cy ->
  let t := u32 (c + cy) in let k := if t <? cy then 1 else 0 in is_u32 t /\ 0 <= k <= 1 /\ c + cy = t + B * k.
Proof.
  intros Hc Hy. cbn zeta. unfold is_u32, u32, B in *. change (2 ^ 32) with 4294967296 in *.
  destruct (Z.ltb_spec ((c + cy) mod 4294967296) cy); Z.div_mod_to_equations; lia.
Qed.

Lemma prop_carry_spec l cy : digits_ok l -> is_u32 cy -> dval l + cy < B ^ Z.of_nat (length l) ->
  exists l', prop_carry l cy = Okay l' /\ digits_ok l' /\ length l' = length l /\ dval l' = dval l + cy.
Proof.
  intros Hl. revert cy. induction Hl as [|c l Hc Hl IH]; intros cy Hy Hv; cbn [prop_carry];
    destruct (Z.eqb_spec cy 0) as [->|Hn].
  1,3: eexists; split; [done|]; split; [try constructor; done|]; split; [done|lia].
  - exfalso. cbn in Hv. unfold is_u32 in Hy. lia.
  - destruct (carry_digit c cy Hc Hy) as (Ht & Hk & E). set (t := u32 (c + cy)) in *.
    set (k := if t <? cy then 1 else 0) in *. clearbody t k. cbn [dval length] in *. rewrite Bpow_S in Hv.
    destruct (IH k) as (l' & -> & D & L & V); [unfold is_u32; lia| |].
    { unfold is_u32 in Ht. fold B in Ht. pose proof B_pos. nia. }
    cbn [mbind ret_bind]. eexists. split; [done|]. split; [by constructor|]. split; [cbn; lia|]. cbn [dval]. rewrite V. lia.
Qed.

Lemma inner_digit c cy mu m : is_u32 c -> is_u32 cy -> is_u32 mu -> is_u32 m ->
  let t := u64 (c + cy + mu * m) in let k := u32 (Z.shiftr t 32) in
  is_u32 (u32 t) /\ is_u32 k /\ c + cy + mu * m = u32 t + B * k.
Proof.
  intros Hc Hy Hu Hm t k. pose proof (product_bound mu m Hu Hm) as Hp. unfold is_u32 in Hc, Hy. fold B in Hc, Hy.
  assert (t = c + cy + mu * m) as Et by (apply u64_id; unfold is_u64, B in *; lia).
  destruct (split32 t) as (Dt & Rt & Vt); [rewrite Et; unfold B in *; lia|].
  assert (k = Z.shiftr t 32) as Ek by by apply u32_id. split; [done|]. split; [by rewrite Ek|]. rewrite Ek. lia.
Qed.

Lemma inner_mul_spec mu ms l cy : is_u32 mu -> digits_ok ms -> digits_ok l -> is_u32 cy ->
  (length ms <= length l)%nat -> dval l + cy + mu * dval ms < B ^ Z.of_nat (length l) ->
  exists l', inner_mul mu ms l cy = Okay l' /\ digits_ok l' /\ length l' = length l /\ dval l' = dval l + cy + mu * dval ms.
Proof.
  intros Hu Hms. revert l cy. induction Hms as [|m ms Hm _ IH]; intros l cy Hl Hy Hlen Hv.
  { cbn [dval] in *. destruct (prop_carry_spec l cy Hl Hy) as (l' & E & D & L & V); [lia|].
    exists l'. cbn [inner_mul]. split; [done|]. split; [done|]. split; [done|lia]. }
  destruct l as [|c l]; [cbn in Hlen; lia|]. inversion Hl as [|? ? Hc Hl']; subst. cbn [inner_mul dval length] in *.
  unfold DIGIT_BIT. destruct (inner_digit c cy mu m Hc Hy Hu Hm) as (Ht & Hk & E).
  set (t := u64 (c + cy + mu * m)) in *. set (k := u32 (Z.shiftr t 32)) in *. set (w := u32 t) in *. clearbody w k t.
  rewrite Bpow_S in Hv. unfold is_u32 in Ht. fold B in Ht.
  destruct (IH l k Hl' Hk ltac:(lia)) as (l' & -> & D & L & V); [pose proof B_pos; nia|].
  cbn [mbind ret_bind]. eexists. split; [done|]. split; [by constructor|]. split; [cbn; lia|]. cbn [dval]. rewrite V. nia.
Qed.

(** One round makes the lowest digit zero. *)
Lemma mont_round c ms mp : digits_ok c -> digits_ok ms -> (B | mp * dval ms + 1) -> (length ms <= length c)%nat ->
  c <> [] -> dval c + (B - 1) * dval ms < B ^ Z.of_nat (length c) ->
  exists c' mu, (x ← get c 0; inner_mul (u32 (x * mp)) ms c 0) = Okay (0 :: c') /\ digits_ok c' /\ length c = S (length c') /\
    0 <= mu < B /\ B * dval c' = dval c + mu * dval ms.
Proof.
  intros Hc Hms [j Hj] Hlen Hne Hv. destruct c as [|x c]; [done|]. cbn [get lookup list_lookup mbind ret_bind].
  change (get (x :: c) 0) with (Okay x). cbn [mbind ret_bind].
  assert (is_u32 (u32 (x * mp))) as Hu by apply u32_range. pose proof (dval_range ms Hms).
  destruct (inner_mul_spec (u32 (x * mp)) ms (x :: c) 0 Hu Hms Hc) as (l & -> & D & L & V); [done|done| |].
  { unfold is_u32 in Hu. fold B in Hu. nia. }
  destruct l as [|d l]; [cbn in L; lia|]. inversion D as [|? ? Hd D']; subst. cbn [dval] in V.
  destruct (u32_offset (x * mp)) as [i Hi].
  assert (d = 0) as ->.
  { unfold is_u32 in Hd. fold B in Hd. rewrite Hi in V.
    assert (d = B * (dval c + x * j + i * dval ms - dval l)); [|unfold B in *; nia].
    transitivity (x + B * dval c + 0 + (x * mp + B * i) * dval ms - B * dval l); [lia|].
    transitivity (x * (mp * dval ms + 1) + B * (dval c + i * dval ms - dval l)); [ring|]. rewrite Hj. ring. }
  exists l, (u32 (x * mp)). split; [done|]. split; [done|]. split; [cbn in *; lia|]. split; [done|]. cbn [dval]. lia.
Qed.

Lemma mont_rounds_spec n ms mp c : digits_ok c -> digits_ok ms -> (B | mp * dval ms + 1) ->
  (n + length ms <= S (length c))%nat -> (n <= length c)%nat ->
  dval c + (B ^ Z.of_nat n - 1) * dval ms < B ^ Z.of_nat (length c) ->
  exists c' q, mont_rounds n ms mp c = Okay c' /\ digits_ok c' /\ length c = (n + length c')%nat /\
    0 <= q < B ^ Z.of_nat n /\ B ^ Z.of_nat n * dval c' = dval c + q * dval ms.
Proof.
  revert c. induction n as [|n IH]; intros c Hc Hms Hd Hl Hn Hv.
  { exists c, 0. split; [done|]. split; [done|]. split; [done|]. change (B ^ Z.of_nat 0) with 1. lia. }
  pose proof (dval_range ms Hms) as Rm. pose proof (Bpow_pos n) as Pn. rewrite Bpow_S in *.
  destruct (mont_round c ms mp Hc Hms Hd) as (c1 & mu & E1 & D1 & L1 & R1 & V1);
    [lia|by intros ->; cbn in Hn; lia|pose proof B_pos; nia|].
  assert (mont_rounds (S n) ms mp c = mont_rounds n ms mp c1) as ->.
  { cbn [mont_rounds]. destruct (get c 0); [|done|done]. cbn [mbind ret_bind] in *. rewrite E1. done. }
  destruct (IH c1 D1 Hms Hd) as (c' & q & E & D & L & R & V); [lia|lia| |].
  { rewrite L1, Bpow_S in Hv. pose proof B_pos. nia. }
  exists c', (mu + B * q). split; [done|]. split; [done|]. split; [lia|]. split; [nia|].
  rewrite <- Z.mul_assoc, V. transitivity (B * dval c1 + B * q * dval ms); [ring|]. rewrite V1. ring.
Qed.

(** The rounds on the scratch array with a copy of [a]. *)
Lemma mont_scratch a m mp size : pre a -> wf m -> (B | mp * mag m + 1) -> mag a < mag m * B ^ Z.of_nat (used m) ->
  (used a <= size)%nat -> (2 * used m + 1 <= size)%nat ->
  exists da ms c q, digits a = Okay da /\ digits m = Okay ms /\
    mont_rounds (used m) ms mp (da ++ replicate (size - used a) 0) = Okay c /\ digits_ok c /\ (used m + 1 <= length c)%nat /\
    0 <= dval c < 2 * mag m /\ B ^ Z.of_nat (used m) * dval c = mag a + q * mag m.
Proof.
  intros Ha Hm Hp Hv Hu Hs. destruct (digits_spec a Ha) as (da & Ea & La & Da & Va & _).
  destruct (digits_spec m (wf_pre _ Hm)) as (ms & Em & Lm & Dm & Vm & _).
  pose proof (mag_lt m (wf_pre _ Hm)) as Rm. pose proof (Bpow_pos (used m)) as Pm.
  set (c0 := da ++ replicate (size - used a) 0).
  assert (length c0 = size) as Lc by (unfold c0; rewrite length_app, length_replicate; lia).
  assert (dval c0 = mag a) as Vc by (unfold c0; rewrite dval_app, dval_replicate; lia).
  destruct (mont_rounds_spec (used m) ms mp c0) as (c & q & E & D & L & R & V).
  { apply digits_ok_app. auto with pstm. }
  { done. }
  { by rewrite Vm. }
  { lia. }
  { lia. }
  { rewrite Vc, Vm, Lc. pose proof (Bpow_mono (2 * used m + 1) size Hs).
    replace (2 * used m + 1)%nat with (S (used m + used m)) in * by lia. rewrite Bpow_S, Bpow_add in *.
    set (X := B ^ Z.of_nat (used m)) in *. assert (mag m * X <= X * X) by nia.
    assert (2 * (X * X) <= B * (X * X)) by (unfold B; nia). lia. }
  exists da, ms, c, q. rewrite Vc, Vm in V. pose proof (dval_range c D).
  split; [done|]. split; [done|]. split; [done|]. split; [done|]. split; [lia|]. split; [|done]. split; [lia|]. nia.
Qed.

Lemma take_small l n : digits_ok l -> (n <= length l)%nat -> dval l < B ^ Z.of_nat n -> dval (take n l) = dval l.
Proof.
  intros Hl Hn Hv. rewrite (dval_take_drop n l) in Hv |- *. rewrite length_take, Nat.min_l in * by done.
  pose proof (dval_range _ (Forall_take _ n _ Hl)). pose proof (dval_range _ (Forall_drop _ n _ Hl)).
  pose proof (Bpow_pos n). assert (dval (drop n l) < 1) by nia. nia.
Qed.

Lemma reduce_spec a m mp paDlen : pre a -> sign a = PSTM_ZPOS -> wf m -> (B | mp * mag m + 1) ->
  mag a < mag m * B ^ Z.of_nat (used m) -> (used m + 1 <= alloc a)%nat ->
  (used a <= scratch_digits (used m) paDlen)%nat -> (2 * used m + 1 <= scratch_digits (used m) paDlen)%nat ->
  exists r k, pstm_montgomery_reduce a m mp paDlen = Okay r /\ wf r /\ sign r = PSTM_ZPOS /\ alloc r = alloc a /\
    mag r < mag m /\ mag r * B ^ Z.of_nat (used m) = mag a + k * mag m.
Proof.
  intros Ha Sa Hm Hp Hv Hal Hu Hs. unfold pstm_montgomery_reduce. set (size := scratch_digits _ _) in *. cbn zeta.
  destruct (mont_scratch a m mp size Ha Hm Hp Hv Hu Hs) as (da & ms & c & q & -> & -> & E & D & L & R & V).
  destruct (Nat.ltb_spec (alloc a) (used m)); [lia|]. cbn [mbind ret_bind].
  destruct (Nat.ltb_spec size (used a)); [lia|]. rewrite E. cbn [mbind ret_bind].
  destruct (Nat.ltb_spec (length c) (used m + 1)); [lia|].
  pose proof (mag_lt m (wf_pre _ Hm)) as Rm. pose proof (pre_used a Ha).
  assert (dval (take (used m + 1) c) = dval c) as Vt.
  { apply take_small; [done|lia|]. rewrite Bpow_add. change (B ^ Z.of_nat 1) with B. assert (B = 4294967296) as EB by done.
    rewrite EB at 2. lia. }
  assert (length (take (used m + 1) c) = used m + 1)%nat as Lt by (rewrite length_take; lia).
  destruct (finish_spec (dp a) (take (used m + 1) c) (used a) (sign a) (used m + 1) (alloc a))
    as (r & Er & Wr & Mr & Sr & Ar); [done|done|unfold alloc in *; lia|apply Ha|by apply Forall_take|apply Ha|
      apply zeros_above; [done|lia]|apply Ha|].
  unfold mbind, ret_bind in Er. rewrite Vt in Mr.
  destruct (store (dp a) _ _) as [d| |]; [|done|done]. cbn [mbind ret_bind]. rewrite Er. cbn [mbind ret_bind].
  rewrite cmp_mag_spec by done. cbn [mbind ret_bind]. rewrite cmpz_lt, Mr.
  assert (sign r = PSTM_ZPOS) as Zr.
  { destruct (Z.eq_dec (mag r) 0) as [E0|E0]; [apply Wr; by apply (mag_zero r Wr)|]. rewrite Sr; congruence. }
  destruct (Z.ltb_spec (dval c) (mag m)).
  - exists r, q. split; [done|]. split; [done|]. split; [done|]. split; [done|]. split; [lia|]. rewrite Mr. lia.
  - destruct (s_sub_close r m r Wr Hm (wf_pre _ Wr)) as (t & -> & Wt & Mt & St & At); [lia| |].
    { apply used_le; [done|]. rewrite Mr, Bpow_add. change (B ^ Z.of_nat 1) with B. assert (B = 4294967296) as EB by done.
      rewrite EB at 2. lia. }
    exists t, (q - B ^ Z.of_nat (used m)). split; [done|]. split; [done|]. pose proof (pre_used r (wf_pre _ Wr)) as Pu. fold (alloc r) in Pu.
    split; [|split; [lia|split; [lia|rewrite Mt, Mr; lia]]].
    destruct (Z.eq_dec (mag t) 0) as [E0|E0]; [apply Wt; by apply (mag_zero t Wt)|]. rewrite St; congruence.
Qed.

End PstmMont.
