(* ===== verification/PstmDiv.v ===== *)
(** * Division (pstm_div, pstm_mod, pstm_mulmod of src/busybox/networking/tls_pstm.c)

    Schoolbook division with a trial digit from the leading digits, as the code
    has it: the divisor is shifted until its leading digit has 31 bits, the trial
    digit is lowered while it is too large for the leading two digits of the
    divisor, and a remainder that still becomes negative is repaired by adding
    the divisor back.  The fuel of the two inner loops follows from the 31 bits:
    the leading digit is at least 2^30, so the first loop subtracts at most three
    times and the trial digit is at most four too large. *)

From S2P Require Import Prelude Pstm PstmFacts PstmMul.

Module PstmDiv.
Import Pstm PstmFacts PstmMul.

(** ** Definitions *)

(** [while (pstm_cmp(&x, &y) != PSTM_LT)]: the new [x] and the number of rounds. *)
Fixpoint sub_while (fuel : nat) (x y : pstm_int) (qd : Z) : ret (pstm_int * Z) :=
  r ← pstm_cmp x y;
  if r =? PSTM_LT then Okay (x, qd)
  else match fuel with
  | O => Crash
  | S f => x ← pstm_sub x y x; sub_while f x y (u32 (qd + 1))
  end.

(** The first trial digit. *)
Definition trial_digit (x y : pstm_int) (i t : nat) : ret Z :=
  xi ← get (dp x) i;
  yt ← get (dp y) t;
  if xi =? yt then Okay (u32 (u64 (Z.shiftl 1 DIGIT_BIT) - 1))
  else
    x1 ← get (dp x) (i - 1);
    let tmp := Z.lor (u64 (Z.shiftl xi DIGIT_BIT)) x1 in
    if yt =? 0 then Crash else Okay (u32 (tmp / yt)).

(** [(j - 1 < 0) ? 0 : l[j - 1]] *)
Definition get_below (l : list Z) (j : nat) : ret Z :=
  match j with O => Okay 0 | S j' => get l j' end.

(** The [do] loop that lowers the trial digit; [t2] always has three digits. *)
Fixpoint lower_digit (fuel : nat) (x y t1 : pstm_int) (i t : nat) (q : Z) : ret (Z * pstm_int) :=
  match fuel with
  | O => Crash
  | S f =>
      let q := u32 (q - 1) in
      let t1 := pstm_zero t1 in
      y1 ← get_below (dp y) t;
      d ← put (dp t1) 0 y1;
      y0 ← get (dp y) t;
      d ← put d 1 y0;
      let t1 := {| used := 2; sign := sign t1; dp := d |} in
      t1 ← pstm_mul_d t1 q t1;
      x2 ← get_below (dp x) (i - 1);
      x1 ← get_below (dp x) i;
      x0 ← get (dp x) i;
      let t2 := {| used := 3; sign := PSTM_ZPOS; dp := [x2; x1; x0] |} in
      r ← pstm_cmp_mag t1 t2;
      if r =? PSTM_GT then lower_digit f x y t1 i t q else Okay (q, t1)
  end.

(** Step 3 for [i = t + 1 + k]: the new [x], [q] and [t1]. *)
Definition div_round (x y : pstm_int) (q : list Z) (t1 : pstm_int) (t k : nat) : ret (pstm_int * list Z * pstm_int) :=
  let i := (t + 1 + k)%nat in
  qd ← trial_digit x y i t;
  '(qd, t1) ← lower_digit 5 x y t1 i t (u32 (qd + 1));
  t1 ← pstm_mul_d y qd t1;
  t1 ← pstm_lshd t1 k;
  x ← pstm_sub x t1 x;
  if sign x =? PSTM_NEG then
    t1 ← pstm_copy y t1;
    t1 ← pstm_lshd t1 k;
    x ← pstm_add x t1 x;
    q ← put q k (u32 (qd - 1));
    Okay (x, q, t1)
  else
    q ← put q k qd;
    Okay (x, q, t1).

(** [for (i = n; i >= t + 1; i--)], the last [k] rounds. *)
Fixpoint div_loop (k : nat) (x y : pstm_int) (q : list Z) (t1 : pstm_int) (t : nat) : ret (pstm_int * list Z) :=
  match k with
  | O => Okay (x, q)
  | S k' =>
      if (used x <? t + 1 + k')%nat then div_loop k' x y q t1 t
      else '(x, q, t1) ← div_round x y q t1 t k'; div_loop k' x y q t1 t
  end.

(** Both numbers shifted up, and the shift. *)
Definition normalize (x y : pstm_int) : ret (pstm_int * pstm_int * nat) :=
  n ← pstm_count_bits y;
  if (n mod 32 <? 31)%nat then
    let norm := (31 - n mod 32)%nat in
    x ← pstm_mul_2d x norm x;
    y ← pstm_mul_2d y norm y;
    Okay (x, y, norm)
  else Okay (x, y, 0%nat).

Definition pstm_div (a b : pstm_int) (c d : option pstm_int) : ret (option pstm_int * option pstm_int) :=
  if (used b =? 0)%nat then Err PS_LIMIT_FAIL
  else
    r ← pstm_cmp_mag a b;
    if r =? PSTM_LT then
      d ← match d with None => Okay None | Some d => d ← pstm_copy a d; Okay (Some d) end;
      Okay (pstm_zero <$> c, d)
    else
      let t1 := pstm_init_size (alloc a) in
      x ← pstm_init_copy a false;
      y ← pstm_copy b (pstm_init_size (used b * 3));
      let neg := if sign a =? sign b then PSTM_ZPOS else PSTM_NEG in
      '(x, y, norm) ← normalize (set_sign PSTM_ZPOS x) (set_sign PSTM_ZPOS y);
      let n := (used x - 1)%nat in
      let t := (used y - 1)%nat in
      let q := replicate (n - t + 1) 0 in
      y ← pstm_lshd y (n - t);
      '(x, qd) ← sub_while 4 x y 0;
      q ← put q (n - t) qd;
      y ← pstm_rshd y (n - t);
      '(x, q) ← div_loop (n - t) x y q t1 t;
      let x := set_sign (if (used x =? 0)%nat then PSTM_ZPOS else sign a) x in
      c ← match c with
          | None => Okay None
          | Some c =>
              q ← pstm_clamp {| used := n - t + 1; sign := PSTM_ZPOS; dp := q |};
              c ← pstm_copy q c;
              Okay (Some (set_sign neg c))
          end;
      d ← match d with
          | None => Okay None
          | Some d =>
              '(x, _) ← pstm_div_2d x norm x None;
              dx ← digits x;
              z ← store (dp x) (take (used b) dx) (used x);
              x ← pstm_clamp (set_dp z x);
              d ← pstm_copy x d;
              Okay (Some d)
          end;
      Okay (c, d).

Definition pstm_exch (a b : pstm_int) : pstm_int * pstm_int := (b, a).

(** [c]; the number that was in [c] is freed when they are exchanged. *)
Definition pstm_mod (a b c : pstm_int) : ret pstm_int :=
  '(_, t) ← pstm_div a b None (Some (pstm_init_size (alloc b)));
  match t with
  | None => Crash
  | Some t =>
      if negb (sign t =? sign b) then pstm_add t b c
      else let '(_, c) := pstm_exch t c in Okay c
  end.

(** [same]: the output is the first factor. *)
Definition pstm_mulmod (a b c d : pstm_int) (same : bool) : ret pstm_int :=
  let size := (used a + used b + 1)%nat in
  let size := if same && (size <? alloc a)%nat then alloc a else size in
  tmp ← pstm_mul_comba a b (pstm_init_size size);
  pstm_mod tmp c d.

End PstmDiv.
