(* ===== verification/PstmDivFacts.v ===== *)
(** * What the division computes

    The trial digit is at most one too large when its loop ends, so that one
    step of adding back repairs the remainder.  The result is the quotient and
    the remainder, for dividends on which the subtraction that adds back never
    has to pass a borrow beyond one digit. *)

From S2P Require Import Prelude Pstm PstmFacts PstmMul PstmMont PstmDiv.

Module PstmDivFacts.
Import Pstm PstmFacts PstmMul PstmMont PstmDiv.

(** ** The trial digit *)

Lemma floor_mul n d : 0 < d -> d * (n / d) <= n < d * (n / d) + d.
Proof. intros H. pose proof (Z.mul_div_le n d H). pose proof (Z.mul_succ_div_gt n d H). lia. Qed.

Section trial.
(** [Bt] and [Bk] stand for B^t and B^k, [X] for the dividend of the round. *)
Context (X Y Bt Bk : Z).
Hypothesis Bt_pos : 1 <= Bt.
Hypothesis Bk_pos : 1 <= Bk.
Hypothesis X_nonneg : 0 <= X.
Hypothesis Y_range : 2 ^ 30 * Bt <= Y < 2 ^ 31 * Bt.
Hypothesis X_range : X < Y * Bk * B.

Let q := X / (Y * Bk).
Let yt := Y / Bt.
(** The leading two digits of the dividend, the leading two of the divisor and
    the leading three of the dividend. *)
Let T := X / (Bt * Bk).
Let T2 := Y * B / Bt.
Let T3 := X * B / (Bt * Bk).

Lemma YBk_pos : 0 < Y * Bk.
Proof. nia. Qed.

Lemma yt_range : 2 ^ 30 <= yt < 2 ^ 31.
Proof.
  unfold yt. split; [apply Z.div_le_lower_bound; lia|apply Z.div_lt_upper_bound; lia].
Qed.

Lemma q_mul : q * (Y * Bk) <= X < (q + 1) * (Y * Bk).
Proof. pose proof (floor_mul X (Y * Bk) YBk_pos). unfold q. lia. Qed.

Lemma q_range : 0 <= q < B.
Proof.
  unfold q. pose proof YBk_pos. split; [apply Z.div_pos; lia|]. apply Z.div_lt_upper_bound; [done|]. lia.
Qed.

Lemma yt_mul : Bt * yt <= Y < Bt * yt + Bt.
Proof. apply floor_mul. lia. Qed.

Lemma T_ge z : z * (Bt * Bk) <= X -> z <= T.
Proof. intros H. apply Z.div_le_lower_bound; nia. Qed.

(** The quotient digit passes the test of the loop. *)
Lemma q_fits : q * T2 <= T3.
Proof.
  apply Z.div_le_lower_bound; [nia|]. pose proof q_mul as [Hq _]. pose proof q_range.
  pose proof (floor_mul (Y * B) Bt ltac:(lia)) as [H2 _]. fold T2 in H2.
  assert (q * Bk * (Bt * T2) <= q * Bk * (Y * B)) by (apply Z.mul_le_mono_nonneg_l; nia).
  pose proof B_pos. nia.
Qed.

Lemma q_first : q * yt <= T.
Proof.
  apply T_ge. pose proof yt_mul as [Hy _]. pose proof q_mul as [Hq _]. pose proof q_range.
  assert (q * Bk * (Bt * yt) <= q * Bk * Y) by (apply Z.mul_le_mono_nonneg_l; nia). lia.
Qed.

(** A digit that passes is at most one too large. *)
Lemma fits_close z : 0 <= z < B -> z * T2 <= T3 -> z <= q + 1.
Proof.
  intros Hz Ht. pose proof q_mul as [_ Hq].
  pose proof (floor_mul (Y * B) Bt ltac:(lia)) as [_ H2]. fold T2 in H2.
  pose proof (floor_mul (X * B) (Bt * Bk) ltac:(nia)) as [H3 _]. fold T3 in H3.
  assert (z * (Y * B) <= z * (Bt * T2 + Bt)) as E1 by (apply Z.mul_le_mono_nonneg_l; lia).
  assert (z * (Y * B) * Bk <= z * (Bt * T2 + Bt) * Bk) as E2 by (apply Z.mul_le_mono_nonneg_r; lia).
  assert (Bt * Bk * (z * T2) <= Bt * Bk * T3) as E3 by (apply Z.mul_le_mono_nonneg_l; nia).
  assert (z * (Bt * Bk) < B * (Bt * Bk)) as E4 by (apply Z.mul_lt_mono_pos_r; nia).
  assert (z * (Y * Bk) < X + Bt * Bk) as E5 by (apply (Z.mul_lt_mono_pos_l B); [done|lia]).
  assert (Bt * Bk <= Y * Bk) as E6 by nia. pose proof YBk_pos as HP.
  assert (z < q + 2); [|lia]. apply (Z.mul_lt_mono_pos_r (Y * Bk)); [done|lia].
Qed.

(** When the leading digit is zero, so is a first trial digit that skips the test. *)
Lemma short_close z : 0 <= z -> z * yt <= T -> T < B -> z <= q + 1.
Proof.
  intros Hz H1 HT. pose proof q_mul as [_ Hq]. pose proof yt_range as Ry. pose proof yt_mul as [_ Hy].
  assert (z <= 4) as H4 by (unfold B in *; nia).
  pose proof (floor_mul X (Bt * Bk) ltac:(nia)) as [HX _]. fold T in HX.
  assert (z * (Y * Bk) <= z * ((Bt * yt + Bt) * Bk)) as E1 by (apply Z.mul_le_mono_nonneg_l; nia).
  assert (Bt * Bk * (z * yt) <= Bt * Bk * T) as E2 by (apply Z.mul_le_mono_nonneg_l; nia).
  assert (z * (Bt * Bk) <= 4 * (Bt * Bk)) as E3 by nia.
  assert (4 * (Bt * Bk) < Y * Bk) as E4 by nia. pose proof YBk_pos as HP.
  assert (z < q + 2); [|lia]. apply (Z.mul_lt_mono_pos_r (Y * Bk)); [done|lia].
Qed.

(** The first trial digit is at most four too large. *)
Lemma first_close z : 0 <= z < B -> z * yt <= T -> z - 4 <= q.
Proof.
  intros Hz H1. pose proof yt_range as Ry. pose proof yt_mul as [_ Hy]. pose proof q_range.
  destruct (Z.lt_ge_cases z 4) as [|H4]; [lia|].
  assert ((z - 4) * (yt + 1) <= T) as E1 by (unfold B in *; nia).
  pose proof (floor_mul X (Bt * Bk) ltac:(nia)) as [HX _]. fold T in HX.
  assert (Bt * Bk * ((z - 4) * (yt + 1)) <= Bt * Bk * T) as E2 by (apply Z.mul_le_mono_nonneg_l; nia).
  assert ((z - 4) * (Y * Bk) <= (z - 4) * ((Bt * yt + Bt) * Bk)) as E3 by (apply Z.mul_le_mono_nonneg_l; nia).
  apply Z.div_le_lower_bound; [apply YBk_pos|]. lia.
Qed.
End trial.

(** ** The leading digits *)

Lemma get_digit l i : digits_ok l -> (i < length l)%nat -> get l i = Okay (dval l / B ^ Z.of_nat i mod B).
Proof. intros Hl Hi. by rewrite get_nth, dval_nth. Qed.

Lemma get_below_spec l j : digits_ok l -> (j <= length l)%nat ->
  exists d, get_below l j = Okay d /\ is_u32 d /\ d + B * (dval l / B ^ Z.of_nat j) = dval l * B / B ^ Z.of_nat j.
Proof.
  intros Hl Hj. destruct j as [|j].
  - exists 0. cbn [get_below]. change (B ^ Z.of_nat 0) with 1. rewrite !Z.div_1_r. split; [done|]. split; [done|lia].
  - cbn [get_below]. rewrite get_digit by (done || lia). eexists. split; [done|].
    split; [apply Z.mod_pos_bound; done|]. pose proof (Bpow_pos j) as HP. pose proof B_pos as HB. rewrite Bpow_S, (Z.mul_comm (dval l)).
    rewrite Z.div_mul_cancel_l by lia. rewrite (Z.mul_comm B (B ^ _)), <- Z.div_div by lia.
    pose proof (Z_div_mod_eq_full (dval l / B ^ Z.of_nat j) B). lia.
Qed.

Lemma top_digit l i : digits_ok l -> (i < length l)%nat -> dval l < B ^ Z.of_nat (S i) ->
  get l i = Okay (dval l / B ^ Z.of_nat i) /\ is_u32 (dval l / B ^ Z.of_nat i).
Proof.
  intros Hl Hi Hv. pose proof (dval_range l Hl). pose proof (Bpow_pos i). rewrite Bpow_S in Hv.
  assert (0 <= dval l / B ^ Z.of_nat i < B) as R by (split; [apply Z.div_pos; lia|apply Z.div_lt_upper_bound; lia]).
  split; [|done]. rewrite get_digit by done. by rewrite Z.mod_small.
Qed.

(** The number in [t1] before the multiplication and the product. *)
Lemma t1_spec t1 y1 y0 z : (2 <= alloc t1)%nat -> is_u32 y1 -> is_u32 y0 -> is_u32 z ->
  exists r, (d ← put (dp (pstm_zero t1)) 0 y1; d ← put d 1 y0;
    let t := {| used := 2; sign := sign (pstm_zero t1); dp := d |} in pstm_mul_d t z t) = Okay r /\
    wf r /\ mag r = (y1 + B * y0) * z /\ (used r <= 3)%nat /\ (alloc t1 <= alloc r)%nat.
Proof.
  intros Ha H1 H0 Hz. cbn [pstm_zero dp sign]. unfold put. rewrite length_replicate.
  destruct (Nat.ltb_spec 0 (alloc t1)); [|lia]. cbn [mbind ret_bind]. rewrite length_insert, length_replicate.
  destruct (Nat.ltb_spec 1 (alloc t1)); [|lia]. cbn [mbind ret_bind]. cbn zeta.
  destruct (alloc t1) as [|[|n]] eqn:En; [lia|lia|]. cbn [replicate insert list_insert].
  set (t := {| used := 2; sign := PSTM_ZPOS; dp := y1 :: y0 :: replicate n 0 |}).
  assert (pre t) as Pt.
  { split; cbn [t used dp sign]; [cbn; lia| |cbn [drop]; auto with pstm|by left].
    constructor; [done|]. constructor; [done|]. auto with pstm. }
  assert (mag t = y1 + B * y0) as Mt by (unfold mag; cbn [t dp dval]; rewrite dval_replicate; lia).
  destruct (mul_d_spec t z t Pt Pt Hz) as (r & E & W & M & _ & A); [cbn; lia|].
  exists r. rewrite Mt in M. split; [done|]. split; [done|]. split; [done|].
  assert (alloc t = S (S n)) as At by (unfold alloc; cbn [t dp length]; by rewrite length_replicate).
  split; [|lia]. apply used_le; [done|]. rewrite M. unfold is_u32 in *. fold B in H1, H0, Hz.
  change (B ^ Z.of_nat 3) with (B * B * B). unfold B in *. nia.
Qed.


(** ** One round *)

Lemma t2_pre x2 x1 x0 : is_u32 x2 -> is_u32 x1 -> is_u32 x0 ->
  pre {| used := 3; sign := PSTM_ZPOS; dp := [x2; x1; x0] |} /\
  mag {| used := 3; sign := PSTM_ZPOS; dp := [x2; x1; x0] |} = x2 + B * (x1 + B * x0).
Proof.
  intros H2 H1 H0. split; [|unfold mag; cbn [dp dval]; lia].
  split; cbn [used dp sign]; [done| |constructor|by left]. constructor; [done|]. constructor; [done|]. by apply Forall_singleton.
Qed.

(** The comparison that decides whether to lower the digit. *)
Lemma trial_cmp t1 t2 : wf t1 -> pre t2 -> used t2 = 3%nat -> (used t1 <= 3)%nat ->
  exists r, pstm_cmp_mag t1 t2 = Okay r /\
    (r = PSTM_GT /\ mag t2 < mag t1 \/ (r =? PSTM_GT) = false /\ (mag t1 <= mag t2 \/ mag t1 < B * B)).
Proof.
  intros W1 P2 U2 U1. destruct (Nat.lt_ge_cases (used t1) 3) as [Hlt|Hge].
  - exists PSTM_LT. unfold pstm_cmp_mag. rewrite U2. destruct (Nat.ltb_spec 3 (used t1)); [lia|].
    destruct (Nat.ltb_spec (used t1) 3); [|lia]. split; [done|]. right. split; [done|]. right.
    pose proof (mag_lt t1 (wf_pre _ W1)). pose proof (Bpow_mono (used t1) 2 ltac:(lia)).
    change (B ^ Z.of_nat 2) with (B * B) in *. lia.
  - exists (cmpz (mag t1) (mag t2)). rewrite cmp_mag_same by (done || apply W1 || lia). split; [done|].
    rewrite cmpz_gt. unfold cmpz. destruct (Z.ltb_spec (mag t1) (mag t2)), (Z.ltb_spec (mag t2) (mag t1)).
    + lia.
    + right. split; [done|lia].
    + left. destruct (Z.eqb_spec (mag t1) (mag t2)); [lia|]. split; [done|lia].
    + right. split; [done|lia].
Qed.

Lemma sign_pos r : wf r -> 0 <= value r -> sign r = PSTM_ZPOS.
Proof.
  intros W Hv. destruct (pre_sign r (wf_pre _ W)) as [|Hs]; [done|]. apply W, mag_zero; [done|].
  pose proof (mag_lt r (wf_pre _ W)). unfold value in Hv. rewrite Hs in Hv. cbn in Hv. lia.
Qed.

Lemma sign_neg r : wf r -> value r < 0 -> sign r = PSTM_NEG.
Proof.
  intros W Hv. destruct (pre_sign r (wf_pre _ W)) as [Hs|]; [|done].
  pose proof (mag_lt r (wf_pre _ W)). unfold value in Hv. rewrite Hs in Hv. cbn in Hv. lia.
Qed.

(** Subtracting nothing, in whatever number of digits. *)
Lemma pstm_sub_zero a b : wf a -> pre b -> sign a = PSTM_ZPOS -> sign b = PSTM_ZPOS -> mag b = 0 -> (used b < used a)%nat ->
  exists r, pstm_sub a b a = Okay r /\ wf r /\ value r = mag a /\ mag r = mag a /\ alloc r = alloc a.
Proof.
  intros Wa Pb Sa Sb Mb Hu. unfold pstm_sub. rewrite Sa, Sb. cbn [negb Z.eqb PSTM_ZPOS].
  unfold pstm_cmp_mag. destruct (Nat.ltb_spec (used b) (used a)); [|lia]. cbn [mbind ret_bind].
  change (negb (PSTM_GT =? PSTM_LT)) with true. cbn match.
  replace (set_sign PSTM_ZPOS a) with a by (destruct a; cbn in *; by subst).
  destruct (computes_value _ _ _ _ (s_sub_spec a b a (wf_pre _ Wa) Pb (wf_pre _ Wa) ltac:(lia)
    ltac:(rewrite Mb; apply dval_range; apply Forall_take, Forall_take, Wa)) (pre_sign a (wf_pre _ Wa))) as (r & E & W & M & V & A).
  exists r. rewrite Mb, Z.sub_0_r in *. rewrite Sa in V. pose proof (pre_used a (wf_pre _ Wa)). unfold alloc in *.
  split; [done|]. split; [done|]. split; [done|]. split; [done|lia].
Qed.

Section round.
Context (x y : pstm_int) (t k : nat).
Let i := (t + 1 + k)%nat.
Hypothesis x_wf : wf x.
Hypothesis y_wf : wf y.
Hypothesis x_pos : sign x = PSTM_ZPOS.
Hypothesis y_pos : sign y = PSTM_ZPOS.
Hypothesis x_alloc : (i < alloc x)%nat.
Hypothesis y_used : used y = (t + 1)%nat.
Hypothesis y_small : Z.of_nat (used y) < 4096.
Hypothesis y_top : 2 ^ 30 * B ^ Z.of_nat t <= mag y < 2 ^ 31 * B ^ Z.of_nat t.
Hypothesis x_lt : mag x < mag y * B ^ Z.of_nat k * B.

Let Bt := B ^ Z.of_nat t.
Let Bk := B ^ Z.of_nat k.
Let q := mag x / (mag y * Bk).

Lemma Bt_ge : 1 <= Bt.
Proof. unfold Bt. pose proof (Bpow_pos t). lia. Qed.

Lemma Bk_ge : 1 <= Bk.
Proof. unfold Bk. pose proof (Bpow_pos k). lia. Qed.

Lemma BtBk : B ^ Z.of_nat (t + k) = Bt * Bk.
Proof. apply Bpow_add. Qed.

Lemma x_top : mag x < 2 ^ 31 * (Bt * Bk * B).
Proof. fold Bt in y_top. fold Bk in x_lt. pose proof Bk_ge. pose proof B_pos. nia. Qed.

Lemma x_bound : mag x < B ^ Z.of_nat (S i).
Proof.
  replace (S i) with (S (S (t + k))) by (unfold i; lia). rewrite !Bpow_S, BtBk. pose proof x_top as H.
  eapply Z.lt_le_trans; [exact H|]. pose proof Bk_ge. pose proof Bt_ge. unfold B. nia.
Qed.

Lemma x_nonneg : 0 <= mag x.
Proof. apply mag_lt, x_wf. Qed.

Lemma t_alloc : (t < alloc y)%nat.
Proof. pose proof (pre_used y (wf_pre _ y_wf)). unfold alloc. lia. Qed.

Lemma y_lead : get (dp y) t = Okay (mag y / Bt) /\ is_u32 (mag y / Bt).
Proof.
  apply top_digit; [apply y_wf|apply t_alloc|]. pose proof (mag_lt y (wf_pre _ y_wf)) as H. rewrite y_used in H.
  replace (t + 1)%nat with (S t) in H by lia. apply H.
Qed.

Lemma x_lead : get (dp x) i = Okay (mag x / (Bt * Bk) / B) /\ is_u32 (mag x / (Bt * Bk) / B).
Proof.
  destruct (top_digit (dp x) i) as [E R]; [apply x_wf|apply x_alloc|apply x_bound|].
  pose proof Bk_ge. pose proof Bt_ge.
  assert (B ^ Z.of_nat i = Bt * Bk * B) as Ei.
  { replace i with (S (t + k)) by (unfold i; lia). rewrite Bpow_S, BtBk. lia. }
  rewrite Ei in E, R. rewrite !Z.div_div by (nia || done). done.
Qed.

Lemma x_second : get (dp x) (i - 1) = Okay (mag x / (Bt * Bk) mod B).
Proof. rewrite get_digit; [|apply x_wf|unfold alloc in *; lia]. replace (i - 1)%nat with (t + k)%nat by (unfold i; lia). by rewrite BtBk. Qed.

Lemma trial_digit_spec : exists z, trial_digit x y i t = Okay z /\ 0 <= z < B /\
  z * (mag y / Bt) <= mag x / (Bt * Bk) /\ q <= z.
Proof.
  unfold trial_digit. destruct x_lead as [-> Rx]. destruct y_lead as [-> Ry]. cbn [mbind ret_bind].
  set (T := mag x / (Bt * Bk)) in *. set (yt := mag y / Bt) in *.
  pose proof (q_first (mag x) (mag y) Bt Bk Bt_ge Bk_ge x_nonneg y_top x_lt) as Hq. fold T yt q in Hq.
  pose proof (q_range (mag x) (mag y) Bt Bk Bt_ge Bk_ge x_nonneg y_top x_lt) as Rq. fold q in Rq.
  pose proof (yt_range (mag x) (mag y) Bt Bk Bt_ge y_top) as Hy. fold yt in Hy.
  pose proof (floor_mul T B B_pos) as HT.
  destruct (Z.eqb_spec (T / B) yt) as [E|E].
  { exists (B - 1). split; [done|]. split; [unfold B; lia|]. split; [rewrite <- E; unfold B in *; lia|lia]. }
  rewrite x_second. cbn [mbind ret_bind]. fold T. destruct (Z.eqb_spec yt 0); [lia|].
  assert (T / B < yt) as Hlt.
  { assert (T < yt * B + B) as HTy.
    { pose proof (floor_mul (mag y) Bt ltac:(pose proof Bt_ge; lia)) as [_ Hyt]. fold yt in Hyt.
      pose proof Bk_ge. pose proof Bt_ge. unfold T. apply Z.div_lt_upper_bound; [nia|]. fold Bk in x_lt.
      eapply Z.lt_le_trans; [exact x_lt|]. transitivity ((Bt * yt + Bt) * Bk * B); [|apply Z.eq_le_incl; ring].
      apply Z.mul_le_mono_nonneg_r; [done|]. apply Z.mul_le_mono_nonneg_r; lia. }
    assert (T / B < yt + 1) by (apply Z.div_lt_upper_bound; [done|lia]). lia. }
  assert (Z.lor (u64 (Z.shiftl (T / B) DIGIT_BIT)) (T mod B) = T) as ->.
  { rewrite Z.shiftl_mul_pow2 by done. unfold DIGIT_BIT. unfold is_u32 in Rx.
    rewrite u64_id by (unfold is_u64; lia). rewrite <- Z.shiftl_mul_pow2 by done.
    rewrite <- add_mul_lor by (done || by apply Z.mod_pos_bound). pose proof (Z_div_mod_eq_full T B). unfold B in *. lia. }
  pose proof (Z.div_pos T yt ltac:(apply Z.div_pos; [apply x_nonneg|pose proof Bk_ge; pose proof Bt_ge; nia]) ltac:(lia)).
  assert (T / yt < B) by (apply Z.div_lt_upper_bound; unfold B in *; nia).
  exists (T / yt). rewrite u32_id by done. split; [done|]. split; [done|].
  split; [pose proof (floor_mul T yt); lia|]. apply Z.div_le_lower_bound; lia.
Qed.
Lemma lower_digit_spec fuel t1 c z : u32 (c - 1) = z -> 0 <= z < B -> z * (mag y / Bt) <= mag x / (Bt * Bk) ->
  q <= z < q + Z.of_nat fuel -> (2 <= alloc t1)%nat ->
  exists z' t1', lower_digit fuel x y t1 i t c = Okay (z', t1') /\ is_u32 z' /\ q <= z' <= q + 1 /\
    wf t1' /\ (2 <= alloc t1')%nat.
Proof.
  revert t1 c z. induction fuel as [|fuel IH]; intros t1 c z Hc Hz Hf Hq Ha; [lia|]. cbn [lower_digit]. rewrite Hc.
  destruct (get_below_spec (dp y) t) as (y1 & -> & Ry1 & Ey1); [apply y_wf|pose proof t_alloc; unfold alloc in *; lia|].
  destruct y_lead as [Ey Ry]. rewrite Ey. cbn [mbind ret_bind].
  destruct (t1_spec t1 y1 (mag y / Bt) z Ha Ry1 Ry Hz) as (r & Er & Wr & Mr & Ur & Ar).
  destruct (put (dp (pstm_zero t1)) 0 y1) as [d| |]; [|done|done]. cbn [mbind ret_bind] in *.
  destruct (put d 1 (mag y / Bt)) as [d'| |]; [|done|done]. cbn [mbind ret_bind] in *. rewrite Er. cbn [mbind ret_bind].
  replace (i - 1)%nat with (t + k)%nat by (unfold i; lia).
  destruct (get_below_spec (dp x) (t + k)) as (x2 & -> & Rx2 & Ex2); [apply x_wf|unfold i, alloc in *; lia|]. cbn [mbind ret_bind].
  assert (get_below (dp x) i = Okay (mag x / (Bt * Bk) mod B)) as ->.
  { rewrite <- x_second. unfold i. replace (t + 1 + k)%nat with (S (t + k)) by lia. cbn [get_below]. f_equal. lia. }
  destruct x_lead as [-> Rx0]. cbn [mbind ret_bind].
  destruct (t2_pre x2 (mag x / (Bt * Bk) mod B) (mag x / (Bt * Bk) / B)) as [P2 M2]; [done|by apply Z.mod_pos_bound|done|].
  fold (mag x) in Ex2. fold (mag y) in Ey1. fold Bt in Ey1. rewrite BtBk in Ex2.
  replace (mag x / (Bt * Bk) mod B + B * (mag x / (Bt * Bk) / B)) with (mag x / (Bt * Bk)) in M2
    by (pose proof (Z_div_mod_eq_full (mag x / (Bt * Bk)) B); lia).
  rewrite Ey1 in Mr. rewrite Ex2 in M2.
  destruct (trial_cmp r _ Wr P2 eq_refl Ur) as (v & -> & Hv). cbn [mbind ret_bind]. rewrite M2, Mr in Hv.
  destruct Hv as [(-> & Hgt)|(-> & Hle)].
  - change (PSTM_GT =? PSTM_GT) with true. cbn match.
    pose proof (q_fits (mag x) (mag y) Bt Bk Bt_ge Bk_ge x_nonneg y_top x_lt) as Hqf. fold q in Hqf.
    pose proof (q_range (mag x) (mag y) Bt Bk Bt_ge Bk_ge x_nonneg y_top x_lt) as Rq. fold q in Rq.
    assert (z <> q) by (intros ->; lia). pose proof (yt_range (mag x) (mag y) Bt Bk Bt_ge y_top) as Hy.
    apply (IH r z (z - 1)); [apply u32_id; unfold is_u32; fold B; lia|lia|lia|lia|lia].
  - exists z, r. split; [done|]. split; [done|]. split; [|split; [done|lia]]. split; [lia|].
    destruct (Z.le_gt_cases (z * (mag y * B / Bt)) (mag x * B / (Bt * Bk))) as [Hfit|Hno].
    + apply (fits_close (mag x) (mag y) Bt Bk Bt_ge Bk_ge y_top z Hz Hfit).
    + apply (short_close (mag x) (mag y) Bt Bk Bt_ge Bk_ge y_top z ltac:(lia) Hf).
      unfold is_u32 in Rx2. pose proof B_pos. nia.
Qed.
Lemma sub_product z t1 : is_u32 z -> q <= z <= q + 1 -> wf t1 -> (2 <= alloc t1)%nat -> (i <= used x)%nat ->
  exists m1 m2 x', pstm_mul_d y z t1 = Okay m1 /\ pstm_lshd m1 k = Okay m2 /\ pstm_sub x m2 x = Okay x' /\
    pre m2 /\ (2 <= alloc m2)%nat /\ wf x' /\ value x' = mag x - z * (mag y * Bk) /\
    mag x' = Z.abs (mag x - z * (mag y * Bk)) /\ (alloc x <= alloc x')%nat.
Proof.
  intros Hz Hq W1 A1 Hu.
  destruct (mul_d_spec y z t1 (wf_pre _ y_wf) (wf_pre _ W1) Hz y_small) as (m1 & E1 & Wm1 & M1 & S1 & Am1).
  destruct (lshd_spec m1 k (wf_pre _ Wm1)) as (m2 & E2 & Pm2 & M2 & S2 & U2 & Am2 & Wm2). fold Bk in M2.
  exists m1, m2. rewrite M1 in M2.
  assert (2 <= alloc m2)%nat as A2 by (clear -Am1 Am2 A1; lia). clear Am1 Am2.
  assert (sign m1 = PSTM_ZPOS) as Zm1.
  { destruct (Z.eq_dec (mag m1) 0) as [E0|E0]; [apply Wm1; by apply (mag_zero m1 Wm1)|]. rewrite S1; congruence. }
  destruct (Z.eq_dec z 0) as [-> |Hnz].
  { rewrite !Z.mul_0_r in *. rewrite Z.mul_0_l in M2. assert (used m1 = 0%nat) as Um1 by (apply mag_zero; [done|lia]).
    destruct (pstm_sub_zero x m2 x_wf Pm2 x_pos) as (x' & E & W & V & M & A); [congruence|done|unfold i in *; lia|].
    exists x'. pose proof x_nonneg. rewrite Z.mul_0_l, Z.sub_0_r.
    split; [done|]. split; [done|]. split; [done|]. split; [done|]. split; [done|]. split; [done|].
    split; [done|]. split; [lia|lia]. }
  pose proof Bt_ge as GBt. pose proof Bk_ge as GBk. fold Bt in y_top. fold Bk in x_lt. unfold is_u32 in Hz.
  assert (0 < mag y) as Py by lia. assert (mag m1 <> 0) as Hm1 by (rewrite M1; nia). specialize (Wm2 Wm1 Hm1).
  pose proof (q_mul (mag x) (mag y) Bt Bk Bt_ge Bk_ge y_top) as Hqm. fold q in Hqm.
  assert (mag m2 = z * (mag y * Bk)) as Mz by (rewrite M2; ring).
  assert (mag m2 < 2 * (mag y * Bk * B)) as Um2.
  { rewrite Mz. assert (mag y * Bk <= mag y * Bk * B) by (unfold B; nia).
    assert (z * (mag y * Bk) <= (q + 1) * (mag y * Bk)) by (apply Z.mul_le_mono_nonneg_r; nia). lia. }
  assert (used m2 <= S i)%nat as Hi1.
  { apply used_le; [done|]. eapply Z.lt_le_trans; [exact Um2|]. replace (S i) with (S (S (t + k))) by (unfold i; lia).
    rewrite !Bpow_S, BtBk. assert (B * (B * (Bt * Bk)) = 2 * (2 ^ 31 * Bt * (Bk * B))) as -> by (unfold B; lia).
    assert (mag y * (Bk * B) <= 2 ^ 31 * Bt * (Bk * B)) by (apply Z.mul_le_mono_nonneg_r; unfold B; lia). lia. }
  assert (i <= used m2)%nat as Hi2.
  { assert (t + k < used m2)%nat; [|unfold i; lia]. apply used_gt; [done|]. rewrite BtBk, Mz.
    assert (Bt * Bk <= mag y * Bk) by nia. nia. }
  assert (used x <= S i)%nat as Hi3 by (apply used_le; [apply x_wf|apply x_bound]).
  destruct (pstm_sub_pos x m2 x x_wf Wm2 (wf_pre _ x_wf) x_pos) as (x' & E & W & V & M & A1' & A2');
    [congruence|clear -Hi3 Hi2; lia|clear -Hu Hi1; lia|].
  exists x'. rewrite Mz in V, M. split; [done|]. split; [done|]. split; [done|]. split; [done|]. split; [done|].
  split; [done|]. split; [done|]. split; [done|exact A1'].
Qed.

(** The borrow of the subtraction that adds back stays within one digit. *)
Definition short_borrow : Prop :=
  (t + k = 0)%nat \/ B ^ Z.of_nat (t + k - 1) <= mag y * Bk - mag x mod (mag y * Bk).

Lemma add_back x1 m2 : wf x1 -> pre m2 -> mag x1 = mag y * Bk - mag x mod (mag y * Bk) -> sign x1 = PSTM_NEG -> short_borrow ->
  exists m3 m4 x', pstm_copy y m2 = Okay m3 /\ pstm_lshd m3 k = Okay m4 /\ pstm_add x1 m4 x1 = Okay x' /\ pre m4 /\
    (alloc m2 <= alloc m4)%nat /\ wf x' /\ sign x' = PSTM_ZPOS /\ mag x' = mag x mod (mag y * Bk) /\ (alloc x1 <= alloc x')%nat.
Proof.
  intros W1 P2 M1 S1 Hb. destruct (copy_spec y m2 y_wf P2) as (m3 & E3 & W3 & M3 & S3 & U3 & A3).
  destruct (lshd_spec m3 k (wf_pre _ W3)) as (m4 & E4 & P4 & M4 & S4 & U4 & A4 & W4). fold Bk in M4. rewrite M3 in M4, W4.
  pose proof Bt_ge as GBt. pose proof Bk_ge as GBk. fold Bt in y_top. assert (0 < mag y) as Py by lia.
  specialize (W4 W3 ltac:(lia)). pose proof (Z.mod_pos_bound (mag x) (mag y * Bk) ltac:(nia)) as R.
  assert (t + k <= used x1)%nat as U1.
  { destruct Hb as [|Hb]; [lia|]. assert (t + k - 1 < used x1)%nat as Hlt; [|clear -Hlt; lia]. apply used_gt; [done|]. by rewrite M1. }
  destruct (pstm_add_neg x1 m4 x1 W1 W4 (wf_pre _ W1) S1) as (x' & E & W & M & V & A); [congruence|lia|lia|].
  exists m3, m4, x'. split; [done|]. split; [done|]. split; [done|]. split; [done|]. split; [lia|]. split; [done|].
  split; [apply sign_pos; [done|lia]|]. split; [lia|lia].
Qed.

Lemma div_round_spec ql t1 : (2 <= alloc t1)%nat -> (k < length ql)%nat -> (i <= used x)%nat -> short_borrow ->
  exists x' t1', div_round x y ql t1 t k = Okay (x', <[k := q]> ql, t1') /\ wf x' /\ sign x' = PSTM_ZPOS /\
    mag x' = mag x mod (mag y * Bk) /\ (alloc x <= alloc x')%nat /\ (2 <= alloc t1')%nat /\ is_u32 q.
Proof.
  intros A1 Hk Hu Hb. unfold div_round. fold i. cbn zeta.
  destruct trial_digit_spec as (z0 & -> & Rz & Fz & Qz). cbn [mbind ret_bind].
  pose proof (first_close (mag x) (mag y) Bt Bk Bt_ge Bk_ge x_nonneg y_top x_lt z0 Rz Fz) as H4. fold q in H4.
  destruct (lower_digit_spec 5 t1 (u32 (z0 + 1)) z0) as (z & t1' & -> & Ru & Hz & W1 & A1'); [|done|done|lia|done|].
  { destruct (u32_offset (z0 + 1)) as [j ->]. unfold u32. replace (z0 + 1 + B * j - 1) with (z0 + j * B) by ring.
    fold B. rewrite Z.mod_add by done. by apply Z.mod_small. }
  cbn [mbind ret_bind].
  destruct (sub_product z t1' Ru Hz W1 A1' Hu) as (m1 & m2 & x1 & -> & E2 & E3 & P2 & A2 & Wx & Vx & Mx & Ax).
  cbn [mbind ret_bind]. rewrite E2. cbn [mbind ret_bind]. rewrite E3. cbn [mbind ret_bind].
  pose proof (q_range (mag x) (mag y) Bt Bk Bt_ge Bk_ge x_nonneg y_top x_lt) as Rq. fold q in Rq.
  pose proof (q_mul (mag x) (mag y) Bt Bk Bt_ge Bk_ge y_top) as Hqm. fold q in Hqm.
  pose proof (Z_div_mod_eq_full (mag x) (mag y * Bk)) as Hdm. fold q in Hdm.
  assert (put ql k q = Okay (<[k := q]> ql)) as Eput by (unfold put; destruct (Nat.ltb_spec k (length ql)); [done|lia]).
  assert (z = q \/ z = q + 1) as [-> | ->] by lia.
  - rewrite (sign_pos x1) by (done || lia). cbn [Z.eqb PSTM_NEG PSTM_ZPOS]. rewrite Eput. cbn [mbind ret_bind].
    exists x1, m2. split; [done|]. split; [done|]. split; [apply sign_pos; [done|lia]|]. split; [lia|]. split; [done|]. done.
  - rewrite (sign_neg x1) by (done || lia). change (PSTM_NEG =? PSTM_NEG) with true. cbn match.
    destruct (add_back x1 m2 Wx P2) as (m3 & m4 & x' & -> & E4 & E5 & P4 & A4 & W & S & M & A);
      [lia|apply sign_neg; [done|lia]|done|].
    cbn [mbind ret_bind]. rewrite E4. cbn [mbind ret_bind]. rewrite E5. cbn [mbind ret_bind].
    replace (q + 1 - 1) with q by lia. rewrite u32_id by done. rewrite Eput. cbn [mbind ret_bind].
    exists x', m4. split; [done|]. split; [done|]. split; [done|]. split; [done|]. split; [lia|]. split; [lia|done].
Qed.
End round.


End PstmDivFacts.
