(* ===== verification/PstmDivMain.v ===== *)
(** * Quotients and remainders

    The loops of pstm_div together, and pstm_mod and pstm_mulmod. *)

From S2P Require Import Prelude Pstm PstmFacts PstmMul PstmMont PstmDiv PstmDivFacts.

Module PstmDivMain.
Import Pstm PstmFacts PstmMul PstmMont PstmDiv PstmDivFacts.

Lemma mod_mod_mul a b c : 0 < b -> 0 < c -> (a mod (b * c)) mod b = a mod b.
Proof.
  intros Hb Hc. rewrite (Z.mod_eq a (b * c)) by nia.
  replace (a - b * c * (a / (b * c))) with (a + (- (c * (a / (b * c)))) * b) by ring. by apply Z.mod_add; lia.
Qed.

(** ** The rounds *)

Section loop.
Context (y : pstm_int) (t : nat) (A : Z).
Hypothesis y_wf : wf y.
Hypothesis y_pos : sign y = PSTM_ZPOS.
Hypothesis y_used : used y = (t + 1)%nat.
Hypothesis y_small : Z.of_nat (used y) < 4096.
Hypothesis y_top : 2 ^ 30 * B ^ Z.of_nat t <= mag y < 2 ^ 31 * B ^ Z.of_nat t.

Lemma y_ge : 0 < B ^ Z.of_nat t <= mag y.
Proof. pose proof (Bpow_pos t). lia. Qed.

Definition far (j : nat) : Prop :=
  (t + j = 0)%nat \/ B ^ Z.of_nat (t + j - 1) <= mag y * B ^ Z.of_nat j - A mod (mag y * B ^ Z.of_nat j).

(** What holds before the round [k - 1]. *)
Record div_inv (k : nat) (x : pstm_int) (ql : list Z) : Prop := {
  di_wf : wf x;
  di_pos : sign x = PSTM_ZPOS;
  di_alloc : (t + 1 + k <= alloc x)%nat;
  di_mag : mag x = A mod (mag y * B ^ Z.of_nat k);
  di_q : digits_ok ql;
  di_len : (k < length ql)%nat;
  di_low : forall j, (j < k)%nat -> nth j ql 0 = 0;
  di_sum : dval ql * mag y + mag x = A }.

Lemma inv_skip k x ql : div_inv (S k) x ql -> (used x < t + 1 + k)%nat -> div_inv k x ql.
Proof.
  intros [W P Al M Q L Z0 V] Hu. split; try done; [lia| |lia|intros; apply Z0; lia].
  pose proof y_ge as Gy. pose proof (Bpow_pos k). pose proof (mag_lt x (wf_pre _ W)).
  assert (mag x < mag y * B ^ Z.of_nat k) as Hlt.
  { pose proof (Bpow_mono (used x) (t + k) ltac:(lia)). rewrite Bpow_add in *. nia. }
  rewrite <- (Z.mod_small (mag x) (mag y * B ^ Z.of_nat k)) by lia. rewrite M, Bpow_S.
  replace (mag y * (B * B ^ Z.of_nat k)) with (mag y * B ^ Z.of_nat k * B) by ring. apply mod_mod_mul; [nia|done].
Qed.

Lemma inv_round k x ql t1 : div_inv (S k) x ql -> far k -> (2 <= alloc t1)%nat -> (t + 1 + k <= used x)%nat ->
  exists x' ql' t1', div_round x y ql t1 t k = Okay (x', ql', t1') /\ div_inv k x' ql' /\ (2 <= alloc t1')%nat /\
    length ql' = length ql.
Proof.
  intros [W P Al M Q L Z0 V] Hf Ha Hu. pose proof y_ge as Gy. pose proof (Bpow_pos k) as Pk.
  assert (mag y * B ^ Z.of_nat (S k) = mag y * B ^ Z.of_nat k * B) as EB by (rewrite Bpow_S; ring). rewrite EB in M.
  assert (mag x mod (mag y * B ^ Z.of_nat k) = A mod (mag y * B ^ Z.of_nat k)) as Em.
  { rewrite M. apply mod_mod_mul; [nia|done]. }
  destruct (div_round_spec x y t k W y_wf P y_pos ltac:(lia) y_used y_small y_top) with (ql := ql) (t1 := t1)
    as (x' & t1' & E & W' & P' & M' & A' & T' & Rq); [rewrite M; apply Z.mod_pos_bound; pose proof B_pos; nia|done|lia|done| |].
  { unfold short_borrow. by rewrite Em. }
  set (q := mag x / (mag y * B ^ Z.of_nat k)) in *. exists x', (<[k := q]> ql), t1'.
  split; [done|]. split; [|split; [done|apply length_insert]].
  split; [done|done|lia|congruence|by apply digits_ok_insert|rewrite length_insert; lia| |].
  - intros j Hj. rewrite nth_lookup, list_lookup_insert_ne, <- nth_lookup by lia. apply Z0. lia.
  - rewrite dval_insert, (Z0 k) by lia. rewrite M'. pose proof (Z_div_mod_eq_full (mag x) (mag y * B ^ Z.of_nat k)) as D.
    fold q in D.
    set (r := mag x mod _) in *. clearbody r q. lia.
Qed.

Lemma div_loop_spec k x ql t1 : div_inv k x ql -> (forall j, (j < k)%nat -> far j) -> (2 <= alloc t1)%nat ->
  exists x' ql', div_loop k x y ql t1 t = Okay (x', ql') /\ div_inv 0 x' ql' /\ length ql' = length ql.
Proof.
  revert x ql t1. induction k as [|k IH]; intros x ql t1 I Hf Ha; [by exists x, ql|]. cbn [div_loop].
  destruct (Nat.ltb_spec (used x) (t + 1 + k)) as [Hs|Hs].
  - apply IH; [by apply inv_skip|intros; apply Hf; lia|done].
  - destruct (inv_round k x ql t1 I ltac:(apply Hf; lia) Ha Hs) as (x1 & q1 & t2 & -> & I1 & A1 & L1). cbn [mbind ret_bind].
    destruct (IH x1 q1 t2 I1 ltac:(intros; apply Hf; lia) A1) as (x' & ql' & E & I' & L'). exists x', ql'.
    split; [done|]. split; [done|congruence].
Qed.
End loop.

(** ** The steps before the rounds *)

Lemma cmp_pos a b : wf a -> wf b -> sign a = PSTM_ZPOS -> sign b = PSTM_ZPOS -> pstm_cmp a b = Okay (cmpz (mag a) (mag b)).
Proof. intros Wa Wb Sa Sb. unfold pstm_cmp. rewrite Sa, Sb. cbn [negb Z.eqb PSTM_ZPOS PSTM_NEG]. by apply cmp_mag_spec. Qed.

Lemma sub_while_spec fuel x y qd : wf x -> wf y -> sign x = PSTM_ZPOS -> sign y = PSTM_ZPOS -> (used x <= used y)%nat ->
  0 < mag y -> mag x < (Z.of_nat fuel + 1) * mag y -> 0 <= qd -> qd + Z.of_nat fuel < B ->
  exists x', sub_while fuel x y qd = Okay (x', qd + mag x / mag y) /\ wf x' /\ sign x' = PSTM_ZPOS /\
    mag x' = mag x mod mag y /\ (alloc x <= alloc x')%nat.
Proof.
  intros Wx Wy Px Py. revert x qd Wx Px. induction fuel as [|fuel IH]; intros x qd Wx Px Hu Hy Hx Hq Hf;
    pose proof (mag_lt x (wf_pre _ Wx)) as Rx; cbn [sub_while]; rewrite cmp_pos by done; cbn [mbind ret_bind]; rewrite cmpz_lt;
    destruct (Z.ltb_spec (mag x) (mag y)) as [Hlt|Hge]; try lia.
  1,2: exists x; rewrite Z.div_small, Z.mod_small, Z.add_0_r by lia; done.
  assert (used y <= used x)%nat as Hu2 by (apply used_le; [done|lia]).
  destruct (pstm_sub_pos x y x Wx Wy (wf_pre _ Wx) Px Py) as (x1 & -> & W1 & V1 & M1 & A1 & _); [lia|lia|]. cbn [mbind ret_bind].
  rewrite u32_id by (unfold is_u32; fold B; lia). rewrite Z.abs_eq in M1 by lia.
  assert (used x1 <= used x)%nat as U1 by (apply used_le; [done|lia]).
  destruct (IH x1 (qd + 1) W1 ltac:(apply sign_pos; [done|lia])) as (x' & -> & W & P & M & A); [lia|lia|lia|lia|lia|].
  exists x'. rewrite M, M1. split.
  - do 2 f_equal. replace (mag x) with (mag x - mag y + 1 * mag y) at 2 by lia. rewrite Z.div_add by lia. lia.
  - split; [done|]. split; [done|]. split; [|lia]. replace (mag x) with (mag x - mag y + 1 * mag y) at 2 by lia.
    by rewrite Z.mod_add by lia.
Qed.

(** The shift that gives the divisor a leading digit of 31 bits. *)
Definition norm_of (b : Z) : Z := (30 - Z.log2 b) mod 32.
Definition lead_of (b : Z) : nat := Z.to_nat ((Z.log2 b + norm_of b) / 32).

Lemma norm_range b : 0 <= norm_of b < 32.
Proof. apply Z.mod_pos_bound. done. Qed.

Lemma norm_lead b : 0 < b -> Z.log2 b + norm_of b = 32 * Z.of_nat (lead_of b) + 30.
Proof.
  intros Hb. pose proof (Z.log2_nonneg b). unfold lead_of. pose proof (norm_range b).
  rewrite Z2Nat.id by (apply Z.div_pos; lia). unfold norm_of in *. Z.div_mod_to_equations. lia.
Qed.

Lemma norm_top b : 0 < b ->
  2 ^ 30 * B ^ Z.of_nat (lead_of b) <= b * 2 ^ norm_of b < 2 ^ 31 * B ^ Z.of_nat (lead_of b).
Proof.
  intros Hb. pose proof (norm_lead b Hb) as E. pose proof (norm_range b). pose proof (Z.log2_nonneg b).
  pose proof (Z.log2_spec b Hb) as [L1 L2]. pose proof (Z.pow_pos_nonneg 2 (norm_of b) ltac:(lia) ltac:(lia)) as Pn.
  assert (forall e, 0 <= e -> 2 ^ e * B ^ Z.of_nat (lead_of b) = 2 ^ (e + 32 * Z.of_nat (lead_of b))) as Ep.
  { intros e He. unfold B. rewrite <- Z.pow_mul_r, <- Z.pow_add_r by lia. done. }
  rewrite !Ep by lia. split.
  - transitivity (2 ^ Z.log2 b * 2 ^ norm_of b); [|apply Z.mul_le_mono_nonneg_r; lia].
    rewrite <- Z.pow_add_r, E by lia. apply Z.pow_le_mono_r; lia.
  - eapply Z.lt_le_trans; [apply Z.mul_lt_mono_pos_r; [exact Pn|exact L2]|].
    rewrite <- Z.pow_add_r by lia. apply Z.pow_le_mono_r; lia.
Qed.

Lemma normalize_spec x y : wf x -> wf y -> sign x = PSTM_ZPOS -> sign y = PSTM_ZPOS -> 0 < mag y ->
  Z.of_nat (used x) < 4000 -> Z.of_nat (used y) < 4000 ->
  exists x' y', normalize x y = Okay (x', y', Z.to_nat (norm_of (mag y))) /\ wf x' /\ wf y' /\ sign x' = PSTM_ZPOS /\
    sign y' = PSTM_ZPOS /\ mag x' = mag x * 2 ^ norm_of (mag y) /\ mag y' = mag y * 2 ^ norm_of (mag y) /\
    (alloc x <= alloc x')%nat /\ used y' = (lead_of (mag y) + 1)%nat /\ (used x' <= used x + 1)%nat.
Proof.
  intros Wx Wy Px Py Hy Ux Uy. unfold normalize. destruct (count_bits_spec y Wy) as (n & -> & En). cbn [mbind ret_bind].
  destruct (Z.eqb_spec (mag y) 0); [lia|]. pose proof (Z.log2_nonneg (mag y)). pose proof (norm_range (mag y)) as Rn.
  assert (Z.of_nat (n mod 32) = (Z.log2 (mag y) + 1) mod 32) as Em by (rewrite Nat2Z.inj_mod, En; done).
  assert (forall y', wf y' -> mag y' = mag y * 2 ^ norm_of (mag y) -> used y' = (lead_of (mag y) + 1)%nat) as Hused.
  { intros y' W M. pose proof (norm_top (mag y) Hy) as [H1 H2]. rewrite <- M in *. pose proof (Bpow_pos (lead_of (mag y))).
    assert (lead_of (mag y) < used y')%nat by (apply used_gt; [done|lia]).
    assert (used y' <= S (lead_of (mag y)))%nat by (apply used_le; [done|]; rewrite Bpow_S; unfold B in *; lia). lia. }
  destruct (Nat.ltb_spec (n mod 32) 31) as [Hn|Hn].
  - assert (31 - n mod 32 = Z.to_nat (norm_of (mag y)))%nat as ->.
    { unfold norm_of in *. rewrite <- (Nat2Z.id (31 - n mod 32)), Nat2Z.inj_sub, Em by lia. f_equal. Z.div_mod_to_equations. lia. }
    destruct (mul_2d_spec x (Z.to_nat (norm_of (mag y))) x Wx (wf_pre _ Wx)) as (nx & (x' & -> & W1 & M1 & S1 & A1) & B1 & _); [lia|lia|].
    destruct (mul_2d_spec y (Z.to_nat (norm_of (mag y))) y Wy (wf_pre _ Wy)) as (ny & (y' & -> & W2 & M2 & S2 & A2) & _ & _); [lia|lia|].
    cbn [mbind ret_bind]. rewrite Z2Nat.id in M1, M2, S1, S2 by lia. exists x', y'. pose proof (mag_lt x (wf_pre _ Wx)).
    pose proof (Z.pow_pos_nonneg 2 (norm_of (mag y)) ltac:(lia) ltac:(lia)).
    split; [done|]. split; [done|]. split; [done|].
    split; [|split; [|split; [by rewrite M1|split; [by rewrite M2|split; [lia|split; [by apply Hused|]]]]]].
    + destruct (Z.eq_dec (mag x') 0) as [E0|E0]; [apply W1; by apply (mag_zero x' W1)|]. rewrite S1; congruence.
    + rewrite S2; [done|]. nia.
    + apply used_le; [done|]. rewrite M1, Bpow_add. change (B ^ Z.of_nat 1) with B.
      assert (2 ^ norm_of (mag y) < B) by (apply Z.pow_lt_mono_r; lia). nia.
  - assert (norm_of (mag y) = 0) as E0.
    { pose proof (Nat.mod_upper_bound n 32 ltac:(lia)). unfold norm_of. Z.div_mod_to_equations. lia. }
    exists x, y. specialize (Hused y Wy). rewrite E0 in *. rewrite !Z.mul_1_r in *.
    split; [done|]. split; [done|]. split; [done|]. split; [done|]. split; [done|]. split; [done|]. split; [done|].
    split; [lia|]. split; [by apply Hused|lia].
Qed.

(** ** Division *)

Lemma used_eq a b : wf a -> wf b -> mag a = mag b -> used a = used b.
Proof.
  intros Wa Wb E. apply Nat.le_antisymm; apply used_le; try done; [rewrite E|rewrite <- E]; apply mag_lt, wf_pre; done.
Qed.

(** Everything between the normalisation and the results. *)
Definition div_digits (x y t1 : pstm_int) : ret (pstm_int * list Z) :=
  let n := (used x - 1)%nat in
  let t := (used y - 1)%nat in
  y ← pstm_lshd y (n - t);
  '(x, qd) ← sub_while 4 x y 0;
  q ← put (replicate (n - t + 1) 0) (n - t) qd;
  y ← pstm_rshd y (n - t);
  div_loop (n - t) x y q t1 t.

Lemma div_digits_spec x y t1 t : wf x -> wf y -> sign x = PSTM_ZPOS -> sign y = PSTM_ZPOS -> mag y <= mag x ->
  used y = (t + 1)%nat -> Z.of_nat (used y) < 4096 -> 2 ^ 30 * B ^ Z.of_nat t <= mag y < 2 ^ 31 * B ^ Z.of_nat t ->
  (2 <= alloc t1)%nat -> (forall j, (j < used x - used y)%nat -> far y t (mag x) j) ->
  exists x' ql, div_digits x y t1 = Okay (x', ql) /\ div_inv y t (mag x) 0 x' ql /\
    length ql = (used x - used y + 1)%nat.
Proof.
  intros Wx Wy Px Py Hle Uy Hs Ht A1 Hf. unfold div_digits. rewrite Uy in *. replace (t + 1 - 1)%nat with t by lia.
  pose proof (Bpow_pos t) as Pt.
  assert (t + 1 <= used x)%nat as Hu by (rewrite <- Uy; apply used_le; [done|]; pose proof (mag_lt x (wf_pre _ Wx)); lia).
  replace (used x - 1 - t)%nat with (used x - (t + 1))%nat by lia. set (d := (used x - (t + 1))%nat) in *.
  destruct (lshd_spec y d (wf_pre _ Wy)) as (y1 & -> & Py1 & M1 & S1 & U1 & _ & W1). specialize (W1 Wy ltac:(lia)).
  cbn [mbind ret_bind]. pose proof (Bpow_pos d) as Pd. assert (0 < mag y1) as Hy1 by (rewrite M1; nia).
  assert (mag x < 4 * mag y1) as H4.
  { pose proof (mag_lt x (wf_pre _ Wx)) as [_ Hx]. replace (used x) with (S (t + d)) in Hx by lia.
    rewrite Bpow_S, Bpow_add in Hx. rewrite M1.
    assert (2 ^ 30 * B ^ Z.of_nat t * B ^ Z.of_nat d <= mag y * B ^ Z.of_nat d) by (apply Z.mul_le_mono_nonneg_r; lia).
    assert (B = 4 * 2 ^ 30) as EB by done. rewrite EB in Hx at 1. lia. }
  destruct (sub_while_spec 4 x y1 0 Wx W1 Px) as (x1 & -> & Wx1 & Px1 & Mx1 & Ax1); [congruence|lia|done|lia|done|done|].
  cbn [mbind ret_bind]. rewrite Z.add_0_l. set (qd := mag x / mag y1).
  assert (0 <= qd < B) as Rq.
  { split; [apply Z.div_pos; lia|]. apply Z.div_lt_upper_bound; unfold B; lia. }
  unfold put. rewrite length_replicate. destruct (Nat.ltb_spec d (d + 1)); [|lia]. cbn [mbind ret_bind].
  destruct (rshd_spec y1 d W1) as (y2 & -> & W2 & M2 & S2 & _). cbn [mbind ret_bind].
  rewrite M1, Z.div_mul in M2 by lia. rewrite M1, Z.div_mul in S2 by lia.
  pose proof (used_eq y2 y W2 Wy M2) as U2.
  assert (div_inv y t (mag x) d x1 (<[d := qd]> (replicate (d + 1) 0))) as I.
  { split; [done|done|pose proof (pre_used x (wf_pre _ Wx)); unfold alloc in *; lia|by rewrite Mx1, M1| | | |].
    - apply digits_ok_insert; [auto with pstm|done].
    - rewrite length_insert, length_replicate. lia.
    - intros j Hj. rewrite nth_lookup, list_lookup_insert_ne, <- nth_lookup by lia. apply nth_replicate_0.
    - rewrite dval_insert, nth_replicate_0, dval_replicate by (rewrite length_replicate; lia). rewrite Mx1, M1. unfold qd. rewrite M1.
      pose proof (Z_div_mod_eq_full (mag x) (mag y * B ^ Z.of_nat d)). lia. }
  destruct (div_loop_spec y2 t (mag x) W2 ltac:(rewrite S2; [congruence|lia]) ltac:(lia) ltac:(lia) ltac:(rewrite M2; done)
    d x1 (<[d := qd]> (replicate (d + 1) 0)) t1) as (x' & ql & E & I' & L).
  { destruct I. split; rewrite ?M2; done. }
  { intros j Hj. unfold far. rewrite M2. by apply Hf. }
  { done. }
  exists x', ql. split; [done|]. split; [|rewrite L, length_insert, length_replicate; lia].
  destruct I'. split; rewrite <- ?M2; done.
Qed.

(** No partial remainder is so close below a multiple of the divisor that adding
    the divisor back would have to pass a borrow beyond one digit; [n] is the
    number of digits of the dividend. *)
Definition borrows_short (n : nat) (a b : Z) : bool :=
  forallb (fun j =>
    ((lead_of b + j =? 0)%nat) ||
    (B ^ Z.of_nat (lead_of b + j - 1) <=? 2 ^ norm_of b * (b * B ^ Z.of_nat j - a mod (b * B ^ Z.of_nat j)))) (seq 0 n).

Lemma borrows_far n x y a b j : borrows_short n a b = true -> 0 < b -> mag x = a * 2 ^ norm_of b -> mag y = b * 2 ^ norm_of b ->
  (j < n)%nat -> far y (lead_of b) (mag x) j.
Proof.
  intros H Hb Mx My Hj. unfold borrows_short in H. rewrite forallb_forall in H. specialize (H j).
  rewrite in_seq in H. specialize (H ltac:(lia)). apply orb_true_iff in H as [H|H]; [left; by apply Nat.eqb_eq|].
  right. apply Z.leb_le in H. rewrite Mx, My. pose proof (Bpow_pos j). pose proof (norm_range b).
  pose proof (Z.pow_pos_nonneg 2 (norm_of b) ltac:(lia) ltac:(lia)).
  replace (b * 2 ^ norm_of b * B ^ Z.of_nat j) with (b * B ^ Z.of_nat j * 2 ^ norm_of b) by ring.
  rewrite Z.mul_mod_distr_r by nia. lia.
Qed.

(** An optional output received the value [v]. *)
Definition delivers (o o' : option pstm_int) (v : Z) : Prop :=
  match o with
  | None => o' = None
  | Some p => exists r, o' = Some r /\ wf r /\ sign r = PSTM_ZPOS /\ mag r = v /\ (alloc p <= alloc r)%nat
  end.

Definition opt_pre (o : option pstm_int) : Prop := match o with None => True | Some p => pre p end.

Lemma deliver_copy x o : wf x -> sign x = PSTM_ZPOS -> opt_pre o ->
  exists o', (match o with None => Okay None | Some p => p ← pstm_copy x p; Okay (Some p) end) = Okay o' /\ delivers o o' (mag x).
Proof.
  intros W P Ho. destruct o as [p|]; [|by exists None]. cbn in Ho.
  destruct (copy_spec x p W Ho) as (r & -> & Wr & M & S & _ & A). cbn [mbind ret_bind]. exists (Some r). split; [done|].
  cbn. exists r. split; [done|]. split; [done|]. split; [congruence|]. split; [done|lia].
Qed.

Lemma set_sign_id x s : sign x = s -> set_sign s x = x.
Proof. intros <-. by destruct x. Qed.

(** The quotient, trimmed. *)
Lemma quotient_out ql c : digits_ok ql -> opt_pre c ->
  exists c', (match c with
              | None => Okay None
              | Some c => q ← pstm_clamp {| used := length ql; sign := PSTM_ZPOS; dp := ql |}; c ← pstm_copy q c;
                          Okay (Some (set_sign PSTM_ZPOS c))
              end) = Okay c' /\ delivers c c' (dval ql).
Proof.
  intros Hq Hc. destruct c as [c|]; [|by exists None]. cbn in Hc.
  destruct (clamp_spec {| used := length ql; sign := PSTM_ZPOS; dp := ql |}) as (q & -> & W & M & _ & _ & S & _).
  { split; cbn; [done|done|rewrite drop_ge by done; constructor|by left]. }
  cbn [mbind ret_bind]. destruct (copy_spec q c W Hc) as (r & -> & Wr & Mr & Sr & _ & Ar). cbn [mbind ret_bind].
  assert (sign r = PSTM_ZPOS) as Zr.
  { rewrite Sr. destruct (Z.eq_dec (mag q) 0) as [E0|E0]; [apply W; by apply (mag_zero q W)|]. apply S. congruence. }
  rewrite (set_sign_id r _ Zr). eexists. split; [done|]. cbn. exists r. split; [done|]. split; [done|]. split; [done|].
  split; [rewrite Mr, M; done|lia].
Qed.

(** The remainder, shifted back. *)
Lemma remainder_out x norm b d v : wf x -> sign x = PSTM_ZPOS -> mag x = v * 2 ^ Z.of_nat norm -> v < B ^ Z.of_nat b -> opt_pre d ->
  exists d', (match d with
              | None => Okay None
              | Some d => '(x, _) ← pstm_div_2d x norm x None; dx ← digits x; z ← store (dp x) (take b dx) (used x);
                          x ← pstm_clamp (set_dp z x); d ← pstm_copy x d; Okay (Some d)
              end) = Okay d' /\ delivers d d' v.
Proof.
  intros W P M Hv Hd. destruct d as [d|]; [|by exists None]. cbn in Hd.
  destruct (div_2d_spec x norm x W (wf_pre _ W) P) as (x1 & -> & W1 & M1 & P1 & A1). cbn [mbind ret_bind].
  rewrite M, Z.div_mul in M1 by (apply Z.pow_nonzero; lia).
  destruct (digits_spec x1 (wf_pre _ W1)) as (dx & -> & L & D & V & _). cbn [mbind ret_bind].
  assert (used x1 <= b)%nat as U1 by (apply used_le; [done|lia]). rewrite take_ge by lia.
  destruct (finish_spec (dp x1) dx (used x1) (sign x1) (used x1) (alloc x1)) as (x2 & E2 & W2 & M2 & S2 & _);
    [done|done|pose proof (pre_used x1 (wf_pre _ W1)); lia|apply W1|done|apply W1|apply zeros_above; [apply W1|lia]|apply W1|].
  unfold set_dp. unfold mbind, ret_bind in E2. destruct (store (dp x1) dx (used x1)) as [z| |]; [|done|done].
  cbn [mbind ret_bind]. rewrite E2. cbn [mbind ret_bind].
  assert (sign x2 = PSTM_ZPOS) as Z2.
  { destruct (Z.eq_dec (mag x2) 0) as [E0|E0]; [apply W2; by apply (mag_zero x2 W2)|]. rewrite S2; congruence. }
  destruct (deliver_copy x2 (Some d) W2 Z2 Hd) as (d' & E & Dv). exists d'. rewrite E. split; [done|].
  replace v with (mag x2); [done|]. lia.
Qed.

Lemma div_spec a b c d : wf a -> wf b -> sign a = PSTM_ZPOS -> sign b = PSTM_ZPOS -> 0 < mag b -> (2 <= alloc a)%nat ->
  Z.of_nat (used a) < 4000 -> opt_pre c -> opt_pre d -> borrows_short (used a) (mag a) (mag b) = true ->
  exists c' d', pstm_div a b c d = Okay (c', d') /\ delivers c c' (mag a / mag b) /\ delivers d d' (mag a mod mag b).
Proof.
  intros Wa Wb Pa Pb Hb Ha Ua Hc Hd Hs. unfold pstm_div.
  destruct (Nat.eqb_spec (used b) 0) as [E0|_]; [apply (mag_zero b Wb) in E0; lia|].
  rewrite cmp_mag_spec by done. cbn [mbind ret_bind]. rewrite cmpz_lt. pose proof (mag_lt a (wf_pre _ Wa)) as Ra.
  destruct (Z.ltb_spec (mag a) (mag b)) as [Hlt|Hge].
  { rewrite Z.div_small, Z.mod_small by lia. destruct (deliver_copy a d Wa Pa Hd) as (d' & -> & Dd). cbn [mbind ret_bind].
    exists (pstm_zero <$> c), d'. split; [done|]. split; [|done]. destruct c as [c|]; [|done].
    destruct (zero_spec c) as (W & M & A). cbn. eexists. split; [done|]. split; [done|]. split; [done|]. split; [done|lia]. }
  destruct (init_copy_spec a false Wa) as (x & -> & Wx & Mx & Sx & Ux & Ax & _). cbn [mbind ret_bind].
  destruct (init_size_spec (used b * 3)) as (Wi & _ & Ai).
  destruct (copy_spec b _ Wb (wf_pre _ Wi)) as (y & -> & Wy & My & Sy & Uy & Ay). cbn [mbind ret_bind].
  rewrite (set_sign_id x), (set_sign_id y) by congruence.
  assert (used b <= used a)%nat as Uab by (apply used_le; [done|lia]).
  destruct (normalize_spec x y Wx Wy) as (x1 & y1 & -> & W1 & W2 & P1 & P2 & M1 & M2 & A1 & U2 & U1);
    [congruence|congruence|lia|lia|lia|]. cbn [mbind ret_bind]. rewrite My, ?Mx in *.
  pose proof (norm_range (mag b)) as Rn. pose proof (Z.pow_pos_nonneg 2 (norm_of (mag b)) ltac:(lia) ltac:(lia)) as Pn.
  assert (mag b < B ^ Z.of_nat (used b)) as Hbu by apply mag_lt, Wb.
  destruct (div_digits_spec x1 y1 (pstm_init_size (alloc a)) (lead_of (mag b)) W1 W2 P1 P2) as (x2 & ql & E & I & L).
  { rewrite M1, M2. nia. }
  { done. }
  { assert (used y1 <= used b + 1)%nat; [|lia]. apply used_le; [done|]. rewrite M2, Bpow_add. change (B ^ Z.of_nat 1) with B.
    assert (2 ^ norm_of (mag b) < B) by (apply Z.pow_lt_mono_r; lia). nia. }
  { rewrite M2. by apply norm_top. }
  { by destruct (init_size_spec (alloc a)) as (_ & _ & ->). }
  { intros j Hj. apply (borrows_far (used a) x1 y1 (mag a) (mag b)); try done. lia. }
  unfold div_digits in E. destruct (pstm_lshd y1 _) as [y2| |]; [|done|done]. cbn [mbind ret_bind] in E |- *.
  destruct (sub_while _ _ _ _) as [[x3 qd]| |]; [|done|done]. cbn [mbind ret_bind] in E |- *.
  destruct (put _ _ _) as [q| |]; [|done|done]. cbn [mbind ret_bind] in E |- *.
  destruct (pstm_rshd _ _) as [y3| |]; [|done|done]. cbn [mbind ret_bind] in E |- *. rewrite E. cbn [mbind ret_bind]. clear E.
  destruct I as [W3 P3 _ M3 D3 _ _ V3]. change (B ^ Z.of_nat 0) with 1 in M3. rewrite Z.mul_1_r, M1, M2, Z.mul_mod_distr_r in M3 by lia.
  rewrite Pa, Pb. change (PSTM_ZPOS =? PSTM_ZPOS) with true. cbn match.
  rewrite (set_sign_id x2) by (by destruct (used x2 =? 0)%nat).
  replace (used x1 - 1 - (used y1 - 1) + 1)%nat with (length ql) by (clear -L U2; lia).
  destruct (quotient_out ql c D3 Hc) as (c' & -> & Dc). cbn [mbind ret_bind].
  destruct (remainder_out x2 (Z.to_nat (norm_of (mag b))) (used b) d (mag a mod mag b) W3 P3) as (d' & -> & Dd);
    [rewrite Z2Nat.id by lia; done|pose proof (Z.mod_pos_bound (mag a) (mag b)); lia|done|].
  cbn [mbind ret_bind]. exists c', d'. split; [done|]. split; [|done].
  replace (mag a / mag b) with (dval ql); [done|]. apply Z.div_unique_pos with (mag a mod mag b); [apply Z.mod_pos_bound; lia|].
  rewrite M1, M2, M3 in V3. apply (Z.mul_cancel_r _ _ (2 ^ norm_of (mag b))); [lia|].
  set (r := mag a mod mag b) in *. clearbody r. clear -V3. lia.
Qed.

(** ** Remainders *)

Lemma borrows_mono n m a b : (n <= m)%nat -> borrows_short m a b = true -> borrows_short n a b = true.
Proof.
  unfold borrows_short. rewrite !forallb_forall. intros Hn H j Hj. apply H. rewrite in_seq in *. lia.
Qed.

Lemma mod_spec a b c : wf a -> wf b -> sign a = PSTM_ZPOS -> sign b = PSTM_ZPOS -> 0 < mag b -> (2 <= alloc a)%nat ->
  Z.of_nat (used a) < 4000 -> borrows_short (used a) (mag a) (mag b) = true ->
  exists r, pstm_mod a b c = Okay r /\ wf r /\ sign r = PSTM_ZPOS /\ mag r = mag a mod mag b /\ (alloc b <= alloc r)%nat.
Proof.
  intros Wa Wb Pa Pb Hb Ha Ua Hs. unfold pstm_mod. destruct (init_size_spec (alloc b)) as (Wi & _ & Ai).
  destruct (div_spec a b None (Some (pstm_init_size (alloc b))) Wa Wb Pa Pb Hb Ha Ua I (wf_pre _ Wi) Hs)
    as (c' & d' & -> & _ & (r & -> & W & P & M & A)). cbn [mbind ret_bind].
  rewrite P, Pb. cbn [Z.eqb PSTM_ZPOS negb pstm_exch]. exists r. rewrite Ai in A. done.
Qed.

Lemma mulmod_spec a b c d same : wf a -> wf b -> wf c -> sign a = PSTM_ZPOS -> sign b = PSTM_ZPOS -> sign c = PSTM_ZPOS ->
  0 < mag b -> 0 < mag c -> Z.of_nat (used a + used b) < 4000 -> borrows_short (used a + used b) (mag a * mag b) (mag c) = true ->
  exists r, pstm_mulmod a b c d same = Okay r /\ wf r /\ sign r = PSTM_ZPOS /\ mag r = (mag a * mag b) mod mag c /\
    (alloc c <= alloc r)%nat.
Proof.
  intros Wa Wb Wc Pa Pb Pc Hb Hc Hu Hs. unfold pstm_mulmod. set (size := if _ : bool then _ else _).
  assert (used a + used b + 1 <= size)%nat as Hsz by (unfold size; destruct same; cbn [andb]; [|lia]; destruct (Nat.ltb_spec (used a + used b + 1) (alloc a)); lia).
  destruct (init_size_spec size) as (Wi & _ & Ai).
  destruct (mul_comba_spec a b (pstm_init_size size) Wa Wb (wf_pre _ Wi)) as (t & -> & Wt & Mt & St & At); [lia|].
  cbn [mbind ret_bind]. rewrite Pa, Pb in St. change (Z.lxor PSTM_ZPOS PSTM_ZPOS) with PSTM_ZPOS in St.
  assert (1 <= used b)%nat by (destruct (used b) eqn:E; [apply (mag_zero b Wb) in E; lia|lia]).
  assert (sign t = PSTM_ZPOS) as Zt.
  { destruct (Z.eq_dec (mag t) 0) as [E0|E0]; [apply Wt; by apply (mag_zero t Wt)|]. apply St; congruence. }
  assert (used t <= used a + used b)%nat as Ut.
  { apply used_le; [done|]. rewrite Mt, Bpow_add. pose proof (mag_lt a (wf_pre _ Wa)). pose proof (mag_lt b (wf_pre _ Wb)). nia. }
  rewrite <- Mt in Hs |- *. apply mod_spec; try done; [lia|lia|]. by apply (borrows_mono _ (used a + used b)).
Qed.

End PstmDivMain.
