(* ===== verification/PstmExp.v ===== *)
(** * Modular exponentiation (pstm_exptmod of src/busybox/networking/tls_pstm.c)

    The sliding-window exponentiation in Montgomery form.  Its loop takes the
    bits of the exponent one by one, a digit at a time from the most significant
    one, so the model is a recursion over these digits and their 32 bits.  The
    table of powers is a map from the indices the code has initialised. *)

From stdpp Require Import gmap.
From S2P Require Import Prelude Pstm PstmFacts PstmMul PstmMont PstmDiv PstmDivFacts PstmDivMain.

Module PstmExp.
Import Pstm PstmFacts PstmMul PstmMont PstmDiv PstmDivFacts PstmDivMain.

(** ** Definitions *)

Definition PS_EXPTMOD_WINSIZE : nat := 3.

Section steps.
Context (P : pstm_int) (mp : Z) (paDlen : nat).

Definition sqr_reduce (a : pstm_int) : ret pstm_int :=
  a ← pstm_sqr_comba a a;
  pstm_montgomery_reduce a P mp (Some paDlen).

Definition mul_reduce (a b c : pstm_int) : ret pstm_int :=
  c ← pstm_mul_comba a b c;
  pstm_montgomery_reduce c P mp (Some paDlen).

Fixpoint squares (n : nat) (a : pstm_int) : ret pstm_int :=
  match n with
  | O => Okay a
  | S n' => a ← sqr_reduce a; squares n' a
  end.

Definition entry (M : gmap nat pstm_int) (i : nat) : ret pstm_int :=
  match M !! i with Some a => Okay a | None => Crash end.

(** [n] entries from [x] on; each starts as a fresh number of [size] digits. *)
Fixpoint upper_table (n x size : nat) (M : gmap nat pstm_int) : ret (gmap nat pstm_int) :=
  match n with
  | O => Okay M
  | S n' =>
      a ← entry M (x - 1);
      b ← entry M 1;
      c ← mul_reduce a b (pstm_init_size size);
      upper_table n' (S x) size (<[x := c]> M)
  end.

Context (winsize : nat) (M : gmap nat pstm_int).

Record window := { res : pstm_int; mode : Z; bitcpy : nat; bitbuf : Z }.

(** One bit of the exponent. *)
Definition exp_bit (y : Z) (s : window) : ret window :=
  if (mode s =? 0) && (y =? 0) then Okay s
  else if (mode s =? 1) && (y =? 0) then
    r ← sqr_reduce (res s);
    Okay {| res := r; mode := mode s; bitcpy := bitcpy s; bitbuf := bitbuf s |}
  else
    let cpy := S (bitcpy s) in
    let buf := Z.lor (bitbuf s) (Z.shiftl y (Z.of_nat (winsize - cpy))) in
    if (cpy =? winsize)%nat then
      r ← squares winsize (res s);
      m ← entry M (Z.to_nat buf);
      r ← mul_reduce r m r;
      Okay {| res := r; mode := 1; bitcpy := 0; bitbuf := 0 |}
    else Okay {| res := res s; mode := 2; bitcpy := cpy; bitbuf := buf |}.

(** [n] bits of the digit [buf] from its highest bit on. *)
Fixpoint exp_digit (n : nat) (buf : Z) (s : window) : ret window :=
  match n with
  | O => Okay s
  | S n' =>
      s ← exp_bit (Z.land (Z.shiftr buf (DIGIT_BIT - 1)) 1) s;
      exp_digit n' (u32 (Z.shiftl buf 1)) s
  end.

Fixpoint exp_digits (l : list Z) (s : window) : ret window :=
  match l with
  | [] => Okay s
  | d :: l' => s ← exp_digit 32 d s; exp_digits l' s
  end.

(** The bits left in the window at the end. *)
Fixpoint exp_tail (n : nat) (r : pstm_int) (buf : Z) : ret pstm_int :=
  match n with
  | O => Okay r
  | S n' =>
      r ← sqr_reduce r;
      let buf := Z.shiftl buf 1 in
      r ← (if negb (Z.land buf (Z.shiftl 1 (Z.of_nat winsize)) =? 0)
           then m ← entry M 1; mul_reduce r m r else Okay r);
      exp_tail n' r buf
  end.
End steps.

Definition pstm_exptmod (G X P Y : pstm_int) : ret pstm_int :=
  x ← pstm_count_bits X;
  let winsize := if (x <? 50)%nat then 2%nat else PS_EXPTMOD_WINSIZE in
  mp ← pstm_montgomery_setup P;
  rs ← pstm_montgomery_calc_normalization (pstm_init_size (used P * 2 + 1)) P;
  let M1 := pstm_init_size (used rs) in
  r ← pstm_cmp_mag P G;
  M1 ← (if negb (r =? PSTM_GT) then pstm_mod G P M1 else pstm_copy G M1);
  M1 ← pstm_mulmod M1 rs P M1 true;
  let paDlen := ((used M1 + 3) * 2 * 4)%nat in
  let h := (2 ^ (winsize - 1))%nat in
  Mh ← pstm_init_copy M1 true;
  Mh ← squares P mp paDlen (winsize - 1) Mh;
  M ← upper_table P mp paDlen (h - 1) (h + 1) (alloc Mh + 1) {[1%nat := M1; h := Mh]};
  dX ← digits X;
  s ← exp_digits P mp paDlen winsize M (reverse dX) {| res := rs; mode := 0; bitcpy := 0; bitbuf := 0 |};
  r ← (if (mode s =? 2) && (0 <? bitcpy s)%nat
       then exp_tail P mp paDlen winsize M (bitcpy s) (res s) (bitbuf s) else Okay (res s));
  r ← pstm_montgomery_reduce r P mp (Some paDlen);
  pstm_copy r Y.

End PstmExp.
