(* ===== verification/PstmExpFacts.v ===== *)
(** * What the exponentiation computes

    Every number of the computation is the Montgomery form of a power of the
    base; the window state stands for the bits of the exponent read so far. *)

From stdpp Require Import gmap.
From S2P Require Import Prelude Pstm PstmFacts PstmMul PstmMont PstmDiv PstmDivFacts PstmDivMain PstmExp.

Module PstmExpFacts.
Import Pstm PstmFacts PstmMul PstmMont PstmDiv PstmDivFacts PstmDivMain PstmExp.

Lemma wf_sign_pos r v : wf r -> mag r = v -> (v <> 0 -> sign r = PSTM_ZPOS) -> sign r = PSTM_ZPOS.
Proof. intros W <- S. destruct (Z.eq_dec (mag r) 0) as [E|E]; [by apply W, mag_zero|by apply S]. Qed.

Section form.
Context (P : pstm_int) (mp g : Z) (paDlen : nat).
Let m := mag P.
Let R := B ^ Z.of_nat (used P).
Hypothesis P_wf : wf P.
Hypothesis m_gt : 1 < m.
Hypothesis mp_ok : (B | mp * m + 1).
Hypothesis P_small : Z.of_nat (used P) < 2000.
Hypothesis room : (2 * used P + 1 <= scratch_digits (used P) (Some paDlen))%nat.

(** The base is invertible modulo [m]. *)
Lemma cancel_B z : (m | z * B) -> (m | z).
Proof.
  destruct mp_ok as [j Hj]. intros [k Hk]. exists (k * j - z * mp).
  transitivity (z * (j * B) - z * mp * m); [rewrite <- Hj; ring|].
  transitivity (j * (z * B) - z * mp * m); [ring|]. rewrite Hk. ring.
Qed.

Lemma cancel_Bpow z n : (m | z * B ^ Z.of_nat n) -> (m | z).
Proof.
  revert z. induction n as [|n IH]; intros z H; [by rewrite Z.mul_1_r in H|].
  apply cancel_B, IH. rewrite Bpow_S in H. by rewrite <- Z.mul_assoc.
Qed.

Lemma mod_cancel a b : (a * R) mod m = (b * R) mod m -> a mod m = b mod m.
Proof.
  intros H. apply Z.cong_iff_0. apply Z.cong_iff_0 in H. apply Z.mod_divide; [lia|]. apply Z.mod_divide in H; [|lia].
  rewrite <- Z.mul_sub_distr_r in H. by apply cancel_Bpow in H.
Qed.

(** [a] is the Montgomery form of [g ^ e]. *)
Record form (e : Z) (a : pstm_int) : Prop := {
  form_wf : wf a;
  form_pos : sign a = PSTM_ZPOS;
  form_mag : mag a = (g ^ e * R) mod m;
  form_alloc : (used P + 1 <= alloc a)%nat }.

Lemma form_lt e a : form e a -> 0 <= mag a < m.
Proof. intros F. rewrite (form_mag e a F). apply Z.mod_pos_bound. lia. Qed.

Lemma form_used e a : form e a -> (used a <= used P)%nat.
Proof. intros F. apply used_le; [apply F|]. pose proof (form_lt e a F). pose proof (mag_lt P (wf_pre _ P_wf)). lia. Qed.

Lemma product_form e f a b c : 0 <= e -> 0 <= f -> form e a -> form f b -> wf c -> sign c = PSTM_ZPOS -> mag c = mag a * mag b ->
  (used P + 1 <= alloc c)%nat ->
  exists r, pstm_montgomery_reduce c P mp (Some paDlen) = Okay r /\ form (e + f) r.
Proof.
  intros He Hf Fa Fb Wc Pc Mc Ac. pose proof (form_lt e a Fa) as La. pose proof (form_lt f b Fb) as Lb.
  pose proof (mag_lt P (wf_pre _ P_wf)) as [_ LP]. fold m R in LP.
  assert (mag c < m * R) as Lc by (rewrite Mc; nia).
  assert (used c <= used P + used P)%nat as Uc.
  { apply used_le; [done|]. rewrite Bpow_add. fold R. nia. }
  destruct (reduce_spec c P mp (Some paDlen) (wf_pre _ Wc) Pc P_wf mp_ok Lc Ac ltac:(lia) room)
    as (r & k & E & Wr & Sr & Ar & Lr & Vr). fold m R in Lr, Vr.
  exists r. split; [done|]. split; [done|done| |lia]. pose proof (mag_lt r (wf_pre _ Wr)) as [Gr _].
  rewrite <- (Z.mod_small (mag r) m) by lia. apply mod_cancel. rewrite Vr, Z.mod_add by lia.
  rewrite Mc, (form_mag e a Fa), (form_mag f b Fb), <- Z.mul_mod by lia. rewrite Z.pow_add_r by lia. f_equal. ring.
Qed.

Lemma sqr_reduce_spec e a : 0 <= e -> form e a -> exists r, sqr_reduce P mp paDlen a = Okay r /\ form (2 * e) r.
Proof.
  intros He F. pose proof (form_used e a F). unfold sqr_reduce.
  destruct (sqr_comba_spec a a (form_wf e a F) (wf_pre _ (form_wf e a F))) as (c & -> & W & M & S & A); [lia|]. cbn [mbind ret_bind].
  rewrite (form_pos e a F) in S. replace (2 * e) with (e + e) by lia.
  apply (product_form e e a a c); try done; [by apply (wf_sign_pos c _ W M)|]. pose proof (form_alloc e a F). lia.
Qed.

Lemma mul_reduce_spec e f a b c : 0 <= e -> 0 <= f -> form e a -> form f b -> pre c -> (used P + 1 <= alloc c)%nat ->
  exists r, mul_reduce P mp paDlen a b c = Okay r /\ form (e + f) r.
Proof.
  intros He Hf Fa Fb Pc Ac. pose proof (form_used e a Fa). unfold mul_reduce.
  destruct (mul_comba_spec a b c (form_wf e a Fa) (form_wf f b Fb) Pc) as (p & -> & W & M & S & A); [lia|]. cbn [mbind ret_bind].
  rewrite (form_pos e a Fa), (form_pos f b Fb) in S. change (Z.lxor PSTM_ZPOS PSTM_ZPOS) with PSTM_ZPOS in S.
  apply (product_form e f a b p); try done; [by apply (wf_sign_pos p _ W M)|lia].
Qed.

Lemma squares_spec n e a : 0 <= e -> form e a -> exists r, squares P mp paDlen n a = Okay r /\ form (e * 2 ^ Z.of_nat n) r.
Proof.
  revert e a. induction n as [|n IH]; intros e a He F; cbn [squares].
  - exists a. by rewrite Z.mul_1_r.
  - destruct (sqr_reduce_spec e a He F) as (r & -> & Fr). cbn [mbind ret_bind].
    destruct (IH (2 * e) r ltac:(lia) Fr) as (r' & -> & Fr'). exists r'. split; [done|].
    rewrite Nat2Z.inj_succ, Z.pow_succ_r by lia. by replace (e * (2 * 2 ^ Z.of_nat n)) with (2 * e * 2 ^ Z.of_nat n) by ring.
Qed.

(** ** The table *)

Definition table_ok (lo hi : nat) (M : gmap nat pstm_int) : Prop :=
  (exists a, M !! 1%nat = Some a /\ form 1 a) /\
  forall i, (lo <= i < hi)%nat -> exists a, M !! i = Some a /\ form (Z.of_nat i) a.

Lemma entry_spec lo hi M i : table_ok lo hi M -> (lo <= i < hi)%nat \/ i = 1%nat ->
  exists a, entry M i = Okay a /\ form (Z.of_nat i) a.
Proof.
  intros [H1 Hi] [H| ->]; unfold entry.
  - destruct (Hi i H) as (a & -> & F). by exists a.
  - destruct H1 as (a & -> & F). by exists a.
Qed.

Lemma upper_table_spec n lo x size M : table_ok lo x M -> (1 < lo < x)%nat -> (used P + 1 <= size)%nat ->
  exists M', upper_table P mp paDlen n x size M = Okay M' /\ table_ok lo (x + n) M'.
Proof.
  revert x M. induction n as [|n IH]; intros x M T Hx Hs; cbn [upper_table].
  - exists M. by rewrite Nat.add_0_r.
  - destruct (entry_spec lo x M (x - 1) T ltac:(lia)) as (a & -> & Fa). cbn [mbind ret_bind].
    destruct (entry_spec lo x M 1 T ltac:(lia)) as (b & -> & Fb). cbn [mbind ret_bind].
    destruct (init_size_spec size) as (Wi & _ & Ai).
    destruct (mul_reduce_spec (Z.of_nat (x - 1)) 1 a b (pstm_init_size size)) as (c & -> & Fc);
      [lia|lia|done|done|apply Wi|lia|]. cbn [mbind ret_bind].
    destruct (IH (S x) (<[x := c]> M)) as (M' & -> & T'); [|lia|done|].
    + destruct T as [T1 Ti]. split; [rewrite lookup_insert_ne by lia; done|]. intros i Hi.
      destruct (decide (i = x)) as [-> |Hne].
      * exists c. rewrite lookup_insert_eq. split; [done|]. by replace (Z.of_nat x) with (Z.of_nat (x - 1) + 1) by lia.
      * rewrite lookup_insert_ne by done. apply Ti. lia.
    + exists M'. split; [done|]. by replace (x + S n)%nat with (S x + n)%nat by lia.
Qed.
(** ** The window *)

Section window.
Context (w : nat) (M : gmap nat pstm_int).
Hypothesis w_pos : (1 <= w)%nat.
Hypothesis M_ok : table_ok (2 ^ (w - 1)) (2 ^ w) M.

(** [s] stands for the exponent bits [v]: [e] of them are in the result, [win]
    is the part in the window. *)
Record win_at (v : Z) (s : window) (e win : Z) : Prop := {
  wa_e : 0 <= e;
  wa_form : form e (res s);
  wa_cpy : (bitcpy s < w)%nat;
  wa_win : 0 <= win < 2 ^ Z.of_nat (bitcpy s);
  wa_buf : bitbuf s = win * 2 ^ Z.of_nat (w - bitcpy s);
  wa_val : v = e * 2 ^ Z.of_nat (bitcpy s) + win;
  wa_mode : mode s = 0 /\ bitcpy s = 0%nat /\ v = 0 \/ mode s = 1 /\ bitcpy s = 0%nat \/
            mode s = 2 /\ (0 < bitcpy s)%nat /\ 2 ^ Z.of_nat (bitcpy s - 1) <= win }.

Definition win_ok (v : Z) (s : window) : Prop := exists e win, win_at v s e win.

Lemma window_full e win r : 0 <= e -> form e r -> 2 ^ Z.of_nat (w - 1) <= win < 2 ^ Z.of_nat w ->
  exists r', (r ← squares P mp paDlen w r; a ← entry M (Z.to_nat win); mul_reduce P mp paDlen r a r) = Okay r' /\
    form (e * 2 ^ Z.of_nat w + win) r'.
Proof.
  intros He F Hw. pose proof (Z.pow_pos_nonneg 2 (Z.of_nat w) ltac:(lia) ltac:(lia)).
  pose proof (Z.pow_pos_nonneg 2 (Z.of_nat (w - 1)) ltac:(lia) ltac:(lia)).
  destruct (squares_spec w e r He F) as (r1 & -> & F1). cbn [mbind ret_bind].
  destruct (entry_spec _ _ M (Z.to_nat win) M_ok) as (a & -> & Fa).
  { left. split; [apply Nat2Z.inj_le|apply Nat2Z.inj_lt]; rewrite Z2Nat.id, Nat2Z.inj_pow by lia; lia. }
  cbn [mbind ret_bind]. rewrite Z2Nat.id in Fa by lia.
  apply mul_reduce_spec; [nia|lia|done|done|apply F1|apply F1].
Qed.

(** A bit enters the window. *)
Lemma window_add v s e win y : win_at v s e win -> 0 <= y <= 1 ->
  Z.lor (bitbuf s) (Z.shiftl y (Z.of_nat (w - S (bitcpy s)))) = (2 * win + y) * 2 ^ Z.of_nat (w - S (bitcpy s)).
Proof.
  intros I Hy. destruct I as [_ _ Hc _ Hb _ _]. rewrite Hb, Z.shiftl_mul_pow2 by lia.
  set (n := (w - S (bitcpy s))%nat). replace (w - bitcpy s)%nat with (S n) by lia.
  pose proof (Z.pow_pos_nonneg 2 (Z.of_nat n) ltac:(lia) ltac:(lia)). rewrite <- Z.shiftl_mul_pow2 by lia.
  rewrite <- add_mul_lor by (try lia; rewrite Nat2Z.inj_succ, Z.pow_succ_r by lia; nia).
  rewrite Nat2Z.inj_succ, Z.pow_succ_r by lia. ring.
Qed.

Lemma window_push v s e win y : win_at v s e win -> 0 <= y <= 1 -> (mode s <> 2 -> y = 1) ->
  0 <= 2 * win + y < 2 ^ Z.of_nat (S (bitcpy s)) /\ 2 ^ Z.of_nat (bitcpy s) <= 2 * win + y /\
  2 * v + y = e * 2 ^ Z.of_nat (S (bitcpy s)) + (2 * win + y).
Proof.
  intros [_ _ _ Hw _ Hv Hm] Hy H1. rewrite Nat2Z.inj_succ, Z.pow_succ_r by lia.
  split; [lia|]. split; [|rewrite Hv; ring].
  destruct Hm as [(E & Ec & _)|[(E & Ec)|(E & Ec & Hg)]].
  - rewrite Ec, (H1 ltac:(lia)) in *. change (2 ^ Z.of_nat 0) with 1 in *. lia.
  - rewrite Ec, (H1 ltac:(lia)) in *. change (2 ^ Z.of_nat 0) with 1 in *. lia.
  - replace (bitcpy s) with (S (bitcpy s - 1)) at 1 by lia. rewrite Nat2Z.inj_succ, Z.pow_succ_r by lia. lia.
Qed.

Lemma window_step v s e win y : win_at v s e win -> 0 <= y <= 1 -> (mode s <> 2 -> y = 1) ->
  exists s', (let cpy := S (bitcpy s) in
    let buf := Z.lor (bitbuf s) (Z.shiftl y (Z.of_nat (w - cpy))) in
    if (cpy =? w)%nat then
      r ← squares P mp paDlen w (res s); a ← entry M (Z.to_nat buf); r ← mul_reduce P mp paDlen r a r;
      Okay {| res := r; mode := 1; bitcpy := 0; bitbuf := 0 |}
    else Okay {| res := res s; mode := 2; bitcpy := cpy; bitbuf := buf |}) = Okay s' /\ win_ok (2 * v + y) s'.
Proof.
  intros I Hy H1. cbn zeta. rewrite (window_add v s e win y I Hy).
  destruct (window_push v s e win y I Hy H1) as (R1 & R2 & V). pose proof I as [He F Hc _ _ _ _].
  destruct (Nat.eqb_spec (S (bitcpy s)) w) as [Ew|Ew].
  - rewrite Ew, Nat.sub_diag in *. change (2 ^ Z.of_nat 0) with 1. rewrite Z.mul_1_r.
    destruct (window_full e (2 * win + y) (res s) He F) as (r & E & Fr); [replace (w - 1)%nat with (bitcpy s) by lia; lia|].
    destruct (squares P mp paDlen w (res s)) as [r1| |]; [|done|done]. cbn [mbind ret_bind] in E |- *.
    destruct (entry M (Z.to_nat (2 * win + y))) as [a| |]; [|done|done]. cbn [mbind ret_bind] in E |- *. rewrite E.
    cbn [mbind ret_bind]. eexists. split; [done|]. exists (e * 2 ^ Z.of_nat w + (2 * win + y)), 0.
    split; cbn [res mode bitcpy bitbuf]; [nia|done|lia|done|lia|change (2 ^ Z.of_nat 0) with 1; lia|by right; left].
  - eexists. split; [done|]. exists e, (2 * win + y).
    split; cbn [res mode bitcpy bitbuf]; [done|done|lia|done|done|done|right; right].
    rewrite Nat.sub_succ, Nat.sub_0_r. split; [done|]. split; [lia|done].
Qed.

Lemma exp_bit_spec v s y : win_ok v s -> 0 <= y <= 1 ->
  exists s', exp_bit P mp paDlen w M y s = Okay s' /\ win_ok (2 * v + y) s'.
Proof.
  intros (e & win & I) Hy. unfold exp_bit. pose proof I as [He F Hc Hw Hb Hv Hm].
  destruct (Z.eqb_spec y 0) as [-> |Ey]; [|rewrite !andb_false_r; apply (window_step v s e win); [done|done|lia]].
  rewrite !andb_true_r. destruct Hm as [(E & _ & ->)|[(E & Ec)|(E & _)]]; rewrite E; cbn [Z.eqb].
  - exists s. split; [done|]. by exists e, win.
  - destruct (sqr_reduce_spec e (res s) He F) as (r & -> & Fr). cbn [mbind ret_bind]. eexists. split; [done|].
    exists (2 * e), 0. rewrite Ec in *. change (2 ^ Z.of_nat 0) with 1 in *.
    split; cbn [res mode bitcpy bitbuf]; [lia|done|lia|done|nia|change (2 ^ Z.of_nat 0) with 1; lia|by right; left].
  - apply (window_step v s e win); [done|done|lia].
Qed.

Lemma exp_digit_spec n v s buf : (n <= 32)%nat -> is_u32 buf -> win_ok v s ->
  exists s', exp_digit P mp paDlen w M n buf s = Okay s' /\ win_ok (v * 2 ^ Z.of_nat n + buf / 2 ^ (32 - Z.of_nat n)) s'.
Proof.
  revert v s buf. induction n as [|n IH]; intros v s buf Hn Hb I.
  { exists s. split; [done|]. unfold is_u32 in Hb. change (2 ^ (32 - Z.of_nat 0)) with (2 ^ 32). rewrite Z.div_small by lia.
    by replace (v * 2 ^ Z.of_nat 0 + 0) with v by (change (2 ^ Z.of_nat 0) with 1; lia). }
  cbn [exp_digit]. unfold is_u32 in Hb. unfold DIGIT_BIT. rewrite Z.shiftr_div_pow2 by lia.
  change (32 - 1) with 31. set (b := buf / 2 ^ 31).
  assert (0 <= b <= 1) as Rb by (unfold b; change (2 ^ 32) with 4294967296 in *; change (2 ^ 31) with 2147483648; Z.div_mod_to_equations; lia).
  assert (Z.land b 1 = b) as ->.
  { change 1 with (Z.ones 1). rewrite Z.land_ones by lia. apply Z.mod_small. change (2 ^ 1) with 2. lia. }
  destruct (exp_bit_spec v s b I Rb) as (s1 & -> & I1). cbn [mbind ret_bind].
  assert (u32 (Z.shiftl buf 1) = 2 * buf - b * 2 ^ 32) as Eu.
  { rewrite Z.shiftl_mul_pow2 by lia. unfold u32, b. change (2 ^ 1) with 2. change (2 ^ 32) with 4294967296 in *.
    change (2 ^ 31) with 2147483648. Z.div_mod_to_equations. lia. }
  destruct (IH (2 * v + b) s1 (u32 (Z.shiftl buf 1)) ltac:(lia) ltac:(apply u32_range) I1) as (s' & -> & I').
  exists s'. split; [done|]. replace (v * 2 ^ Z.of_nat (S n) + buf / 2 ^ (32 - Z.of_nat (S n))) with
    ((2 * v + b) * 2 ^ Z.of_nat n + u32 (Z.shiftl buf 1) / 2 ^ (32 - Z.of_nat n)); [done|].
  pose proof (Z.pow_pos_nonneg 2 (32 - Z.of_nat (S n)) ltac:(lia) ltac:(lia)) as Pp.
  assert (2 ^ (32 - Z.of_nat n) = 2 * 2 ^ (32 - Z.of_nat (S n))) as Ep.
  { rewrite <- Z.pow_succ_r by lia. f_equal. lia. }
  rewrite Eu, Ep. assert (2 ^ 32 = 2 ^ Z.of_nat n * (2 * 2 ^ (32 - Z.of_nat (S n)))) as ->.
  { rewrite <- Ep, <- Z.pow_add_r by lia. f_equal. lia. }
  replace (2 * buf - b * (2 ^ Z.of_nat n * (2 * 2 ^ (32 - Z.of_nat (S n)))))
    with (2 * buf + (- (b * 2 ^ Z.of_nat n)) * (2 * 2 ^ (32 - Z.of_nat (S n)))) by ring.
  rewrite Z.div_add by lia. rewrite Z.div_mul_cancel_l by lia. rewrite Nat2Z.inj_succ, Z.pow_succ_r by lia. ring.
Qed.

Lemma exp_digits_spec l v s : digits_ok l -> win_ok v s ->
  exists s', exp_digits P mp paDlen w M l s = Okay s' /\ win_ok (v * B ^ Z.of_nat (length l) + dval (reverse l)) s'.
Proof.
  intros Hl. revert v s. induction Hl as [|d l Hd Hl IH]; intros v s I; cbn [exp_digits].
  { exists s. split; [done|]. cbn. by rewrite Z.mul_1_r, Z.add_0_r. }
  destruct (exp_digit_spec 32 v s d ltac:(lia) Hd I) as (s1 & -> & I1). cbn [mbind ret_bind].
  change (2 ^ (32 - Z.of_nat 32)) with 1 in I1. rewrite Z.div_1_r in I1. change (2 ^ Z.of_nat 32) with B in I1.
  destruct (IH _ s1 I1) as (s' & -> & I'). exists s'. split; [done|].
  rewrite reverse_cons, dval_app, length_reverse, length_cons, Bpow_S. cbn [dval].
  by replace (v * (B * B ^ Z.of_nat (length l)) + (dval (reverse l) + B ^ Z.of_nat (length l) * (d + B * 0)))
    with ((v * B + d) * B ^ Z.of_nat (length l) + dval (reverse l)) by ring.
Qed.

Lemma tail_bit buf : 0 <= buf ->
  negb (Z.land (Z.shiftl buf 1) (Z.shiftl 1 (Z.of_nat w)) =? 0) = (buf / 2 ^ (Z.of_nat w - 1) mod 2 =? 1).
Proof.
  intros Hb. rewrite (Z.shiftl_1_l (Z.of_nat w)).
  assert (Z.land (Z.shiftl buf 1) (2 ^ Z.of_nat w) = if Z.testbit buf (Z.of_nat w - 1) then 2 ^ Z.of_nat w else 0) as ->.
  { apply Z.bits_inj'. intros i Hi. rewrite Z.land_spec, Z.shiftl_spec, Z.pow2_bits_eqb by lia.
    destruct (Z.eqb_spec (Z.of_nat w) i) as [<-|Hne].
    - rewrite andb_true_r. destruct (Z.testbit buf _); [by rewrite Z.pow2_bits_true by lia|by rewrite Z.bits_0].
    - rewrite andb_false_r. destruct (Z.testbit buf _); [by rewrite Z.pow2_bits_false by lia|by rewrite Z.bits_0]. }
  rewrite Z.testbit_odd, Z.shiftr_div_pow2, Zodd_mod by lia.
  destruct (_ mod 2 =? 1); [|done]. pose proof (Z.pow_pos_nonneg 2 (Z.of_nat w) ltac:(lia) ltac:(lia)).
  destruct (Z.eqb_spec (2 ^ Z.of_nat w) 0); [lia|done].
Qed.

Lemma exp_tail_spec n e r buf : 0 <= e -> (n <= w)%nat -> 0 <= buf -> form e r ->
  exists r', exp_tail P mp paDlen w M n r buf = Okay r' /\
    form (e * 2 ^ Z.of_nat n + buf / 2 ^ Z.of_nat (w - n) mod 2 ^ Z.of_nat n) r'.
Proof.
  revert e r buf. induction n as [|n IH]; intros e r buf He Hn Hb F; cbn [exp_tail].
  { exists r. split; [done|]. change (2 ^ Z.of_nat 0) with 1. by rewrite Z.mod_1_r, Z.mul_1_r, Z.add_0_r. }
  destruct (sqr_reduce_spec e r He F) as (r1 & -> & F1). cbn [mbind ret_bind]. rewrite tail_bit by done.
  set (b := buf / 2 ^ (Z.of_nat w - 1) mod 2). pose proof (Z.mod_pos_bound (buf / 2 ^ (Z.of_nat w - 1)) 2 ltac:(lia)) as Rb. fold b in Rb.
  assert (exists r2, (if b =? 1 then a ← entry M 1; mul_reduce P mp paDlen r1 a r1 else Okay r1) = Okay r2 /\ form (2 * e + b) r2)
    as (r2 & -> & F2).
  { destruct (Z.eqb_spec b 1) as [-> |Hb1].
    - destruct (entry_spec _ _ M 1 M_ok ltac:(by right)) as (a & -> & Fa). cbn [mbind ret_bind].
      apply mul_reduce_spec; [lia|lia|done|done|apply F1|apply F1].
    - exists r1. split; [done|]. by replace (2 * e + b) with (2 * e) by lia. }
  cbn [mbind ret_bind]. rewrite Z.shiftl_mul_pow2 by lia. change (2 ^ 1) with 2.
  destruct (IH (2 * e + b) r2 (buf * 2) ltac:(lia) ltac:(lia) ltac:(lia) F2) as (r' & -> & F'). exists r'. split; [done|].
  replace (e * 2 ^ Z.of_nat (S n) + buf / 2 ^ Z.of_nat (w - S n) mod 2 ^ Z.of_nat (S n))
    with ((2 * e + b) * 2 ^ Z.of_nat n + (buf * 2) / 2 ^ Z.of_nat (w - n) mod 2 ^ Z.of_nat n); [done|].
  pose proof (Z.pow_pos_nonneg 2 (Z.of_nat (w - S n)) ltac:(lia) ltac:(lia)). pose proof (Z.pow_pos_nonneg 2 (Z.of_nat n) ltac:(lia) ltac:(lia)).
  replace (w - n)%nat with (S (w - S n)) by lia. rewrite !Nat2Z.inj_succ, !Z.pow_succ_r by lia.
  rewrite (Z.mul_comm 2 (2 ^ Z.of_nat (w - S n))), Z.div_mul_cancel_r by lia. rewrite (Z.mul_comm 2 (2 ^ Z.of_nat n)).
  rewrite (Z.rem_mul_r _ (2 ^ Z.of_nat n) 2) by lia. rewrite Z.div_div by lia. rewrite <- Z.pow_add_r by lia.
  replace (Z.of_nat (w - S n) + Z.of_nat n) with (Z.of_nat w - 1) by lia. fold b. ring.
Qed.

(** All bits of the exponent. *)
Lemma exp_loop_spec X r : wf X -> form 0 r ->
  exists dX s r', digits X = Okay dX /\
    exp_digits P mp paDlen w M (reverse dX) {| res := r; mode := 0; bitcpy := 0; bitbuf := 0 |} = Okay s /\
    (if (mode s =? 2) && (0 <? bitcpy s)%nat then exp_tail P mp paDlen w M (bitcpy s) (res s) (bitbuf s) else Okay (res s)) = Okay r' /\
    form (mag X) r'.
Proof.
  intros WX F. destruct (digits_spec X (wf_pre _ WX)) as (dX & E & L & D & V & _). exists dX.
  destruct (exp_digits_spec (reverse dX) 0 {| res := r; mode := 0; bitcpy := 0; bitbuf := 0 |}) as (s & Es & (e & win & I)).
  { by apply Forall_reverse. }
  { exists 0, 0. split; cbn [res mode bitcpy bitbuf]; [lia|done|lia|change (2 ^ Z.of_nat 0) with 1; lia|lia|done|by left]. }
  rewrite reverse_involutive, V, Z.mul_0_l, Z.add_0_l in I. exists s. destruct I as [He Fe Hc Hw Hb Hv Hm].
  destruct (exp_tail_spec (bitcpy s) e (res s) (bitbuf s) He ltac:(lia)) as (r2 & E2 & F2); [rewrite Hb; nia|done|].
  rewrite Hb, Z.div_mul, Z.mod_small, <- Hv in F2 by (done || apply Z.pow_nonzero; lia).
  destruct Hm as [(Em & Ec & Ez)|[(Em & Ec)|(Em & Ec & _)]]; rewrite Em.
  - exists (res s). split; [done|]. split; [done|]. split; [done|]. rewrite Ec in *. change (2 ^ Z.of_nat 0) with 1 in *.
    by replace (mag X) with e by lia.
  - exists (res s). split; [done|]. split; [done|]. split; [done|]. rewrite Ec in *. change (2 ^ Z.of_nat 0) with 1 in *.
    by replace (mag X) with e by lia.
  - exists r2. split; [done|]. split; [done|]. split; [|done]. destruct (Nat.ltb_spec 0 (bitcpy s)); [done|lia].
Qed.
End window.
(** ** Leaving the Montgomery form *)

Lemma reduce_out e a : 0 <= e -> form e a ->
  exists r, pstm_montgomery_reduce a P mp (Some paDlen) = Okay r /\ wf r /\ sign r = PSTM_ZPOS /\ mag r = g ^ e mod m.
Proof.
  intros He F. pose proof (form_lt e a F) as L. pose proof (form_used e a F). pose proof (Bpow_pos (used P)) as PR. fold R in PR.
  destruct (reduce_spec a P mp (Some paDlen) (wf_pre _ (form_wf e a F)) (form_pos e a F) P_wf mp_ok)
    as (r & k & E & Wr & Sr & Ar & Lr & Vr); [fold m R; nia|apply F|lia|done|]. fold m R in Lr, Vr.
  exists r. split; [done|]. split; [done|]. split; [done|]. pose proof (mag_lt r (wf_pre _ Wr)) as [Gr _].
  rewrite <- (Z.mod_small (mag r) m) by lia. apply mod_cancel. rewrite Vr, Z.mod_add by lia.
  rewrite (form_mag e a F). by apply Z.mod_mod; lia.
Qed.

Lemma R_pos : 0 < R mod m.
Proof using m_gt mp_ok.
  clear room P_small P_wf.
  pose proof (Z.mod_pos_bound R m ltac:(lia)). destruct (Z.eq_dec (R mod m) 0) as [E|]; [|lia]. exfalso.
  apply Z.mod_divide in E; [|lia]. assert (m | 1) as D by (apply (cancel_Bpow 1 (used P)); by rewrite Z.mul_1_l).
  apply Z.divide_1_r_nonneg in D; lia.
Qed.

(** The table for a window of [w] bits. *)
Lemma table_spec w M1 : (2 <= w)%nat -> form 1 M1 ->
  exists Mh0 Mh M, pstm_init_copy M1 true = Okay Mh0 /\ squares P mp paDlen (w - 1) Mh0 = Okay Mh /\
    upper_table P mp paDlen (2 ^ (w - 1) - 1) (2 ^ (w - 1) + 1) (alloc Mh + 1) {[1%nat := M1; (2 ^ (w - 1))%nat := Mh]} = Okay M /\
    table_ok (2 ^ (w - 1)) (2 ^ w) M.
Proof.
  intros Hw F. destruct (init_copy_spec M1 true (form_wf 1 M1 F)) as (Mh0 & E0 & W0 & V0 & S0 & _ & A0 & _).
  assert (form 1 Mh0) as F0.
  { split; [done|rewrite S0; apply (form_pos 1 M1 F)|rewrite V0; apply (form_mag 1 M1 F)|]. pose proof (form_alloc 1 M1 F). lia. }
  destruct (squares_spec (w - 1) 1 Mh0 ltac:(lia) F0) as (Mh & Eh & Fh). set (h := (2 ^ (w - 1))%nat).
  assert (Z.of_nat h = 1 * 2 ^ Z.of_nat (w - 1)) as Zh by (unfold h; rewrite Nat2Z.inj_pow; lia).
  assert (2 ^ w = h + h)%nat as E2 by (unfold h; replace w with (S (w - 1)) at 1 by lia; cbn; lia).
  assert (2 <= h)%nat as H2 by (unfold h; replace (w - 1)%nat with (S (w - 2)) by lia; rewrite Nat.pow_succ_r'; pose proof (Nat.pow_nonzero 2 (w - 2)); lia).
  destruct (upper_table_spec (h - 1) h (h + 1) (alloc Mh + 1) {[1%nat := M1; h := Mh]}) as (M & EM & TM).
  { split; [exists M1; by rewrite lookup_insert_eq|]. intros i Hi. replace i with h by lia. exists Mh.
    rewrite lookup_insert_ne, lookup_singleton_eq by lia. split; [done|]. by rewrite Zh. }
  { lia. }
  { pose proof (form_alloc _ Mh Fh). lia. }
  exists Mh0, Mh, M. split; [done|]. split; [done|]. split; [done|]. rewrite E2. by replace (h + h)%nat with (h + 1 + (h - 1))%nat by lia.
Qed.
End form.

(** ** The whole computation *)

Lemma scratch_room p u : (p <= u + 2)%nat -> (2 * p + 1 <= scratch_digits p (Some ((u + 3) * 2 * 4)))%nat.
Proof.
  intros H. unfold scratch_digits. destruct (Nat.leb_spec (2 * p + 1) ((u + 3) * 2 * 4)); [|lia].
  rewrite Nat.div_mul by lia. lia.
Qed.

(** What the exponentiation relies on: the one division, by which the base is
    brought into Montgomery form, is exact, and the Montgomery form of the base
    is not much shorter than the modulus, because its length determines the size
    of the scratch array. *)
Definition base_ok (p : nat) (g m : Z) : bool :=
  borrows_short (p + p) (g * (B ^ Z.of_nat p mod m)) m &&
  ((p <=? 2)%nat || (B ^ Z.of_nat (p - 3) <=? (g * B ^ Z.of_nat p) mod m)).

Lemma exptmod_spec G X P Y : wf G -> wf X -> wf P -> pre Y -> sign G = PSTM_ZPOS -> sign P = PSTM_ZPOS ->
  mag P mod 2 = 1 -> 1 < mag P -> mag G < mag P -> Z.of_nat (used P) < 1999 -> (used P + 1 <= alloc P)%nat ->
  base_ok (used P) (mag G) (mag P) = true ->
  exists r, pstm_exptmod G X P Y = Okay r /\ wf r /\ sign r = PSTM_ZPOS /\ mag r = mag G ^ mag X mod mag P.
Proof.
  intros WG WX WP PY SG SP Ho H1 HG Hu Ha Hb. unfold pstm_exptmod. apply andb_true_iff in Hb as [Hb1 Hb2].
  destruct (count_bits_spec X WX) as (n & -> & _). cbn [mbind ret_bind]. set (w := if (n <? 50)%nat then _ else _).
  assert (2 <= w)%nat as Hw by (unfold w, PS_EXPTMOD_WINSIZE; destruct (n <? 50)%nat; lia). clearbody w. clear n.
  destruct (montgomery_setup_spec P WP Ho) as (mp & -> & _ & Hmp). cbn [mbind ret_bind].
  destruct (init_size_spec (used P * 2 + 1)) as (_ & _ & Ai).
  destruct (normalization_spec (pstm_init_size (used P * 2 + 1)) P WP Ho H1 ltac:(lia) ltac:(lia)) as (rs & -> & Wr & Sr & Mr & Ar).
  cbn [mbind ret_bind]. rewrite cmp_mag_spec by done. cbn [mbind ret_bind]. rewrite cmpz_gt.
  destruct (Z.ltb_spec (mag G) (mag P)); [|lia]. cbn [negb].
  destruct (init_size_spec (used rs)) as (Wi & _ & _).
  destruct (copy_spec G _ WG (wf_pre _ Wi)) as (M0 & -> & W0 & V0 & S0 & U0 & _). cbn [mbind ret_bind].
  pose proof (mag_lt P (wf_pre _ WP)) as [_ LP].
  assert (used M0 <= used P)%nat by (apply used_le; [done|lia]).
  assert (used rs <= used P)%nat by (apply used_le; [done|]; rewrite Mr; pose proof (Z.mod_pos_bound (B ^ Z.of_nat (used P)) (mag P) ltac:(lia)); lia).
  pose proof (R_pos P mp H1 Hmp) as HR.
  destruct (mulmod_spec M0 rs P M0 true W0 Wr WP) as (M1 & -> & W1 & S1 & V1 & A1); [congruence|done|done|rewrite Mr; exact HR|lia|lia| |].
  { rewrite V0, Mr. by apply (borrows_mono _ (used P + used P)); [lia|]. }
  cbn [mbind ret_bind]. rewrite V0, Mr, Z.mul_mod_idemp_r in V1 by lia. clear Hb1 V0 S0 U0.
  set (paDlen := ((used M1 + 3) * 2 * 4)%nat).
  assert (2 * used P + 1 <= scratch_digits (used P) (Some paDlen))%nat as Hroom.
  { apply scratch_room. apply orb_true_iff in Hb2 as [Hb2|Hb2]; [apply Nat.leb_le in Hb2; lia|]. apply Z.leb_le in Hb2.
    rewrite <- V1 in Hb2. apply used_gt in Hb2; [lia|done]. }
  assert (form P (mag G) 1 M1) as F1 by (split; [done|done|by rewrite Z.pow_1_r|lia]).
  assert (form P (mag G) 0 rs) as F0 by (split; [done|done|by rewrite Z.pow_0_r, Z.mul_1_l|lia]).
  destruct (table_spec P mp (mag G) paDlen WP H1 Hmp ltac:(lia) Hroom w M1 Hw F1) as (Mh0 & Mh & M & -> & E2 & E3 & TM).
  cbn [mbind ret_bind]. rewrite E2. cbn [mbind ret_bind]. rewrite E3. cbn [mbind ret_bind].
  destruct (exp_loop_spec P mp (mag G) paDlen WP H1 Hmp ltac:(lia) Hroom w M ltac:(lia) TM X rs WX F0) as (dX & s & r & -> & E4 & E5 & Fr).
  cbn [mbind ret_bind]. rewrite E4. cbn [mbind ret_bind]. rewrite E5. cbn [mbind ret_bind].
  destruct (reduce_out P mp (mag G) paDlen WP H1 Hmp ltac:(lia) Hroom (mag X) r) as (r' & -> & W' & S' & V');
    [apply mag_lt, WX|done|]. cbn [mbind ret_bind].
  destruct (copy_spec r' Y W' PY) as (y & -> & Wy & My & Sy & _). exists y. split; [done|]. split; [done|]. split; [congruence|congruence].
Qed.

End PstmExpFacts.
