(* ===== verification/TlsRsa.v ===== *)
(** * RSA encryption of the TLS client (src/busybox/networking/tls_rsa.c)

    PKCS #1 padding and the modular exponentiation around it.  The output is the
    memory behind the output pointer; writing past its end is [Crash].  The
    random bytes come from a parameter, a source of a given number of bytes.  A
    call that ends the program with a message is the error [DIE]. *)

From S2P Require Import Prelude Pstm PstmFacts PstmMul PstmMont PstmDiv PstmDivFacts PstmDivMain PstmExp PstmExpFacts.

Module TlsRsa.
Import Pstm PstmFacts PstmMul PstmDiv PstmDivMain PstmExp PstmExpFacts.

(** ** Definitions *)

Definition PUBKEY_TYPE : Z := 1.
Definition PRIVKEY_TYPE : Z := 2.
Definition PS_SUCCESS : Z := 0.
Definition DIE : Z := -1000.

Record psRsaKey_t := { e : pstm_int; d : pstm_int; N : pstm_int; qP : pstm_int; dP : pstm_int; dQ : pstm_int;
                       p : pstm_int; q : pstm_int; size : nat; optimized : bool }.

(** [n] bytes written from [i] on. *)
Definition write_at (mem : bytes) (i : nat) (b : bytes) : ret bytes :=
  if (i + length b <=? length mem)%nat then Okay (take i mem ++ b ++ drop (i + length b) mem) else Crash.

(** A zero byte of the random data becomes one. *)
Definition non_zero (b : Z) : Z := if b =? 0 then 1 else b.

Definition pkcs1Pad (random : nat -> bytes) (inp out : bytes) (outlen : nat) (cryptType : Z) : ret bytes :=
  let randomLen := Z.of_nat outlen - 3 - Z.of_nat (length inp) in
  if randomLen <? 8 then Err PS_LIMIT_FAIL
  else
    let n := Z.to_nat randomLen in
    let filler := if cryptType =? PUBKEY_TYPE then replicate n 255 else non_zero <$> random n in
    write_at out 0 ([0; cryptType] ++ filler ++ [0] ++ inp).

(** Every error of the arithmetic is reported as the same one. *)
Definition failure {A} (r : ret A) : ret A :=
  match r with Err _ => Err PS_FAILURE | _ => r end.

(** [pstm_add(&a, &b, &a)]: the sum of two numbers of the same sign sets the
    length of the output, which is also the first number, before the loop. *)
Definition pstm_add_to (a b : pstm_int) : ret pstm_int :=
  if sign a =? sign b then
    let y := (used a `max` used b)%nat in
    s_pstm_add (set_used y (pstm_grow a y)) b a
  else pstm_add a b a.

(** The private operation by the factors of the modulus. *)
Definition rsa_crt (tmp : pstm_int) (key : psRsaKey_t) : ret pstm_int :=
  tmpa ← pstm_exptmod tmp (dP key) (p key) (pstm_init_size (alloc (p key)));
  tmpb ← pstm_exptmod tmp (dQ key) (q key) (pstm_init_size (alloc (q key)));
  tmp ← pstm_sub tmpa tmpb tmp;
  tmp ← pstm_mulmod tmp (qP key) (p key) tmp true;
  tmp ← pstm_mul_comba tmp (q key) tmp;
  pstm_add_to tmp tmpb.

Definition rsa_power (tmp : pstm_int) (key : psRsaKey_t) (type : Z) : ret pstm_int :=
  if type =? PRIVKEY_TYPE then
    if optimized key then failure (rsa_crt tmp key)
    else failure (pstm_exptmod tmp (d key) (N key) tmp)
  else if type =? PUBKEY_TYPE then failure (pstm_exptmod tmp (e key) (N key) tmp)
  else Err PS_FAILURE.

(** The new output memory and length. *)
Definition psRsaCrypt (inp : bytes) (inlen : nat) (out : bytes) (outlen : nat) (key : psRsaKey_t) (type : Z) : ret (bytes * nat) :=
  tmp ← failure (pstm_read_unsigned_bin (pstm_init_for_read_unsigned_bin (inlen + 4)) inp inlen);
  r ← pstm_cmp (N key) tmp;
  if r =? PSTM_LT then Err PS_LIMIT_FAIL
  else
    tmp ← rsa_power tmp key type;
    x ← pstm_unsigned_bin_size (N key);
    if (outlen <? x)%nat then Err (-1)
    else
      let pad := (size key - x)%nat in
      let x := (x + pad)%nat in
      out ← write_at out 0 (replicate pad 0);
      out ← write_at out pad (replicate x 0);
      n ← pstm_unsigned_bin_size tmp;
      b ← failure (pstm_to_unsigned_bin tmp);
      if (x <? n)%nat then Crash
      else out ← write_at out (pad + (x - n)) b; Okay (out, x).

(** The new output memory and the returned size. *)
Definition psRsaEncryptPub (random : nat -> bytes) (key : psRsaKey_t) (inp out : bytes) (outlen : nat) : ret (bytes * nat) :=
  if (outlen <? size key)%nat then Err DIE
  else
    out ← pkcs1Pad random inp out (size key) PRIVKEY_TYPE;
    '(out, outlen) ← psRsaCrypt out (size key) out outlen key PUBKEY_TYPE;
    if negb (outlen =? size key)%nat then Err PS_FAILURE else Okay (out, size key).

(** ** Bytes of fixed length *)

Lemma le_bytes_app n k z : 0 <= z < 256 ^ Z.of_nat n -> le_bytes (n + k) z = le_bytes n z ++ replicate k 0.
Proof.
  revert z. induction n as [|n IH]; intros z Hz.
  - change (256 ^ Z.of_nat 0) with 1 in Hz. replace z with 0 by lia. clear. induction k as [|k IH]; [done|].
    cbn [Nat.add le_bytes app replicate]. change (0 / 256) with 0. cbn [Nat.add app le_bytes] in IH. by rewrite IH.
  - rewrite Nat2Z.inj_succ, Z.pow_succ_r in Hz by lia. cbn [Nat.add le_bytes app]. rewrite IH; [done|].
    split; [apply Z.div_pos; lia|apply Z.div_lt_upper_bound; lia].
Qed.

Lemma be_bytes_pad n k z : 0 <= z < 256 ^ Z.of_nat n -> (n <= k)%nat -> be_bytes k z = replicate (k - n) 0 ++ be_bytes n z.
Proof.
  intros Hz Hk. unfold be_bytes. replace k with (n + (k - n))%nat at 1 by lia. rewrite le_bytes_app by done.
  by rewrite reverse_app, reverse_replicate.
Qed.

Lemma nbytes_lower m : 0 < m -> 256 ^ (Z.of_nat (nbytes m) - 1) <= m.
Proof.
  intros Hm. unfold nbytes, nbits. destruct (Z.eqb_spec m 0); [lia|]. pose proof (Z.log2_nonneg m).
  rewrite Z2Nat.id by (apply Z.div_pos; lia). assert (1 <= (Z.log2 m + 1 + 7) / 8) by (apply Z.div_le_lower_bound; lia).
  change 256 with (2 ^ 8). rewrite <- Z.pow_mul_r by lia.
  transitivity (2 ^ Z.log2 m); [|apply Z.log2_spec; lia]. apply Z.pow_le_mono_r; [lia|].
  pose proof (Z.mul_div_le (Z.log2 m + 1 + 7) 8 ltac:(lia)). lia.
Qed.

Lemma nbytes_used a : wf a -> (nbytes (mag a) <= 4 * used a)%nat.
Proof.
  intros W. pose proof (mag_lt a (wf_pre _ W)) as [H0 H1]. destruct (Z.eq_dec (mag a) 0) as [->|Hn]; [change (nbytes 0) with 0%nat; lia|].
  pose proof (nbytes_lower (mag a) ltac:(lia)) as L.
  destruct (Nat.le_gt_cases (nbytes (mag a)) (4 * used a)) as [|Hgt]; [done|].
  assert (B ^ Z.of_nat (used a) <= 256 ^ (Z.of_nat (nbytes (mag a)) - 1)); [|lia].
  unfold B. change 256 with (2 ^ 8). rewrite <- !Z.pow_mul_r by lia. apply Z.pow_le_mono_r; lia.
Qed.

Lemma write_at_spec mem i b : (i + length b <= length mem)%nat -> write_at mem i b = Okay (take i mem ++ b ++ drop (i + length b) mem).
Proof. intros H. unfold write_at. by destruct (Nat.leb_spec (i + length b) (length mem)); [|lia]. Qed.

Lemma write_front mem b : (length b <= length mem)%nat -> write_at mem 0 b = Okay (b ++ drop (length b) mem).
Proof. intros H. by rewrite write_at_spec. Qed.

Section encrypt.
Context (random : nat -> bytes).
Hypothesis random_ok : forall n, length (random n) = n /\ bytes_ok (random n).

(** The block that is encrypted. *)
Definition block (inp : bytes) (size : nat) : bytes :=
  [0; PRIVKEY_TYPE] ++ (non_zero <$> random (size - 3 - length inp)) ++ [0] ++ inp.

Lemma block_length inp sz : (length inp + 11 <= sz)%nat -> length (block inp sz) = sz.
Proof.
  intros H. unfold block. rewrite !length_app, length_fmap, (proj1 (random_ok _)). cbn [length]. lia.
Qed.

Lemma block_bytes inp sz : bytes_ok inp -> bytes_ok (block inp sz).
Proof.
  intros H. unfold block. repeat (apply bytes_ok_app; split); [by repeat constructor| |by repeat constructor|done].
  apply Forall_fmap. eapply Forall_impl; [apply (proj2 (random_ok _))|]. intros b Hb. unfold compose, non_zero.
  destruct (Z.eqb_spec b 0); [by vm_compute|done].
Qed.

Lemma pkcs1Pad_spec inp out sz : (length inp + 11 <= sz)%nat -> (sz <= length out)%nat ->
  pkcs1Pad random inp out sz PRIVKEY_TYPE = Okay (block inp sz ++ drop sz out).
Proof.
  intros H1 H2. unfold pkcs1Pad. destruct (Z.ltb_spec (Z.of_nat sz - 3 - Z.of_nat (length inp)) 8); [lia|].
  change (PRIVKEY_TYPE =? PUBKEY_TYPE) with false. cbn match.
  replace (Z.to_nat (Z.of_nat sz - 3 - Z.of_nat (length inp))) with (sz - 3 - length inp)%nat by lia. fold (block inp sz).
  rewrite write_front by (rewrite block_length; lia). by rewrite block_length.
Qed.

(** The first byte is zero, so the block is below the modulus. *)
Lemma block_lt inp sz m : bytes_ok inp -> (length inp + 11 <= sz)%nat -> 0 < m -> sz = nbytes m -> 0 <= be_val (block inp sz) < m.
Proof.
  intros Hi Hl Hm Hs. pose proof (block_bytes inp sz Hi) as Hb. pose proof (block_length inp sz Hl) as Lb.
  unfold block in *. cbn [app] in *. set (t := PRIVKEY_TYPE :: _) in *. change (0 :: t) with ([0] ++ t).
  assert (S (length t) = nbytes m) as Lt by (rewrite <- Hs; exact Lb). clearbody t. clear Lb.
  rewrite be_val_app. change (be_val [0]) with 0. inversion Hb as [|? ? _ Ht]; subst.
  pose proof (be_val_range t Ht). pose proof (nbytes_lower m Hm).
  replace (Z.of_nat (length t)) with (Z.of_nat (nbytes m) - 1) in * by lia. lia.
Qed.

(** The result in as many bytes as the modulus has. *)
Lemma rsa_output tmp out sz v : wf tmp -> sign tmp = PSTM_ZPOS -> mag tmp = v -> (nbytes v <= sz)%nat -> (sz <= length out)%nat ->
  (out ← write_at out 0 (replicate 0 0); out ← write_at out 0 (replicate (sz + 0) 0); n ← pstm_unsigned_bin_size tmp;
   b ← failure (pstm_to_unsigned_bin tmp);
   if (sz + 0 <? n)%nat then Crash else out ← write_at out (0 + (sz + 0 - n)) b; Okay (out, sz + 0)%nat) =
  Okay (be_bytes sz v ++ drop sz out, sz).
Proof.
  intros W S M Hn Hl. rewrite Nat.add_0_r. rewrite write_front by (cbn; lia). cbn [mbind ret_bind replicate length drop app].
  rewrite write_front by (by rewrite length_replicate). cbn [mbind ret_bind]. rewrite length_replicate.
  rewrite unsigned_bin_size_spec, to_unsigned_bin_spec by done. rewrite M. cbn [mbind ret_bind failure Nat.add].
  destruct (Nat.ltb_spec sz (nbytes v)); [lia|].
  rewrite write_at_spec by (rewrite length_be_bytes, length_app, length_replicate, length_drop; lia). cbn [mbind ret_bind].
  rewrite length_be_bytes. do 2 f_equal. rewrite (be_bytes_pad (nbytes v) sz v); [|split; [subst; apply mag_lt, W|apply nbytes_range; subst; apply mag_lt, W]|done].
  rewrite take_app_le, take_replicate by (rewrite length_replicate; lia). rewrite <- app_assoc. f_equal; [f_equal; lia|]. f_equal.
  rewrite drop_app_ge by (rewrite length_replicate; lia). rewrite length_replicate, drop_drop. f_equal. lia.
Qed.

Lemma encrypt_spec key inp out outlen : wf (N key) -> wf (e key) -> sign (N key) = PSTM_ZPOS -> mag (N key) mod 2 = 1 ->
  size key = nbytes (mag (N key)) -> Z.of_nat (used (N key)) < 1999 -> (used (N key) + 1 <= alloc (N key))%nat ->
  bytes_ok inp -> bytes_ok out -> (length inp + 11 <= size key)%nat -> (size key <= outlen <= length out)%nat ->
  base_ok (used (N key)) (be_val (block inp (size key))) (mag (N key)) = true ->
  psRsaEncryptPub random key inp out outlen =
    Okay (be_bytes (size key) (be_val (block inp (size key)) ^ mag (e key) mod mag (N key)) ++ drop (size key) out, size key).
Proof.
  intros WN We SN Ho Hs Hu Ha Hi Hout Hl Hol Hb. unfold psRsaEncryptPub. destruct (Nat.ltb_spec outlen (size key)); [lia|].
  rewrite pkcs1Pad_spec by lia. cbn [mbind ret_bind]. unfold psRsaCrypt.
  set (blk := block inp (size key)) in *. pose proof (block_length inp (size key) Hl) as Lb. fold blk in Lb.
  pose proof (nbytes_used (N key) WN) as Hnu. pose proof (block_bytes inp (size key) Hi) as Bb. fold blk in Bb.
  destruct (read_unsigned_bin_spec (pstm_init_for_read_unsigned_bin (size key + 4)) (blk ++ drop (size key) out) (size key))
    as (tmp & -> & Wt & Mt & St & _); [rewrite length_app; lia|lia|apply bytes_ok_app; auto with bytes|].
  rewrite take_app_le, take_ge in Mt, St by lia. cbn [failure mbind ret_bind].
  pose proof (mag_lt (N key) (wf_pre _ WN)) as [HN0 _].
  assert (1 < mag (N key)) as H1.
  { assert (0 < mag (N key)) by (destruct (Z.eq_dec (mag (N key)) 0) as [E0|]; [rewrite E0 in Ho; done|lia]).
    destruct (Z.eq_dec (mag (N key)) 1) as [E1|]; [|lia]. rewrite E1 in Hs. change (nbytes 1) with 1%nat in Hs. lia. }
  pose proof (block_lt inp (size key) (mag (N key)) Hi Hl ltac:(lia) Hs) as Hlt. fold blk in Hlt.
  pose proof (wf_sign_pos tmp _ Wt Mt St) as Zt.
  rewrite cmp_pos by done. cbn [mbind ret_bind]. rewrite cmpz_lt. destruct (Z.ltb_spec (mag (N key)) (mag tmp)); [lia|].
  unfold rsa_power. change (PUBKEY_TYPE =? PRIVKEY_TYPE) with false. change (PUBKEY_TYPE =? PUBKEY_TYPE) with true. cbn match.
  destruct (exptmod_spec tmp (e key) (N key) tmp Wt We WN (wf_pre _ Wt) Zt SN Ho H1) as (r & -> & Wr & Sr & Mr); [lia|done|done|by rewrite Mt|].
  cbn [failure mbind ret_bind]. rewrite (unsigned_bin_size_spec (N key)), <- Hs by done. cbn [mbind ret_bind].
  destruct (Nat.ltb_spec outlen (size key)); [lia|]. rewrite Nat.sub_diag. rewrite Mt in Mr.
  rewrite (rsa_output r (blk ++ drop (size key) out) (size key) (be_val blk ^ mag (e key) mod mag (N key)) Wr Sr Mr).
  - cbn [mbind ret_bind]. rewrite Nat.eqb_refl. cbn [negb]. rewrite drop_app_ge, Lb, Nat.sub_diag by lia. done.
  - rewrite Hs. apply nbytes_mono. pose proof (Z.mod_pos_bound (be_val blk ^ mag (e key)) (mag (N key)) ltac:(lia)). lia.
  - rewrite length_app, Lb. lia.
Qed.
End encrypt.

End TlsRsa.
