(* ===== verification/PstmProps.v ===== *)
(** * Properties of the multi-precision arithmetic and of RSA encryption

    The invariant of the numbers, division, exponentiation and encryption, for
    the inputs on which they are correct, and a subtraction and a division that
    are not. *)

From S2P Require Import Prelude Pstm PstmFacts PstmMul PstmMont PstmDiv PstmDivFacts PstmDivMain PstmExp PstmExpFacts TlsRsa.

Import Pstm PstmFacts PstmMul PstmDiv PstmDivMain PstmExp PstmExpFacts TlsRsa.

(** ** Checking the invariant of a given number *)

Definition wfb (a : pstm_int) : bool :=
  (used a <=? length (dp a))%nat && forallb (fun d => (0 <=? d) && (d <? 2 ^ 32)) (dp a) &&
  forallb (Z.eqb 0) (drop (used a) (dp a)) && ((sign a =? PSTM_ZPOS) || ((sign a =? PSTM_NEG) && negb (used a =? 0)%nat)) &&
  ((used a =? 0)%nat || negb (nth (used a - 1) (dp a) 0 =? 0)).

Lemma wfb_wf a : wfb a = true -> wf a.
Proof.
  unfold wfb. rewrite !andb_true_iff, !orb_true_iff, !andb_true_iff, !negb_true_iff, !forallb_forall, !Z.eqb_eq, !Nat.eqb_eq.
  rewrite Z.eqb_neq, Nat.eqb_neq, Nat.leb_le. intros ((((H1 & H2) & H3) & H4) & H5).
  split; [split|done|]; [done| | |destruct H4 as [|[? _]]; [by left|by right]|intros; by destruct H4 as [|[_ ?]]].
  - apply Forall_forall. intros d Hd%list_elem_of_In. specialize (H2 d Hd). unfold is_u32. lia.
  - apply Forall_forall. intros d Hd%list_elem_of_In. specialize (H3 d Hd). lia.
Qed.

(** A number from its digits. *)
Definition num (l : list Z) : pstm_int := {| used := length l; sign := PSTM_ZPOS; dp := l ++ [0; 0] |}.

(** ** The invariant *)

Lemma sub_rest_ok l t : digits_ok l -> digits_ok (sub_rest l t) /\ length (sub_rest l t) = length l.
Proof.
  revert t. induction l as [|x l IH]; intros t H; [done|]. inversion H as [|? ? Hx Hl]; subst. cbn [sub_rest length].
  destruct (IH (Z.shiftr (u64 (x - t)) DIGIT_BIT) Hl) as [D L]. split; [constructor; [apply u32_range|done]|congruence].
Qed.

Lemma sub_loop_ok la lb t : digits_ok la -> digits_ok (sub_loop la lb t) /\ length (sub_loop la lb t) = length la.
Proof.
  revert lb t. induction la as [|x la IH]; intros lb t H; [by destruct lb|]. destruct lb as [|y lb]; [by apply sub_rest_ok|].
  inversion H as [|? ? Hx Hl]; subst. cbn [sub_loop length].
  destruct (IH lb (Z.land (Z.shiftr (u64 (x - (y + t))) DIGIT_BIT) 1) Hl) as [D L].
  split; [constructor; [apply u32_range|done]|congruence].
Qed.

(** [r] returns a well-formed number. *)
Definition returns_wf (r : ret pstm_int) : Prop := exists x, r = Okay x /\ wf x.

Lemma computes_wf r v s n : computes r v s n -> returns_wf r.
Proof. intros (c & E & W & _). by exists c. Qed.

Lemma s_sub_wf a b c : pre a -> pre b -> pre c -> (used b <= used a)%nat -> returns_wf (s_pstm_sub a b c).
Proof.
  intros Pa Pb Pc Hu. unfold s_pstm_sub. destruct (Nat.ltb_spec (used a) (used b)); [lia|].
  pose proof (grow_if c (used a) Pc) as G. cbn zeta in G. set (c' := if _ : bool then _ else _) in *.
  destruct G as (Pc' & _ & Uc & Sc & Ac).
  destruct (digits_spec a Pa) as (da & -> & La & Da & _). destruct (digits_spec b Pb) as (db & -> & Lb & Db & _). cbn [mbind ret_bind].
  destruct (sub_loop_ok da db 0 Da) as [D L]. rewrite La in L.
  eapply computes_wf, finish_spec; [done|reflexivity|fold (alloc c'); lia|apply Pc'|done|apply Pc'|apply zeros_above; [done|lia]|apply Pc'].
Qed.

(** [r] returns a well-formed number with the value [v]. *)
Definition gives (r : ret pstm_int) (v : Z) : Prop := exists x, r = Okay x /\ wf x /\ value x = v.
Definition signed (s v : Z) : Z := if s =? PSTM_NEG then - v else v.

Lemma computes_gives r v s n w : computes r v s n -> is_sign s -> signed s v = w -> gives r w.
Proof. intros C Hs <-. destruct (computes_value r v s n C Hs) as (x & E & W & _ & V & _). by exists x. Qed.

Lemma signed_mag a : signed (sign a) (mag a) = value a.
Proof. done. Qed.

Lemma opposite a b : wf a -> wf b -> sign a <> sign b -> signed (sign a) (mag b) = - value b.
Proof.
  intros Wa Wb H. unfold signed, value. destruct (pre_sign a (wf_pre a Wa)) as [Ea|Ea], (pre_sign b (wf_pre b Wb)) as [Eb|Eb]; rewrite Ea, Eb in *; cbn; lia.
Qed.

Lemma same a b v : sign a = sign b -> signed (sign a) v = signed (sign b) v.
Proof. by intros ->. Qed.

Lemma signed_add s x y : signed s (x + y) = signed s x + signed s y.
Proof. unfold signed. destruct (_ =? _); lia. Qed.
Lemma signed_sub s x y : signed s (x - y) = signed s x - signed s y.
Proof. unfold signed. destruct (_ =? _); lia. Qed.

Lemma used_order x y : wf x -> wf y -> mag y <= mag x -> (used y <= used x)%nat.
Proof. intros Wx Wy H. apply used_le; [done|]. pose proof (mag_lt x (wf_pre _ Wx)). lia. Qed.

(** The sum and the difference add the magnitudes, or subtract the smaller from
    the larger one; the sum of [b] and the difference with [b] differ in the sign
    that [b] counts with. *)
Section sums.
Context (a b c : pstm_int) (Wa : wf a) (Wb : wf b) (Pc : pre c) (Ra : (used a < alloc a)%nat) (Rb : (used b < alloc b)%nat).
Context (Ua : Z.of_nat (used a) < 2000) (Ub : Z.of_nat (used b) < 2000).
Definition close : Prop := (used a <= used b + 1)%nat /\ (used b <= used a + 1)%nat.

Lemma s_add_gives : gives (s_pstm_add a b (set_sign (sign a) c)) (signed (sign a) (mag a + mag b)).
Proof using Wa Wb Pc Ra Rb Ua Ub.
  destruct (s_add_spec a b (set_sign (sign a) c)) as (n & C); [apply Wa|apply Wb|apply set_sign_pre; [done|apply Wa]|lia|lia|lia|].
  eapply computes_gives; [exact C|apply Wa|done].
Qed.

Lemma sub_any : returns_wf (pstm_add a b c) /\ returns_wf (pstm_sub a b c).
Proof using Wa Wb Pc Ra Rb Ua Ub.
  assert (forall x y s, wf x -> wf y -> mag y <= mag x -> is_sign s -> returns_wf (s_pstm_sub x y (set_sign s c))) as S.
  { intros x y s Wx Wy H Hs. apply s_sub_wf; [apply Wx|apply Wy|by apply set_sign_pre|by apply used_order]. }
  assert (returns_wf (s_pstm_add a b (set_sign (sign a) c))) as A by (destruct s_add_gives as (x & E & W & _); by exists x).
  split; unfold pstm_add, pstm_sub; destruct (Z.eqb_spec (sign a) (sign b)); cbn [negb]; try exact A.
  all: rewrite cmp_mag_spec by done; cbn [mbind ret_bind]; rewrite cmpz_lt; destruct (Z.ltb_spec (mag a) (mag b)); cbn [negb]; apply S; try done; try lia; try apply Wa; try apply Wb.
  destruct (sign a =? PSTM_ZPOS); [by right|by left].
Qed.

Lemma add_gives : sign a = sign b \/ close -> gives (pstm_add a b c) (value a + value b).
Proof using Wa Wb Pc Ra Rb Ua Ub.
  intros H. unfold pstm_add. destruct (Z.eqb_spec (sign a) (sign b)) as [E|E].
  - rewrite <- (signed_mag a), <- (signed_mag b), <- E, <- signed_add. apply s_add_gives.
  - destruct H as [|[C1 C2]]; [done|]. rewrite cmp_mag_spec by done. cbn [mbind ret_bind]. rewrite cmpz_lt. destruct (Z.ltb_spec (mag a) (mag b)).
    + eapply computes_gives; [apply s_sub_close; [done|done|apply set_sign_pre; [done|apply Wb]|lia|done]|apply Wb|]. cbn [sign set_sign].
      rewrite signed_sub, signed_mag, (opposite b a Wb Wa ltac:(congruence)). lia.
    + eapply computes_gives; [apply s_sub_close; [done|done|apply set_sign_pre; [done|apply Wa]|lia|done]|apply Wa|]. cbn [sign set_sign].
      rewrite signed_sub, signed_mag, (opposite a b Wa Wb E). lia.
Qed.

Lemma sub_gives : sign a <> sign b \/ close -> gives (pstm_sub a b c) (value a - value b).
Proof using Wa Wb Pc Ra Rb Ua Ub.
  intros H. unfold pstm_sub. destruct (Z.eqb_spec (sign a) (sign b)) as [E|E]; cbn [negb].
  - destruct H as [|[C1 C2]]; [done|]. rewrite cmp_mag_spec by done. cbn [mbind ret_bind]. rewrite cmpz_lt. destruct (Z.ltb_spec (mag a) (mag b)); cbn [negb].
    + eapply computes_gives; [apply s_sub_close; [done|done|apply set_sign_pre; [done|destruct (sign a =? PSTM_ZPOS); [by right|by left]]|lia|done]
        |destruct (sign a =? PSTM_ZPOS); [by right|by left]|]. cbn [sign set_sign].
      unfold signed, value. rewrite <- E. destruct (pre_sign a (wf_pre a Wa)) as [-> | ->]; cbn; lia.
    + eapply computes_gives; [apply s_sub_close; [done|done|apply set_sign_pre; [done|apply Wa]|lia|done]|apply Wa|]. cbn [sign set_sign].
      rewrite signed_sub, signed_mag, (same a b (mag b) E), signed_mag. lia.
  - pose proof s_add_gives as G. rewrite signed_add, signed_mag, (opposite a b Wa Wb E) in G. by rewrite <- Z.sub_opp_r, Z.opp_involutive in G.
Qed.
End sums.

Lemma signed_scale a x : signed (sign a) (mag a * x) = value a * x.
Proof. unfold signed, value. destruct (_ =? _); lia. Qed.
Lemma signed_scale_l a x : signed (sign a) (x * mag a) = x * value a.
Proof. unfold signed, value. destruct (_ =? _); lia. Qed.

Lemma sign_product a b : wf a -> wf b -> is_sign (Z.lxor (sign a) (sign b)).
Proof.
  intros Wa Wb. destruct (pre_sign a (wf_pre a Wa)) as [-> | ->], (pre_sign b (wf_pre b Wb)) as [-> | ->]; [by left|by right|by right|by left].
Qed.
Lemma signed_product a b : wf a -> wf b -> signed (Z.lxor (sign a) (sign b)) (mag a * mag b) = value a * value b.
Proof.
  intros Wa Wb. unfold signed, value. destruct (pre_sign a (wf_pre a Wa)) as [-> | ->], (pre_sign b (wf_pre b Wb)) as [-> | ->]; cbv -[Z.mul Z.opp mag]; ring.
Qed.

Lemma copy_gives a c : wf a -> pre c -> gives (pstm_copy a c) (value a).
Proof. intros Wa Pc. destruct (copy_spec a c Wa Pc) as (r & E & W & M & S & _). exists r. split; [done|]. split; [done|]. unfold value. by rewrite M, S. Qed.
Lemma init_copy_gives a toSqr : wf a -> gives (pstm_init_copy a toSqr) (value a).
Proof. intros Wa. destruct (init_copy_spec a toSqr Wa) as (r & E & W & M & S & _). exists r. split; [done|]. split; [done|]. unfold value. by rewrite M, S. Qed.
Lemma clamp_gives c : pre c -> gives (pstm_clamp c) (value c).
Proof.
  intros Pc. destruct (clamp_spec c Pc) as (r & E & W & M & _ & _ & S & _). exists r. split; [done|]. split; [done|]. unfold value. rewrite M.
  destruct (Z.eq_dec (mag c) 0) as [H|H]; [rewrite H; by destruct (_ =? _), (_ =? _)|by rewrite (S H)].
Qed.
Lemma lshd_gives a n : wf a -> value a <> 0 -> gives (pstm_lshd a n) (value a * B ^ Z.of_nat n).
Proof.
  intros Wa Hv. destruct (lshd_spec a n (wf_pre _ Wa)) as (r & E & _ & M & S & _ & _ & W). exists r. split; [done|].
  assert (mag a <> 0) as Hm by (intros H; apply Hv; unfold value; rewrite H; by destruct (_ =? _)).
  split; [by apply W|]. rewrite <- signed_scale. unfold value, signed. by rewrite M, S.
Qed.

(** Claim C37.  Signed arithmetic on well-formed numbers of up to 2000 digits, with a
    spare digit in each array, of any signs and whatever the output held before:
    the result is well formed (all digits are below 2^32, the digits that are not
    in use are zero, the leading one is not, and zero is positive) and has the
    right value.  This is shown of copies, of setting to a digit and to a power of
    two, of the products with 2, with 2^k for k < 32, with a digit and of two
    numbers, of the square (whose sign is the one that the output had), of shifts
    by digits, and of the quotient of a non-negative number by 2^k.  Sums and
    differences are always well formed; their value is right when the magnitudes
    are added, and when they are subtracted and the lengths differ by at most one
    digit.  Division, reduction and exponentiation have theorems of their own. *)
Theorem operations_correct a b c k n w z : wf a -> wf b -> pre c -> (used a < alloc a)%nat -> (used b < alloc b)%nat ->
  Z.of_nat (used a) < 2000 -> Z.of_nat (used b) < 2000 -> (k < 32)%nat -> is_u32 w -> (1 <= alloc c)%nat -> 0 <= z < 2 ^ 16 ->
  (gives (pstm_copy a c) (value a) /\ gives (pstm_init_copy a true) (value a) /\ gives (pstm_clamp c) (value c) /\ gives (pstm_set c w) w /\
   gives (pstm_2expt c z) (2 ^ z)) /\
  (gives (pstm_mul_2 a c) (2 * value a) /\ gives (pstm_mul_2d a k c) (value a * 2 ^ Z.of_nat k) /\ gives (pstm_mul_d a w c) (value a * w) /\
   gives (pstm_mul_comba a b c) (value a * value b) /\ gives (pstm_sqr_comba a c) (signed (sign c) (mag a * mag a))) /\
  (gives (pstm_rshd a n) (signed (sign a) (mag a / B ^ Z.of_nat n)) /\ (value a <> 0 -> gives (pstm_lshd a n) (value a * B ^ Z.of_nat n)) /\
   (sign a = PSTM_ZPOS -> exists q, pstm_div_2d a k c None = Okay (q, None) /\ wf q /\ value q = value a / 2 ^ Z.of_nat k)) /\
  (returns_wf (pstm_add a b c) /\ returns_wf (pstm_sub a b c)) /\
  (sign a = sign b \/ close a b -> gives (pstm_add a b c) (value a + value b)) /\
  (sign a <> sign b \/ close a b -> gives (pstm_sub a b c) (value a - value b)).
Proof.
  intros Wa Wb Pc Ra Rb Ua Ub Hk Hw Hc Hz. pose proof (pre_sign a (wf_pre a Wa)) as Sa. split; [|split; [|split; [|split; [|split]]]].
  - split; [by apply copy_gives|]. split; [by apply init_copy_gives|]. split; [by apply clamp_gives|].
    split; [eapply computes_gives; [by apply set_spec|by left|done]|]. eapply computes_gives; [apply two_expt_spec; [lia|Z.div_mod_to_equations; lia]|by left|done].
  - split; [eapply computes_gives; [apply mul_2_spec; [done|done|lia]|done|apply signed_scale_l]|].
    split; [destruct (mul_2d_spec a k c Wa Pc Hk ltac:(lia)) as (m & C & _); eapply computes_gives; [exact C|done|apply signed_scale]|].
    split; [eapply computes_gives; [apply mul_d_spec; [apply Wa|done|done|lia]|done|apply signed_scale]|].
    split; [eapply computes_gives; [apply mul_comba_spec; [done|done|done|lia]|by apply sign_product|by apply signed_product]|].
    eapply computes_gives; [apply sqr_comba_spec; [done|done|lia]|apply Pc|done].
  - split; [eapply computes_gives; [by apply rshd_spec|done|done]|]. split; [by apply lshd_gives|]. intros Hs.
    destruct (div_2d_spec a k c Wa Pc Hs) as (q & E & W & M & S & _). exists q. split; [done|]. split; [done|]. by rewrite !value_nonneg, M.
  - by apply sub_any.
  - by apply add_gives.
  - by apply sub_gives.
Qed.

Lemma operations_correct_witness :
  gives (pstm_add (num [1; 2]) (num [7]) pstm_init) (mag (num [1; 2]) + 7) /\ gives (pstm_sub (num [7]) (num [1; 2]) pstm_init) (7 - mag (num [1; 2])) /\
  gives (pstm_mul_comba (num [1; 2]) (num [7]) pstm_init) (mag (num [1; 2]) * 7).
Proof.
  assert (forall l, wfb (num l) = true -> wf (num l) /\ (used (num l) < alloc (num l))%nat) as W.
  { intros l H. split; [by apply wfb_wf|]. unfold alloc, num. cbn [used dp]. rewrite length_app. cbn. lia. }
  destruct (W [1; 2] eq_refl) as [W1 R1], (W [7] eq_refl) as [W2 R2].
  destruct (operations_correct (num [1; 2]) (num [7]) pstm_init 3 1 5 40 W1 W2) as (_ & (_ & _ & _ & M & _) & _ & _ & A & _);
    [by apply wf_pre, wfb_wf|done|done|done|done|lia|done|unfold alloc; cbn; lia|lia|].
  destruct (operations_correct (num [7]) (num [1; 2]) pstm_init 3 1 5 40 W2 W1) as (_ & _ & _ & _ & _ & S);
    [by apply wf_pre, wfb_wf|done|done|done|done|lia|done|unfold alloc; cbn; lia|lia|].
  split; [by apply A; left|]. split; [by apply S; right; unfold close; cbn; lia|exact M].
Defined.

(** ** Division *)

(** Claim C36.  Division of non-negative numbers always ends, with the quotient and
    the remainder, whenever no partial remainder is within a digit of the divisor
    (the condition [borrows_short]): the first loop needs at most four rounds and the
    loop that lowers a trial digit at most five, and every access stays within the
    arrays.  Either output may be left out. *)
Theorem division_correct a b c d : wf a -> wf b -> sign a = PSTM_ZPOS -> sign b = PSTM_ZPOS -> 0 < mag b ->
  (2 <= alloc a)%nat -> Z.of_nat (used a) < 4000 -> opt_pre c -> opt_pre d ->
  borrows_short (used a) (mag a) (mag b) = true ->
  exists c' d', pstm_div a b c d = Okay (c', d') /\ delivers c c' (mag a / mag b) /\ delivers d d' (mag a mod mag b).
Proof. apply div_spec. Qed.

Lemma division_correct_witness :
  exists c' d', pstm_div (num [1; 2; 3; 4; 5]) (num [7; 4000000000]) None (Some pstm_init) = Okay (c', d') /\
    delivers None c' (mag (num [1; 2; 3; 4; 5]) / mag (num [7; 4000000000])) /\
    delivers (Some pstm_init) d' (mag (num [1; 2; 3; 4; 5]) mod mag (num [7; 4000000000])).
Proof.
  apply (division_correct (num [1; 2; 3; 4; 5]) (num [7; 4000000000]) None (Some pstm_init));
    [by apply wfb_wf|by apply wfb_wf|done|done|done|unfold alloc; cbn; lia|done|done|by apply wf_pre, wfb_wf|by vm_compute].
Defined.

(** The dividend of the example: five times the divisor times 2^64, minus one. *)
Definition borrow_divisor : pstm_int := num [1; 0; 1073741824].
Definition borrow_dividend : pstm_int := num [4294967295; 4294967295; 4; 0; 1073741824; 1].

(**  Without that condition the arithmetic is wrong.  A borrow that has to pass
    two digits beyond the end of the subtrahend is lost: 2^64 minus any non-zero digit
    [y] comes out as 3 * 2^64 - y.  Division runs into it when it adds the divisor back:
    of 5 * b * 2^64 - 1 divided by b = 2^94 + 1 both quotient and remainder are wrong. *)
Theorem long_borrow_wrong y : 0 < y < B ->
  (exists r, s_pstm_sub (num [0; 0; 1]) (num [y]) pstm_init = Okay r /\ mag r = 3 * B ^ 2 - y /\
             mag (num [0; 0; 1]) - mag (num [y]) = B ^ 2 - y) /\
  (exists q r, pstm_div borrow_dividend borrow_divisor (Some pstm_init) (Some pstm_init) = Okay (Some q, Some r) /\
     mag borrow_dividend = 5 * mag borrow_divisor * B ^ 2 - 1 /\
     mag q <> mag borrow_dividend / mag borrow_divisor /\ mag r <> mag borrow_dividend mod mag borrow_divisor).
Proof.
  intros Hy. split.
  - assert (sub_loop [0; 0; 1] [y] 0 = [B - y; B - 1; 2]) as E.
    { cbn [sub_loop sub_rest]. rewrite Z.add_0_r, Z.sub_0_l. unfold u64. rewrite (Z.mod_opp_l_nz y) by (rewrite ?Z.mod_small; unfold B in *; lia).
      rewrite (Z.mod_small y) by (unfold B in *; lia). unfold DIGIT_BIT.
      assert (Z.shiftr (2 ^ 64 - y) 32 = 2 ^ 32 - 1) as ->.
      { rewrite Z.shiftr_div_pow2 by lia. symmetry. apply Z.div_unique_pos with (B - y); unfold B in *; lia. }
      assert (u32 (2 ^ 64 - y) = B - y) as ->; [|done].
      unfold u32. symmetry. apply Z.mod_unique_pos with (2 ^ 32 - 1); unfold B in *; lia. }
    unfold s_pstm_sub. cbn [num used length Nat.ltb Nat.leb]. change (alloc pstm_init <? 3)%nat with false. cbn match.
    change (digits (num [0; 0; 1])) with (Okay [0; 0; 1]). change (digits (num [y])) with (Okay [y]). cbn [mbind ret_bind]. rewrite E.
    exists {| used := 3; sign := PSTM_ZPOS; dp := [B - y; B - 1; 2] ++ replicate 61 0 |}. split; [reflexivity|].
    unfold mag. cbn [dp num app dval]. rewrite dval_replicate. change (B ^ 2) with (B * B).
    split; ring.
  - eexists _, _. split; [vm_compute; reflexivity|]. by vm_compute.
Qed.

Lemma long_borrow_wrong_witness :
  (exists r, s_pstm_sub (num [0; 0; 1]) (num [1]) pstm_init = Okay r /\ mag r = 3 * B ^ 2 - 1 /\
             mag (num [0; 0; 1]) - mag (num [1]) = B ^ 2 - 1) /\
  (exists q r, pstm_div borrow_dividend borrow_divisor (Some pstm_init) (Some pstm_init) = Okay (Some q, Some r) /\
     mag borrow_dividend = 5 * mag borrow_divisor * B ^ 2 - 1 /\
     mag q <> mag borrow_dividend / mag borrow_divisor /\ mag r <> mag borrow_dividend mod mag borrow_divisor).
Proof. apply (long_borrow_wrong 1). done. Defined.

(** ** Exponentiation *)

(** Claim C34.  The sliding-window Montgomery exponentiation computes the power: for an
    odd modulus [P] above one, a base below it and any exponent, [pstm_exptmod] returns
    G^X mod P and stays within its arrays, provided that the division that brings the
    base into Montgomery form is exact and that this form is at most two digits shorter
    than the modulus ([base_ok]), since its length sets the size of the scratch array. *)
Theorem exptmod_correct G X P Y : wf G -> wf X -> wf P -> pre Y -> sign G = PSTM_ZPOS -> sign P = PSTM_ZPOS ->
  mag P mod 2 = 1 -> 1 < mag P -> mag G < mag P -> Z.of_nat (used P) < 1999 -> (used P + 1 <= alloc P)%nat ->
  base_ok (used P) (mag G) (mag P) = true ->
  exists r, pstm_exptmod G X P Y = Okay r /\ wf r /\ value r = mag G ^ mag X mod mag P.
Proof.
  intros. destruct (exptmod_spec G X P Y) as (r & E & W & S & M); [done..|]. exists r. split; [done|]. split; [done|].
  rewrite value_nonneg; done.
Qed.

Lemma exptmod_correct_witness :
  exists r, pstm_exptmod (num [17; 4]) (num [65537]) (num [7; 8; 9; 10]) pstm_init = Okay r /\ wf r /\
    value r = mag (num [17; 4]) ^ mag (num [65537]) mod mag (num [7; 8; 9; 10]).
Proof.
  apply (exptmod_correct (num [17; 4]) (num [65537]) (num [7; 8; 9; 10]) pstm_init);
    [by apply wfb_wf|by apply wfb_wf|by apply wfb_wf|by apply wf_pre, wfb_wf|done|done|done|done|done|done|unfold alloc; cbn; lia|
     by vm_compute].
Defined.

(** The scratch array is too small when the Montgomery form of the base is short:
    for P = 2^192 + 1 the base 2^160 has the form 1, and the reduction writes past
    the end of the array. *)
Lemma exptmod_overflows :
  pstm_exptmod (num [0; 0; 0; 0; 0; 1]) (num [3]) (num [1; 0; 0; 0; 0; 0; 1]) pstm_init = Crash /\
  (mag (num [0; 0; 0; 0; 0; 1]) * B ^ 7) mod mag (num [1; 0; 0; 0; 0; 0; 1]) = 1.
Proof. by vm_compute. Qed.

(** ** RSA *)

(** Claim C35.  Encryption with a public key on the inputs where the arithmetic of the
    code is exact: the modulus N is odd and positive, of less than 1999 digits, with a
    spare digit in its array; the key size is the number of bytes of N (with a larger
    one the output is overrun); the input leaves room for eight bytes of padding; and
    [base_ok] holds of the padded block: the division that brings it into Montgomery
    form meets no long borrow, on which subtraction is wrong, and this form is at most
    two digits shorter than N, without which the scratch array is overrun.  Then the
    output is the number of that many bytes, most significant first, that is the e-th
    power modulo N of the block 0, 2, non-zero random bytes, 0, input; the memory behind
    it is unchanged.  The random source is any function that gives the requested number
    of bytes. *)
Theorem rsa_encrypt_correct random key inp out outlen : (forall n, length (random n) = n /\ bytes_ok (random n)) ->
  wf (N key) -> wf (e key) -> sign (N key) = PSTM_ZPOS -> mag (N key) mod 2 = 1 -> size key = nbytes (mag (N key)) ->
  Z.of_nat (used (N key)) < 1999 -> (used (N key) + 1 <= alloc (N key))%nat -> bytes_ok inp -> bytes_ok out ->
  (length inp + 11 <= size key)%nat -> (size key <= outlen <= length out)%nat ->
  base_ok (used (N key)) (be_val (block random inp (size key))) (mag (N key)) = true ->
  exists cipher, psRsaEncryptPub random key inp out outlen = Okay (cipher ++ drop (size key) out, size key) /\
    length cipher = size key /\ bytes_ok cipher /\
    be_val cipher = be_val (block random inp (size key)) ^ mag (e key) mod mag (N key).
Proof.
  intros HR WN We SN Ho Hs Hu Ha Hi Hout Hl Hol Hb. eexists. split; [by apply encrypt_spec|].
  split; [apply length_be_bytes|]. split; [apply be_bytes_ok|]. apply be_val_be_bytes.
  pose proof (mag_lt (N key) (wf_pre _ WN)) as [HN _].
  assert (0 < mag (N key)) by (destruct (Z.eq_dec (mag (N key)) 0) as [E|]; [by rewrite E in Ho|lia]).
  pose proof (Z.mod_pos_bound (be_val (block random inp (size key)) ^ mag (e key)) (mag (N key)) ltac:(lia)).
  pose proof (nbytes_range (mag (N key)) HN) as Hn. rewrite <- Hs in Hn. set (v := _ mod _) in *. clearbody v. lia.
Qed.

(** A key of 16 bytes and a source of random bytes. *)
Definition some_key : psRsaKey_t :=
  {| e := num [65537]; d := num []; N := num [123456789; 987654321; 192837465; 4019283746]; qP := num []; dP := num [];
     dQ := num []; p := num []; q := num []; size := 16; optimized := false |}.
Definition some_random (n : nat) : bytes := replicate n 171.

Lemma rsa_encrypt_correct_witness :
  exists cipher, psRsaEncryptPub some_random some_key [3; 3; 42] (replicate 20 0) 18 = Okay (cipher ++ drop 16 (replicate 20 0), 16%nat) /\
    length cipher = 16%nat /\ bytes_ok cipher /\
    be_val cipher = be_val (block some_random [3; 3; 42] 16) ^ mag (num [65537]) mod mag (N some_key).
Proof.
  apply (rsa_encrypt_correct some_random some_key [3; 3; 42] (replicate 20 0) 18).
  - intros n. unfold some_random. split; [apply length_replicate|]. by apply Forall_replicate.
  - by apply wfb_wf.
  - by apply wfb_wf.
  - done.
  - done.
  - by vm_compute.
  - done.
  - unfold alloc. cbn. lia.
  - by repeat constructor.
  - by apply Forall_replicate.
  - cbn. lia.
  - cbn. lia.
  - by vm_compute.
Defined.
