(* ===== verification/HashStream.v ===== *)
(** * Buffered hashing (the loops shared by MD5, SHA-1, SHA-2 in src/busybox/libbb/hash_md5_sha.c)

    A hash context keeps a block buffer, the number of bytes hashed and the
    chaining value.  Data is copied into the buffer, and whenever the buffer is
    full it is processed.  The loops are the same for all algorithms but for the
    size of a block and of the length field, so they are defined once.  What
    they compute is stated against the standard's definition: pad the message,
    split it into blocks, fold the compression function over them. *)

From S2P Require Import Prelude.

Module HashStream.

(** ** Definitions *)

(** [memcpy(buf + i, d, length d)] *)
Definition copy_into (buf : bytes) (i : nat) (d : bytes) : bytes :=
  take i buf ++ d ++ drop (i + length d) buf.

Lemma length_copy_into buf i d : (i + length d <= length buf)%nat -> length (copy_into buf i d) = length buf.
Proof. intros H. unfold copy_into. rewrite !length_app, length_take, length_drop. lia. Qed.

Section loops.
(** The block size, the size of the length field, and the compression function. *)
Context (bs ls : nat) (process : list Z -> bytes -> list Z).

(** The loop of md5_hash and sha512_hash; every round but the last one takes at
    least a byte of the input. *)
Fixpoint hash_loop (fuel : nat) (wbuffer : bytes) (bufpos : nat) (hash : list Z) (buffer : bytes) : bytes * list Z :=
  match fuel with
  | O => (wbuffer, hash)
  | S f =>
      let remaining := ((bs - bufpos) `min` length buffer)%nat in
      let wbuffer := copy_into wbuffer bufpos (take remaining buffer) in
      let buffer := drop remaining buffer in
      let bufpos := (bufpos + remaining)%nat in
      if (bufpos =? bs)%nat then hash_loop f wbuffer 0 (process hash wbuffer) buffer else (wbuffer, hash)
  end.

(** The loop of common64_end and sha512_end, which runs once or twice. *)
Fixpoint end_loop (fuel : nat) (wbuffer : bytes) (bufpos : nat) (hash : list Z) (count : bytes) : bytes * list Z :=
  match fuel with
  | O => (wbuffer, hash)
  | S f =>
      let remaining := (bs - bufpos)%nat in
      let wbuffer := copy_into wbuffer bufpos (replicate remaining 0) in
      let wbuffer := if (ls <=? remaining)%nat then copy_into wbuffer (bs - ls) count else wbuffer in
      let hash := process hash wbuffer in
      if (ls <=? remaining)%nat then (wbuffer, hash) else end_loop f wbuffer 0 hash count
  end.

(** ** The specification *)

(** The [i]-th block of [m]. *)
Definition nth_block (m : bytes) (i : nat) : bytes := take bs (drop (bs * i) m).

(** The compression function folded over the whole blocks of [m]. *)
Definition fold_blocks (h : list Z) (m : bytes) : list Z :=
  fold_left process (nth_block m <$> seq 0 (length m / bs)) h.

(** The message, a one bit, zeros up to the length field, and the length. *)
Definition pad (m count : bytes) : bytes :=
  m ++ [128] ++ replicate ((2 * bs - 1 - ls - length m mod bs) mod bs)%nat 0 ++ count.

(** ** Correctness *)

Hypothesis bs_pos : (0 < bs)%nat.

Lemma fold_blocks_short h m : (length m < bs)%nat -> fold_blocks h m = h.
Proof. intros H. unfold fold_blocks. by rewrite Nat.div_small. Qed.

Lemma fold_blocks_app h m k : (length m mod bs = 0)%nat -> fold_blocks h (m ++ k) = fold_blocks (fold_blocks h m) k.
Proof.
  intros H. unfold fold_blocks. rewrite length_app. apply Nat.Div0.mod_divides in H as [n Hn].
  rewrite Hn, Nat.mul_comm, Nat.div_add_l, Nat.div_mul by lia. rewrite seq_app, fmap_app, fold_left_app.
  assert (nth_block (m ++ k) <$> seq 0 n = nth_block m <$> seq 0 n) as ->.
  { apply list_fmap_ext. intros j i Hj%lookup_seq. unfold nth_block. rewrite drop_app_le, take_app_le; [done|rewrite length_drop|]; nia. }
  assert (nth_block (m ++ k) <$> seq (0 + n) (length k / bs) = nth_block k <$> seq 0 (length k / bs)) as ->; [|done].
  apply list_eq. intros i. rewrite !list_lookup_fmap.
  destruct (decide (i < length k / bs)%nat) as [Hi|Hi].
  - rewrite !lookup_seq_lt by done. cbn. f_equal. unfold nth_block. rewrite drop_app_ge by nia. do 2 f_equal. nia.
  - rewrite !lookup_seq_ge by lia. done.
Qed.

Lemma fold_blocks_one h b : length b = bs -> fold_blocks h b = process h b.
Proof.
  intros H. unfold fold_blocks. rewrite H, Nat.div_same by lia. cbn. unfold nth_block.
  rewrite Nat.mul_0_r, drop_0, take_ge by lia. done.
Qed.

(** The context after the message [m]: the whole blocks are in the chaining
    value, the rest is at the start of the buffer. *)
Record absorbed (h0 : list Z) (m : bytes) (wbuffer : bytes) (hash : list Z) : Prop := {
  ab_len : length wbuffer = bs;
  ab_hash : hash = fold_blocks h0 m;
  ab_rest : take (length m mod bs) wbuffer = drop (bs * (length m / bs)) m }.

Lemma absorbed_nil h0 wbuffer : length wbuffer = bs -> absorbed h0 [] wbuffer h0.
Proof.
  intros H. split; [done|by rewrite fold_blocks_short|]. cbn [length]. rewrite Nat.Div0.mod_0_l, take_0. by rewrite drop_nil.
Qed.

(** The message split before its incomplete block. *)
Lemma message_split (m : bytes) : exists p r, m = p ++ r /\ (length p mod bs = 0)%nat /\ length r = (length m mod bs)%nat /\
  p = take (bs * (length m / bs)) m /\ r = drop (bs * (length m / bs)) m.
Proof.
  exists (take (bs * (length m / bs)) m), (drop (bs * (length m / bs)) m). rewrite take_drop.
  pose proof (Nat.div_mod_eq (length m) bs). rewrite length_take, length_drop, Nat.min_l by lia.
  split; [done|]. split; [by rewrite Nat.mul_comm, Nat.Div0.mod_mul|]. split; [lia|done].
Qed.

Lemma absorbed_split h0 m wbuffer hash : absorbed h0 m wbuffer hash <->
  exists p r, m = p ++ r /\ (length p mod bs = 0)%nat /\ (length r < bs)%nat /\ length wbuffer = bs /\
    hash = fold_blocks h0 p /\ take (length r) wbuffer = r.
Proof.
  split.
  - intros [L H R]. destruct (message_split m) as (p & r & E & Hp & Hr & Ep & Er). exists p, r.
    pose proof (Nat.mod_upper_bound (length m) bs ltac:(lia)).
    split; [done|]. split; [done|]. split; [lia|]. split; [done|]. split; [|rewrite Hr, R; by subst r].
    rewrite H, E, fold_blocks_app, (fold_blocks_short _ r) by (done || lia). done.
  - intros (p & r & -> & Hp & Hr & L & -> & R). apply Nat.Div0.mod_divides in Hp as Hd. destruct Hd as [n Hn].
    split; [done|by rewrite fold_blocks_app, (fold_blocks_short _ r)|]. rewrite length_app, Hn.
    rewrite (Nat.mul_comm bs n), Nat.add_comm, Nat.Div0.mod_add, Nat.div_add by lia. rewrite Nat.mod_small, Nat.div_small by lia.
    rewrite R, Nat.add_0_l, drop_app_ge, Hn by lia. by rewrite Nat.sub_diag.
Qed.

Lemma hash_loop_spec fuel h0 m wbuffer hash buffer : absorbed h0 m wbuffer hash -> (length buffer < fuel)%nat ->
  let '(w, h) := hash_loop fuel wbuffer (length m mod bs) hash buffer in absorbed h0 (m ++ buffer) w h.
Proof.
  revert m wbuffer hash buffer. induction fuel as [|fuel IH]; intros m wbuffer hash buffer Ha Hf; [lia|].
  apply absorbed_split in Ha as (p & r & -> & Hp & Hr & L & Hh & Rr).
  assert (length (p ++ r) mod bs = length r)%nat as El.
  { apply Nat.Div0.mod_divides in Hp as [n Hn]. rewrite length_app, Hn, Nat.add_comm, Nat.mul_comm, Nat.Div0.mod_add. by apply Nat.mod_small. }
  rewrite El. cbn [hash_loop]. remember ((bs - length r) `min` length buffer)%nat as n eqn:Dn.
  assert (length (take n buffer) = n) as Ln by (rewrite length_take; lia).
  assert (take (length r + n) (copy_into wbuffer (length r) (take n buffer)) = r ++ take n buffer) as Et.
  { unfold copy_into. rewrite Rr, app_assoc. apply take_app_length'. rewrite length_app. lia. }
  assert (length (copy_into wbuffer (length r) (take n buffer)) = bs) as Lc by (rewrite length_copy_into; lia).
  destruct (Nat.eqb_spec (length r + n) bs) as [E|E].
  - assert (copy_into wbuffer (length r) (take n buffer) = r ++ take n buffer) as Ec.
    { rewrite <- Et, E. symmetry. apply take_ge. lia. }
    assert (length (r ++ take n buffer) = bs) as Lb by (rewrite length_app; lia).
    assert (0 < n)%nat by lia. rewrite Ec.
    specialize (IH (p ++ (r ++ take n buffer)) (r ++ take n buffer) (process hash (r ++ take n buffer)) (drop n buffer)).
    assert (length (p ++ (r ++ take n buffer)) mod bs = 0)%nat as E0.
    { rewrite length_app, Lb. rewrite <- Nat.Div0.add_mod_idemp_l, Hp, Nat.add_0_l. by apply Nat.Div0.mod_same. }
    rewrite E0 in IH. replace ((p ++ r) ++ buffer) with ((p ++ (r ++ take n buffer)) ++ drop n buffer)
      by (rewrite <- !app_assoc; by rewrite take_drop).
    apply IH; [|rewrite length_drop; lia]. apply absorbed_split. exists (p ++ (r ++ take n buffer)), [].
    rewrite app_nil_r. split; [done|]. split; [done|]. split; [cbn; lia|]. split; [done|]. split; [|done].
    rewrite fold_blocks_app, (fold_blocks_one _ (r ++ take n buffer)) by done. by rewrite Hh.
  - assert (n = length buffer) as En by lia. rewrite En, (take_ge buffer) in * by lia. apply absorbed_split. exists p, (r ++ buffer).
    rewrite app_assoc. split; [done|]. split; [done|]. rewrite length_app. split; [lia|]. split; [done|]. split; [done|]. done.
Qed.

(** The one or two last blocks. *)
Lemma end_loop_spec h0 m wbuffer hash count : absorbed h0 m wbuffer hash -> length count = ls -> (ls + 1 <= bs)%nat ->
  snd (end_loop 2 (copy_into wbuffer (length m mod bs) [128]) (S (length m mod bs)) hash count) = fold_blocks h0 (pad m count).
Proof.
  intros Ha Lc Hls. destruct (message_split m) as (p & r & E & Hp & Hr & Ep & Er). destruct Ha as [L Hh Hrest].
  pose proof (Nat.mod_upper_bound (length m) bs ltac:(lia)) as Hlt. unfold pad. rewrite <- Hr in *. rewrite <- Er in Hrest.
  rewrite E in Hh at 1. rewrite fold_blocks_app, (fold_blocks_short _ r) in Hh by (done || lia).
  rewrite E, <- app_assoc, fold_blocks_app, <- Hh by done. clear E Ep Er Hh Hp Hr.
  assert (forall z n d, length d = n -> (S (length r) + n <= bs)%nat -> z = length r ->
    copy_into (copy_into wbuffer z [128]) (S z) d = r ++ [128] ++ d ++ drop (S (length r) + n) wbuffer) as Ec.
  { intros z n d Ld Hn ->. unfold copy_into. cbn [length]. rewrite Hrest.
    replace (S (length r)) with (length (r ++ [128])) at 1 by (rewrite length_app; cbn; lia).
    rewrite (app_assoc r [128]), take_app_length, <- app_assoc. do 3 f_equal. rewrite drop_app_ge by (rewrite length_app; cbn; lia).
    rewrite drop_drop, length_app. cbn [length]. f_equal. lia. }
  cbn [end_loop snd]. rewrite (Ec _ (bs - S (length r))%nat) by (rewrite ?length_replicate; lia).
  rewrite (drop_ge wbuffer), app_nil_r by lia. set (rem := (bs - S (length r))%nat).
  destruct (Nat.leb_spec ls rem) as [Hfit|Hno].
  - cbn [snd]. rewrite fold_blocks_one.
    + f_equal. unfold copy_into. rewrite !(app_assoc r [128]). rewrite take_app_ge by (rewrite length_app; cbn; lia).
      rewrite take_replicate, drop_app_ge by (rewrite length_app; cbn; lia). rewrite (drop_ge (replicate _ _)) by (rewrite length_replicate, length_app; cbn; lia).
      rewrite app_nil_r, <- app_assoc. do 3 f_equal. rewrite length_app. cbn [length]. f_equal.
      replace (2 * bs - 1 - ls - length r)%nat with (rem - ls + 1 * bs)%nat by lia. rewrite Nat.Div0.mod_add, Nat.mod_small by lia. lia.
    + rewrite !length_app, length_replicate. cbn [length].
      replace (2 * bs - 1 - ls - length r)%nat with (rem - ls + 1 * bs)%nat by lia. rewrite Nat.Div0.mod_add, Nat.mod_small by lia. lia.
  - rewrite Nat.sub_0_r. destruct (Nat.leb_spec ls bs); [|lia]. cbn [snd].
    rewrite Nat.mod_small by lia. replace (2 * bs - 1 - ls - length r)%nat with (rem + (bs - ls))%nat by lia.
    rewrite replicate_add, <- app_assoc. rewrite 2!(app_assoc r), (app_assoc (r ++ _)).
    rewrite fold_blocks_app by (rewrite !length_app, length_replicate; cbn [length]; replace (length r + 1 + rem)%nat with bs by lia; apply Nat.Div0.mod_same).
    rewrite !fold_blocks_one.
    + unfold copy_into. rewrite take_0, length_replicate. cbn [app Nat.add].
      rewrite drop_ge, app_nil_r by (rewrite !length_app, length_replicate; cbn [length]; lia). rewrite take_replicate, drop_ge, app_nil_r by (rewrite length_replicate; lia).
      repeat f_equal. lia.
    + rewrite !length_app, length_replicate. cbn [length]. lia.
    + rewrite !length_app, length_replicate. lia.
Qed.
End loops.

(** Two compression functions that keep a relation between their states. *)
Lemma fold_blocks_sim (bs : nat) (f g : list Z -> bytes -> list Z) (R : list Z -> list Z -> Prop) h h' m :
  (0 < bs)%nat -> bytes_ok m -> R h h' ->
  (forall h h' b, bytes_ok b -> length b = bs -> R h h' -> R (f h b) (g h' b)) ->
  R (fold_blocks bs f h m) (fold_blocks bs g h' m).
Proof.
  intros Hbs Hm HR Hstep. unfold fold_blocks.
  assert (Forall (fun b => bytes_ok b /\ length b = bs) (nth_block bs m <$> seq 0 (length m / bs))) as HF.
  { apply Forall_fmap, Forall_forall. intros i Hi%elem_of_seq. cbn. unfold nth_block.
    split; [auto using bytes_ok_take, bytes_ok_drop|]. rewrite length_take, length_drop.
    pose proof (Nat.Div0.mul_div_le (length m) bs). nia. }
  revert h h' HR. induction HF as [|b l [Hb Hl] _ IH]; intros h h' HR; [done|]. cbn. auto.
Qed.

Lemma pad_ok bs ls m count : bytes_ok m -> bytes_ok count -> bytes_ok (pad bs ls m count).
Proof.
  intros Hm Hc. unfold pad. rewrite !bytes_ok_app. split; [done|]. split; [constructor; [machine|constructor]|].
  split; [|done]. apply Forall_replicate. machine.
Qed.

End HashStream.
