(* ===== verification/HashMd5Sha.v ===== *)
(** * MD5, SHA-1 and SHA-2 (src/busybox/libbb/hash_md5_sha.c)

    The configuration of include/autoconf.h: MD5_SMALL = 1, the compact SHA-1
    (SHA1_SMALL = 3), SHA-512 present, little-endian 64-bit x86 with the SHA-256
    instructions used when the processor has them.  MD5, SHA-1 and SHA-256 share
    one context, whose function pointer [process_block] says which algorithm
    runs; SHA-512 has its own. *)

From S2P Require Import Prelude HashStream.

Module HashMd5Sha.

(** ** Words *)

Definition rotl32 (x : Z) (n : Z) : Z := Z.lor (u32 (Z.shiftl x n)) (Z.shiftr x (32 - n)).
Definition rotr32 (x : Z) (n : Z) : Z := Z.lor (Z.shiftr x n) (u32 (Z.shiftl x (32 - n))).
Definition rotr64 (x : Z) (n : Z) : Z := Z.lor (Z.shiftr x n) (u64 (Z.shiftl x (64 - n))).
Definition rotl64 (x : Z) (n : Z) : Z := Z.lor (u64 (Z.shiftl x n)) (Z.shiftr x (64 - n)).

(** [~x] of a 32-bit and of a 64-bit word. *)
Definition not32 (x : Z) : Z := u32 (Z.lnot x).
Definition not64 (x : Z) : Z := u64 (Z.lnot x).

(** The [i]-th [k]-byte word of memory on a little-endian machine, and the
    reversal of the bytes of a word. *)
Definition word (k : nat) (buf : bytes) (i : nat) : Z := le_val (take k (drop (k * i) buf)).
Definition bb_bswap (k : nat) (x : Z) : Z := be_val (le_bytes k x).

(** ** MD5 *)

Definition C_array : list Z :=
  [ 0xd76aa478; 0xe8c7b756; 0x242070db; 0xc1bdceee;
   0xf57c0faf; 0x4787c62a; 0xa8304613; 0xfd469501;
   0x698098d8; 0x8b44f7af; 0xffff5bb1; 0x895cd7be;
   0x6b901122; 0xfd987193; 0xa679438e; 0x49b40821;
   0xf61e2562; 0xc040b340; 0x265e5a51; 0xe9b6c7aa;
   0xd62f105d; 0x02441453; 0xd8a1e681; 0xe7d3fbc8;
   0x21e1cde6; 0xc33707d6; 0xf4d50d87; 0x455a14ed;
   0xa9e3e905; 0xfcefa3f8; 0x676f02d9; 0x8d2a4c8a;
   0xfffa3942; 0x8771f681; 0x6d9d6122; 0xfde5380c;
   0xa4beea44; 0x4bdecfa9; 0xf6bb4b60; 0xbebfbc70;
   0x289b7ec6; 0xeaa127fa; 0xd4ef3085; 0x04881d05;
   0xd9d4d039; 0xe6db99e5; 0x1fa27cf8; 0xc4ac5665;
   0xf4292244; 0x432aff97; 0xab9423a7; 0xfc93a039;
   0x655b59c3; 0x8f0ccc92; 0xffeff47d; 0x85845dd1;
   0x6fa87e4f; 0xfe2ce6e0; 0xa3014314; 0x4e0811a1;
   0xf7537e82; 0xbd3af235; 0x2ad7d2bb; 0xeb86d391 ].

Definition P_array : list nat :=
  [ 1; 6; 11; 0; 5; 10; 15; 4; 9; 14; 3; 8; 13; 2; 7; 12;
    5; 8; 11; 14; 1; 4; 7; 10; 13; 0; 3; 6; 9; 12; 15; 2;
    0; 7; 14; 5; 12; 3; 10; 1; 8; 15; 6; 13; 4; 11; 2; 9 ]%nat.

Definition FF (b c d : Z) : Z := Z.lxor d (Z.land b (Z.lxor c d)).
Definition FG (b c d : Z) : Z := FF d b c.
Definition FH (b c d : Z) : Z := Z.lxor (Z.lxor b c) d.
Definition FI (b c d : Z) : Z := Z.lxor c (Z.lor b (not32 d)).

(** The macro OP: the new value of [a]. *)
Definition OP (f : Z -> Z -> Z -> Z) (a b c d w s T : Z) : Z :=
  u32 (rotl32 (u32 (a + (f b c d + w + T))) s + b).

Definition quad : Type := Z * Z * Z * Z.

(** One turn of a round's loop: four operations; [pc] is the position in
    [C_array], [w j] the word the [j]-th of them uses. *)
Definition md5_turn (f : Z -> Z -> Z -> Z) (s0 s1 s2 s3 : Z) (w : nat -> Z) (pc : nat) (q : quad) : quad :=
  let '(A, B, C, D) := q in
  let A := OP f A B C D (w 0%nat) s0 (C_array !!! pc) in
  let D := OP f D A B C (w 1%nat) s1 (C_array !!! (pc + 1)%nat) in
  let C := OP f C D A B (w 2%nat) s2 (C_array !!! (pc + 2)%nat) in
  let B := OP f B C D A (w 3%nat) s3 (C_array !!! (pc + 3)%nat) in
  (A, B, C, D).

Definition md5_rounds (words : nat -> Z) (q : quad) : quad :=
  let q := fold_left (fun q i => md5_turn FF 7 12 17 22 (fun j => words (4 * i + j)%nat) (4 * i) q) (seq 0 4) q in
  let pp := fun i j => words (P_array !!! (4 * i + j)%nat) in
  let q := fold_left (fun q i => md5_turn FG 5 9 14 20 (pp i) (16 + 4 * i) q) (seq 0 4) q in
  let q := fold_left (fun q i => md5_turn FH 4 11 16 23 (pp (4 + i)%nat) (32 + 4 * i) q) (seq 0 4) q in
  fold_left (fun q i => md5_turn FI 6 10 15 21 (pp (8 + i)%nat) (48 + 4 * i) q) (seq 0 4) q.

(** The words of [hash] that a block function adds its result to. *)
Definition add_words (m : Z -> Z) (hash vs : list Z) : list Z :=
  zip_with (fun h v => m (h + v)) hash vs ++ drop (length vs) hash.

Definition md5_process_block64 (hash : list Z) (wbuffer : bytes) : list Z :=
  let '(A, B, C, D) := md5_rounds (word 4 wbuffer) (hash !!! 0%nat, hash !!! 1%nat, hash !!! 2%nat, hash !!! 3%nat) in
  add_words u32 hash [A; B; C; D].

(** ** SHA-1 *)

Definition rconsts : list Z := [0x5A827999; 0x6ED9EBA1; 0x8F1BBCDC; 0xCA62C1D6].

(** The local variables of the main loop: the circular buffer, stored twice, the
    position in it and the five working words. *)
Record sha1_locals := Sha1Locals { sW : list Z; sn : nat; sa : Z; sb : Z; sc : Z; sd : Z; se : Z }.

(** [W[n] = W[n+16] = v] *)
Definition put_twice (W : list Z) (n : nat) (v : Z) : list Z := <[n := v]> (<[(n + 16)%nat := v]> W).

(** One turn of the inner loop, for the values [i] and [j] of the counters. *)
Definition sha1_turn (i j : nat) (s : sha1_locals) : sha1_locals :=
  let (W, n, a, b, c, d, e) := s in
  let work := Z.lxor c d in
  let work := match i with
              | 0%nat => Z.lxor (Z.land work b) d
              | 2%nat => Z.lor (Z.land (Z.lor b c) d) (Z.land b c)
              | _ => Z.lxor work b
              end in
  let W := if (i =? 0)%nat && negb (j <=? 3)%nat then W
           else put_twice W n (rotl32 (Z.lxor (Z.lxor (Z.lxor (W !!! (n + 13)%nat) (W !!! (n + 8)%nat)) (W !!! (n + 2)%nat)) (W !!! n)) 1) in
  let work := u32 (work + (W !!! n)) in
  let work := u32 (work + (e + rotl32 a 5 + (rconsts !!! i))) in
  Sha1Locals W (Nat.land (n + 1) 15) work a (rotl32 b 30) c d.

Definition sha1_process_block64 (hash : list Z) (wbuffer : bytes) : list Z :=
  let W := fold_left (fun W i => put_twice W i (bb_bswap 4 (word 4 wbuffer i))) (seq 0 16) (replicate 32 0) in
  let s := Sha1Locals W 0 (hash !!! 0%nat) (hash !!! 1%nat) (hash !!! 2%nat) (hash !!! 3%nat) (hash !!! 4%nat) in
  let s := fold_left (fun s i => fold_left (fun s j => sha1_turn i j s) (rev (seq 0 20)) s) (seq 0 4) s in
  add_words u32 hash [sa s; sb s; sc s; sd s; se s].

(** ** SHA-256 and SHA-512 *)

Definition sha_K : list Z :=
  [ 0x428a2f98d728ae22; 0x7137449123ef65cd;
   0xb5c0fbcfec4d3b2f; 0xe9b5dba58189dbbc;
   0x3956c25bf348b538; 0x59f111f1b605d019;
   0x923f82a4af194f9b; 0xab1c5ed5da6d8118;
   0xd807aa98a3030242; 0x12835b0145706fbe;
   0x243185be4ee4b28c; 0x550c7dc3d5ffb4e2;
   0x72be5d74f27b896f; 0x80deb1fe3b1696b1;
   0x9bdc06a725c71235; 0xc19bf174cf692694;
   0xe49b69c19ef14ad2; 0xefbe4786384f25e3;
   0x0fc19dc68b8cd5b5; 0x240ca1cc77ac9c65;
   0x2de92c6f592b0275; 0x4a7484aa6ea6e483;
   0x5cb0a9dcbd41fbd4; 0x76f988da831153b5;
   0x983e5152ee66dfab; 0xa831c66d2db43210;
   0xb00327c898fb213f; 0xbf597fc7beef0ee4;
   0xc6e00bf33da88fc2; 0xd5a79147930aa725;
   0x06ca6351e003826f; 0x142929670a0e6e70;
   0x27b70a8546d22ffc; 0x2e1b21385c26c926;
   0x4d2c6dfc5ac42aed; 0x53380d139d95b3df;
   0x650a73548baf63de; 0x766a0abb3c77b2a8;
   0x81c2c92e47edaee6; 0x92722c851482353b;
   0xa2bfe8a14cf10364; 0xa81a664bbc423001;
   0xc24b8b70d0f89791; 0xc76c51a30654be30;
   0xd192e819d6ef5218; 0xd69906245565a910;
   0xf40e35855771202a; 0x106aa07032bbd1b8;
   0x19a4c116b8d2d0c8; 0x1e376c085141ab53;
   0x2748774cdf8eeb99; 0x34b0bcb5e19b48a8;
   0x391c0cb3c5c95a63; 0x4ed8aa4ae3418acb;
   0x5b9cca4f7763e373; 0x682e6ff3d6b2b8a3;
   0x748f82ee5defb2fc; 0x78a5636f43172f60;
   0x84c87814a1f0ab72; 0x8cc702081a6439ec;
   0x90befffa23631e28; 0xa4506cebde82bde9;
   0xbef9a3f7b2c67915; 0xc67178f2e372532b;
   0xca273eceea26619c; 0xd186b8c721c0c207;
   0xeada7dd6cde0eb1e; 0xf57d4f7fee6ed178;
   0x06f067aa72176fba; 0x0a637dc5a2c898a6;
   0x113f9804bef90dae; 0x1b710b35131c471b;
   0x28db77f523047d84; 0x32caab7b40c72493;
   0x3c9ebe0a15c9bebc; 0x431d67c49c100d4c;
   0x4cc5d4becb3e42b6; 0x597f299cfc657e2a;
   0x5fcb6fab3ad6faec; 0x6c44198c4a475817 ].

Definition Ch (nt : Z -> Z) (x y z : Z) : Z := Z.lxor (Z.land x y) (Z.land (nt x) z).
Definition Maj (x y z : Z) : Z := Z.lxor (Z.lxor (Z.land x y) (Z.land x z)) (Z.land y z).

(** The two functions below differ in the width and the macros S0, S1, R0, R1 only. *)
Record sha2_ops := Sha2Ops { m2 : Z -> Z; not2 : Z -> Z; S0 : Z -> Z; S1 : Z -> Z; R0 : Z -> Z; R1 : Z -> Z }.

Definition sha256_ops : sha2_ops := Sha2Ops u32 not32
  (fun x => Z.lxor (Z.lxor (rotr32 x 2) (rotr32 x 13)) (rotr32 x 22))
  (fun x => Z.lxor (Z.lxor (rotr32 x 6) (rotr32 x 11)) (rotr32 x 25))
  (fun x => Z.lxor (Z.lxor (rotr32 x 7) (rotr32 x 18)) (Z.shiftr x 3))
  (fun x => Z.lxor (Z.lxor (rotr32 x 17) (rotr32 x 19)) (Z.shiftr x 10)).

Definition sha512_ops : sha2_ops := Sha2Ops u64 not64
  (fun x => Z.lxor (Z.lxor (rotr64 x 28) (rotr64 x 34)) (rotr64 x 39))
  (fun x => Z.lxor (Z.lxor (rotr64 x 14) (rotr64 x 18)) (rotr64 x 41))
  (fun x => Z.lxor (Z.lxor (rotr64 x 1) (rotr64 x 8)) (Z.shiftr x 7))
  (fun x => Z.lxor (Z.lxor (rotr64 x 19) (rotr64 x 61)) (Z.shiftr x 6)).

Record octet := Octet { va : Z; vb : Z; vc : Z; vd : Z; ve : Z; vf : Z; vg : Z; vh : Z }.

(** The array [W] of [n] words: the block's, then the computed ones. *)
Definition sha2_schedule (o : sha2_ops) (n : nat) (words : nat -> Z) : list Z :=
  let W := fold_left (fun W t => <[t := words t]> W) (seq 0 16) (replicate n 0) in
  fold_left (fun W t => <[t := m2 o (R1 o (W !!! (t - 2)%nat) + (W !!! (t - 7)%nat) + R0 o (W !!! (t - 15)%nat) + (W !!! (t - 16)%nat))]> W)
    (seq 16 (n - 16)) W.

Definition sha2_turn (o : sha2_ops) (K_t W_t : Z) (s : octet) : octet :=
  let (a, b, c, d, e, f, g, h) := s in
  let T1 := m2 o (h + S1 o e + Ch (not2 o) e f g + K_t + W_t) in
  let T2 := m2 o (S0 o a + Maj a b c) in
  Octet (m2 o (T1 + T2)) a b c (m2 o (d + T1)) e f g.

Definition load_octet (h : list Z) : octet :=
  Octet (h !!! 0%nat) (h !!! 1%nat) (h !!! 2%nat) (h !!! 3%nat) (h !!! 4%nat) (h !!! 5%nat) (h !!! 6%nat) (h !!! 7%nat).
Definition octet_list (s : octet) : list Z := [va s; vb s; vc s; vd s; ve s; vf s; vg s; vh s].

Definition sha256_process_block64 (hash : list Z) (wbuffer : bytes) : list Z :=
  let W := sha2_schedule sha256_ops 64 (fun t => bb_bswap 4 (word 4 wbuffer t)) in
  let s := fold_left (fun s t => sha2_turn sha256_ops (u32 (Z.shiftr (sha_K !!! t) 32)) (W !!! t) s) (seq 0 64) (load_octet hash) in
  add_words u32 hash (octet_list s).

Definition sha512_process_block128 (hash : list Z) (wbuffer : bytes) : list Z :=
  let W := sha2_schedule sha512_ops 80 (fun t => bb_bswap 8 (word 8 wbuffer t)) in
  let s := fold_left (fun s t => sha2_turn sha512_ops (sha_K !!! t) (W !!! t) s) (seq 0 80) (load_octet hash) in
  add_words u64 hash (octet_list s).

(** ** The contexts *)

(** The values of the pointer [process_block]. *)
Inductive block_fn := Md5Block | Sha1Block | Sha256Block | Sha256NiBlock.

Record md5_ctx_t := Md5Ctx { wbuffer : bytes; process_block : block_fn; total64 : Z; hash : list Z }.

Section context.
(** The assembler version of the SHA-256 block function. *)
Context (sha256_process_block64_shaNI : list Z -> bytes -> list Z).

Definition call_block (f : block_fn) : list Z -> bytes -> list Z :=
  match f with
  | Md5Block => md5_process_block64
  | Sha1Block => sha1_process_block64
  | Sha256Block => sha256_process_block64
  | Sha256NiBlock => sha256_process_block64_shaNI
  end.

(** Copies [buffer] into the context, processing every full block. *)
Definition md5_hash (ctx : md5_ctx_t) (buffer : bytes) : md5_ctx_t :=
  let bufpos := Z.to_nat (Z.land (total64 ctx) 63) in
  let '(w, h) := HashStream.hash_loop 64 (call_block (process_block ctx)) (S (length buffer)) (wbuffer ctx) bufpos (hash ctx) buffer in
  Md5Ctx w (process_block ctx) (u64 (total64 ctx + Z.of_nat (length buffer))) h.

Definition common64_end (ctx : md5_ctx_t) (swap_needed : bool) : md5_ctx_t :=
  let bufpos := Z.to_nat (Z.land (total64 ctx) 63) in
  let t := u64 (Z.shiftl (total64 ctx) 3) in
  let t := if swap_needed then bb_bswap 8 t else t in
  let '(w, h) := HashStream.end_loop 64 8 (call_block (process_block ctx)) 2
                   (HashStream.copy_into (wbuffer ctx) bufpos [128]) (S bufpos) (hash ctx) (le_bytes 8 t) in
  Md5Ctx w (process_block ctx) (total64 ctx) h.

Definition md5_begin (ctx : md5_ctx_t) : md5_ctx_t :=
  Md5Ctx (wbuffer ctx) Md5Block 0 ([0x67452301; 0xefcdab89; 0x98badcfe; 0x10325476] ++ drop 4 (hash ctx)).

(** Each function that ends a hash gives the context left and the digest. *)
Definition md5_end (ctx : md5_ctx_t) : md5_ctx_t * bytes :=
  let ctx := common64_end ctx false in
  (ctx, concat (le_bytes 4 <$> take 4 (hash ctx))).

Definition sha1_begin (ctx : md5_ctx_t) : md5_ctx_t :=
  Md5Ctx (wbuffer ctx) Sha1Block 0 ([0x67452301; 0xefcdab89; 0x98badcfe; 0x10325476; 0xc3d2e1f0] ++ drop 5 (hash ctx)).

Definition init256 : list Z :=
  [0; 0; 0x6a09e667; 0xbb67ae85; 0x3c6ef372; 0xa54ff53a; 0x510e527f; 0x9b05688c; 0x1f83d9ab; 0x5be0cd19].

Definition init512_lo : list Z :=
  [0; 0; 0xf3bcc908; 0x84caa73b; 0xfe94f82b; 0x5f1d36f1; 0xade682d1; 0x2b3e6c1f; 0xfb41bd6b; 0x137e2179].

(** [cpuid_ebx] is the register after the cpuid instruction for leaf 7, 0: bit
    29 becomes 1 or -1.  The cached value is what [shaNI] holds, 0 at first. *)
Definition get_shaNI (cpuid_ebx : Z) : Z := i32 (u32 (Z.land (Z.shiftr cpuid_ebx 28) 2 - 1)).

Definition sha256_begin (shaNI cpuid_ebx : Z) (ctx : md5_ctx_t) : md5_ctx_t * Z :=
  let ni := if shaNI =? 0 then get_shaNI cpuid_ebx else shaNI in
  (Md5Ctx (wbuffer ctx) (if 0 <? ni then Sha256NiBlock else Sha256Block)
     ((init256 !!! 0%nat) + 2 ^ 32 * (init256 !!! 1%nat)) (drop 2 init256), ni).

(** Also sha256_end: the block function tells which of the two it is. *)
Definition sha1_end (ctx : md5_ctx_t) : md5_ctx_t * bytes :=
  let ctx := common64_end ctx true in
  let hash_size := match process_block ctx with Sha1Block => 5 | _ => 8 end%nat in
  let h := (bb_bswap 4 <$> take hash_size (hash ctx)) ++ drop hash_size (hash ctx) in
  (Md5Ctx (wbuffer ctx) (process_block ctx) (total64 ctx) h, concat (le_bytes 4 <$> take hash_size h)).
End context.

Record sha512_ctx_t := Sha512Ctx { total64_0 : Z; total64_1 : Z; hash512 : list Z; wbuffer512 : bytes }.

(** The loop writes both counters and the eight words, which are adjacent. *)
Definition sha512_begin (ctx : sha512_ctx_t) : sha512_ctx_t :=
  let tp := zip_with (fun hi lo => u64 (u64 (Z.shiftl hi 32) + lo)) init256 init512_lo in
  Sha512Ctx (tp !!! 0%nat) (tp !!! 1%nat) (drop 2 tp) (wbuffer512 ctx).

Definition sha512_hash (ctx : sha512_ctx_t) (buffer : bytes) : sha512_ctx_t :=
  let bufpos := Z.to_nat (Z.land (total64_0 ctx) 127) in
  let len := Z.of_nat (length buffer) in
  let t0 := u64 (total64_0 ctx + len) in
  let t1 := if t0 <? len then u64 (total64_1 ctx + 1) else total64_1 ctx in
  let '(w, h) := HashStream.hash_loop 128 sha512_process_block128 (S (length buffer)) (wbuffer512 ctx) bufpos (hash512 ctx) buffer in
  Sha512Ctx t0 t1 h w.

(** The two stores of the bit counter fill the last sixteen bytes. *)
Definition sha512_end (ctx : sha512_ctx_t) : sha512_ctx_t * bytes :=
  let bufpos := Z.to_nat (Z.land (total64_0 ctx) 127) in
  let lo := bb_bswap 8 (u64 (Z.shiftl (total64_0 ctx) 3)) in
  let hi := bb_bswap 8 (Z.lor (u64 (Z.shiftl (total64_1 ctx) 3)) (Z.shiftr (total64_0 ctx) 61)) in
  let '(w, h) := HashStream.end_loop 128 16 sha512_process_block128 2
                   (HashStream.copy_into (wbuffer512 ctx) bufpos [128]) (S bufpos) (hash512 ctx) (le_bytes 8 hi ++ le_bytes 8 lo) in
  let h := bb_bswap 8 <$> h in
  (Sha512Ctx (total64_0 ctx) (total64_1 ctx) h w, concat (le_bytes 8 <$> h)).

End HashMd5Sha.
