(* ===== verification/HashSpec.v ===== *)
(** * Reference definitions of MD5, SHA-1 and SHA-2

    MD5 as RFC 1321 writes it (sixty-four uniform steps, the table from the sine
    function), SHA-1, SHA-256 and SHA-512 as FIPS 180-4 writes them (the message
    schedule as a growing sequence, the constants from roots of primes, the
    functions on words and their rotations as the standard lists them).  Nothing
    here comes from the model of the code. *)

From S2P Require Import Prelude HashStream.

Module HashSpec.

(** ** Words of [w] bits (FIPS 180-4, 2.2.2 and 4.1) *)

Definition add_w (w x y : Z) : Z := (x + y) mod 2 ^ w.
Definition not_w (w x : Z) : Z := Z.lnot x mod 2 ^ w.
Definition SHR (n x : Z) : Z := Z.shiftr x n.
Definition ROTR (w n x : Z) : Z := Z.lor (Z.shiftr x n) (Z.shiftl x (w - n) mod 2 ^ w).
Definition ROTL (w n x : Z) : Z := Z.lor (Z.shiftl x n mod 2 ^ w) (Z.shiftr x (w - n)).

Definition Ch (w x y z : Z) : Z := Z.lxor (Z.land x y) (Z.land (not_w w x) z).
Definition Maj (x y z : Z) : Z := Z.lxor (Z.lxor (Z.land x y) (Z.land x z)) (Z.land y z).
Definition Parity (x y z : Z) : Z := Z.lxor (Z.lxor x y) z.

(** ** The message schedule *)

(** A sequence extended [n] times by a function of what is already there. *)
Definition extend (g : list Z -> Z) (n : nat) (l : list Z) : list Z := Nat.iter n (fun l => l ++ [g l]) l.

(** The [i]-th element from the end, counted from one. *)
Definition back (l : list Z) (i : nat) : Z := l !!! (length l - i)%nat.

(** The sixteen big-endian words of a block. *)
Definition be_words (k : nat) (b : bytes) : list Z := (fun i => be_val (take k (drop (k * i) b))) <$> seq 0 16.
Definition le_words (k : nat) (b : bytes) : list Z := (fun i => le_val (take k (drop (k * i) b))) <$> seq 0 16.

(** ** MD5 (RFC 1321) *)

(** The sine of a natural number from the first [n] terms of its series, scaled by [2 ^ 256]. *)
Definition sin_series (n : nat) (x : Z) : Z :=
  (fold_left (fun '(acc, term, k) _ => (acc + term, - term * x * x / ((k + 1) * (k + 2)), k + 2)) (seq 0 n) (0, x * 2 ^ 256, 1)).1.1.

Definition md5_T (i : nat) : Z := Z.abs (sin_series 150 (Z.of_nat i + 1)) / 2 ^ 224.

Definition md5_F (i : nat) (X Y Z' : Z) : Z :=
  match (i / 16)%nat with
  | 0%nat => Z.lor (Z.land X Y) (Z.land (Z.lnot X) Z')
  | 1%nat => Z.lor (Z.land X Z') (Z.land Y (Z.lnot Z'))
  | 2%nat => Z.lxor (Z.lxor X Y) Z'
  | _ => Z.lxor Y (Z.lor X (not_w 32 Z'))
  end.

Definition md5_k (i : nat) : nat :=
  match (i / 16)%nat with
  | 0%nat => i mod 16
  | 1%nat => (5 * i + 1) mod 16
  | 2%nat => (3 * i + 5) mod 16
  | _ => (7 * i) mod 16
  end%nat.

Definition md5_s (i : nat) : Z := [7; 12; 17; 22; 5; 9; 14; 20; 4; 11; 16; 23; 6; 10; 15; 21] !!! (4 * (i / 16) + i mod 4)%nat.

Definition md5_step (X : list Z) (q : Z * Z * Z * Z) (i : nat) : Z * Z * Z * Z :=
  let '(A, B, C, D) := q in
  (D, add_w 32 B (ROTL 32 (md5_s i) ((A + md5_F i B C D + (X !!! md5_k i) + md5_T i) mod 2 ^ 32)), B, C).

Definition md5_compress (h : list Z) (b : bytes) : list Z :=
  let '(A, B, C, D) := fold_left (md5_step (le_words 4 b)) (seq 0 64) (h !!! 0%nat, h !!! 1%nat, h !!! 2%nat, h !!! 3%nat) in
  zip_with (add_w 32) h [A; B; C; D].

(** ** SHA-1 (FIPS 180-4, 6.1) *)

Definition sha1_schedule (b : bytes) : list Z :=
  extend (fun l => ROTL 32 1 (Z.lxor (Z.lxor (Z.lxor (back l 3) (back l 8)) (back l 14)) (back l 16))) 64 (be_words 4 b).

(** Masked by [z], the complement of [x] needs no width. *)
Definition sha1_f (t : nat) (x y z : Z) : Z :=
  match (t / 20)%nat with
  | 0%nat => Z.lxor (Z.land x y) (Z.land (Z.lnot x) z)
  | 2%nat => Maj x y z
  | _ => Parity x y z
  end.

(** [2 ^ 30] times the square roots of 2, 3, 5 and 10. *)
Definition sha1_K (t : nat) : Z := Z.sqrt (([2; 3; 5; 10] !!! (t / 20)%nat) * 2 ^ 60).

Definition penta : Type := Z * Z * Z * Z * Z.

Definition sha1_step (W : list Z) (v : penta) (t : nat) : penta :=
  let '(a, b, c, d, e) := v in
  ((ROTL 32 5 a + sha1_f t b c d + e + sha1_K t + (W !!! t)) mod 2 ^ 32, a, ROTL 32 30 b, c, d).

Definition sha1_compress (h : list Z) (m : bytes) : list Z :=
  let '(a, b, c, d, e) := fold_left (sha1_step (sha1_schedule m)) (seq 0 80)
                            (h !!! 0%nat, h !!! 1%nat, h !!! 2%nat, h !!! 3%nat, h !!! 4%nat) in
  zip_with (add_w 32) h [a; b; c; d; e].

(** ** SHA-256 and SHA-512 (FIPS 180-4, 6.2 and 6.4) *)

Definition prime_b (p : Z) : bool := forallb (fun d => negb (p mod Z.of_nat d =? 0)) (seq 2 (Z.to_nat p - 2)).
Definition primes : list Z := take 80 (List.filter prime_b (Z.of_nat <$> seq 2 410)).

(** The largest [r] below [2 ^ b] whose cube is at most [n], bit by bit. *)
Fixpoint icbrt (b : nat) (r n : Z) : Z :=
  match b with
  | O => r
  | S b' => let r' := r + 2 ^ Z.of_nat b' in icbrt b' (if r' ^ 3 <=? n then r' else r) n
  end.

(** The first [w] bits of the fractional part of the square and the cube root. *)
Definition frac_sqrt (w p : Z) : Z := Z.sqrt (p * 2 ^ (2 * w)) mod 2 ^ w.
Definition frac_cbrt (w p : Z) : Z := icbrt (Z.to_nat w + 3) 0 (p * 2 ^ (3 * w)) mod 2 ^ w.

(** The word size, the number of rounds, and the rotations of the functions
    Sigma0, Sigma1 and of sigma0, sigma1, of which the last amount is a shift
    (4.1.2 and 4.1.3). *)
Record sha2_variant := { bits : Z; rounds : nat; Sigma0 : Z * Z * Z; Sigma1 : Z * Z * Z; sigma0 : Z * Z * Z; sigma1 : Z * Z * Z }.

Definition SHA256 : sha2_variant :=
  {| bits := 32; rounds := 64; Sigma0 := (2, 13, 22); Sigma1 := (6, 11, 25); sigma0 := (7, 18, 3); sigma1 := (17, 19, 10) |}.
Definition SHA512 : sha2_variant :=
  {| bits := 64; rounds := 80; Sigma0 := (28, 34, 39); Sigma1 := (14, 18, 41); sigma0 := (1, 8, 7); sigma1 := (19, 61, 6) |}.

Definition Sigma (w : Z) (r : Z * Z * Z) (x : Z) : Z := let '(a, b, c) := r in Z.lxor (Z.lxor (ROTR w a x) (ROTR w b x)) (ROTR w c x).
Definition sigma (w : Z) (r : Z * Z * Z) (x : Z) : Z := let '(a, b, c) := r in Z.lxor (Z.lxor (ROTR w a x) (ROTR w b x)) (SHR c x).

Section sha2.
Context (v : sha2_variant).

Definition sha2_message_schedule (b : bytes) : list Z :=
  extend (fun l => (sigma (bits v) (sigma1 v) (back l 2) + back l 7 + sigma (bits v) (sigma0 v) (back l 15) + back l 16) mod 2 ^ bits v)
    (rounds v - 16) (be_words (Z.to_nat (bits v / 8)) b).

(** One round on the eight working variables. *)
Definition sha2_round (K_t W_t : Z) (s : list Z) : list Z :=
  match s with
  | [a; b; c; d; e; f; g; h] =>
    let T1 := (h + Sigma (bits v) (Sigma1 v) e + Ch (bits v) e f g + K_t + W_t) mod 2 ^ bits v in
    let T2 := (Sigma (bits v) (Sigma0 v) a + Maj a b c) mod 2 ^ bits v in
    [add_w (bits v) T1 T2; a; b; c; add_w (bits v) d T1; e; f; g]
  | _ => s
  end.

Definition sha2_compress (h : list Z) (m : bytes) : list Z :=
  let W := sha2_message_schedule m in
  zip_with (add_w (bits v)) h (fold_left (fun s t => sha2_round (frac_cbrt (bits v) (primes !!! t)) (W !!! t) s) (seq 0 (rounds v)) h).
End sha2.

(** ** The digests *)

Definition bit_count (n : Z) (m : bytes) : Z := (8 * Z.of_nat (length m)) mod 2 ^ n.

Definition md5_iv : list Z := [0x67452301; 0xefcdab89; 0x98badcfe; 0x10325476].
Definition sha1_iv : list Z := md5_iv ++ [0xc3d2e1f0].
Definition sha2_iv (w : Z) : list Z := frac_sqrt w <$> take 8 primes.

Definition md5 (m : bytes) : bytes :=
  concat (le_bytes 4 <$> HashStream.fold_blocks 64 md5_compress md5_iv (HashStream.pad 64 8 m (le_bytes 8 (bit_count 64 m)))).
Definition sha1 (m : bytes) : bytes :=
  concat (be_bytes 4 <$> HashStream.fold_blocks 64 sha1_compress sha1_iv (HashStream.pad 64 8 m (be_bytes 8 (bit_count 64 m)))).
Definition sha256 (m : bytes) : bytes :=
  concat (be_bytes 4 <$> HashStream.fold_blocks 64 (sha2_compress SHA256) (sha2_iv 32)
                           (HashStream.pad 64 8 m (be_bytes 8 (bit_count 64 m)))).
Definition sha512 (m : bytes) : bytes :=
  concat (be_bytes 8 <$> HashStream.fold_blocks 128 (sha2_compress SHA512) (sha2_iv 64)
                           (HashStream.pad 128 16 m (be_bytes 16 (bit_count 128 m)))).

(** The digit-by-digit cube root is the cube root. *)
Lemma icbrt_spec b r n : 0 <= r -> r ^ 3 <= n < (r + 2 ^ Z.of_nat b) ^ 3 ->
  (icbrt b r n) ^ 3 <= n < (icbrt b r n + 1) ^ 3.
Proof.
  revert r. induction b as [|b IH]; intros r Hr H; [exact H|]. cbn [icbrt].
  assert (0 < 2 ^ Z.of_nat b) by (apply Z.pow_pos_nonneg; lia).
  rewrite Nat2Z.inj_succ, Z.pow_succ_r in H by lia.
  destruct (Z.leb_spec ((r + 2 ^ Z.of_nat b) ^ 3) n); apply IH; lia.
Qed.

End HashSpec.
