(* ===== verification/HashFacts.v ===== *)
(** * The block functions of MD5, SHA-1 and SHA-2 are the standards'

    MD5's four loops of four unrolled operations are the sixty-four steps of RFC
    1321; SHA-1's circular buffer of sixteen words, stored twice, holds the last
    sixteen words of the message schedule; SHA-2's array is the schedule. *)

From Stdlib Require Import ZifyNat.
From S2P Require Import Prelude HashStream HashMd5Sha HashSpec.

Module HashFacts.
Import HashMd5Sha HashSpec.
#[local] Notation Maj := HashSpec.Maj.

(** ** The constants *)

Lemma C_array_sine : C_array = md5_T <$> seq 0 64.
Proof. evaluate. Qed.
Lemma sha_K_roots : sha_K = frac_cbrt 64 <$> primes.
Proof. evaluate. Qed.
Lemma sha256_K_roots : (fun k => u32 (Z.shiftr k 32)) <$> take 64 sha_K = frac_cbrt 32 <$> take 64 primes.
Proof. evaluate. Qed.
Lemma rconsts_roots i : (i < 4)%nat -> rconsts !!! i = sha1_K (20 * i).
Proof. intros H. do 4 (destruct i as [|i]; [evaluate|]). lia. Qed.
Lemma init256_roots : drop 2 init256 = sha2_iv 32.
Proof. evaluate. Qed.
Lemma init512_roots : drop 2 (zip_with (fun hi lo => u64 (u64 (Z.shiftl hi 32) + lo)) init256 init512_lo) = sha2_iv 64.
Proof. evaluate. Qed.

(** ** Bitwise identities *)

Ltac bitwise := apply Z.bits_inj'; intros ? ?;
  rewrite ?Z.lxor_spec, ?Z.lor_spec, ?Z.land_spec, ?Z.lxor_spec, ?Z.lor_spec, ?Z.land_spec, ?Z.lnot_spec by done;
  repeat match goal with |- context [Z.testbit ?x ?i] => destruct (Z.testbit x i) end; reflexivity.

Lemma FF_choice b c d : FF b c d = Z.lor (Z.land b c) (Z.land (Z.lnot b) d).
Proof. unfold FF. bitwise. Qed.
Lemma FG_choice b c d : FG b c d = Z.lor (Z.land b d) (Z.land c (Z.lnot d)).
Proof. unfold FG, FF. bitwise. Qed.
Lemma sha1_choice b c d : Z.lxor (Z.land (Z.lxor c d) b) d = Z.lxor (Z.land b c) (Z.land (Z.lnot b) d).
Proof. bitwise. Qed.
Lemma sha1_majority b c d : Z.lor (Z.land (Z.lor b c) d) (Z.land b c) = Maj b c d.
Proof. unfold Maj. bitwise. Qed.
Lemma sha1_parity b c d : Z.lxor (Z.lxor c d) b = Z.lxor (Z.lxor b c) d.
Proof. bitwise. Qed.

(** ** MD5 *)

Lemma lookup_fmap_seq (f : nat -> Z) n i : (i < n)%nat -> (f <$> seq 0 n) !!! i = f i.
Proof. intros H. by rewrite list_lookup_total_alt, list_lookup_fmap, lookup_seq_lt. Qed.

Lemma le_words_lookup k b i : (i < 16)%nat -> le_words k b !!! i = word k b i.
Proof. intros H. apply lookup_fmap_seq. done. Qed.

Lemma C_array_T i : (i < 64)%nat -> C_array !!! i = md5_T i.
Proof. intros H. rewrite C_array_sine. by apply lookup_fmap_seq. Qed.

Lemma OP_step X f A B C D w s T i :
  f B C D = md5_F i B C D -> w = X !!! md5_k i -> s = md5_s i -> T = md5_T i ->
  md5_step X (A, B, C, D) i = (D, OP f A B C D w s T, B, C).
Proof. intros Hf -> -> ->. unfold md5_step, OP, add_w. rewrite Hf, (Z.add_comm B), !Z.add_assoc. done. Qed.

Lemma md5_turn_steps X f s0 s1 s2 s3 w pc q :
  (forall j, (j < 4)%nat -> (forall b c d, f b c d = md5_F (pc + j) b c d) /\ w j = X !!! md5_k (pc + j) /\
     [s0; s1; s2; s3] !!! j = md5_s (pc + j) /\ (pc + j < 64)%nat) ->
  md5_turn f s0 s1 s2 s3 w pc q = fold_left (md5_step X) (seq pc 4) q.
Proof.
  intros H. destruct q as [[[A B] C] D]. cbn [seq fold_left].
  destruct (H 0%nat) as (F0 & W0 & E0 & P0), (H 1%nat) as (F1 & W1 & E1 & P1), (H 2%nat) as (F2 & W2 & E2 & P2),
    (H 3%nat) as (F3 & W3 & E3 & P3); try lia.
  change (s0 = md5_s (pc + 0)) in E0. change (s1 = md5_s (pc + 1)) in E1. change (s2 = md5_s (pc + 2)) in E2. change (s3 = md5_s (pc + 3)) in E3.
  rewrite Nat.add_0_r in *. unfold md5_turn. rewrite !C_array_T by done.
  rewrite (OP_step X f A B C D (w 0%nat) s0 (md5_T pc) pc) by done.
  replace (S pc) with (pc + 1)%nat by lia. erewrite (OP_step X f D _ _ _ (w 1%nat) s1 (md5_T (pc + 1)) (pc + 1)) by done.
  replace (S (pc + 1)) with (pc + 2)%nat by lia. erewrite (OP_step X f C _ _ _ (w 2%nat) s2 (md5_T (pc + 2)) (pc + 2)) by done.
  replace (S (pc + 2)) with (pc + 3)%nat by lia. erewrite (OP_step X f B _ _ _ (w 3%nat) s3 (md5_T (pc + 3)) (pc + 3)) by done.
  done.
Qed.

(** A loop's word indices and rotations are those of its sixteen steps. *)
Definition round_table (r : nat) (k : nat -> nat -> nat) (ss : list Z) : bool :=
  forallb (fun i => forallb (fun j =>
    (k i j =? md5_k (16 * r + 4 * i + j))%nat && (k i j <? 16)%nat && (ss !!! j =? md5_s (16 * r + 4 * i + j))) (seq 0 4)) (seq 0 4).

Lemma md5_round_steps b r f s0 s1 s2 s3 (k : nat -> nat -> nat) q : (r < 4)%nat ->
  (forall p, (p / 16 = r)%nat -> forall x y z, f x y z = md5_F p x y z) -> round_table r k [s0; s1; s2; s3] = true ->
  fold_left (fun q i => md5_turn f s0 s1 s2 s3 (fun j => word 4 b (k i j)) (16 * r + 4 * i) q) (seq 0 4) q =
  fold_left (md5_step (le_words 4 b)) (seq (16 * r) 16) q.
Proof.
  intros Hr HF HT. unfold round_table in HT. rewrite forallb_forall in HT.
  assert (forall i q, (i < 4)%nat -> md5_turn f s0 s1 s2 s3 (fun j => word 4 b (k i j)) (16 * r + 4 * i) q =
    fold_left (md5_step (le_words 4 b)) (seq (16 * r + 4 * i) 4) q) as Ht.
  { intros i q' Hi. apply md5_turn_steps. intros j Hj.
    specialize (HT i ltac:(apply in_seq; lia)). cbv beta in HT. rewrite forallb_forall in HT. specialize (HT j ltac:(apply in_seq; lia)).
    apply andb_true_iff in HT as [[Hk Hl%Nat.ltb_lt]%andb_true_iff Hs%Z.eqb_eq]. apply Nat.eqb_eq in Hk.
    split; [apply HF; symmetry; apply (Nat.div_unique _ 16 r (4 * i + j)); lia|].
    split; [by rewrite <- Hk, le_words_lookup|]. split; [done|lia]. }
  change (seq (16 * r) 16) with (seq (16 * r) (4 + (4 + (4 + 4)))). rewrite !seq_app, !fold_left_app. cbn [fold_left seq].
  rewrite !Ht by lia. replace (16 * r + 4 * 0)%nat with (16 * r)%nat by lia. replace (16 * r + 4 + 4)%nat with (16 * r + 4 * 2)%nat by lia.
  replace (16 * r + 4 * 2 + 4)%nat with (16 * r + 4 * 3)%nat by lia. done.
Qed.

Lemma md5_rounds_steps b q : md5_rounds (word 4 b) q = fold_left (md5_step (le_words 4 b)) (seq 0 64) q.
Proof.
  unfold md5_rounds.
  rewrite (md5_round_steps b 0 FF 7 12 17 22 (fun i j => 4 * i + j)%nat); [|lia| |reflexivity].
  2: { intros p Hp x y z. unfold md5_F. rewrite Hp. apply FF_choice. }
  rewrite (md5_round_steps b 1 FG 5 9 14 20 (fun i j => P_array !!! (4 * i + j)%nat)); [|lia| |reflexivity].
  2: { intros p Hp x y z. unfold md5_F. rewrite Hp. apply FG_choice. }
  rewrite (md5_round_steps b 2 FH 4 11 16 23 (fun i j => P_array !!! (4 * (4 + i) + j)%nat)); [|lia| |reflexivity].
  2: { intros p Hp x y z. unfold md5_F. by rewrite Hp. }
  rewrite (md5_round_steps b 3 FI 6 10 15 21 (fun i j => P_array !!! (4 * (8 + i) + j)%nat)); [|lia| |reflexivity].
  2: { intros p Hp x y z. unfold md5_F. by rewrite Hp. }
  rewrite <- !fold_left_app. done.
Qed.

(** ** A simulation between hash arrays *)

(** The first [n] words of the context's array are the reference's chaining value. *)
Definition holds (n : nat) (h h' : list Z) : Prop := length h' = n /\ take n h = h'.

Lemma holds_lookup n h h' i : holds n h h' -> (i < n)%nat -> h !!! i = h' !!! i.
Proof. intros [L <-] Hi. rewrite !list_lookup_total_alt. by rewrite lookup_take_lt. Qed.

Lemma holds_add m n h h' vs : holds n h h' -> length vs = n ->
  holds n (add_words m h vs) (zip_with (fun x y => m (x + y)) h' vs).
Proof.
  intros [L H] Hl. unfold holds, add_words. rewrite length_zip_with, L, Hl, Nat.min_id. split; [done|].
  rewrite <- (take_drop n h) at 1. rewrite H.
  rewrite <- (app_nil_r vs) at 1. rewrite zip_with_app by congruence. rewrite zip_with_nil_r, app_nil_r.
  apply take_app_length'. rewrite length_zip_with. lia.
Qed.

Lemma md5_block_spec h h' b : holds 4 h h' -> holds 4 (md5_process_block64 h b) (md5_compress h' b).
Proof.
  intros H. unfold md5_process_block64, md5_compress. rewrite !(holds_lookup _ h h' _ H) by lia.
  rewrite md5_rounds_steps. destruct (fold_left _ _ _) as [[[A B] C] D]. by apply holds_add.
Qed.

(** ** Growing sequences *)

Lemma extend_S g n l : extend g (S n) l = extend g n l ++ [g (extend g n l)].
Proof. reflexivity. Qed.

Lemma length_extend g n l : length (extend g n l) = (length l + n)%nat.
Proof. induction n as [|n IH]; [apply plus_n_O|]. rewrite extend_S, length_app, IH. cbn [length]. lia. Qed.

Lemma extend_prefix g n k l : (k <= n)%nat -> take (length l + k) (extend g n l) = extend g k l.
Proof.
  intros H. induction n as [|n IH].
  - replace k with 0%nat by lia. cbn. apply take_ge. lia.
  - destruct (decide (k = S n)) as [->|]; [apply take_ge; rewrite length_extend; lia|].
    rewrite extend_S, take_app_le by (rewrite length_extend; lia). apply IH. lia.
Qed.

Lemma extend_lookup_prefix g n k l i : (k <= n)%nat -> (i < length l + k)%nat -> extend g n l !!! i = extend g k l !!! i.
Proof. intros H Hi. rewrite <- (extend_prefix g n k l H). rewrite !list_lookup_total_alt. by rewrite lookup_take_lt. Qed.

Lemma extend_lookup g n k l : (k < n)%nat -> extend g n l !!! (length l + k)%nat = g (extend g k l).
Proof.
  intros H. rewrite (extend_lookup_prefix g n (S k)) by lia. rewrite extend_S.
  rewrite lookup_total_app_r by (rewrite length_extend; lia). by rewrite length_extend, Nat.sub_diag.
Qed.

Lemma extend_back g n k l i : (k <= n)%nat -> (0 < i)%nat -> (i <= length l + k)%nat ->
  back (extend g k l) i = extend g n l !!! (length l + k - i)%nat.
Proof. intros H Hi Hl. unfold back. rewrite length_extend. symmetry. apply extend_lookup_prefix; lia. Qed.

(** Filling an array from the left is extending the filled part. *)
Lemma fill_array (v : list Z -> nat -> Z) g m r l :
  (forall l' rest, (length l <= length l')%nat -> v (l' ++ rest) (length l') = g l') ->
  fold_left (fun W t => <[t := v W t]> W) (seq (length l) m) (l ++ replicate (m + r) 0) = extend g m l ++ replicate r 0.
Proof.
  intros Hv. revert r. induction m as [|m IH]; intros r; [done|].
  rewrite seq_S, fold_left_app. replace (S m + r)%nat with (m + S r)%nat by lia. rewrite IH. cbn [fold_left].
  replace (length l + m)%nat with (length (extend g m l)) by (by rewrite length_extend).
  rewrite Hv by (rewrite length_extend; lia). cbn [replicate]. rewrite insert_app_r_alt by done. rewrite Nat.sub_diag, extend_S. by rewrite <- app_assoc.
Qed.

(** ** Byte order *)

Lemma bb_bswap_word k b i : bytes_ok b -> (k * i + k <= length b)%nat -> bb_bswap k (word k b i) = be_val (take k (drop (k * i) b)).
Proof.
  intros Hb Hl. unfold bb_bswap, word. f_equal.
  assert (length (take k (drop (k * i) b)) = k) as E by (rewrite length_take, length_drop; lia).
  rewrite <- E at 1. apply le_bytes_le_val. auto using bytes_ok_take, bytes_ok_drop.
Qed.

Lemma bb_bswap_bytes k x : le_bytes k (bb_bswap k x) = be_bytes k x.
Proof.
  unfold bb_bswap, be_val. fold (be_bytes k x). rewrite <- (length_be_bytes k x) at 1. apply le_bytes_le_val, be_bytes_ok.
Qed.

Lemma bswap_words k b : bytes_ok b -> length b = (16 * k)%nat ->
  (fun t => bb_bswap k (word k b t)) <$> seq 0 16 = be_words k b.
Proof.
  intros Hb Hl. unfold be_words. apply list_fmap_ext. intros i t Ht%lookup_seq. apply bb_bswap_word; [done|nia].
Qed.

(** ** SHA-1 *)

(** The ring holds the last sixteen words of the schedule [S] before step [t]
    (at first, the words of the block). *)
Definition ring (S R : list Z) (t : nat) : Prop :=
  length R = 32%nat /\ forall x u, (x < 32)%nat -> (u < t `max` 16)%nat -> (t `max` 16 <= u + 16)%nat ->
    (x mod 16 = u mod 16)%nat -> R !!! x = S !!! u.

Ltac mod_lia := zify; Z.to_euclidean_division_equations; lia.

Lemma put_twice_lookup R n v x : length R = 32%nat -> (n < 16)%nat -> (x < 32)%nat ->
  put_twice R n v !!! x = if decide (x mod 16 = n)%nat then v else R !!! x.
Proof.
  intros L Hn Hx. unfold put_twice. rewrite !list_lookup_total_alt. destruct (decide (x = n)) as [->|H1].
  { rewrite list_lookup_insert_eq by (rewrite length_insert; lia). rewrite decide_True; [done|]. by apply Nat.mod_small. }
  rewrite list_lookup_insert_ne by done. destruct (decide (x = n + 16)%nat) as [->|H2].
  { rewrite list_lookup_insert_eq by lia. rewrite decide_True; [done|]. mod_lia. }
  rewrite list_lookup_insert_ne, decide_False by (done || mod_lia). done.
Qed.

Lemma ring_keep S R t : (t < 16)%nat -> ring S R t -> ring S R (1 + t).
Proof. intros Ht [L H]. split; [done|]. intros x u Hx Hu1 Hu2. apply H; lia. Qed.

Lemma ring_put S R t : (16 <= t)%nat -> ring S R t -> ring S (put_twice R (t mod 16) (S !!! t)) (1 + t).
Proof.
  intros Ht [L H]. split; [unfold put_twice; by rewrite !length_insert|]. intros x u Hx Hu1 Hu2 E.
  rewrite put_twice_lookup by (done || mod_lia). destruct (decide (x mod 16 = t mod 16)%nat) as [E2|E2].
  - f_equal. rewrite E in E2. mod_lia.
  - apply H; try done; [|lia]. assert (u <> t) by congruence. lia.
Qed.

Lemma sha1_schedule_rec b t : (16 <= t < 80)%nat -> let W := sha1_schedule b in
  W !!! t = rotl32 (Z.lxor (Z.lxor (Z.lxor (W !!! (t - 3)%nat) (W !!! (t - 8)%nat)) (W !!! (t - 14)%nat)) (W !!! (t - 16)%nat)) 1.
Proof.
  intros Ht W. assert (length (be_words 4 b) = 16%nat) as L by done.
  unfold W, sha1_schedule. replace t with (length (be_words 4 b) + (t - 16))%nat at 1 by lia.
  rewrite extend_lookup by lia. rewrite !(extend_back _ 64) by lia. rewrite L. unfold ROTL, rotl32, u32. repeat f_equal; lia.
Qed.

Lemma ring_read S R t x d : ring S R t -> (16 <= t)%nat -> (0 < d <= 16)%nat -> (x < 32)%nat -> (x mod 16 = (t - d) mod 16)%nat ->
  R !!! x = S !!! (t - d)%nat.
Proof. intros [L H] Ht Hd Hx E. apply H; lia || done. Qed.

(** The state of the loop before step [t]. *)
Definition sha1_inv (S : list Z) (t : nat) (s : sha1_locals) (v : penta) : Prop :=
  ring S (sW s) t /\ sn s = (t mod 16)%nat /\ v = (sa s, sb s, sc s, sd s, se s).

Lemma sha1_K_const t : (t < 80)%nat -> rconsts !!! (t / 20)%nat = sha1_K t.
Proof.
  intros H. rewrite rconsts_roots by (apply Nat.Div0.div_lt_upper_bound; lia). unfold sha1_K. rewrite (Nat.mul_comm 20), Nat.div_mul by lia. done.
Qed.

(** The first sixteen turns do not extend the schedule. *)
Lemma sha1_turn_guard t : (t < 80)%nat -> ((t / 20 =? 0) && negb (19 - t mod 20 <=? 3))%nat = (t <? 16)%nat.
Proof.
  assert (forallb (fun t => Bool.eqb ((t / 20 =? 0) && negb (19 - t mod 20 <=? 3))%nat (t <? 16)%nat) (seq 0 80) = true) as H by reflexivity.
  rewrite forallb_forall in H. intros Ht. apply eqb_prop, H, in_seq. lia.
Qed.

Lemma sha1_turn_step b t s v : (t < 80)%nat -> sha1_inv (sha1_schedule b) t s v ->
  sha1_inv (sha1_schedule b) (1 + t) (sha1_turn (t / 20) (19 - t mod 20) s) (sha1_step (sha1_schedule b) v t).
Proof.
  intros Ht. destruct s as [W n a b' c d e]. intros (HR & Hn & ->). cbn [sW sn] in HR, Hn. subst n. unfold sha1_turn.
  rewrite sha1_turn_guard by done.
  set (W' := if (t <? 16)%nat then W else _).
  assert (ring (sha1_schedule b) W' (1 + t) /\ W' !!! (t mod 16)%nat = sha1_schedule b !!! t) as [HR' Hw].
  { subst W'. destruct (Nat.ltb_spec t 16) as [H|H].
    - split; [by apply ring_keep|]. destruct HR as [_ HR]. apply HR; mod_lia.
    - rewrite (ring_read _ W t _ 3 HR), (ring_read _ W t _ 8 HR), (ring_read _ W t _ 14 HR), (ring_read _ W t _ 16 HR) by mod_lia.
      rewrite <- sha1_schedule_rec by lia. split; [by apply ring_put|].
      destruct HR as [L _]. rewrite put_twice_lookup by (done || mod_lia). rewrite decide_True; [done|]. mod_lia. }
  clearbody W'. split; [exact HR'|]. split.
  { cbn [sn]. change 15%nat with (Nat.ones 4). rewrite Nat.land_ones. change (2 ^ 4)%nat with 16%nat.
    rewrite Nat.add_comm. apply Nat.Div0.add_mod_idemp_r. }
  unfold sha1_step. cbn [sa sb sc sd se]. do 4 f_equal. rewrite Hw, sha1_K_const by done. unfold u32. rewrite Zplus_mod_idemp_l.
  f_equal. change (ROTL 32 5 a) with (rotl32 a 5). unfold sha1_f, Parity. rewrite sha1_choice, sha1_majority, (sha1_parity b' c d). destruct (t / 20)%nat as [|[|[|]]]; lia.
Qed.

Lemma fold_turns {A} (f : nat -> nat -> A -> A) s :
  fold_left (fun s i => fold_left (fun s j => f i j s) (rev (seq 0 20)) s) (seq 0 4) s =
  fold_left (fun s t => f (t / 20)%nat (19 - t mod 20)%nat s) (seq 0 80) s.
Proof. reflexivity. Qed.

Lemma sha1_turns b n s v : (n <= 80)%nat -> sha1_inv (sha1_schedule b) 0 s v ->
  sha1_inv (sha1_schedule b) n (fold_left (fun s t => sha1_turn (t / 20) (19 - t mod 20) s) (seq 0 n) s)
    (fold_left (sha1_step (sha1_schedule b)) (seq 0 n) v).
Proof.
  intros Hn H0. induction n as [|n IH]; [done|]. rewrite !seq_S, !fold_left_app. cbn [fold_left].
  apply sha1_turn_step; [lia|]. apply IH. lia.
Qed.

Lemma sha1_fill (f : nat -> Z) :
  fold_left (fun W i => put_twice W i (f i)) (seq 0 16) (replicate 32 0) = (f <$> seq 0 16) ++ (f <$> seq 0 16).
Proof. reflexivity. Qed.

Lemma ring_start b : ring (sha1_schedule b) (be_words 4 b ++ be_words 4 b) 0.
Proof.
  assert (length (be_words 4 b) = 16%nat) as L by done. split; [rewrite length_app; lia|]. intros x u Hx Hu1 _ E.
  unfold sha1_schedule. rewrite (extend_lookup_prefix _ 64 0) by lia. cbn [extend Nat.iter].
  destruct (decide (x < 16)%nat) as [H|H].
  - rewrite lookup_total_app_l by lia. f_equal. mod_lia.
  - rewrite lookup_total_app_r by lia. f_equal. mod_lia.
Qed.

Lemma sha1_block_spec h h' b : bytes_ok b -> length b = 64%nat -> holds 5 h h' ->
  holds 5 (sha1_process_block64 h b) (sha1_compress h' b).
Proof.
  intros Hb Hl H. unfold sha1_process_block64, sha1_compress. rewrite !(holds_lookup _ h h' _ H) by lia.
  rewrite sha1_fill, bswap_words, fold_turns by done.
  set (s0 := Sha1Locals _ _ _ _ _ _ _).
  destruct (sha1_turns b 80 s0 (sa s0, sb s0, sc s0, sd s0, se s0)) as (_ & _ & E); [done|split; [apply ring_start|done]|].
  change (_, _, _, _, _) with (sa s0, sb s0, sc s0, sd s0, se s0). rewrite E. by apply holds_add.
Qed.

(** ** SHA-2 *)

Lemma extend_words (words : nat -> Z) n : extend (fun l => words (length l)) n [] = words <$> seq 0 n.
Proof. induction n as [|n IH]; [done|]. by rewrite extend_S, IH, seq_S, fmap_app, length_fmap, length_seq. Qed.

Lemma sha2_schedule_words o n words : (16 <= n)%nat -> sha2_schedule o n words =
  extend (fun l => m2 o (R1 o (back l 2) + back l 7 + R0 o (back l 15) + back l 16)) (n - 16) (words <$> seq 0 16).
Proof.
  intros Hn. unfold sha2_schedule.
  pose proof (fill_array (fun _ t => words t) (fun l => words (length l)) 16 (n - 16 + 0) [] ltac:(done)) as E.
  cbn [length app] in E. replace (16 + (n - 16 + 0))%nat with n in E by lia. rewrite E, extend_words. set (l0 := words <$> seq 0 16). change (seq 16 (n - 16)) with (seq (length l0) (n - 16)).
  rewrite (fill_array _ (fun l => m2 o (R1 o (back l 2) + back l 7 + R0 o (back l 15) + back l 16)) (n - 16) 0 l0); [apply app_nil_r|].
  intros l rest Hlen. assert (16 <= length l)%nat by exact Hlen. unfold back. rewrite !lookup_total_app_l by lia. done.
Qed.

(** The macros of the code compute the functions of the standard. *)
Record ops_match (o : sha2_ops) (v : sha2_variant) : Prop := {
  match_m2 x : m2 o x = x mod 2 ^ bits v;
  match_not x : not2 o x = not_w (bits v) x;
  match_S0 x : S0 o x = Sigma (bits v) (Sigma0 v) x;
  match_S1 x : S1 o x = Sigma (bits v) (Sigma1 v) x;
  match_R0 x : R0 o x = sigma (bits v) (sigma0 v) x;
  match_R1 x : R1 o x = sigma (bits v) (sigma1 v) x }.

Lemma sha256_match : ops_match sha256_ops SHA256.
Proof. by split. Qed.
Lemma sha512_match : ops_match sha512_ops SHA512.
Proof. by split. Qed.

Lemma extend_ext g g' n l : (forall l, g l = g' l) -> extend g n l = extend g' n l.
Proof. intros H. induction n as [|n IH]; [done|]. by rewrite !extend_S, IH, H. Qed.

Lemma sha2_schedule_spec o v b : ops_match o v -> (16 <= rounds v)%nat -> bytes_ok b -> length b = (16 * Z.to_nat (bits v / 8))%nat ->
  sha2_schedule o (rounds v) (fun t => bb_bswap (Z.to_nat (bits v / 8)) (word (Z.to_nat (bits v / 8)) b t)) = sha2_message_schedule v b.
Proof.
  intros M Hn Hb Hl. rewrite sha2_schedule_words, bswap_words by done. apply extend_ext. intros l.
  by rewrite (match_m2 _ _ M), (match_R0 _ _ M), (match_R1 _ _ M).
Qed.

Lemma sha2_turn_round o v K W s : ops_match o v -> octet_list (sha2_turn o K W s) = sha2_round v K W (octet_list s).
Proof.
  intros M. destruct s as [a b c d e f g h]. unfold sha2_turn, octet_list, sha2_round, add_w, HashMd5Sha.Ch, HashSpec.Ch. cbn [va vb vc vd ve vf vg vh].
  by rewrite !(match_m2 _ _ M), (match_not _ _ M), (match_S0 _ _ M), (match_S1 _ _ M).
Qed.

Lemma sha2_turns_rounds o v (K W : nat -> Z) l s : ops_match o v ->
  octet_list (fold_left (fun s t => sha2_turn o (K t) (W t) s) l s) = fold_left (fun s t => sha2_round v (K t) (W t) s) l (octet_list s).
Proof. intros M. revert s. induction l as [|t l IH]; intros s; [done|]. cbn [fold_left]. by rewrite IH, (sha2_turn_round _ _ _ _ _ M). Qed.

Lemma octet_holds h h' : holds 8 h h' -> octet_list (load_octet h) = h'.
Proof. intros H. unfold load_octet, octet_list. cbn [va vb vc vd ve vf vg vh]. rewrite !(holds_lookup _ h h' _ H) by lia. destruct H as [L _]. by do 9 (destruct h' as [|? h']; [try done|]). Qed.

(** Folds whose functions agree on the list. *)
Lemma fold_left_ext_in {A B} (f g : A -> B -> A) l a : (forall a b, In b l -> f a b = g a b) -> fold_left f l a = fold_left g l a.
Proof. revert a. induction l as [|b l IH]; intros a H; [done|]. cbn. rewrite H by (by left). apply IH. intros. apply H. by right. Qed.

Lemma length_primes : length primes = 80%nat.
Proof. evaluate. Qed.

Lemma lookup_fmap_Z (f : Z -> Z) l i : (i < length l)%nat -> (f <$> l) !!! i = f (l !!! i).
Proof.
  intros [x Hx]%lookup_lt_is_Some. rewrite !list_lookup_total_alt, list_lookup_fmap, Hx. done.
Qed.

Lemma length_sha2_compress v h m : length h = 8%nat -> length (sha2_compress v h m) = 8%nat.
Proof.
  intros Hh. unfold sha2_compress. rewrite length_zip_with, Hh. generalize (seq 0 (rounds v)). intros l.
  enough (forall s, length s = 8%nat -> length (fold_left (fun s t => sha2_round v (frac_cbrt (bits v) (primes !!! t)) (sha2_message_schedule v m !!! t) s) l s) = 8%nat) as H by (by rewrite H).
  induction l as [|t l IH]; intros s Hs; [done|]. apply IH. by do 9 (destruct s as [|? s]; try done).
Qed.

(** A block function whose constants are the fractional parts of the cube roots. *)
Lemma sha2_block_spec o v (K : nat -> Z) h h' b : ops_match o v -> (16 <= rounds v)%nat -> bytes_ok b -> length b = (16 * Z.to_nat (bits v / 8))%nat -> holds 8 h h' ->
  (forall t, (t < rounds v)%nat -> K t = frac_cbrt (bits v) (primes !!! t)) ->
  let W := sha2_schedule o (rounds v) (fun t => bb_bswap (Z.to_nat (bits v / 8)) (word (Z.to_nat (bits v / 8)) b t)) in
  holds 8 (add_words (m2 o) h (octet_list (fold_left (fun s t => sha2_turn o (K t) (W !!! t) s) (seq 0 (rounds v)) (load_octet h)))) (sha2_compress v h' b).
Proof.
  intros M Hn Hb Hl H HK W. unfold sha2_compress. unfold W. rewrite sha2_schedule_spec by done. set (S := sha2_message_schedule v b).
  set (s := fold_left _ _ (load_octet h)). pose proof (holds_add (m2 o) 8 h h' (octet_list s) H eq_refl) as A.
  rewrite (zip_with_ext _ (add_w (bits v)) h' h' (octet_list s) (octet_list s)) in A by (done || (intros; apply (match_m2 _ _ M))).
  assert (octet_list s = fold_left (fun s t => sha2_round v (frac_cbrt (bits v) (primes !!! t)) (S !!! t) s) (seq 0 (rounds v)) h') as <-; [|done].
  unfold s. rewrite (sha2_turns_rounds o v K (fun t => S !!! t) _ _ M), (octet_holds h h' H). apply fold_left_ext_in. intros a t Ht%in_seq. by rewrite HK by lia.
Qed.

Lemma sha256_block_spec h h' b : bytes_ok b -> length b = 64%nat -> holds 8 h h' ->
  holds 8 (sha256_process_block64 h b) (sha2_compress SHA256 h' b).
Proof.
  intros Hb Hl H. pose proof (sha2_block_spec sha256_ops SHA256 (fun t => u32 (Z.shiftr (sha_K !!! t) 32)) h h' b sha256_match) as P.
  change (Z.to_nat (bits SHA256 / 8)) with 4%nat in P. cbn [bits rounds SHA256] in P. change (m2 sha256_ops) with u32 in P.
  apply P; [lia|done|done|done|].
  intros t Ht. pose proof (f_equal (fun l => l !!! t) sha256_K_roots) as E. cbv beta in E.
  rewrite !lookup_fmap_Z in E by (rewrite length_take, ?length_primes; cbn [length sha_K]; lia).
  rewrite !list_lookup_total_alt, !lookup_take_lt in E by lia. by rewrite !list_lookup_total_alt.
Qed.

Lemma sha512_block_spec h h' b : bytes_ok b -> length b = 128%nat -> holds 8 h h' ->
  holds 8 (sha512_process_block128 h b) (sha2_compress SHA512 h' b).
Proof.
  intros Hb Hl H. pose proof (sha2_block_spec sha512_ops SHA512 (fun t => sha_K !!! t) h h' b sha512_match) as P.
  change (Z.to_nat (bits SHA512 / 8)) with 8%nat in P. cbn [bits rounds SHA512] in P. change (m2 sha512_ops) with u64 in P.
  apply P; [lia|done|done|done|].
  intros t Ht. rewrite sha_K_roots. apply lookup_fmap_Z. rewrite length_primes. lia.
Qed.
End HashFacts.
