(* ===== verification/HashProps.v ===== *)
(** * The digests of MD5, SHA-1, SHA-256 and SHA-512

    However a message is cut into calls of the hash function, the digest is the
    one the standard defines for the whole message. *)

From S2P Require Import Prelude HashStream HashMd5Sha HashSpec HashFacts.

Module HashProps.
Import HashMd5Sha HashSpec HashFacts.

(** ** The context shared by MD5, SHA-1 and SHA-256 *)

Lemma position k (n : nat) : 0 <= k <= 64 -> Z.to_nat (Z.land (Z.of_nat n mod 2 ^ 64) (Z.ones k)) = (n mod Z.to_nat (2 ^ k))%nat.
Proof.
  intros Hk. rewrite Z.land_ones by lia. assert (0 < 2 ^ k) by (apply Z.pow_pos_nonneg; lia).
  rewrite <- Znumtheory.Zmod_div_mod; [|lia..|exists (2 ^ (64 - k)); rewrite <- Z.pow_add_r by lia; f_equal; lia].
  rewrite Z2Nat.inj_mod, Nat2Z.id by lia. done.
Qed.

Section shared.
Context (ni : list Z -> bytes -> list Z).

(** The context after the message [m], hashed with [f] from the value [h0]. *)
Definition tracks (f : block_fn) (h0 : list Z) (ctx : md5_ctx_t) (m : bytes) : Prop :=
  process_block ctx = f /\ total64 ctx = Z.of_nat (length m) mod 2 ^ 64 /\
  HashStream.absorbed 64 (call_block ni f) h0 m (wbuffer ctx) (hash ctx).

Lemma md5_hash_tracks f h0 ctx m buffer : tracks f h0 ctx m -> tracks f h0 (md5_hash ni ctx buffer) (m ++ buffer).
Proof.
  intros (Hf & Ht & Ha). unfold md5_hash. rewrite Hf, Ht. change 63 with (Z.ones 6). rewrite position by lia.
  change (Z.to_nat (2 ^ 6)) with 64%nat.
  pose proof (HashStream.hash_loop_spec 64 (call_block ni f) ltac:(lia) (S (length buffer)) h0 m (wbuffer ctx) (hash ctx) buffer Ha ltac:(lia)) as H.
  destruct (HashStream.hash_loop _ _ _ _ _ _ _) as [w h]. split; [done|]. split; [|done].
  cbn [total64]. unfold u64. by rewrite Zplus_mod_idemp_l, length_app, Nat2Z.inj_add.
Qed.

Lemma chunks_tracks f h0 chunks ctx m : tracks f h0 ctx m ->
  tracks f h0 (fold_left (md5_hash ni) chunks ctx) (m ++ concat chunks).
Proof.
  revert ctx m. induction chunks as [|c chunks IH]; intros ctx m H; cbn; [by rewrite app_nil_r|].
  rewrite app_assoc. apply IH. by apply md5_hash_tracks.
Qed.

Lemma common64_end_spec f h0 ctx m swap : tracks f h0 ctx m ->
  process_block (common64_end ni ctx swap) = f /\
  hash (common64_end ni ctx swap) = HashStream.fold_blocks 64 (call_block ni f) h0
    (HashStream.pad 64 8 m (if swap then be_bytes 8 (bit_count 64 m) else le_bytes 8 (bit_count 64 m))).
Proof.
  intros (Hf & Ht & Ha). unfold common64_end. rewrite Hf, Ht. change 63 with (Z.ones 6). rewrite position by lia.
  change (Z.to_nat (2 ^ 6)) with 64%nat. set (t := u64 _).
  assert (t = bit_count 64 m) as ->.
  { subst t. unfold u64, bit_count. rewrite Z.shiftl_mul_pow2 by lia. rewrite Zmult_mod_idemp_l. f_equal. lia. }
  assert ((if swap then be_bytes 8 (bit_count 64 m) else le_bytes 8 (bit_count 64 m)) =
    le_bytes 8 (if swap then bb_bswap 8 (bit_count 64 m) else bit_count 64 m)) as -> by (destruct swap; [by rewrite bb_bswap_bytes|done]).
  set (count := le_bytes 8 _).
  pose proof (HashStream.end_loop_spec 64 8 (call_block ni f) ltac:(lia) h0 m (wbuffer ctx) (hash ctx) count Ha (length_le_bytes _ _) ltac:(lia)) as H.
  destruct (HashStream.end_loop _ _ _ _ _ _ _ _) as [w h]. split; [done|exact H].
Qed.

Lemma begin_tracks ctx f h0 t : length (wbuffer ctx) = 64%nat -> t = 0 -> tracks f h0 (Md5Ctx (wbuffer ctx) f t h0) [].
Proof. intros H ->. split; [done|]. split; [done|]. apply HashStream.absorbed_nil; [lia|done]. Qed.
End shared.

Lemma counts_ok (swap : bool) z : bytes_ok (if swap then be_bytes 8 z else le_bytes 8 z).
Proof. destruct swap; [apply be_bytes_ok|apply le_bytes_ok]. Qed.

(** The array at the end holds the reference's chaining value. *)
Lemma end_holds ni f g n iv h0 ctx m swap : bytes_ok m -> tracks ni f h0 ctx m -> holds n h0 iv ->
  (forall h h' b, bytes_ok b -> length b = 64%nat -> holds n h h' -> holds n (call_block ni f h b) (g h' b)) ->
  let ctx' := common64_end ni ctx swap in
  process_block ctx' = f /\
  holds n (hash ctx') (HashStream.fold_blocks 64 g iv
    (HashStream.pad 64 8 m (if swap then be_bytes 8 (bit_count 64 m) else le_bytes 8 (bit_count 64 m)))).
Proof.
  intros Hm Ht Hh Hstep ctx'.
  destruct (common64_end_spec ni f h0 _ m swap Ht) as [Hf Hhash]. split; [done|]. unfold ctx'. rewrite Hhash.
  apply HashStream.fold_blocks_sim; [lia| |done|done]. apply HashStream.pad_ok; [done|apply counts_ok].
Qed.

Lemma begin_feed ni f h0 chunks ctx : Forall bytes_ok chunks -> tracks ni f h0 ctx [] ->
  bytes_ok (concat chunks) /\ tracks ni f h0 (fold_left (md5_hash ni) chunks ctx) (concat chunks).
Proof. intros Hc Ht. split; [by apply Forall_concat|]. by apply (chunks_tracks ni f h0 chunks ctx []). Qed.

Lemma swapped_words k n h h' : holds n h h' -> (n <= length h)%nat ->
  concat (le_bytes k <$> take n ((bb_bswap k <$> take n h) ++ drop n h)) = concat (be_bytes k <$> h').
Proof.
  intros [L H] Hn. rewrite take_app_length' by (rewrite length_fmap, length_take; lia). rewrite H, <- list_fmap_compose.
  f_equal. apply list_fmap_ext. intros i x _. apply bb_bswap_bytes.
Qed.

Lemma holds_length n h h' : holds n h h' -> (n <= length h)%nat.
Proof. intros [L H]. rewrite <- L, <- H, length_take. lia. Qed.

(** ** SHA-512 *)

Definition tracks512 (h0 : list Z) (ctx : sha512_ctx_t) (m : bytes) : Prop :=
  total64_0 ctx = Z.of_nat (length m) mod 2 ^ 64 /\
  total64_1 ctx = (Z.of_nat (length m) / 2 ^ 64) mod 2 ^ 64 /\
  HashStream.absorbed 128 sha512_process_block128 h0 m (wbuffer512 ctx) (hash512 ctx).

(** The carry between the two words of the counter. *)
Lemma carry a l : 0 <= l < 2 ^ 64 -> 0 <= a ->
  (if u64 (a mod 2 ^ 64 + l) <? l then u64 ((a / 2 ^ 64) mod 2 ^ 64 + 1) else (a / 2 ^ 64) mod 2 ^ 64) = ((a + l) / 2 ^ 64) mod 2 ^ 64.
Proof.
  intros Hl Ha. unfold u64. rewrite (Zplus_mod_idemp_l (a / 2 ^ 64)).
  pose proof (Z.div_mod a (2 ^ 64) ltac:(lia)) as Ea. pose proof (Z.mod_pos_bound a (2 ^ 64) ltac:(lia)) as Hr.
  destruct (Z.ltb_spec ((a mod 2 ^ 64 + l) mod 2 ^ 64) l) as [H|H].
  - assert (2 ^ 64 <= a mod 2 ^ 64 + l) as Hc by (destruct (Z.lt_ge_cases (a mod 2 ^ 64 + l) (2 ^ 64)); [rewrite Z.mod_small in H; lia|done]).
    f_equal. apply (Z.div_unique _ _ _ (a mod 2 ^ 64 + l - 2 ^ 64)); lia.
  - assert (a mod 2 ^ 64 + l < 2 ^ 64) as Hc.
    { destruct (Z.lt_ge_cases (a mod 2 ^ 64 + l) (2 ^ 64)) as [|G]; [done|].
      rewrite <- (Z.mod_unique _ (2 ^ 64) 1 (a mod 2 ^ 64 + l - 2 ^ 64)) in H; lia. }
    f_equal. apply (Z.div_unique _ _ _ (a mod 2 ^ 64 + l)); lia.
Qed.

Lemma sha512_hash_tracks h0 ctx m buffer : Z.of_nat (length buffer) < 2 ^ 64 -> tracks512 h0 ctx m ->
  tracks512 h0 (sha512_hash ctx buffer) (m ++ buffer).
Proof.
  intros Hl (H0 & H1 & Ha). unfold sha512_hash. rewrite H0, H1, carry by lia. change 127 with (Z.ones 7). rewrite position by lia.
  change (Z.to_nat (2 ^ 7)) with 128%nat.
  pose proof (HashStream.hash_loop_spec 128 sha512_process_block128 ltac:(lia) (S (length buffer)) h0 m (wbuffer512 ctx) (hash512 ctx) buffer Ha ltac:(lia)) as H.
  destruct (HashStream.hash_loop _ _ _ _ _ _ _) as [w h].
  split; [|split; [by rewrite length_app, Nat2Z.inj_add|exact H]].
  cbn [total64_0]. unfold u64. by rewrite Zplus_mod_idemp_l, length_app, Nat2Z.inj_add.
Qed.

Lemma chunks_tracks512 h0 chunks ctx m : Forall (fun c => Z.of_nat (length c) < 2 ^ 64) chunks -> tracks512 h0 ctx m ->
  tracks512 h0 (fold_left sha512_hash chunks ctx) (m ++ concat chunks).
Proof.
  intros Hc. revert ctx m. induction Hc as [|c chunks Hl _ IH]; intros ctx m H; cbn; [by rewrite app_nil_r|].
  rewrite app_assoc. apply IH. by apply sha512_hash_tracks.
Qed.

(** The two stored words are the 128-bit count. *)
Lemma count128 n : 0 <= n ->
  be_bytes 8 (Z.lor (u64 (Z.shiftl ((n / 2 ^ 64) mod 2 ^ 64) 3)) (Z.shiftr (n mod 2 ^ 64) 61)) ++
  be_bytes 8 (u64 (Z.shiftl (n mod 2 ^ 64) 3)) = be_bytes 16 ((8 * n) mod 2 ^ 128).
Proof.
  intros Hn. set (hi := Z.lor _ _). set (lo := u64 (Z.shiftl (n mod 2 ^ 64) 3)).
  assert (lo = (8 * n) mod 2 ^ 64) as Elo.
  { unfold lo, u64. rewrite Z.shiftl_mul_pow2 by lia. rewrite Zmult_mod_idemp_l. f_equal. lia. }
  assert (hi = ((8 * n) / 2 ^ 64) mod 2 ^ 64) as Ehi.
  { unfold hi, u64. rewrite Z.shiftr_div_pow2, Z.shiftl_mul_pow2 by lia. rewrite Zmult_mod_idemp_l.
    change (2 ^ 64) with (2 ^ 61 * 2 ^ 3) at 2. rewrite Z.mul_mod_distr_r by lia.
    assert (0 <= n mod 2 ^ 64 / 2 ^ 61 < 2 ^ 3) as Hq by (Z.div_mod_to_equations; lia).
    rewrite <- Z.shiftl_mul_pow2, <- add_mul_lor by lia. Z.div_mod_to_equations; lia. }
  rewrite Elo, Ehi. rewrite <- (be_bytes_be_val (be_bytes 8 _ ++ be_bytes 8 _)) by (rewrite bytes_ok_app; split; apply be_bytes_ok).
  rewrite be_val_app, length_app, !length_be_bytes. change (8 + 8)%nat with 16%nat. f_equal.
  rewrite !be_val_be_bytes by (apply Z.mod_pos_bound; lia). change (256 ^ Z.of_nat 8) with (2 ^ 64). change (2 ^ 128) with (2 ^ 64 * 2 ^ 64).
  rewrite (Z.rem_mul_r (8 * n)) by lia. lia.
Qed.

(** The array of SHA-512 has no other words. *)
Lemma sha512_block_eq h b : bytes_ok b -> length b = 128%nat -> length h = 8%nat ->
  sha512_process_block128 h b = sha2_compress SHA512 h b /\ length (sha512_process_block128 h b) = 8%nat.
Proof.
  intros Hb Hl Hh. destruct (sha512_block_spec h h b Hb Hl) as [L H]; [split; [done|apply take_ge; lia]|].
  assert (length (sha512_process_block128 h b) = 8%nat) as E.
  { unfold sha512_process_block128, add_words. rewrite length_app, length_zip_with, length_drop, Hh. done. }
  rewrite take_ge in H by lia. done.
Qed.

Lemma sha512_final iv ctx chunks : Forall bytes_ok chunks -> Forall (fun c => Z.of_nat (length c) < 2 ^ 64) chunks ->
  tracks512 iv ctx [] -> length iv = 8%nat ->
  let m := concat chunks in
  (sha512_end (fold_left sha512_hash chunks ctx)).2 = concat (be_bytes 8 <$>
    HashStream.fold_blocks 128 (sha2_compress SHA512) iv (HashStream.pad 128 16 m (be_bytes 16 (bit_count 128 m)))).
Proof.
  intros Hb Hl Ht Hh m. apply (chunks_tracks512 iv chunks) in Ht as (H0 & H1 & Ha); [|done]. cbn [app] in *. fold m in H0, H1, Ha.
  unfold sha512_end. rewrite H0, H1. change 127 with (Z.ones 7). rewrite position by lia. change (Z.to_nat (2 ^ 7)) with 128%nat.
  rewrite !bb_bswap_bytes, count128 by lia. fold (bit_count 128 m).
  pose proof (HashStream.end_loop_spec 128 16 sha512_process_block128 ltac:(lia) iv m _ _ (be_bytes 16 (bit_count 128 m)) Ha (length_be_bytes _ _) ltac:(lia)) as H.
  destruct (HashStream.end_loop _ _ _ _ _ _ _ _) as [w h]. cbn [snd] in H |- *. rewrite H, <- list_fmap_compose.
  rewrite (list_fmap_ext _ (be_bytes 8)) by (intros; apply bb_bswap_bytes). do 2 f_equal.
  apply (HashStream.fold_blocks_sim 128 _ _ (fun h h' => h = h' /\ length h = 8%nat)); [lia| |done|].
  - apply HashStream.pad_ok; [by apply Forall_concat|apply be_bytes_ok].
  - intros h1 h2 b Hb1 Hb2 [<- Hb3]. by apply sha512_block_eq.
Qed.

Lemma holds_iv n h h' : length h' = n -> holds n (h' ++ drop n h) h'.
Proof. intros H. split; [done|]. by apply take_app_length'. Qed.

(** The assembler function is documented to replace the C function. *)
Definition same_block (ni : list Z -> bytes -> list Z) : Prop :=
  forall h b, bytes_ok b -> length b = 64%nat -> ni h b = sha256_process_block64 h b.

(** ** Ending a hash *)

(** A context that runs SHA-256 in one of its two forms, after the message [m]. *)
Definition tracks256 (ni : list Z -> bytes -> list Z) (ctx : md5_ctx_t) (m : bytes) : Prop :=
  exists f, (f = Sha256Block \/ f = Sha256NiBlock) /\ tracks ni f (drop 2 init256) ctx m.

Lemma md5_end_spec ni h0 ctx m : bytes_ok m -> tracks ni Md5Block h0 ctx m -> holds 4 h0 md5_iv -> (md5_end ni ctx).2 = md5 m.
Proof.
  intros Hm Ht Hh. destruct (end_holds ni Md5Block md5_compress 4 md5_iv h0 ctx m false Hm Ht Hh) as [_ [L H]]; [intros; by apply md5_block_spec|].
  unfold md5_end. cbn [snd]. rewrite H. done.
Qed.

Lemma sha1_end_spec ni h0 ctx m : bytes_ok m -> tracks ni Sha1Block h0 ctx m -> holds 5 h0 sha1_iv -> (sha1_end ni ctx).2 = sha1 m.
Proof.
  intros Hm Ht Hh. destruct (end_holds ni Sha1Block sha1_compress 5 sha1_iv h0 ctx m true Hm Ht Hh) as [Hf H]; [intros; by apply sha1_block_spec|].
  unfold sha1_end. cbn [snd]. rewrite Hf. apply swapped_words; [done|]. by eapply holds_length.
Qed.

Lemma sha256_end_spec ni ctx m : same_block ni -> bytes_ok m -> tracks256 ni ctx m -> (sha1_end ni ctx).2 = sha256 m.
Proof.
  intros Hni Hm (f & Hf & Ht).
  assert (forall h b, bytes_ok b -> length b = 64%nat -> call_block ni f h b = sha256_process_block64 h b) as Hb
    by (destruct Hf as [->| ->]; [done|apply Hni]).
  destruct (end_holds ni f (sha2_compress SHA256) 8 (sha2_iv 32) (drop 2 init256) ctx m true Hm Ht) as [Hf' H];
    [rewrite init256_roots; by apply (holds_iv 8 [])|intros; rewrite Hb by done; by apply sha256_block_spec|].
  unfold sha1_end. cbn [snd]. rewrite Hf'. replace (match f with Sha1Block => 5 | _ => 8 end)%nat with 8%nat by (by destruct Hf as [->| ->]).
  apply swapped_words; [done|]. by eapply holds_length.
Qed.

Lemma sha256_begin_tracks ni shaNI ebx ctx : length (wbuffer ctx) = 64%nat -> tracks256 ni (sha256_begin shaNI ebx ctx).1 [].
Proof.
  intros Hw. exists (process_block (sha256_begin shaNI ebx ctx).1). split; [cbn; destruct (0 <? _); auto|]. by apply begin_tracks.
Qed.

Lemma md5_hash_tracks256 ni ctx m d : tracks256 ni ctx m -> tracks256 ni (md5_hash ni ctx d) (m ++ d).
Proof. intros (f & Hf & Ht). exists f. split; [done|]. by apply md5_hash_tracks. Qed.

Lemma chunks_tracks256 ni chunks ctx m : tracks256 ni ctx m -> tracks256 ni (fold_left (md5_hash ni) chunks ctx) (m ++ concat chunks).
Proof. intros (f & Hf & Ht). exists f. split; [done|]. by apply chunks_tracks. Qed.

(** Claim C38. However a message is cut into pieces, hashing the pieces one call
    after the other and ending the hash gives the digest that the standard
    defines for the whole message: MD5 of RFC 1321 (with the table of sines),
    SHA-1, SHA-256 and SHA-512 of FIPS 180-4 (with the constants from the roots
    of primes and the rotations and functions of the standard, written down
    separately from the code), for every message of bytes, whatever the context's memory held
    before and whether or not the processor has the SHA instructions. *)
Theorem digests_correct ni (Hni : same_block ni) (chunks : list bytes) (Hc : Forall bytes_ok chunks)
    (Hl : Forall (fun c => Z.of_nat (length c) < 2 ^ 64) chunks)
    ctx (Hw : length (wbuffer ctx) = 64%nat) ctx512 (Hw512 : length (wbuffer512 ctx512) = 128%nat) (shaNI cpuid_ebx : Z) :
  let m := concat chunks in
  let feed := fold_left (md5_hash ni) chunks in
  (md5_end ni (feed (md5_begin ctx))).2 = md5 m /\
  (sha1_end ni (feed (sha1_begin ctx))).2 = sha1 m /\
  (sha1_end ni (feed (sha256_begin shaNI cpuid_ebx ctx).1)).2 = sha256 m /\
  (sha512_end (fold_left sha512_hash chunks (sha512_begin ctx512))).2 = sha512 m.
Proof.
  intros m feed. split; [|split; [|split]].
  - eapply md5_end_spec; [by apply Forall_concat|apply begin_feed; [done|by apply begin_tracks]|by apply holds_iv].
  - eapply sha1_end_spec; [by apply Forall_concat|apply begin_feed; [done|by apply begin_tracks]|by apply holds_iv].
  - apply sha256_end_spec; [done|by apply Forall_concat|]. by apply (chunks_tracks256 ni chunks _ []), sha256_begin_tracks.
  - apply sha512_final; [done|done| |done].
    rewrite <- init512_roots. split; [done|]. split; [done|]. apply HashStream.absorbed_nil; [lia|done].
Qed.

Definition used_ctx : md5_ctx_t := Md5Ctx (replicate 64 0xaa) Md5Block 12345 (replicate 8 0xbb).
Definition used_ctx512 : sha512_ctx_t := Sha512Ctx 1 2 (replicate 8 3) (replicate 128 4).

(** The published digests of "abc", hashed in two calls. *)
Lemma digests_correct_witness :
  let feed := fold_left (md5_hash sha256_process_block64) [bs "ab"; bs "c"] in
  (md5_end sha256_process_block64 (feed (md5_begin used_ctx))).2 = be_bytes 16 0x900150983cd24fb0d6963f7d28e17f72 /\
  (sha1_end sha256_process_block64 (feed (sha1_begin used_ctx))).2 = be_bytes 20 0xa9993e364706816aba3e25717850c26c9cd0d89d /\
  (sha1_end sha256_process_block64 (feed (sha256_begin 0 (2 ^ 29) used_ctx).1)).2 =
    be_bytes 32 0xba7816bf8f01cfea414140de5dae2223b00361a396177a9cb410ff61f20015ad /\
  (sha512_end (fold_left sha512_hash [bs "ab"; bs "c"] (sha512_begin used_ctx512))).2 =
    be_bytes 64 0xddaf35a193617abacc417349ae20413112e6fa4e89a97ea20a9eeee64b55d39a2192992a274fc1a836ba3c23a3feebbd454d4423643ce80e2a9ac94fa54ca49f.
Proof.
  intros feed.
  destruct (digests_correct sha256_process_block64 (fun _ _ _ _ => eq_refl) [bs "ab"; bs "c"]) with (ctx := used_ctx)
    (ctx512 := used_ctx512) (shaNI := 0) (cpuid_ebx := 2 ^ 29) as (H1 & H2 & H3 & H4);
    [repeat constructor; machine|repeat constructor; lia|done|done|].
  unfold feed. rewrite H1, H2, H3, H4. split; [evaluate|]. split; [evaluate|]. split; evaluate.
Defined.

End HashProps.
