(* ===== verification/Sha3.v ===== *)
(** * SHA-3 (the Keccak part of src/busybox/libbb/hash_md5_sha.c)

    The native 64-bit version with SHA3_SMALL = 1 on a little-endian machine.
    The state is one array of twenty-five words, also accessed as bytes. *)

From S2P Require Import Prelude HashStream HashMd5Sha.

Module Sha3.
Import HashMd5Sha.

(** ** The permutation *)

Definition IOTA_CONST : list Z :=
  [ 0x0001; 0x8082; 0x808a; 0x8000; 0x808b; 0x0001; 0x8081; 0x8009; 0x008a; 0x0088; 0x8009; 0x000a;
    0x808b; 0x008b; 0x8089; 0x8003; 0x8002; 0x0080; 0x800a; 0x000a; 0x8081; 0x8080; 0x0001; 0x8008 ].
Definition IOTA_CONST_bit63 : Z := 0x3307dd00.
Definition IOTA_CONST_bit31 : Z := 0x16381b00.
Definition ROT_CONST : list Z :=
  [ 1; 3; 6; 10; 15; 21; 28; 36; 45; 55; 2; 14; 27; 41; 56; 8; 25; 43; 62; 18; 39; 61; 20; 44 ].
Definition PI_LANE : list nat :=
  [ 10; 7; 11; 17; 18; 3; 5; 16; 8; 21; 24; 4; 15; 23; 19; 13; 12; 2; 20; 14; 22; 9; 6; 1 ]%nat.

(** [state[i] ^= v] *)
Definition xor_at (i : nat) (v : Z) (state : list Z) : list Z := <[i := Z.lxor (state !!! i) v]> state.

Definition theta (state : list Z) : list Z :=
  let column x := Z.lxor (Z.lxor (Z.lxor (Z.lxor (state !!! x) (state !!! (x + 5)%nat)) (state !!! (x + 10)%nat))
                    (state !!! (x + 15)%nat)) (state !!! (x + 20)%nat) in
  let BC := (column <$> seq 0 5) ++ (column <$> seq 0 5) in
  fold_left (fun state x =>
    let temp := Z.lxor (BC !!! (x + 4)%nat) (rotl64 (BC !!! (x + 1)%nat) 1) in
    xor_at (x + 20) temp (xor_at (x + 15) temp (xor_at (x + 10) temp (xor_at (x + 5) temp (xor_at x temp state)))))
    (seq 0 5) state.

Definition rho_pi (state : list Z) : list Z :=
  (fold_left (fun '(state, t1) x =>
     let t0 := state !!! (PI_LANE !!! x) in (<[PI_LANE !!! x := rotl64 t1 (ROT_CONST !!! x)]> state, t0))
     (seq 0 24) (state, state !!! 1%nat)).1.

Definition chi (state : list Z) : list Z :=
  fold_left (fun state x =>
    let BC0 := state !!! (x + 0)%nat in
    let BC1 := state !!! (x + 1)%nat in
    let BC2 := state !!! (x + 2)%nat in
    let state := <[(x + 0)%nat := Z.lxor BC0 (Z.land (not64 BC1) BC2)]> state in
    let BC3 := state !!! (x + 3)%nat in
    let state := <[(x + 1)%nat := Z.lxor BC1 (Z.land (not64 BC2) BC3)]> state in
    let BC4 := state !!! (x + 4)%nat in
    let state := <[(x + 2)%nat := Z.lxor BC2 (Z.land (not64 BC3) BC4)]> state in
    let state := <[(x + 3)%nat := Z.lxor BC3 (Z.land (not64 BC4) BC0)]> state in
    <[(x + 4)%nat := Z.lxor BC4 (Z.land (not64 BC0) BC1)]> state)
    [0; 5; 10; 15; 20]%nat state.

Definition iota_word (round : nat) : Z :=
  Z.lor (Z.lor (IOTA_CONST !!! round) (Z.land (u32 (Z.shiftl IOTA_CONST_bit31 (Z.of_nat round))) 0x80000000))
    (u64 (Z.shiftl (Z.land (u32 (Z.shiftl IOTA_CONST_bit63 (Z.of_nat round))) 0x80000000) 32)).

Definition sha3_process_block72 (state : list Z) : list Z :=
  fold_left (fun state round => xor_at 0 (iota_word round) (chi (rho_pi (theta state)))) (seq 0 24) state.

(** ** The context *)

Record sha3_ctx_t := Sha3Ctx { state : list Z; bytes_queued : nat; input_block_bytes : nat }.

(** [((uint8_t* )state)[i] ^= v] on a little-endian machine, and for successive bytes. *)
Definition xor_byte (st : list Z) (i : nat) (v : Z) : list Z := xor_at (i / 8) (Z.shiftl v (8 * Z.of_nat (i mod 8))) st.
Fixpoint xor_bytes (st : list Z) (i : nat) (data : bytes) : list Z :=
  match data with
  | [] => st
  | v :: data => xor_bytes (xor_byte st i v) (S i) data
  end.

Definition sha3_begin : sha3_ctx_t := Sha3Ctx (replicate 25 0) 0 72.

(** Every turn but the last takes at least a byte of the input. *)
Fixpoint sha3_loop (fuel r : nat) (st : list Z) (bufpos : nat) (data : bytes) : list Z * nat :=
  match fuel with
  | O => (st, bufpos)
  | S f =>
      let remaining := ((r - bufpos) `min` length data)%nat in
      let st := xor_bytes st bufpos (take remaining data) in
      let data := drop remaining data in
      let bufpos := (bufpos + remaining)%nat in
      if (bufpos =? r)%nat then sha3_loop f r (sha3_process_block72 st) 0 data else (st, bufpos)
  end.

Definition sha3_hash (ctx : sha3_ctx_t) (buffer : bytes) : sha3_ctx_t :=
  let '(st, bufpos) := sha3_loop (S (length buffer)) (input_block_bytes ctx) (state ctx) (bytes_queued ctx) buffer in
  Sha3Ctx st bufpos (input_block_bytes ctx).

Definition sha3_end (ctx : sha3_ctx_t) : sha3_ctx_t * bytes :=
  let st := xor_byte (state ctx) (bytes_queued ctx) 6 in
  let st := xor_byte st (input_block_bytes ctx - 1) 128 in
  let st := sha3_process_block72 st in
  (Sha3Ctx st (bytes_queued ctx) (input_block_bytes ctx), take 64 (concat (le_bytes 8 <$> st))).
End Sha3.
