(* ===== verification/Sha3Spec.v ===== *)
(** * SHA-3 as FIPS 202 defines it

    The five step mappings on lanes with computed offsets and round constants, the
    padding, and the sponge with its squeezing phase.  Nothing here comes from the
    model of the code. *)

From S2P Require Import Prelude HashStream HashSpec.

Module Sha3Spec.
Import HashSpec(ROTL, not_w).

(** A state from its lanes. *)
Definition lanes (f : nat -> nat -> Z) : list Z := (fun i => f (i mod 5) (i / 5))%nat <$> seq 0 25.
Definition lane (A : list Z) (x y : nat) : Z := A !!! (x + 5 * y)%nat.

Definition k_theta (A : list Z) : list Z :=
  let C x := Z.lxor (Z.lxor (Z.lxor (Z.lxor (lane A x 0) (lane A x 1)) (lane A x 2)) (lane A x 3)) (lane A x 4) in
  let D x := Z.lxor (C ((x + 4) mod 5)%nat) (ROTL 64 1 (C ((x + 1) mod 5)%nat)) in
  lanes (fun x y => Z.lxor (lane A x y) (D x)).

(** The lanes that the walk from (1, 0) reaches, with their offsets. *)
Definition rho_walk : list (nat * nat * Z) :=
  (fold_left (fun '(acc, (x, y)) t => (acc ++ [(x, y, (Z.of_nat t + 1) * (Z.of_nat t + 2) / 2 mod 64)], (y, ((2 * x + 3 * y) mod 5)%nat)))
     (seq 0 24) ([], (1, 0)%nat)).1.
Definition rho_offset (x y : nat) : option Z :=
  snd <$> List.find (fun '(x', y', _) => (x =? x')%nat && (y =? y')%nat) rho_walk.

Definition k_rho (A : list Z) : list Z :=
  lanes (fun x y => match rho_offset x y with Some n => ROTL 64 n (lane A x y) | None => lane A x y end).
Definition k_pi (A : list Z) : list Z := lanes (fun x y => lane A ((x + 3 * y) mod 5)%nat x).
Definition k_chi (A : list Z) : list Z :=
  lanes (fun x y => Z.lxor (lane A x y) (Z.land (not_w 64 (lane A ((x + 1) mod 5)%nat y)) (lane A ((x + 2) mod 5)%nat y))).

(** The bit [rc(t)]: a shift register of eight bits, the last one fed back. *)
Definition lfsr_step (R : list bool) : list bool :=
  match R with
  | [r0; r1; r2; r3; r4; r5; r6; r7] => [r7; r0; r1; r2; xorb r3 r7; xorb r4 r7; xorb r5 r7; r6]
  | _ => R
  end.
Definition rc (t : nat) : bool := List.hd false (Nat.iter (t mod 255) lfsr_step [true; false; false; false; false; false; false; false]).
Definition RC (round : nat) : Z :=
  fold_left (fun acc j => if rc (j + 7 * round) then Z.setbit acc (2 ^ Z.of_nat j - 1) else acc) (seq 0 7) 0.

Definition k_iota (round : nat) (A : list Z) : list Z :=
  lanes (fun x y => if ((x =? 0) && (y =? 0))%nat then Z.lxor (lane A 0 0) (RC round) else lane A x y).

Definition keccak_f (A : list Z) : list Z :=
  fold_left (fun A round => k_iota round (k_chi (k_pi (k_rho (k_theta A))))) (seq 0 24) A.

(** A block, as little-endian words, added to the state, and the permutation. *)
Definition add_block (A : list Z) (b : bytes) : list Z :=
  (fun i => Z.lxor (A !!! i) (le_val (take 8 (drop (8 * i) b)))) <$> seq 0 25.
Definition absorb_block (A : list Z) (b : bytes) : list Z := keccak_f (add_block A b).

(** The message, the bits 01, and the padding 10*1 up to a multiple of [r] bytes. *)
Definition sha3_pad (r : nat) (m : bytes) : bytes :=
  m ++ match (r - length m mod r)%nat with
       | 1%nat => [0x86]
       | q => [0x06] ++ replicate (q - 2) 0 ++ [0x80]
       end.

(** The bytes of the state. *)
Definition state_bytes (A : list Z) : bytes := concat (le_bytes 8 <$> A).

(** Squeezing [d] bytes: [r] bytes of the state at a time, with the permutation in
    between. *)
Fixpoint squeeze (fuel r d : nat) (A : list Z) : bytes :=
  match fuel with
  | O => []
  | S f => if (d <=? r)%nat then take d (state_bytes A) else take r (state_bytes A) ++ squeeze f r (d - r) (keccak_f A)
  end.

(** The sponge with the rate of [r] bytes and [d] bytes of output; SHA3-224, -256,
    -384 and -512 are those with [d] = 28, 32, 48 and 64 and [r = 200 - 2 d]. *)
Definition keccak (r d : nat) (m : bytes) : bytes :=
  squeeze (S d) r d (HashStream.fold_blocks r absorb_block (replicate 25 0) (sha3_pad r m)).
Definition SHA3 (d : nat) (m : bytes) : bytes := keccak (200 - 2 * d) d m.

End Sha3Spec.
