(* ===== verification/Sha3Props.v ===== *)
(** * SHA-3 is FIPS 202

    The permutation's steps in place are the five mappings on lanes, and however
    the message is cut into calls the digest is the sponge's. *)

From S2P Require Import Prelude HashStream HashMd5Sha HashSpec Sha3 Sha3Spec.

Module Sha3Props.
Import HashMd5Sha Sha3 Sha3Spec.

(** ** The permutation *)

Lemma length_lanes f : length (lanes f) = 25%nat.
Proof. unfold lanes. by rewrite length_fmap, length_seq. Qed.
Lemma length_k_theta A : length (k_theta A) = 25%nat.
Proof. unfold k_theta. apply length_lanes. Qed.
Lemma length_k_rho A : length (k_rho A) = 25%nat.
Proof. unfold k_rho. apply length_lanes. Qed.
Lemma length_k_pi A : length (k_pi A) = 25%nat.
Proof. unfold k_pi. apply length_lanes. Qed.
Lemma length_k_chi A : length (k_chi A) = 25%nat.
Proof. unfold k_chi. apply length_lanes. Qed.
Lemma length_k_iota r A : length (k_iota r A) = 25%nat.
Proof. unfold k_iota. apply length_lanes. Qed.

(** A state of twenty-five named words. *)
Ltac words25 H :=
  match type of H with length ?A = 25%nat =>
    do 25 (destruct A as [|? A]; [discriminate H|]); destruct A; [clear H|discriminate H]
  end.

Lemma theta_spec A : length A = 25%nat -> theta A = k_theta A.
Proof. intros H. words25 H. cbv -[Z.lxor rotl64 HashSpec.ROTL]. reflexivity. Qed.

Lemma rho_pi_spec A : length A = 25%nat -> rho_pi A = k_pi (k_rho A).
Proof. intros H. words25 H. cbv -[Z.lxor rotl64 HashSpec.ROTL]. reflexivity. Qed.

Lemma chi_spec A : length A = 25%nat -> chi A = k_chi A.
Proof. intros H. words25 H. cbv -[Z.lxor Z.land not64 HashSpec.not_w]. reflexivity. Qed.

Lemma iota_words round : (round < 24)%nat -> iota_word round = RC round.
Proof.
  assert (forallb (fun r => iota_word r =? RC r) (seq 0 24) = true) as H by evaluate.
  rewrite forallb_forall in H. intros Hr. apply Z.eqb_eq, H, in_seq. lia.
Qed.

Lemma iota_spec A round : (round < 24)%nat -> length A = 25%nat -> xor_at 0 (iota_word round) A = k_iota round A.
Proof. intros Hr H. rewrite iota_words by done. words25 H. cbv -[Z.lxor RC]. reflexivity. Qed.

Lemma length_xor_at i v A : length (xor_at i v A) = length A.
Proof. apply length_insert. Qed.

Lemma round_spec A r : (r < 24)%nat -> length A = 25%nat ->
  xor_at 0 (iota_word r) (chi (rho_pi (theta A))) = k_iota r (k_chi (k_pi (k_rho (k_theta A)))).
Proof.
  intros Hr H.
  rewrite (theta_spec A H), (rho_pi_spec _ (length_k_theta A)), (chi_spec _ (length_k_pi _)). exact (iota_spec _ r Hr (length_k_chi _)).
Qed.

(** Two folds whose steps agree on the lists of a given length. *)
Lemma fold_left_length {A B} (f g : list A -> B -> list A) (P : B -> Prop) n l a : Forall P l -> length a = n ->
  (forall a b, P b -> length a = n -> f a b = g a b /\ length (g a b) = n) ->
  fold_left f l a = fold_left g l a /\ length (fold_left g l a) = n.
Proof.
  intros HF Ha Hfg. revert a Ha. induction HF as [|b l Hb _ IH]; intros a Ha; [done|]. cbn.
  destruct (Hfg a b Hb Ha) as [-> ?]. by apply IH.
Qed.

Lemma process_block_spec A : length A = 25%nat -> sha3_process_block72 A = keccak_f A /\ length (keccak_f A) = 25%nat.
Proof.
  intros H. unfold sha3_process_block72, keccak_f. apply (fold_left_length _ _ (fun r => (r < 24)%nat)); [|exact H|].
  - apply Forall_forall. intros r Hr%elem_of_seq. lia.
  - intros a r Hr Ha. split; [exact (round_spec a r Hr Ha)|apply length_k_iota].
Qed.

(** ** Bytes of the state *)

Lemma length_xor_bytes st i d : length (xor_bytes st i d) = length st.
Proof. revert st i. induction d as [|v d IH]; intros st i; [done|]. cbn. rewrite IH. apply length_xor_at. Qed.

Lemma xor_bytes_app st i a b : xor_bytes st i (a ++ b) = xor_bytes (xor_bytes st i a) (i + length a) b.
Proof.
  revert st i. induction a as [|v a IH]; intros st i; cbn [xor_bytes app length]; [by rewrite Nat.add_0_r|].
  rewrite IH. f_equal. lia.
Qed.

Lemma xor_byte_zero st i : xor_byte st i 0 = st.
Proof.
  unfold xor_byte, xor_at. rewrite Z.shiftl_0_l, Z.lxor_0_r. destruct (st !! (i / 8)%nat) as [x|] eqn:Hx.
  - apply list_insert_id. rewrite Hx. f_equal. by rewrite list_lookup_total_alt, Hx.
  - apply list_insert_ge. by apply lookup_ge_None.
Qed.

Lemma xor_bytes_zeros st i n : xor_bytes st i (replicate n 0) = st.
Proof. revert i. induction n as [|n IH]; intros i; [done|]. cbn [replicate xor_bytes]. rewrite xor_byte_zero. apply IH. Qed.

Lemma xor_byte_twice st i v w : (i / 8 < length st)%nat -> xor_byte (xor_byte st i v) i w = xor_byte st i (Z.lxor v w).
Proof.
  intros H. unfold xor_byte, xor_at. rewrite list_insert_insert_eq, list_lookup_total_insert_eq by done.
  by rewrite Z.shiftl_lxor, Z.lxor_assoc.
Qed.

(** Adding the bytes one by one adds the block's words. *)
Lemma xor_bytes_block A b : length A = 25%nat -> bytes_ok b -> (length b <= 200)%nat -> xor_bytes A 0 b = add_block A b.
Proof.
  intros HA. induction b as [|v b IH] using rev_ind; intros Hb Hl.
  { cbn. unfold add_block. words25 HA. cbv -[Z.lxor]. by rewrite !Z.lxor_0_r. }
  apply bytes_ok_app in Hb as [Hb Hv]. rewrite length_app in Hl. cbn [length] in Hl. rewrite xor_bytes_app, IH by (done || lia).
  cbn [xor_bytes Nat.add]. unfold xor_byte, xor_at. apply list_eq. intros i.
  assert (length (add_block A b) = 25%nat) as LA by done.
  destruct (decide (i < 25)%nat) as [Hi|Hi].
  2: { rewrite lookup_ge_None_2 by (rewrite length_insert; lia). symmetry. apply lookup_ge_None_2. change (length (add_block A (b ++ [v]))) with 25%nat. lia. }
  pose proof (Nat.div_mod_eq (length b) 8) as Ed. pose proof (Nat.mod_upper_bound (length b) 8 ltac:(lia)) as Em.
  assert (forall b, add_block A b !! i = Some (Z.lxor (A !!! i) (le_val (take 8 (drop (8 * i) b))))) as Hlk.
  { intros b'. unfold add_block. by rewrite list_lookup_fmap, lookup_seq_lt. }
  destruct (decide (i = length b / 8)%nat) as [->|Hne].
  - rewrite list_lookup_insert_eq by (rewrite LA; lia). rewrite Hlk. f_equal.
    rewrite (list_lookup_total_alt (add_block A b)), Hlk. cbn [default from_option]. unfold id. rewrite Z.lxor_assoc. f_equal.
    rewrite drop_app_le by lia. rewrite !take_ge by (rewrite ?length_app, length_drop; cbn [length]; lia).
    rewrite le_val_app, length_drop. cbn [le_val]. rewrite Z.lxor_comm, Z.mul_0_r, Z.add_0_r.
    replace (length b - 8 * (length b / 8))%nat with (length b mod 8)%nat by lia.
    assert (256 ^ Z.of_nat (length b mod 8) = 2 ^ (8 * Z.of_nat (length b mod 8))) as Ep
      by (rewrite Z.pow_mul_r by lia; done).
    rewrite <- add_mul_lxor; [lia|lia|]. rewrite <- Ep.
    replace (length b mod 8)%nat with (length (drop (8 * (length b / 8)) b)) by (rewrite length_drop; lia).
    apply le_val_range, bytes_ok_drop, Hb.
  - rewrite list_lookup_insert_ne by done. rewrite !Hlk. do 3 f_equal.
    destruct (decide (8 * i <= length b)%nat).
    + rewrite drop_app_le by lia. symmetry. apply take_app_le. rewrite length_drop. lia.
    + rewrite !drop_ge by (rewrite ?length_app; cbn; lia). done.
Qed.

(** ** The sponge *)

Section sponge.
Context (r : nat) (Hr : (0 < r <= 200)%nat).

Definition absorbed_state (m : bytes) : list Z := HashStream.fold_blocks r absorb_block (replicate 25 0) m.

Lemma length_absorbed m : length (absorbed_state m) = 25%nat.
Proof using.
  unfold absorbed_state, HashStream.fold_blocks. generalize (HashStream.nth_block r m <$> seq 0 (length m / r)). intros l.
  assert (length (replicate 25 0) = 25%nat) as H by done. revert H. generalize (replicate 25 0).
  induction l as [|b l IH]; intros A H; [exact H|]. apply IH. apply process_block_spec. done.
Qed.

(** The full blocks of the message are absorbed, the rest is already added. *)
Definition sponge_inv (m : bytes) (st : list Z) (bufpos : nat) : Prop :=
  exists p q, m = p ++ q /\ (length p mod r = 0)%nat /\ (length q < r)%nat /\ bufpos = length q /\
    st = xor_bytes (absorbed_state p) 0 q.

(** A full block, added byte by byte, and the permutation. *)
Lemma absorb_full p b : (length p mod r = 0)%nat -> length b = r -> bytes_ok b ->
  sha3_process_block72 (xor_bytes (absorbed_state p) 0 b) = absorbed_state (p ++ b).
Proof using Hr.
  intros Hp Hl Hb. rewrite xor_bytes_block by (apply length_absorbed || done || lia).
  destruct (process_block_spec (add_block (absorbed_state p) b) eq_refl) as [-> _].
  unfold absorbed_state. rewrite HashStream.fold_blocks_app by (done || lia).
  by rewrite (HashStream.fold_blocks_one r absorb_block ltac:(lia) _ b Hl).
Qed.

Lemma sha3_loop_spec fuel m st bufpos data : bytes_ok m -> bytes_ok data -> sponge_inv m st bufpos -> (length data < fuel)%nat ->
  let '(st, bufpos) := sha3_loop fuel r st bufpos data in sponge_inv (m ++ data) st bufpos.
Proof using Hr.
  revert m st bufpos data. induction fuel as [|fuel IH]; intros m st bufpos data Hm Hd Hi Hf; [lia|].
  destruct Hi as (p & q & -> & Hp & Hq & -> & ->). cbn [sha3_loop]. apply bytes_ok_app in Hm as [Hbp Hbq].
  remember ((r - length q) `min` length data)%nat as n eqn:Dn.
  assert (length (take n data) = n) as Ln by (rewrite length_take; lia).
  rewrite <- (xor_bytes_app _ 0 q (take n data)).
  destruct (Nat.eqb_spec (length q + n) r) as [E|E].
  - assert (length (q ++ take n data) = r) as Lb by (rewrite length_app; lia).
    rewrite absorb_full by (done || (apply bytes_ok_app; auto using bytes_ok_take)).
    replace ((p ++ q) ++ data) with ((p ++ q ++ take n data) ++ drop n data) by (rewrite <- !app_assoc; by rewrite take_drop).
    apply IH; [|by apply bytes_ok_drop| |rewrite length_drop; lia].
    { rewrite !bytes_ok_app. auto using bytes_ok_take. }
    exists (p ++ q ++ take n data), []. rewrite app_nil_r. repeat split; [|cbn; lia].
    rewrite length_app, Lb, <- Nat.Div0.add_mod_idemp_l, Hp. apply Nat.Div0.mod_same.
  - assert (n = length data) as -> by lia. rewrite take_ge by lia. exists p, (q ++ data).
    rewrite app_assoc, length_app. repeat split; [done|lia].
Qed.

Lemma sha3_chunks_spec chunks m ctx : bytes_ok m -> Forall bytes_ok chunks -> input_block_bytes ctx = r ->
  sponge_inv m (state ctx) (bytes_queued ctx) ->
  let ctx' := fold_left sha3_hash chunks ctx in
  input_block_bytes ctx' = r /\ sponge_inv (m ++ concat chunks) (state ctx') (bytes_queued ctx').
Proof using Hr.
  intros Hm Hc. revert m ctx Hm. induction Hc as [|c chunks Hb _ IH]; intros m ctx Hm Hi Hs; cbn; [by rewrite app_nil_r|].
  rewrite app_assoc. pose proof (sha3_loop_spec (S (length c)) m _ _ c Hm Hb Hs ltac:(lia)) as Hl.
  unfold sha3_hash. rewrite Hi. destruct (sha3_loop _ _ _ _ _) as [st pos]. apply IH; [by apply bytes_ok_app|done|done].
Qed.

(** The two bytes the end adds are the padding. *)
Lemma end_padding p q : (length p mod r = 0)%nat -> (length q < r)%nat -> bytes_ok q ->
  sha3_process_block72 (xor_byte (xor_byte (xor_bytes (absorbed_state p) 0 q) (length q) 6) (r - 1) 128) =
  absorbed_state (sha3_pad r (p ++ q)).
Proof using Hr.
  intros Hp Hq Hb. unfold sha3_pad. assert (length (p ++ q) mod r = length q)%nat as ->.
  { rewrite length_app, <- Nat.Div0.add_mod_idemp_l, Hp. by apply Nat.mod_small. }
  rewrite <- app_assoc. destruct (decide (r - length q = 1)%nat) as [E|E].
  - rewrite E. rewrite <- absorb_full; [|done|rewrite length_app; cbn; lia|apply bytes_ok_app; split; [done|repeat constructor; machine]].
    rewrite xor_bytes_app. cbn [xor_bytes Nat.add]. replace (r - 1)%nat with (length q) by lia. rewrite xor_byte_twice; [done|].
    rewrite length_xor_bytes, length_absorbed. apply Nat.Div0.div_lt_upper_bound. lia.
  - replace (match (r - length q)%nat with 1%nat => [134] | k => [6] ++ replicate (k - 2) 0 ++ [128] end)
      with ([6] ++ replicate (r - length q - 2) 0 ++ [128]) by (destruct (r - length q)%nat as [|[|]]; done || lia).
    rewrite <- absorb_full; [|done|rewrite !length_app, length_replicate; cbn; lia|].
    + rewrite !xor_bytes_app, xor_bytes_zeros. cbn [xor_bytes Nat.add length]. rewrite length_replicate. replace (length q + 1 + (r - length q - 2))%nat with (r - 1)%nat by lia. reflexivity.
    + rewrite !bytes_ok_app. split; [done|]. split; [repeat constructor; machine|]. split; [|repeat constructor; machine].
      apply Forall_replicate. machine.
Qed.
End sponge.

Lemma sponge_digest r d chunks : (64 <= r <= 200)%nat -> (d <= 64)%nat -> Forall bytes_ok chunks ->
  take d (sha3_end (fold_left sha3_hash chunks (Sha3Ctx (state sha3_begin) (bytes_queued sha3_begin) r))).2 = keccak r d (concat chunks).
Proof.
  intros Hr Hd Hc. assert (0 < r <= 200)%nat as Hr' by lia.
  destruct (sha3_chunks_spec r Hr' chunks [] (Sha3Ctx (state sha3_begin) (bytes_queued sha3_begin) r)) as [Hi Hs]; [constructor|done|done| |].
  - exists [], []. repeat split; [apply Nat.Div0.mod_0_l|cbn; lia|]. cbn [xor_bytes]. unfold absorbed_state.
    rewrite HashStream.fold_blocks_short by (cbn; lia). done.
  - destruct Hs as (p & q & E & Hp & Hq & Hpos & Hst). unfold sha3_end. rewrite Hi, Hpos, Hst. cbn [snd].
    cbn [app] in E. assert (bytes_ok q) by (assert (bytes_ok (p ++ q)) as [_ ?]%bytes_ok_app; [|done]; rewrite <- E; by apply Forall_concat).
    rewrite end_padding by done. rewrite <- E, take_take, Nat.min_l by lia. unfold keccak. cbn [squeeze]. by rewrite (proj2 (Nat.leb_le d r)) by lia.
Qed.

(** Claim C39. However a message is cut into pieces, hashing the pieces with the
    SHA-3 functions gives the sponge of FIPS 202: with a block of [r] bytes, 64 or
    more, the first [d] of the 64 bytes of the digest are KECCAK with [d] bytes of
    output.  The block that sha3_begin sets gives SHA3-512, and blocks of 144, 136
    and 104 bytes, which a caller may set, give SHA3-224, -256 and -384.  The
    in-place permutation is the composition of the five step mappings with the
    computed offsets and round constants, and the two bytes added at the end are
    the bits 01 and the padding 10*1. *)
Theorem sha3_correct (chunks : list bytes) (Hc : Forall bytes_ok chunks) :
  (sha3_end (fold_left sha3_hash chunks sha3_begin)).2 = SHA3 64 (concat chunks) /\
  (forall r d, (64 <= r <= 200)%nat -> (d <= 64)%nat ->
    take d (sha3_end (fold_left sha3_hash chunks (Sha3Ctx (state sha3_begin) (bytes_queued sha3_begin) r))).2 = keccak r d (concat chunks)) /\
  (forall d, d ∈ [28; 32; 48; 64]%nat ->
    take d (sha3_end (fold_left sha3_hash chunks (Sha3Ctx (state sha3_begin) (bytes_queued sha3_begin) (200 - 2 * d)))).2 = SHA3 d (concat chunks)).
Proof.
  assert (forall r d, (64 <= r <= 200)%nat -> (d <= 64)%nat ->
    take d (sha3_end (fold_left sha3_hash chunks (Sha3Ctx (state sha3_begin) (bytes_queued sha3_begin) r))).2 = keccak r d (concat chunks)) as H.
  { intros r d Hr Hd. by apply sponge_digest. }
  split; [|split; [exact H|]].
  - rewrite <- (take_ge (sha3_end _).2 64) by (unfold sha3_end; cbn [snd]; rewrite length_take; lia). apply (H 72%nat 64%nat); lia.
  - intros d Hd. apply H; set_unfold in Hd; lia.
Qed.

(** The published SHA3-512 digest of "abc", hashed in two calls. *)
Lemma sha3_correct_witness : (sha3_end (fold_left sha3_hash [bs "ab"; bs "c"] sha3_begin)).2 =
  be_bytes 64 0xb751850b1a57168a5693cd924b6b096e08f621827444f70d884f5d0240d2712e10e116e9192af3c91a7ec57647e3934057340b4cf408d5a56592f8274eec53f0.
Proof.
  assert (Forall bytes_ok [bs "ab"; bs "c"]) as H by (repeat constructor; machine).
  exact (eq_trans (proj1 (sha3_correct [bs "ab"; bs "c"] H)) ltac:(evaluate)).
Defined.

End Sha3Props.
