(* ===== verification/TlsHmac.v ===== *)
(** * HMAC and the pseudorandom function of the TLS client (src/busybox/networking/tls.c)

    The configuration has no SHA-1 cipher suites, so every HMAC is HMAC-SHA256
    and a MAC has 32 bytes.  An HMAC starts from two hash contexts that have
    absorbed the padded key; the pseudorandom function copies them for each of
    its HMACs.  [None] is the end of the process. *)

From S2P Require Import Prelude HashStream HashMd5Sha HashSpec HashFacts HashProps.

Module TlsHmac.
Import HashMd5Sha HashSpec HashFacts HashProps.

Definition SHA_INSIZE : nat := 64.
Definition SHA256_OUTSIZE : nat := 32.

Record hmac_precomputed_t := { hashed_key_xor_ipad : md5_ctx_t; hashed_key_xor_opad : md5_ctx_t }.

Section hmac.
(** The assembler block function, and what the processor answers to cpuid. *)
Context (ni : list Z -> bytes -> list Z) (cpuid_ebx : Z).

(** [pre] is what the memory held; [shaNI] is the cached answer. *)
Definition hmac_begin (shaNI : Z) (pre : hmac_precomputed_t) (key : bytes) : option (hmac_precomputed_t * Z) :=
  if (SHA_INSIZE <? length key)%nat then None
  else
    let rest := (SHA_INSIZE - length key)%nat in
    let key_xor_ipad := ((fun k => Z.lxor k 0x36) <$> key) ++ replicate rest 0x36 in
    let key_xor_opad := ((fun k => Z.lxor k 0x5c) <$> key) ++ replicate rest 0x5c in
    let '(c1, shaNI) := sha256_begin shaNI cpuid_ebx (hashed_key_xor_ipad pre) in
    let '(c2, shaNI) := sha256_begin shaNI cpuid_ebx (hashed_key_xor_opad pre) in
    Some ({| hashed_key_xor_ipad := md5_hash ni c1 key_xor_ipad; hashed_key_xor_opad := md5_hash ni c2 key_xor_opad |}, shaNI).

(** The pieces of the text are the variable arguments; the digest is the second
    component. *)
Definition hmac_sha_precomputed_v (pre : hmac_precomputed_t) (texts : list bytes) : hmac_precomputed_t * bytes :=
  let ipad := fold_left (md5_hash ni) texts (hashed_key_xor_ipad pre) in
  let '(ipad, out) := sha1_end ni ipad in
  let opad := md5_hash ni (hashed_key_xor_opad pre) out in
  let '(opad, out) := sha1_end ni opad in
  ({| hashed_key_xor_ipad := ipad; hashed_key_xor_opad := opad |}, out).

(** The contexts are copied first, so [pre] can be used again. *)
Definition hmac_sha_precomputed (pre : hmac_precomputed_t) (texts : list bytes) : bytes :=
  (hmac_sha_precomputed_v pre texts).2.

Definition hmac (shaNI : Z) (pre : hmac_precomputed_t) (key : bytes) (texts : list bytes) : option (bytes * Z) :=
  '(pre, shaNI) ← hmac_begin shaNI pre key;
  Some ((hmac_sha_precomputed_v pre texts).2, shaNI).

(** The endless loop; each turn but the last writes a whole MAC. *)
Fixpoint prf_loop (fuel : nat) (pre : hmac_precomputed_t) (seed : list bytes) (a : bytes) (outbuf_size : nat) : option bytes :=
  match fuel with
  | O => None
  | S f =>
      if (outbuf_size <=? SHA256_OUTSIZE)%nat then Some (take outbuf_size (hmac_sha_precomputed pre (a :: seed)))
      else
        let out := hmac_sha_precomputed pre (a :: seed) in
        rest ← prf_loop f pre seed (hmac_sha_precomputed pre [a]) (outbuf_size - SHA256_OUTSIZE);
        Some (out ++ rest)
  end.

Definition prf_hmac_sha256 (shaNI : Z) (pre : hmac_precomputed_t) (outbuf_size : nat) (secret label seed : bytes) :
    option (bytes * Z) :=
  '(pre, shaNI) ← hmac_begin shaNI pre secret;
  out ← prf_loop (S outbuf_size) pre [label; seed] (hmac_sha_precomputed pre [label; seed]) outbuf_size;
  Some (out, shaNI).
End hmac.

(** ** RFC 2104 and RFC 5246 *)

(** The key, filled up to a block with zeros, combined with a constant. *)
Definition key_block (c : Z) (key : bytes) : bytes := (fun k => Z.lxor k c) <$> key ++ replicate (64 - length key) 0.

Definition HMAC (key text : bytes) : bytes := sha256 (key_block 0x5c key ++ sha256 (key_block 0x36 key ++ text)).

Fixpoint A_seq (secret seed : bytes) (i : nat) : bytes :=
  match i with
  | O => seed
  | S i => HMAC secret (A_seq secret seed i)
  end.

(** The first [n] bytes of HMAC(A(1) + seed) + HMAC(A(2) + seed) + ... *)
Definition P_SHA256 (secret seed : bytes) (n : nat) : bytes :=
  take n (concat ((fun i => HMAC secret (A_seq secret seed (S i) ++ seed)) <$> seq 0 (S (n / 32)))).

Definition PRF (secret label seed : bytes) (n : nat) : bytes := P_SHA256 secret (label ++ seed) n.

(** ** The digests are bytes *)

Lemma concat_be_bytes k l : bytes_ok (concat (be_bytes k <$> l)) /\ length (concat (be_bytes k <$> l)) = (k * length l)%nat.
Proof.
  induction l as [|x l [IH1 IH2]]; cbn; [split; [constructor|lia]|]. rewrite bytes_ok_app, length_app, length_be_bytes, IH2.
  split; [split; [apply be_bytes_ok|done]|lia].
Qed.

Lemma sha256_bytes m : bytes_ok (sha256 m) /\ length (sha256 m) = 32%nat.
Proof.
  unfold sha256. destruct (concat_be_bytes 4 (HashStream.fold_blocks 64 (sha2_compress SHA256) (sha2_iv 32)
    (HashStream.pad 64 8 m (be_bytes 8 (bit_count 64 m))))) as [H1 H2]. split; [done|]. rewrite H2. clear H1 H2.
  unfold HashStream.fold_blocks. generalize (HashStream.nth_block 64 (HashStream.pad 64 8 m (be_bytes 8 (bit_count 64 m))) <$>
    seq 0 (length (HashStream.pad 64 8 m (be_bytes 8 (bit_count 64 m))) / 64)). intros l.
  enough (forall h, length h = 8%nat -> length (fold_left (sha2_compress SHA256) l h) = 8%nat) as H.
  { rewrite H; [done|]. unfold sha2_iv. rewrite length_fmap, length_take, length_primes. done. }
  induction l as [|b l IH]; intros h Hh; [done|]. apply IH. by apply length_sha2_compress.
Qed.

Lemma HMAC_bytes key text : bytes_ok (HMAC key text) /\ length (HMAC key text) = 32%nat.
Proof. apply sha256_bytes. Qed.

Lemma key_block_bytes c key : is_u8 c -> bytes_ok key -> (length key <= 64)%nat -> bytes_ok (key_block c key) /\ length (key_block c key) = 64%nat.
Proof.
  intros Hc Hk Hl. unfold key_block. rewrite length_fmap, length_app, length_replicate. split; [|lia].
  apply Forall_fmap, Forall_app. split.
  - eapply Forall_impl; [exact Hk|]. intros x Hx. by apply lxor_bound.
  - apply Forall_replicate. cbn. by rewrite Z.lxor_0_l.
Qed.

(** ** HMAC *)

Section correct.
Context (ni : list Z -> bytes -> list Z) (Hni : same_block ni) (cpuid_ebx : Z).

(** The contexts have absorbed the two padded keys. *)
Definition keyed (key : bytes) (pre : hmac_precomputed_t) : Prop :=
  tracks256 ni (hashed_key_xor_ipad pre) (key_block 0x36 key) /\ tracks256 ni (hashed_key_xor_opad pre) (key_block 0x5c key).

(** Memory for the two contexts. *)
Definition sized (pre : hmac_precomputed_t) : Prop :=
  length (wbuffer (hashed_key_xor_ipad pre)) = 64%nat /\ length (wbuffer (hashed_key_xor_opad pre)) = 64%nat.

Lemma hmac_begin_spec shaNI pre key : sized pre -> (length key <= 64)%nat ->
  exists pre' shaNI', hmac_begin ni cpuid_ebx shaNI pre key = Some (pre', shaNI') /\ keyed key pre'.
Proof using.
  intros [H1 H2] Hl. unfold hmac_begin. destruct (Nat.ltb_spec SHA_INSIZE (length key)) as [H|_]; [cbv [SHA_INSIZE] in H; lia|].
  pose proof (sha256_begin_tracks ni shaNI cpuid_ebx _ H1) as T1. destruct (sha256_begin shaNI cpuid_ebx _) as [c1 n1].
  pose proof (sha256_begin_tracks ni n1 cpuid_ebx _ H2) as T2. destruct (sha256_begin n1 cpuid_ebx _) as [c2 n2].
  assert (forall c, ((fun k => Z.lxor k c) <$> key) ++ replicate (SHA_INSIZE - length key) c = key_block c key) as E.
  { intros c. unfold key_block. by rewrite fmap_app, fmap_replicate, Z.lxor_0_l. }
  rewrite !E. eexists _, _. split; [done|]. split; by apply (md5_hash_tracks256 ni _ []).
Qed.

Lemma hmac_precomputed_spec key pre texts : bytes_ok key -> (length key <= 64)%nat -> Forall bytes_ok texts -> keyed key pre ->
  (hmac_sha_precomputed_v ni pre texts).2 = HMAC key (concat texts).
Proof using Hni.
  intros Hk Hl Ht [K1 K2]. unfold hmac_sha_precomputed_v.
  destruct (key_block_bytes 0x36 key ltac:(machine) Hk Hl) as [B1 _], (key_block_bytes 0x5c key ltac:(machine) Hk Hl) as [B2 _].
  pose proof (chunks_tracks256 ni texts _ _ K1) as K1'.
  apply sha256_end_spec in K1'; [|done|apply bytes_ok_app; split; [done|by apply Forall_concat]].
  destruct (sha1_end ni (fold_left _ _ _)) as [c1 o1]. cbn [snd] in K1'. subst o1.
  destruct (sha256_bytes (key_block 54 key ++ concat texts)) as [B3 _].
  pose proof (md5_hash_tracks256 ni _ _ (sha256 (key_block 54 key ++ concat texts)) K2) as K2'.
  apply sha256_end_spec in K2'; [|done|by apply bytes_ok_app].
  destruct (sha1_end ni (md5_hash _ _ _)) as [c2 o2]. cbn [snd] in K2' |- *. by subst o2.
Qed.

Lemma hmac_spec shaNI pre key texts : sized pre -> bytes_ok key -> (length key <= 64)%nat -> Forall bytes_ok texts ->
  exists shaNI', hmac ni cpuid_ebx shaNI pre key texts = Some (HMAC key (concat texts), shaNI').
Proof using Hni.
  intros Hs Hk Hl Ht. unfold hmac. destruct (hmac_begin_spec shaNI pre key Hs Hl) as (pre' & n & -> & HK).
  exists n. cbn [mbind option_bind]. rewrite (hmac_precomputed_spec key) by assumption. reflexivity.
Qed.

(** ** The pseudorandom function *)

Section prf.
Context (secret seed : bytes) (pieces : list bytes) (pre : hmac_precomputed_t).
Hypothesis Hsecret : bytes_ok secret /\ (length secret <= 64)%nat.
Hypothesis Hpieces : Forall bytes_ok pieces /\ concat pieces = seed.
Hypothesis Hpre : keyed secret pre.

Lemma A_seq_bytes i : bytes_ok (A_seq secret seed (S i)).
Proof using. apply HMAC_bytes. Qed.

Lemma prf_loop_spec fuel i n : (n < fuel)%nat ->
  prf_loop ni fuel pre pieces (A_seq secret seed (S i)) n =
  Some (take n (concat ((fun i => HMAC secret (A_seq secret seed (S i) ++ seed)) <$> seq i (S (n / 32))))).
Proof using Hni Hsecret Hpieces Hpre.
  destruct Hsecret as [Hs Hl], Hpieces as [Hp Hc]. revert i n. induction fuel as [|fuel IH]; intros i n Hf; [lia|].
  pose proof (A_seq_bytes i) as HA. cbn [prf_loop]. unfold hmac_sha_precomputed.
  rewrite !(hmac_precomputed_spec secret) by (try done; constructor; done). cbn [concat]. rewrite Hc, app_nil_r.
  destruct (HMAC_bytes secret (A_seq secret seed (S i) ++ seed)) as [_ L].
  cbn [seq fmap list_fmap concat]. destruct (Nat.leb_spec n SHA256_OUTSIZE) as [H|H]; cbv [SHA256_OUTSIZE] in *.
  - f_equal. rewrite take_app_le by lia. done.
  - change (HMAC secret (A_seq secret seed (S i))) with (A_seq secret seed (S (S i))). rewrite IH by lia. cbn [mbind option_bind].
    f_equal. rewrite take_app_ge, L by lia. do 3 f_equal.
    replace (n / 32)%nat with (S ((n - 32) / 32)); [done|].
    replace n with (n - 32 + 1 * 32)%nat at 2 by lia. rewrite Nat.div_add by lia. lia.
Qed.
End prf.
End correct.

(** The pseudorandom function ends with the bytes asked for. *)
Lemma prf_spec ni (Hni : same_block ni) cpuid_ebx shaNI pre n key label seed : sized pre -> bytes_ok key -> (length key <= 64)%nat ->
  bytes_ok label -> bytes_ok seed ->
  (exists shaNI', prf_hmac_sha256 ni cpuid_ebx shaNI pre n key label seed = Some (PRF key label seed n, shaNI')) /\
  length (PRF key label seed n) = n /\ bytes_ok (PRF key label seed n).
Proof.
  intros Hpre Hkey Hl Hlab Hseed. split.
  - unfold prf_hmac_sha256. destruct (hmac_begin_spec ni cpuid_ebx shaNI pre key Hpre Hl) as (pre' & sh & -> & HK). cbn [mbind option_bind].
    unfold hmac_sha_precomputed at 1. rewrite (hmac_precomputed_spec ni Hni key) by (try done; repeat constructor; done).
    cbn [concat]. rewrite app_nil_r. change (HMAC key (label ++ seed)) with (A_seq key (label ++ seed) 1).
    rewrite (prf_loop_spec ni Hni key (label ++ seed) [label; seed] pre'); try done; try lia; [by eexists|].
    split; [repeat constructor; done|]. cbn. by rewrite app_nil_r.
  - unfold PRF, P_SHA256. rewrite length_take.
    enough (length (concat ((fun i => HMAC key (A_seq key (label ++ seed) (S i) ++ label ++ seed)) <$> seq 0 (S (n / 32)))) = 32 * S (n / 32) /\
      bytes_ok (concat ((fun i => HMAC key (A_seq key (label ++ seed) (S i) ++ label ++ seed)) <$> seq 0 (S (n / 32)))))%nat as [-> Hb].
    { pose proof (Nat.div_mod_eq n 32). pose proof (Nat.mod_upper_bound n 32 ltac:(lia)). split; [lia|by apply bytes_ok_take]. }
    rewrite <- (length_seq (S (n / 32)) 0) at 2. generalize (seq 0 (S (n / 32))). intros l. induction l as [|i l [IH1 IH2]]; [by split; [|constructor]|].
    cbn [fmap list_fmap concat length]. destruct (HMAC_bytes key (A_seq key (label ++ seed) (S i) ++ label ++ seed)) as [B L].
    rewrite length_app, IH1, L, bytes_ok_app. split; [lia|done].
Qed.

(** Claim C40. The HMAC and the pseudorandom function of the TLS client: for every
    key of at most a block, the incremental HMAC over a text given in pieces is
    HMAC-SHA256 of RFC 2104 over the whole text; for every secret of at most a
    block and every requested size, the pseudorandom function ends and fills the
    buffer with exactly that many bytes of RFC 5246's P_SHA256; a longer key
    ends the process. *)
Theorem hmac_prf_correct ni (Hni : same_block ni) (cpuid_ebx shaNI : Z) pre (Hpre : sized pre) (key : bytes) (Hkey : bytes_ok key) :
  ((64 < length key)%nat -> forall texts, hmac ni cpuid_ebx shaNI pre key texts = None) /\
  ((length key <= 64)%nat ->
    (forall texts, Forall bytes_ok texts -> fst <$> hmac ni cpuid_ebx shaNI pre key texts = Some (HMAC key (concat texts))) /\
    (forall n label seed, bytes_ok label -> bytes_ok seed ->
       fst <$> prf_hmac_sha256 ni cpuid_ebx shaNI pre n key label seed = Some (PRF key label seed n) /\
       length (PRF key label seed n) = n)).
Proof.
  split; [|intros Hl; split].
  - intros Hl texts. unfold hmac, hmac_begin. by rewrite (proj2 (Nat.ltb_lt SHA_INSIZE (length key))).
  - intros texts Ht. destruct (hmac_spec ni Hni cpuid_ebx shaNI pre key texts) as [n ->]; done.
  - intros n label seed Hlab Hseed. destruct (prf_spec ni Hni cpuid_ebx shaNI pre n key label seed) as [[sh ->] [L _]]; done.
Qed.

Definition stack_memory : hmac_precomputed_t :=
  {| hashed_key_xor_ipad := used_ctx; hashed_key_xor_opad := used_ctx |}.

Lemma hmac_prf_correct_witness :
  fst <$> hmac sha256_process_block64 0 0 stack_memory (bs "Jefe") [bs "what do ya want "; bs "for nothing?"] =
    Some (HMAC (bs "Jefe") (bs "what do ya want for nothing?")) /\
  fst <$> prf_hmac_sha256 sha256_process_block64 0 0 stack_memory 100 (bs "Jefe") (bs "key expansion") (bs "seed") =
    Some (PRF (bs "Jefe") (bs "key expansion") (bs "seed") 100).
Proof.
  destruct (hmac_prf_correct sha256_process_block64 (fun _ _ _ _ => eq_refl) 0 0 stack_memory) with (key := bs "Jefe") as [_ H];
    [split; reflexivity|repeat constructor; machine|].
  destruct H as [H1 H2]; [cbn; lia|]. split.
  - exact (H1 [bs "what do ya want "; bs "for nothing?"] ltac:(repeat constructor; machine)).
  - exact (proj1 (H2 100%nat (bs "key expansion") (bs "seed") ltac:(repeat constructor; machine) ltac:(repeat constructor; machine))).
Defined.

(** RFC 4231, test case 2, and a published vector of P_SHA256. *)
Example hmac_vector :
  fst <$> hmac sha256_process_block64 0 0 stack_memory (bs "Jefe") [bs "what do ya want for nothing?"] =
  Some (be_bytes 32 0x5bdcc146bf60754e6a042426089575c75a003f089d2739839dec58b964ec3843).
Proof. evaluate. Qed.

Example prf_vector :
  fst <$> prf_hmac_sha256 sha256_process_block64 0 0 stack_memory 40 (be_bytes 16 0x9bbe436ba940f017b17652849a71db35)
    (bs "test label") (be_bytes 16 0xa0ba9f936cda311827a6f796ffd5198c) =
  Some (be_bytes 40 0xe3f229ba727be17b8d122620557cd453c2aab21d07c3d495329b52d4e61edb5a6b301791e90d35c9).
Proof. evaluate. Qed.

End TlsHmac.
