(* ===== verification/TlsRecord.v ===== *)
(** * The record layer of the TLS client (src/busybox/networking/tls.c)

    Writing: the two kinds of encrypted records and plain handshake records.
    Reading: the input buffer that grows as needed and may hold the start of the
    next record, the decryption in place, alerts, and the handshake hash.

    The file descriptors are a list of the results of the reads to come and the
    list of what was written; the end of the process is [Throw runtime_error]. *)

From S2P Require Import Prelude HashStream HashMd5Sha HashSpec HashProps TlsAes TlsAesGcm TlsHmac.

Module TlsRecord.
Import TlsAes TlsAesGcm.
Import HashStream(copy_into).

Definition AES_BLOCK_SIZE : nat := 16.
Definition RECHDR_LEN : nat := 5.
Definition TLS_MAC_SIZE : nat := 32.
Definition MAX_INBUF : nat := Z.to_nat (5 + 2 ^ 14 + 2048).
Definition RECORD_TYPE_CHANGE_CIPHER_SPEC : Z := 20.
Definition RECORD_TYPE_ALERT : Z := 21.
Definition RECORD_TYPE_HANDSHAKE : Z := 22.
Definition RECORD_TYPE_APPLICATION_DATA : Z := 23.

(** What a read of the socket returns: some bytes (none at the end of the
    stream) or an error. *)
Inductive read_result := Data (b : bytes) | Failed.

(** The connection; [crypt] has the keys and the sequence number, [hsd] the
    handshake hash while the handshake lasts.  The size of the input buffer is
    the length of [inbuf]. *)
Record conn := {
  crypt : tls_state;
  aesgcm_flag : bool;
  encrypt_on_write : bool;
  min_encrypted_len_on_read : nat;
  client_write_MAC_key : bytes;
  inbuf : bytes;
  ofs_to_buffered : nat;
  buffered_size : nat;
  hsd : option HashMd5Sha.md5_ctx_t;
  shaNI : Z;
  input : list read_result;
  output : list bytes }.

Definition set_crypt (v : tls_state) (c : conn) : conn :=
  {| crypt := v; aesgcm_flag := aesgcm_flag c; encrypt_on_write := encrypt_on_write c;
     min_encrypted_len_on_read := min_encrypted_len_on_read c; client_write_MAC_key := client_write_MAC_key c; inbuf := inbuf c;
     ofs_to_buffered := ofs_to_buffered c; buffered_size := buffered_size c; hsd := hsd c; shaNI := shaNI c; input := input c; output := output c |}.
Definition set_inbuf (v : bytes) (c : conn) : conn :=
  {| crypt := crypt c; aesgcm_flag := aesgcm_flag c; encrypt_on_write := encrypt_on_write c;
     min_encrypted_len_on_read := min_encrypted_len_on_read c; client_write_MAC_key := client_write_MAC_key c; inbuf := v;
     ofs_to_buffered := ofs_to_buffered c; buffered_size := buffered_size c; hsd := hsd c; shaNI := shaNI c; input := input c; output := output c |}.
Definition set_buffered (ofs size : nat) (c : conn) : conn :=
  {| crypt := crypt c; aesgcm_flag := aesgcm_flag c; encrypt_on_write := encrypt_on_write c;
     min_encrypted_len_on_read := min_encrypted_len_on_read c; client_write_MAC_key := client_write_MAC_key c; inbuf := inbuf c;
     ofs_to_buffered := ofs; buffered_size := size; hsd := hsd c; shaNI := shaNI c; input := input c; output := output c |}.
Definition set_hash (v : option HashMd5Sha.md5_ctx_t) (ni : Z) (c : conn) : conn :=
  {| crypt := crypt c; aesgcm_flag := aesgcm_flag c; encrypt_on_write := encrypt_on_write c;
     min_encrypted_len_on_read := min_encrypted_len_on_read c; client_write_MAC_key := client_write_MAC_key c; inbuf := inbuf c;
     ofs_to_buffered := ofs_to_buffered c; buffered_size := buffered_size c; hsd := v; shaNI := ni; input := input c; output := output c |}.
Definition set_io (i : list read_result) (o : list bytes) (c : conn) : conn :=
  {| crypt := crypt c; aesgcm_flag := aesgcm_flag c; encrypt_on_write := encrypt_on_write c;
     min_encrypted_len_on_read := min_encrypted_len_on_read c; client_write_MAC_key := client_write_MAC_key c; inbuf := inbuf c;
     ofs_to_buffered := ofs_to_buffered c; buffered_size := buffered_size c; hsd := hsd c; shaNI := shaNI c; input := i; output := o |}.

(** [xwrite] to the socket. *)
Definition xwrite (rec : bytes) (c : conn) : conn := set_io (input c) (output c ++ [rec]) c.

Section record.
(** The assembler SHA-256 block function and the answer of cpuid. *)
Context (ni : list Z -> bytes -> list Z) (cpuid_ebx : Z).

(** Without handshake data the context pointer is NULL plus an offset. *)
Definition hash_handshake (c : conn) (buffer : bytes) : outcome conn :=
  match hsd c with
  | None => Undef
  | Some ctx => Ok (set_hash (Some (HashMd5Sha.md5_hash ni ctx buffer)) (shaNI c) c)
  end.

(** ** Writing *)

(** The header fields as the code stores them. *)
Definition record_hdr (type size : Z) : bytes := [u8 type; TLS_MAJ; TLS_MIN; u8 (Z.shiftr size 8); u8 (Z.land size 255)].

(** [buf] is the data of the output buffer, [iv] the random bytes, [stack] what
    the memory of the HMAC contexts held. *)
Definition xwrite_encrypted_and_hmac_signed (c : conn) (stack : TlsHmac.hmac_precomputed_t) (iv buf : bytes) (size : nat) (type : Z) :
    outcome conn :=
  let data := take size buf in
  let seq := le_bytes 8 (write_seq64_be (crypt c)) in
  match TlsHmac.hmac ni cpuid_ebx (shaNI c) stack (take TLS_MAC_SIZE (client_write_MAC_key c)) [seq; record_hdr type (Z.of_nat size); data] with
  | None => Throw runtime_error
  | Some (mac, sh) =>
      let c := set_crypt (set_seq (crypt c) (SWAP_BE64 (u64 (1 + SWAP_BE64 (write_seq64_be (crypt c)))))) (set_hash (hsd c) sh c) in
      let size := (size + TLS_MAC_SIZE)%nat in
      let padding_length := Z.land (Z.lnot (Z.of_nat size)) 15 in
      let buf := data ++ mac ++ replicate (Z.to_nat padding_length + 1) padding_length in
      ct ← aes_cbc_encrypt (aes_encrypt (crypt c)) iv buf;
      Ok (xwrite (record_hdr type (Z.of_nat (length buf + AES_BLOCK_SIZE)) ++ iv ++ ct) c)
  end.

Definition xwrite_encrypted (c : conn) (stack : TlsHmac.hmac_precomputed_t) (iv buf : bytes) (size : nat) (type : Z) : outcome conn :=
  if aesgcm_flag c then
    '(rec, tls) ← xwrite_encrypted_aesgcm (crypt c) buf size type;
    Ok (xwrite rec (set_crypt tls c))
  else xwrite_encrypted_and_hmac_signed c stack iv buf size type.

Definition xwrite_handshake_record (c : conn) (buf : bytes) (size : nat) : conn :=
  xwrite (record_hdr RECORD_TYPE_HANDSHAKE (Z.of_nat size) ++ take size buf) c.

Definition xwrite_and_update_handshake_hash (c : conn) (stack : TlsHmac.hmac_precomputed_t) (iv buf : bytes) (size : nat) : outcome conn :=
  if negb (encrypt_on_write c) then hash_handshake (xwrite_handshake_record c buf size) (take size buf)
  else xwrite_encrypted c stack iv buf size RECORD_TYPE_HANDSHAKE.

(** ** Reading *)

Definition byte_at (buf : bytes) (i : nat) : Z := buf !!! i.

(** The size of the record that starts at [buf]. *)
Definition record_size (buf : bytes) : nat := (RECHDR_LEN + Z.to_nat (0x100 * byte_at buf 3 + byte_at buf 4))%nat.

(** 0 when there is no whole record in the buffer. *)
Definition tls_has_buffered_record (c : conn) : nat :=
  if (buffered_size c <? RECHDR_LEN)%nat then 0%nat
  else
    let rec_size := record_size (drop (ofs_to_buffered c) (inbuf c)) in
    if (buffered_size c <? rec_size)%nat then 0%nat else rec_size.

Definition safe_read (rem : nat) (i : list read_result) : option bytes * list read_result :=
  match i with
  | [] => (Some [], [])
  | Failed :: i => (None, i)
  | Data b :: i => (Some (take rem b), if (length b <=? rem)%nat then i else Data (drop rem b) :: i)
  end.

(** The buffer grown by an eighth of the largest size. *)
Definition grow (buf : bytes) : bytes := buf ++ replicate ((length buf + MAX_INBUF / 8) `min` MAX_INBUF - length buf) 0.

(** The reading loop: [None] is the end of the stream before any byte, otherwise
    the bytes in the buffer and the size of the first record.  Every turn but
    the last reads at least a byte. *)
Fixpoint fill (fuel : nat) (c : conn) (total target : nat) : outcome (option (nat * nat) * conn) :=
  match fuel with
  | O => Undef
  | S f =>
      let fresh := (RECHDR_LEN <=? total)%nat && (target =? MAX_INBUF)%nat in
      let target := if fresh then record_size (inbuf c) else target in
      if fresh && ((MAX_INBUF <? target)%nat || negb (byte_at (inbuf c) 1 =? TLS_MAJ) || negb (byte_at (inbuf c) 2 =? TLS_MIN))
      then Throw runtime_error
      else if (target <=? total)%nat then Ok (Some (total, target), c)
      else
        let c := if (length (inbuf c) - total =? 0)%nat then set_inbuf (grow (inbuf c)) c else c in
        match safe_read (length (inbuf c) - total) (input c) with
        | (None, _) => Throw runtime_error
        | (Some [], i) => if (total =? 0)%nat then Ok (None, set_io i (output c) c) else Throw runtime_error
        | (Some d, i) => fill f (set_io i (output c) (set_inbuf (copy_into (inbuf c) total d) c)) (total + length d) target
        end
  end.

(** The decryption of the record in the buffer, and its new size. *)
Definition decrypt_record (c : conn) (sz : Z) : outcome (conn * Z) :=
  let min := Z.of_nat (min_encrypted_len_on_read c) in
  let p := drop RECHDR_LEN (inbuf c) in
  if min =? 0 then Ok (c, sz)
  else if sz <? min then Throw runtime_error
  else if aesgcm_flag c then
    let sz := sz - (8 + 16) in
    if sz <? 0 then Undef
    else
      p ← tls_aesgcm_decrypt (crypt c) p (Z.to_nat sz);
      Ok (set_inbuf (take RECHDR_LEN (inbuf c) ++ p) c, sz)
  else if Z.of_nat TLS_MAC_SIZE <? min then
    if negb (Z.land sz 15 =? 0) then Throw runtime_error
    else
      let sz := sz - 16 in
      pt ← aes_cbc_decrypt (aes_decrypt (crypt c)) (take 16 p) (take (Z.to_nat sz) (drop 16 p));
      let p := copy_into p 0 pt in
      let padding_len := byte_at p (Z.to_nat (sz - 1)) + 1 in
      Ok (set_inbuf (take RECHDR_LEN (inbuf c) ++ p) c, sz - (Z.of_nat TLS_MAC_SIZE + padding_len))
  else Ok (c, sz - min).

(** What is done with a decrypted record of [sz] bytes; [again] reads the next one. *)
Definition on_record (again : conn -> outcome (Z * conn)) (c : conn) (sz : Z) : outcome (Z * conn) :=
  let type := byte_at (inbuf c) 0 in
  let level := byte_at (inbuf c) 5 in
  if (type =? RECORD_TYPE_ALERT) && (2 <=? sz) then
    if level =? 2 then Throw runtime_error
    else if (level =? 1) && negb (byte_at (inbuf c) 6 =? 0) then again c
    else Ok (0, c)
  else if type =? RECORD_TYPE_HANDSHAKE then
    c ← hash_handshake c (take (Z.to_nat sz) (drop RECHDR_LEN (inbuf c)));
    Ok (sz, c)
  else Ok (sz, c).

(** Returns the size of the record's data, 0 at the end of the stream; a warning
    is skipped and the next record read. *)
Fixpoint tls_xread_record (fuel : nat) (c : conn) : outcome (Z * conn) :=
  match fuel with
  | O => Undef
  | S f =>
      let total := buffered_size c in
      let c := if (total =? 0)%nat then c
               else set_inbuf (copy_into (inbuf c) 0 (take total (drop (ofs_to_buffered c) (inbuf c)))) c in
      '(r, c) ← fill fuel c total MAX_INBUF;
      match r with
      | None => Ok (0, set_buffered (ofs_to_buffered c) 0 c)
      | Some (total, target) =>
          let c := set_buffered target (total - target) c in
          '(c, sz) ← decrypt_record c (Z.of_nat (target - RECHDR_LEN));
          if sz <? 0 then Throw runtime_error else on_record (tls_xread_record f) c sz
      end
  end.
End record.
End TlsRecord.
