(* ===== verification/TlsRecordProps.v ===== *)
(** * Records survive the connection

    Reassembly of the input stream, and the round trip of encrypted records: what
    one side writes, a peer with the same keys reads back, however the stream is
    cut into reads. *)

From S2P Require Import Prelude HashStream HashMd5Sha HashSpec HashProps TlsAes TlsAesGcm TlsHmac TlsRecord.

Module TlsRecordProps.
Import TlsAes TlsAesGcm TlsRecord.
Import HashStream(copy_into).

(** ** The input stream *)

(** The bytes to come before [tail]: those in the buffer, then those of the
    reads, none of which is empty. *)
Definition stream (c : conn) (tail : list read_result) (s : bytes) : Prop :=
  exists chunks, Forall (fun b => b <> []) chunks /\ input c = (Data <$> chunks) ++ tail /\
    s = take (buffered_size c) (drop (ofs_to_buffered c) (inbuf c)) ++ concat chunks.

(** The positions are inside the buffer, which never exceeds the limit. *)
Definition conn_ok (c : conn) : Prop :=
  (ofs_to_buffered c + buffered_size c <= length (inbuf c))%nat /\ (length (inbuf c) <= MAX_INBUF)%nat.

Lemma max_inbuf_value : Z.of_nat MAX_INBUF = 18437.
Proof. unfold MAX_INBUF. by rewrite Z2Nat.id. Qed.

Lemma max_inbuf : (5 <= MAX_INBUF /\ 1 <= MAX_INBUF / 8)%nat.
Proof. pose proof max_inbuf_value. split; [lia|]. apply Nat.div_le_lower_bound; lia. Qed.

Lemma length_grow buf : (length buf <= MAX_INBUF)%nat -> length (grow buf) = ((length buf + MAX_INBUF / 8) `min` MAX_INBUF)%nat.
Proof. intros H. unfold grow. rewrite length_app, length_replicate. lia. Qed.

Lemma take_copy buf i d : (i + length d <= length buf)%nat -> take (i + length d) (copy_into buf i d) = take i buf ++ d.
Proof. intros H. unfold copy_into. rewrite app_assoc. apply take_app_length'. rewrite length_app, length_take. lia. Qed.

Lemma prefix_lookup (buf x hdr y : bytes) n i : take n buf ++ x = hdr ++ y -> (n <= length buf)%nat ->
  (i < n)%nat -> (i < length hdr)%nat -> byte_at buf i = hdr !!! i.
Proof.
  intros E Hn Hi Hh. unfold byte_at. rewrite !list_lookup_total_alt.
  pose proof (f_equal (fun l => l !! i) E) as El. cbv beta in El.
  rewrite lookup_app_l in El by (rewrite length_take; lia). rewrite lookup_take_lt in El by done.
  rewrite lookup_app_l in El by done. by rewrite El.
Qed.

(** A well-formed header of a record of [n] bytes. *)
Definition header (hdr : bytes) (n : nat) : Prop :=
  length hdr = 5%nat /\ hdr !!! 1%nat = 3 /\ hdr !!! 2%nat = 3 /\
  Z.to_nat (0x100 * (hdr !!! 3%nat) + (hdr !!! 4%nat)) = n /\ (5 + n <= MAX_INBUF)%nat.

Lemma set_io_inbuf c i inb i' inb' o : set_io i o (set_inbuf inb (set_io i' o (set_inbuf inb' c))) = set_io i o (set_inbuf inb c).
Proof. done. Qed.

(** The size of the record once its header is there. *)
Lemma header_read c total x hdr body rest : take total (inbuf c) ++ x = hdr ++ body ++ rest -> (total <= length (inbuf c))%nat ->
  header hdr (length body) -> (5 <= total)%nat ->
  record_size (inbuf c) = (5 + length body)%nat /\ byte_at (inbuf c) 1 = 3 /\ byte_at (inbuf c) 2 = 3.
Proof.
  intros Hs Ht (L5 & V1 & V2 & Vn & Hmax) H5. unfold record_size. rewrite !(prefix_lookup _ _ _ _ _ _ Hs) by lia. by rewrite Vn.
Qed.

(** The first half of a turn of the loop: the header does not end the process,
    and the size wanted is the record's or still unknown. *)
Lemma next_target c total target x hdr body rest : take total (inbuf c) ++ x = hdr ++ body ++ rest -> (total <= length (inbuf c))%nat ->
  header hdr (length body) -> target = MAX_INBUF \/ target = (5 + length body)%nat ->
  let fresh := (RECHDR_LEN <=? total)%nat && (target =? MAX_INBUF)%nat in
  let tg := if fresh then record_size (inbuf c) else target in
  (tg = (5 + length body)%nat \/ tg = MAX_INBUF /\ (total < 5)%nat) /\
  fresh && ((MAX_INBUF <? tg)%nat || negb (byte_at (inbuf c) 1 =? TLS_MAJ) || negb (byte_at (inbuf c) 2 =? TLS_MIN)) = false.
Proof.
  intros Hs Ht Hh Htg fresh tg. pose proof (header_read _ _ _ _ _ _ Hs Ht Hh) as Hrec. destruct Hh as (_ & _ & _ & _ & Hmax).
  unfold tg, fresh. destruct (Nat.leb_spec RECHDR_LEN total) as [H5|H5]; cbv [RECHDR_LEN] in H5.
  - destruct (Hrec H5) as (-> & -> & ->). destruct (Nat.eqb_spec target MAX_INBUF); cbn [andb].
    + split; [by left|]. rewrite !orb_false_r. apply Nat.ltb_ge. lia.
    + split; [|done]. left. by destruct Htg.
  - cbn [andb]. split; [|done]. destruct Htg as [->| ->]; auto.
Qed.

(** A read returns the start of the first chunk. *)
Lemma safe_read_chunks rem b chunks tail : (0 < rem)%nat -> Forall (fun b => b <> []) (b :: chunks) ->
  exists x d cs, safe_read rem ((Data <$> (b :: chunks)) ++ tail) = (Some (x :: d), (Data <$> cs) ++ tail) /\
    (length (x :: d) <= rem)%nat /\ (x :: d) ++ concat cs = concat (b :: chunks) /\ Forall (fun b => b <> []) cs.
Proof.
  intros Hr [Hb Hc]%Forall_cons. destruct b as [|x b]; [done|]. destruct rem as [|rem]; [lia|].
  exists x, (take rem b), (if (length (x :: b) <=? S rem)%nat then chunks else drop rem b :: chunks).
  cbn [fmap list_fmap app safe_read take]. destruct (Nat.leb_spec (length (x :: b)) (S rem)) as [H|H]; cbn [length] in H.
  - split; [done|]. rewrite take_ge by lia. split; [cbn; lia|]. split; [|done]. done.
  - split; [done|]. split; [cbn; rewrite length_take; lia|]. split; [cbn [concat app]; by rewrite app_assoc, take_drop|].
    constructor; [|done]. intros E%(f_equal length). rewrite length_drop in E. cbn in E. lia.
Qed.

(** The buffer has room for at least a byte. *)
Lemma room c total : (total <= length (inbuf c))%nat -> (length (inbuf c) <= MAX_INBUF)%nat -> (total < MAX_INBUF)%nat ->
  exists inb, (if (length (inbuf c) - total =? 0)%nat then set_inbuf (grow (inbuf c)) c else c) = set_inbuf inb c /\
    (total < length inb <= MAX_INBUF)%nat /\ take total inb = take total (inbuf c).
Proof.
  intros Ht Hm Hlt. pose proof max_inbuf. destruct (Nat.eqb_spec (length (inbuf c) - total) 0).
  - exists (grow (inbuf c)). rewrite length_grow by done. split; [done|]. split; [lia|]. unfold grow. by rewrite take_app_le by lia.
  - exists (inbuf c). split; [by destruct c|]. split; [lia|done].
Qed.

(** What the reading loop does with a stream that starts with a whole record. *)
Lemma fill_spec fuel c total target chunks tail hdr body rest :
  (total <= length (inbuf c))%nat -> (length (inbuf c) <= MAX_INBUF)%nat ->
  Forall (fun b => b <> []) chunks -> input c = (Data <$> chunks) ++ tail ->
  take total (inbuf c) ++ concat chunks = hdr ++ body ++ rest -> header hdr (length body) ->
  target = MAX_INBUF \/ target = (5 + length body)%nat -> (length (concat chunks) < fuel)%nat ->
  exists inb chunks' total',
    fill fuel c total target = Ok (Some (total', (5 + length body)%nat), set_io ((Data <$> chunks') ++ tail) (output c) (set_inbuf inb c)) /\
    (5 + length body <= total' <= length inb)%nat /\ (length inb <= MAX_INBUF)%nat /\ Forall (fun b => b <> []) chunks' /\
    take total' inb ++ concat chunks' = hdr ++ body ++ rest.
Proof.
  revert c total target chunks. induction fuel as [|fuel IH]; intros c total target chunks Ht Hm Hc Hi Hs Hh Htg Hf; [lia|].
  destruct (next_target c total target _ _ _ _ Hs Ht Hh Htg) as [Htg' Hg]. cbn [fill]. rewrite Hg. clear Hg.
  set (tg := if _ && _ then record_size (inbuf c) else target) in *.
  pose proof (f_equal length Hs) as Ls. destruct (Hh) as (L5 & _ & _ & _ & Hmax).
  rewrite !length_app, length_take, Nat.min_l, L5 in Ls by lia. pose proof max_inbuf as [M5 _].
  destruct (Nat.leb_spec tg total) as [Hge|Hlt].
  { assert (tg = (5 + length body)%nat) as -> by lia.
    exists (inbuf c), chunks, total. rewrite <- Hi. split; [by destruct c|]. done. }
  assert (total < 5 + length body)%nat as Hneed by lia.
  destruct chunks as [|b chunks]; [cbn in Ls; lia|].
  destruct (room c total Ht Hm ltac:(lia)) as (inb & -> & G1 & G2). cbn [inbuf set_inbuf input]. rewrite Hi.
  destruct (safe_read_chunks (length inb - total) b chunks tail) as (x & d & cs & -> & D1 & D2 & D3); [lia|done|].
  destruct (IH (set_io ((Data <$> cs) ++ tail) (output c) (set_inbuf (copy_into inb total (x :: d)) c))
    (total + length (x :: d))%nat tg cs) as (inb' & chunks' & total' & E & P).
  - cbn [inbuf set_io set_inbuf]. rewrite HashStream.length_copy_into; lia.
  - cbn [inbuf set_io set_inbuf]. rewrite HashStream.length_copy_into; lia.
  - done.
  - done.
  - cbn [inbuf set_io set_inbuf]. rewrite take_copy, G2 by lia. by rewrite <- app_assoc, D2.
  - done.
  - destruct Htg' as [->|[-> _]]; auto.
  - apply (f_equal length) in D2. rewrite !length_app in D2. cbn [length] in D2. lia.
  - exists inb', chunks', total'. split; [|exact P]. exact E.
Qed.

(** ** One record *)

(** Reading writes nothing. *)
Definition untouched (c c' : conn) : Prop :=
  encrypt_on_write c' = encrypt_on_write c /\ client_write_MAC_key c' = client_write_MAC_key c /\ shaNI c' = shaNI c /\ output c' = output c.

(** Reading does not touch the keys. *)
Definition same_keys (c c' : conn) : Prop :=
  crypt c' = crypt c /\ aesgcm_flag c' = aesgcm_flag c /\ min_encrypted_len_on_read c' = min_encrypted_len_on_read c /\ hsd c' = hsd c /\
  untouched c c'.

(** The body of a record in the buffer is decrypted, in place, to the data. *)
Definition opens (c : conn) (body data : bytes) : Prop :=
  forall c' hdr more, same_keys c c' -> length hdr = 5%nat -> inbuf c' = hdr ++ body ++ more ->
    exists junk, decrypt_record c' (Z.of_nat (length body)) = Ok (set_inbuf (hdr ++ data ++ junk ++ more) c', Z.of_nat (length data)) /\
      length (data ++ junk) = length body.

(** The buffer when the loop ends. *)
Lemma filled inb (chunks : list bytes) total hdr body rest : length hdr = 5%nat -> (5 + length body <= total <= length inb)%nat ->
  take total inb ++ concat chunks = hdr ++ body ++ rest ->
  inb = hdr ++ body ++ drop (5 + length body) inb /\
  take (total - (5 + length body)) (drop (5 + length body) inb) ++ concat chunks = rest.
Proof.
  intros Lh Ht E. set (n := (5 + length body)%nat) in *.
  assert (take n inb = hdr ++ body) as Ep.
  { replace (take n inb) with (take n (take total inb)) by (rewrite take_take; f_equal; lia).
    rewrite <- (take_app_le (take total inb) (concat chunks)) by (rewrite length_take; lia). rewrite E, app_assoc. apply take_app_length'. rewrite length_app. lia. }
  split; [by rewrite app_assoc, <- Ep, take_drop|].
  rewrite <- (take_drop n inb), take_app_ge, Ep, <- !app_assoc in E by (rewrite length_take; lia).
  apply app_inv_head, app_inv_head in E. rewrite <- E. do 2 f_equal. rewrite length_app. lia.
Qed.

(** The record is found, decrypted and passed on, and what follows it stays. *)
Lemma find_record ni fuel c tail hdr body data rest :
  conn_ok c -> header hdr (length body) -> stream c tail (hdr ++ body ++ rest) -> opens c body data -> (length (hdr ++ body ++ rest) <= fuel)%nat ->
  exists c', tls_xread_record ni (S fuel) c = on_record ni (tls_xread_record ni fuel) c' (Z.of_nat (length data)) /\
    (exists more, inbuf c' = hdr ++ data ++ more) /\ conn_ok c' /\ stream c' tail rest /\ same_keys c c'.
Proof.
  intros [Ho Hm] Hh (chunks & Hc & Hi & Hs) Hop Hf. cbn [tls_xread_record].
  set (c0 := if (buffered_size c =? 0)%nat then c else _).
  assert (exists inb0, c0 = set_inbuf inb0 c /\ length inb0 = length (inbuf c) /\
    take (buffered_size c) inb0 = take (buffered_size c) (drop (ofs_to_buffered c) (inbuf c))) as (inb0 & -> & L0 & T0).
  { unfold c0. destruct (Nat.eqb_spec (buffered_size c) 0) as [E|E].
    - exists (inbuf c). rewrite E, !take_0. split; [by destruct c|done].
    - eexists. split; [done|]. set (d := take _ (drop _ _)).
      assert (length d = buffered_size c) as Ld by (unfold d; rewrite length_take, length_drop; lia).
      rewrite HashStream.length_copy_into by lia. split; [done|]. rewrite <- Ld at 1. apply (take_copy _ 0). lia. }
  destruct (fill_spec (S fuel) (set_inbuf inb0 c) (buffered_size c) MAX_INBUF chunks tail hdr body rest)
    as (inb & chunks' & total & -> & Hb & Hmax & Hc' & E); cbn [inbuf set_inbuf input]; [lia|lia|done|done|by rewrite T0, <- Hs|done|by left| |].
  { rewrite Hs, length_app in Hf. lia. }
  cbn [mbind outcome_bind]. destruct (Hh) as (L5 & _). destruct (filled inb chunks' total hdr body rest L5 Hb E) as [Einb Erest].
  replace (5 + length body - RECHDR_LEN)%nat with (length body) by (cbv [RECHDR_LEN]; lia). set (c2 := set_buffered _ _ _).
  destruct (Hop c2 hdr (drop (5 + length body) inb)) as (junk & -> & Lj); [done|done|done|].
  cbn [mbind outcome_bind inbuf set_inbuf byte_at]. destruct (Z.ltb_spec (Z.of_nat (length data)) 0); [lia|].
  eexists. split; [done|]. cbn [inbuf set_inbuf]. split; [by eexists|].
  assert (drop (5 + length body) (hdr ++ data ++ junk ++ drop (5 + length body) inb) = drop (5 + length body) inb) as Ed.
  { rewrite !app_assoc. rewrite <- (app_assoc hdr). apply drop_app_length'. rewrite length_app. lia. }
  split; [|split; [|done]].
  - split; cbn [ofs_to_buffered buffered_size inbuf set_inbuf c2 set_buffered]; rewrite !length_app, length_drop; rewrite length_app in Lj; lia.
  - exists chunks'. split; [done|]. split; [done|]. cbn [ofs_to_buffered buffered_size inbuf set_inbuf c2 set_buffered]. by rewrite Ed.
Qed.

Lemma byte_at_header (hdr x : bytes) i : (i < length hdr)%nat -> byte_at (hdr ++ x) i = hdr !!! i.
Proof. intros H. unfold byte_at. by apply lookup_total_app_l. Qed.

(** Neither an alert nor a handshake message: the data is delivered. *)
Lemma read_record ni fuel c tail hdr body data rest :
  conn_ok c -> header hdr (length body) -> stream c tail (hdr ++ body ++ rest) -> opens c body data ->
  hdr !!! 0%nat <> RECORD_TYPE_ALERT -> hdr !!! 0%nat <> RECORD_TYPE_HANDSHAKE -> (length (hdr ++ body ++ rest) < fuel)%nat ->
  exists c', tls_xread_record ni fuel c = Ok (Z.of_nat (length data), c') /\
    (exists more, inbuf c' = hdr ++ data ++ more) /\ conn_ok c' /\ stream c' tail rest /\ same_keys c c'.
Proof.
  intros Hok Hh Hs Hop Ha Hhs Hf. destruct fuel as [|fuel]; [lia|].
  destruct (find_record ni fuel c tail hdr body data rest Hok Hh Hs Hop ltac:(lia)) as (c' & E & (more & Hin) & P). exists c'.
  split; [|split; [by eexists|done]]. rewrite E. unfold on_record. rewrite Hin, byte_at_header by (destruct Hh; lia).
  by rewrite (proj2 (Z.eqb_neq _ _) Ha), (proj2 (Z.eqb_neq _ _) Hhs).
Qed.

(** ** Headers *)

(** The header of a record of [n] bytes as RFC 5246 defines it. *)
Definition hdr (type : Z) (n : nat) : bytes := [type; 3; 3] ++ be_bytes 2 (Z.of_nat n).

Lemma record_hdr_spec type n : is_u8 type -> Z.of_nat n < 2 ^ 16 -> record_hdr type (Z.of_nat n) = hdr type n.
Proof.
  intros Ht Hn. unfold record_hdr, hdr. rewrite be_bytes_2, (u8_id type) by (done || lia).
  rewrite (u8_id (Z.land _ _)); [done|]. change 255 with (Z.ones 8). rewrite Z.land_ones by lia. machine.
Qed.

Lemma hdr_header type n : (5 + n <= MAX_INBUF)%nat -> header (hdr type n) n.
Proof.
  intros Hn. pose proof max_inbuf_value. unfold header, hdr. rewrite be_bytes_2 by lia. split; [done|]. split; [done|]. split; [done|]. split; [|done].
  cbn [app]. change (_ !!! 3%nat) with (u8 (Z.shiftr (Z.of_nat n) 8)). change (_ !!! 4%nat) with (Z.land (Z.of_nat n) 255).
  change 255 with (Z.ones 8). rewrite Z.land_ones, Z.shiftr_div_pow2 by lia. unfold u8.
  rewrite (Z.mod_small (_ / _)) by (split; [apply Z.div_pos; lia|apply Z.div_lt_upper_bound; lia]).
  change 256 with (2 ^ 8). rewrite <- Z.div_mod by lia. lia.
Qed.

(** ** The two kinds of encrypted records *)

(** The padding: [k + 1] bytes of value [k], up to a whole block. *)
Definition padding (n : nat) : bytes := replicate (16 - n mod 16) (Z.of_nat (15 - n mod 16)).

Lemma padding_code n : let k := Z.land (Z.lnot (Z.of_nat n)) 15 in replicate (Z.to_nat k + 1) k = padding n.
Proof.
  intros k. pose proof (Nat.mod_upper_bound n 16 ltac:(lia)).
  assert (k = Z.of_nat (15 - n mod 16)) as ->.
  { unfold k. change 15 with (Z.ones 4) at 1. rewrite Z.land_ones, Nat2Z.inj_sub, Nat2Z.inj_mod by lia. unfold Z.lnot. machine. }
  unfold padding. rewrite Nat2Z.id. f_equal. lia.
Qed.

Lemma padding_bytes n : bytes_ok (padding n) /\ ((n + length (padding n)) mod 16 = 0)%nat /\ (1 <= length (padding n) <= 16)%nat.
Proof.
  pose proof (Nat.mod_upper_bound n 16 ltac:(lia)). unfold padding. rewrite length_replicate. split; [apply Forall_replicate; machine|].
  split; [|lia]. pose proof (Nat.div_mod_eq n 16). replace (n + (16 - n mod 16))%nat with ((n / 16 + 1) * 16)%nat by lia. apply Nat.Div0.mod_mul.
Qed.

Lemma opens_gcm r body data : aesgcm_flag r = true -> min_encrypted_len_on_read r = 24%nat -> length body = (length data + 24)%nat ->
  (forall more, exists junk, tls_aesgcm_decrypt (crypt r) (body ++ more) (length data) = Ok (data ++ junk ++ more) /\ length junk = 24%nat) ->
  opens r body data.
Proof.
  intros Hg Hmin Lb D c' h more (Ec & Eg & Em & _) Lh Hin. destruct (D more) as (junk & Ed & Lj). exists junk.
  unfold decrypt_record. rewrite Em, Hmin, Eg, Hg, Ec, Hin, Lb.
  destruct (Z.eqb_spec (Z.of_nat 24) 0); [lia|]. destruct (Z.ltb_spec (Z.of_nat (length data + 24)) (Z.of_nat 24)); [lia|].
  destruct (Z.ltb_spec (Z.of_nat (length data + 24) - (8 + 16)) 0); [lia|].
  replace (Z.of_nat (length data + 24) - (8 + 16)) with (Z.of_nat (length data)) by lia. rewrite Nat2Z.id.
  rewrite (take_app_length' h), (drop_app_length' h) by (by cbv [RECHDR_LEN]). rewrite Ed. cbn [mbind outcome_bind].
  split; [done|]. rewrite length_app. lia.
Qed.

Lemma opens_cbc r iv ct data mac : aesgcm_flag r = false -> min_encrypted_len_on_read r = 48%nat -> length iv = 16%nat ->
  length mac = 32%nat -> let pt := data ++ mac ++ padding (length data + 32) in length ct = length pt ->
  aes_cbc_decrypt (aes_decrypt (crypt r)) iv ct = Ok pt -> opens r (iv ++ ct) data.
Proof.
  intros Hg Hmin Liv Lmac pt Lct D c' h more (Ec & Eg & Em & _) Lh Hin.
  destruct (padding_bytes (length data + 32)) as (_ & Hp & Hpl).
  assert (length pt = length data + 32 + length (padding (length data + 32)))%nat as Lpt by (unfold pt; rewrite !length_app; lia).
  exists (mac ++ padding (length data + 32) ++ drop (length ct) (iv ++ ct)).
  unfold decrypt_record. rewrite Em, Hmin, Eg, Hg, Ec, Hin.
  rewrite (take_app_length' h), (drop_app_length' h) by (by cbv [RECHDR_LEN]). rewrite length_app, Liv.
  change (Z.of_nat 48 =? 0) with false. cbv iota. destruct (Z.ltb_spec (Z.of_nat (16 + length ct)) (Z.of_nat 48)) as [?|_].
  { assert (48 <= length pt)%nat; [|lia]. rewrite <- Lpt in Hp. apply Nat.Div0.mod_divides in Hp as [q Hq]. lia. }
  change (Z.of_nat TLS_MAC_SIZE <? Z.of_nat 48) with true. cbv iota.
  assert (Z.land (Z.of_nat (16 + length ct)) 15 = 0) as ->.
  { change 15 with (Z.ones 4). rewrite Z.land_ones by lia. rewrite <- Lpt, <- Lct in Hp. apply Nat.Div0.mod_divides in Hp as [q Hq]. rewrite Hq.
    replace (Z.of_nat (16 + 16 * q)) with ((Z.of_nat q + 1) * 2 ^ 4) by lia. apply Z.mod_mul. lia. }
  cbn [negb Z.eqb]. replace (Z.of_nat (16 + length ct) - 16) with (Z.of_nat (length ct)) by lia. rewrite Nat2Z.id, <- app_assoc.
  rewrite take_app_length', drop_app_length', take_app_length by done. rewrite D. cbn [mbind outcome_bind].
  assert (copy_into (iv ++ ct ++ more) 0 pt = data ++ (mac ++ padding (length data + 32) ++ drop (length ct) (iv ++ ct)) ++ more) as ->.
  { unfold copy_into, pt. rewrite take_0. cbn [app Nat.add]. rewrite <- !app_assoc. do 3 f_equal. fold pt. rewrite <- Lct.
    rewrite (app_assoc iv), drop_app_le by (rewrite length_app; lia). done. }
  assert (byte_at (data ++ (mac ++ padding (length data + 32) ++ drop (length ct) (iv ++ ct)) ++ more) (Z.to_nat (Z.of_nat (length ct) - 1)) =
    Z.of_nat (length (padding (length data + 32))) - 1) as ->.
  { unfold byte_at. replace (Z.to_nat (Z.of_nat (length ct) - 1)) with (length ct - 1)%nat by lia.
    rewrite lookup_total_app_r, <- app_assoc by lia. rewrite lookup_total_app_r, <- app_assoc by lia. rewrite lookup_total_app_l by lia.
    unfold padding in *. rewrite length_replicate in *. rewrite list_lookup_total_alt, lookup_replicate_2 by lia. cbn. lia. }
  split; [cbv [TLS_MAC_SIZE]; do 2 f_equal; lia|]. rewrite !length_app, length_drop, length_app. lia.
Qed.

(** ** Writing and reading *)

(** A connection that is ready to write encrypted records. *)
Record writer_ok (w : conn) : Prop := {
  w_aes : aes_ok (aes_encrypt (crypt w));
  w_H : block_ok (H (crypt w));
  w_IV : (4 <= length (client_write_IV (crypt w)))%nat /\ bytes_ok (client_write_IV (crypt w));
  w_seq : is_u64 (write_seq64_be (crypt w));
  w_key : bytes_ok (client_write_MAC_key w) }.

(** The peer has the same keys and reads the same kind of records, with the
    minimal sizes that the end of the handshake sets. *)
Record peers (w r : conn) : Prop := {
  p_aes : aes_decrypt (crypt r) = aes_encrypt (crypt w);
  p_IV : server_write_IV (crypt r) = client_write_IV (crypt w);
  p_mode : aesgcm_flag r = aesgcm_flag w;
  p_min : min_encrypted_len_on_read r = if aesgcm_flag w then 24%nat else 48%nat }.

(** The record of [data] as RFC 5288 and RFC 5246 (6.2.3.2) define it. *)
Definition sealed (w : conn) (type : Z) (iv data body : bytes) : Prop :=
  let seq := le_bytes 8 (write_seq64_be (crypt w)) in
  let n := length data in
  if aesgcm_flag w then
    let nonce := take 4 (client_write_IV (crypt w)) ++ seq in
    exists ct y0, length ct = n /\ (forall i, (i < n)%nat -> masked (aes_encrypt (crypt w)) nonce 1 data ct i) /\
      aes_encrypt_one_block (aes_encrypt (crypt w)) (nonce ++ [0; 0; 0; 1]) = Ok y0 /\
      body = seq ++ ct ++ gcm_tag (H (crypt w)) (seq ++ hdr type n) ct y0
  else
    exists ct, body = iv ++ ct /\ length ct = (n + 32 + length (padding (n + 32)))%nat /\
      aes_cbc_encrypt (aes_encrypt (crypt w)) iv
        (data ++ TlsHmac.HMAC (take 32 (client_write_MAC_key w)) (seq ++ hdr type n ++ data) ++ padding (n + 32)) = Ok ct.

(** What the reader gets for a written record. *)
Definition readable (w : conn) (data body : bytes) : Prop :=
  (length body <= length data + 64)%nat /\ forall r, peers w r -> opens r body data.

Section write.
Context (ni : list Z -> bytes -> list Z) (Hni : HashProps.same_block ni) (cpuid_ebx : Z).
Context (w : conn) (Hw : writer_ok w) (type : Z) (Ht : is_u8 type).
Context (data : bytes) (Hd : bytes_ok data) (Hlen : (length data <= 2 ^ 14)%nat).

Lemma write_gcm : aesgcm_flag w = true ->
  exists body, sealed w type [] data body /\ readable w data body /\
    xwrite_encrypted_aesgcm (crypt w) data (length data) type =
      Ok (hdr type (length body) ++ body, set_seq (crypt w) (SWAP_BE64 (u64 (1 + SWAP_BE64 (write_seq64_be (crypt w)))))).
Proof using Hw Ht Hd Hlen.
  intros Hg. destruct Hw as [Ha HH [HI1 HI2] Hs Hk].
  destruct (gcm_record_spec (crypt w) data type Ha HH HI1 HI2 Hs Ht Hd Hlen) as (ct & y0 & Lct & Ey & Ex & Em & D).
  set (seq := le_bytes 8 (write_seq64_be (crypt w))) in *. set (tag := gcm_tag _ _ _ _) in Ex, D.
  assert (length (seq ++ ct ++ tag) = (length data + 24)%nat) as Lb.
  { unfold seq, tag, gcm_tag. rewrite !length_app, length_le_bytes, length_be_bytes. lia. }
  exists (seq ++ ct ++ tag). split; [|split; [split|]].
  - unfold sealed. rewrite Hg. exists ct, y0. done.
  - lia.
  - intros r [P1 P2 P3 P4]. rewrite Hg in P3, P4. apply opens_gcm; [done|done|done|].
    intros more. rewrite <- !app_assoc. by apply D.
  - rewrite Ex, Lb. done.
Qed.

Lemma write_cbc stack iv : aesgcm_flag w = false -> TlsHmac.sized stack -> length iv = 16%nat -> bytes_ok iv ->
  exists body sh, sealed w type iv data body /\ readable w data body /\
    xwrite_encrypted_and_hmac_signed ni cpuid_ebx w stack iv data (length data) type =
      Ok (xwrite (hdr type (length body) ++ body)
            (set_crypt (set_seq (crypt w) (SWAP_BE64 (u64 (1 + SWAP_BE64 (write_seq64_be (crypt w)))))) (set_hash (hsd w) sh w))).
Proof using Hni Hw Ht Hd Hlen.
  intros Hg Hst Liv Biv. destruct Hw as [Ha HH HI Hs Hk].
  assert (Z.of_nat (length data) <= 2 ^ 14) as Hl by (change (2 ^ 14)%nat with (Z.to_nat (2 ^ 14)) in Hlen; lia). clear Hlen.
  unfold xwrite_encrypted_and_hmac_signed. rewrite (take_ge data), record_hdr_spec by (done || lia). set (key := take TLS_MAC_SIZE _).
  set (seq := le_bytes 8 _). assert (bytes_ok (hdr type (length data))) as Bh.
  { apply bytes_ok_app. split; [|apply be_bytes_ok]. constructor; [done|]. repeat constructor; machine. }
  destruct (TlsHmac.hmac_spec ni Hni cpuid_ebx (shaNI w) stack key [seq; hdr type (length data); data] Hst) as [sh ->];
    [by apply bytes_ok_take|unfold key; rewrite length_take; cbv [TLS_MAC_SIZE]; lia|constructor; [apply le_bytes_ok|]; constructor; [exact Bh|]; constructor; [exact Hd|constructor]|].
  cbn [concat]. rewrite app_nil_r. set (mac := TlsHmac.HMAC key _). destruct (TlsHmac.HMAC_bytes key (seq ++ hdr type (length data) ++ data)) as [Bm Lm].
  fold mac in Bm, Lm. rewrite padding_code. change (length data + TLS_MAC_SIZE)%nat with (length data + 32)%nat.
  destruct (padding_bytes (length data + 32)) as (Bp & Hp & Hpl). set (pt := data ++ mac ++ padding (length data + 32)).
  assert (length pt = length data + 32 + length (padding (length data + 32)))%nat as Lpt by (unfold pt; rewrite !length_app; lia).
  rewrite <- Lpt in Hp. apply Nat.Div0.mod_divides in Hp as [q Hq]. cbn [crypt set_crypt set_seq aes_encrypt].
  destruct (cbc_loop_roundtrip (aes_encrypt (crypt w)) q iv pt (length pt)) as (ct & E1 & E2 & E3 & E4);
    [done|by split|unfold pt; by rewrite !bytes_ok_app|done|lia|].
  unfold aes_cbc_encrypt. rewrite (take_ge iv), E1 by lia. cbn [mbind outcome_bind].
  exists (iv ++ ct), sh. split; [|split; [split|]].
  - unfold sealed. rewrite Hg. exists ct. split; [done|]. split; [lia|]. unfold aes_cbc_encrypt. by rewrite (take_ge iv) by lia.
  - rewrite length_app. lia.
  - intros r [P1 P2 P3 P4]. rewrite Hg in P3, P4. apply (opens_cbc r iv ct data mac); [done|done|done|done|done|].
    rewrite P1. unfold aes_cbc_decrypt. rewrite (take_ge iv) by lia. apply E4. lia.
  - rewrite record_hdr_spec by (done || (cbv [AES_BLOCK_SIZE]; lia)). cbv [AES_BLOCK_SIZE]. rewrite length_app, Liv, E2. do 4 f_equal. lia.
Qed.
End write.

(** The connection after writing a record. *)
Definition wrote (w : conn) (rec : bytes) (sh : Z) : conn :=
  xwrite rec (set_crypt (set_seq (crypt w) (SWAP_BE64 (u64 (1 + SWAP_BE64 (write_seq64_be (crypt w)))))) (set_hash (hsd w) sh w)).

Lemma xwrite_encrypted_spec ni (Hni : HashProps.same_block ni) cpuid_ebx w (Hw : writer_ok w)
    stack (Hst : TlsHmac.sized stack) iv (Hiv : aesgcm_flag w = false -> length iv = 16%nat /\ bytes_ok iv)
    type (Ht : is_u8 type) data (Hd : bytes_ok data) (Hlen : (length data <= 2 ^ 14)%nat) :
  exists body sh, xwrite_encrypted ni cpuid_ebx w stack iv data (length data) type = Ok (wrote w (hdr type (length body) ++ body) sh) /\
    sealed w type iv data body /\ readable w data body.
Proof.
  unfold xwrite_encrypted. destruct (aesgcm_flag w) eqn:Hg.
  - destruct (write_gcm w Hw type Ht data Hd Hlen Hg) as (body & Hse & Hr & ->). cbn [mbind outcome_bind]. exists body, (shaNI w). split; [by destruct w|].
    split; [|done]. unfold sealed in *. by rewrite Hg in *.
  - destruct (Hiv eq_refl) as [Liv Biv].
    destruct (write_cbc ni Hni cpuid_ebx w Hw type Ht data Hd Hlen stack iv Hg Hst Liv Biv) as (body & sh & Hse & Hr & ->). by exists body, sh.
Qed.

Lemma seq_u64 z : is_u64 (SWAP_BE64 (u64 z)).
Proof. unfold SWAP_BE64. apply (be_val_range (le_bytes 8 (u64 z))), le_bytes_ok. Qed.

Lemma writer_next w w' : writer_ok w -> crypt w' = set_seq (crypt w) (SWAP_BE64 (u64 (1 + SWAP_BE64 (write_seq64_be (crypt w))))) ->
  client_write_MAC_key w' = client_write_MAC_key w -> writer_ok w'.
Proof. intros [H1 H2 H3 H4 H5] E Ek. split; rewrite ?E, ?Ek; try done. apply seq_u64. Qed.

Lemma peers_next w w' r r' : peers w r -> crypt w' = set_seq (crypt w) (SWAP_BE64 (u64 (1 + SWAP_BE64 (write_seq64_be (crypt w))))) ->
  aesgcm_flag w' = aesgcm_flag w -> same_keys r r' -> peers w' r'.
Proof. intros [H1 H2 H3 H4] E Eg (K1 & K2 & K3 & _). split; rewrite ?E, ?Eg, ?K1, ?K2, ?K3; done. Qed.

(** Writing one record and reading it. *)
Lemma record_transfer ni (Hni : HashProps.same_block ni) cpuid_ebx w (Hw : writer_ok w)
    stack (Hst : TlsHmac.sized stack) iv (Hiv : length iv = 16%nat /\ bytes_ok iv)
    type (Ht : is_u8 type /\ type <> RECORD_TYPE_ALERT /\ type <> RECORD_TYPE_HANDSHAKE)
    data (Hd : bytes_ok data) (Hlen : (length data <= 2 ^ 14)%nat) :
  exists body w', xwrite_encrypted ni cpuid_ebx w stack iv data (length data) type = Ok w' /\
    output w' = output w ++ [hdr type (length body) ++ body] /\ sealed w type iv data body /\ writer_ok w' /\
    crypt w' = set_seq (crypt w) (SWAP_BE64 (u64 (1 + SWAP_BE64 (write_seq64_be (crypt w))))) /\
    forall r rest tail fuel, peers w r -> conn_ok r -> stream r tail ((hdr type (length body) ++ body) ++ rest) ->
      (length ((hdr type (length body) ++ body) ++ rest) < fuel)%nat ->
      exists r', tls_xread_record ni fuel r = Ok (Z.of_nat (length data), r') /\
        (exists more, inbuf r' = hdr type (length body) ++ data ++ more) /\
        conn_ok r' /\ stream r' tail rest /\ peers w' r'.
Proof.
  destruct Ht as (Ht & Ha & Hh).
  destruct (xwrite_encrypted_spec ni Hni cpuid_ebx w Hw stack Hst iv (fun _ => Hiv) type Ht data Hd Hlen) as (body & sh & E & Hse & Hl & Hop).
  set (w' := wrote w _ _) in E. exists body, w'. split; [done|]. split; [done|]. split; [done|]. split; [by apply (writer_next w)|]. split; [done|].
  intros r rest tail fuel Hp Hr Hs Hf. rewrite <- app_assoc in Hs, Hf.
  destruct (read_record ni fuel r tail (hdr type (length body)) body data rest Hr) as (r' & E1 & E2 & E3 & E4 & E5); try done.
  - apply hdr_header. pose proof max_inbuf_value. change (2 ^ 14)%nat with (Z.to_nat (2 ^ 14)) in Hlen. lia.
  - by apply Hop.
  - exists r'. repeat (split; [done|]). by apply (peers_next w w' r r').
Qed.

(** ** Many records *)

(** The application data of a connection: each piece with its random vector. *)
Fixpoint write_all (ni : list Z -> bytes -> list Z) (cpuid_ebx : Z) (stack : TlsHmac.hmac_precomputed_t) (w : conn) (msgs : list (bytes * bytes)) :
    outcome conn :=
  match msgs with
  | [] => Ok w
  | (iv, data) :: msgs =>
      w ← xwrite_encrypted ni cpuid_ebx w stack iv data (length data) RECORD_TYPE_APPLICATION_DATA;
      write_all ni cpuid_ebx stack w msgs
  end.

(** [n] reads, with the data each of them delivers. *)
Fixpoint read_all (ni : list Z -> bytes -> list Z) (fuel : nat) (n : nat) (r : conn) : outcome (list bytes * conn) :=
  match n with
  | O => Ok ([], r)
  | S n =>
      '(sz, r) ← tls_xread_record ni fuel r;
      '(ds, r') ← read_all ni fuel n r;
      Ok (take (Z.to_nat sz) (drop RECHDR_LEN (inbuf r)) :: ds, r')
  end.

Definition msg_ok (m : bytes * bytes) : Prop :=
  (length m.1 = 16%nat /\ bytes_ok m.1) /\ bytes_ok m.2 /\ (length m.2 <= 2 ^ 14)%nat.

(** Claim C32. One encrypted record, in either of the two kinds of cipher suite:
    for every key, sequence number and data of at most 2^14 bytes,
    [xwrite_encrypted] writes one record with the header, nonce or
    initialisation vector, ciphertext and tag or HMAC that the standards define,
    and advances the sequence number; and a peer with the same keys reads
    exactly the data back, however the stream of bytes is cut into reads and
    whatever follows, which stays to be read. *)
Theorem record_roundtrip ni (Hni : HashProps.same_block ni) cpuid_ebx w (Hw : writer_ok w)
    stack (Hst : TlsHmac.sized stack) iv (Hiv : length iv = 16%nat /\ bytes_ok iv)
    type (Ht : is_u8 type /\ type <> RECORD_TYPE_ALERT /\ type <> RECORD_TYPE_HANDSHAKE)
    data (Hd : bytes_ok data) (Hlen : (length data <= 2 ^ 14)%nat) :
  exists body w', xwrite_encrypted ni cpuid_ebx w stack iv data (length data) type = Ok w' /\
    output w' = output w ++ [hdr type (length body) ++ body] /\ sealed w type iv data body /\
    be_val (le_bytes 8 (write_seq64_be (crypt w'))) = (be_val (le_bytes 8 (write_seq64_be (crypt w))) + 1) mod 2 ^ 64 /\
    forall r rest tail fuel, peers w r -> conn_ok r -> stream r tail ((hdr type (length body) ++ body) ++ rest) ->
      (length ((hdr type (length body) ++ body) ++ rest) < fuel)%nat ->
      exists r', tls_xread_record ni fuel r = Ok (Z.of_nat (length data), r') /\
        (exists more, inbuf r' = hdr type (length body) ++ data ++ more) /\
        conn_ok r' /\ stream r' tail rest /\ peers w' r'.
Proof.
  destruct (record_transfer ni Hni cpuid_ebx w Hw stack Hst iv Hiv type Ht data Hd Hlen) as (body & w' & E & Eo & Hse & _ & Ec & Hr).
  exists body, w'. split; [done|]. split; [done|]. split; [done|]. split; [|done]. rewrite Ec. apply next_seq, Hw.
Qed.

(** Claim C31. A whole connection: whatever pieces of application data are
    written, one record each, the peer reads exactly these pieces in this order
    from the concatenated records, for every way in which the network cuts them
    into reads (a read may end inside a header or hold several records), and what
    follows the last record is left for later reads. *)
Theorem stream_roundtrip ni (Hni : HashProps.same_block ni) cpuid_ebx stack (Hst : TlsHmac.sized stack)
    (msgs : list (bytes * bytes)) (Hmsgs : Forall msg_ok msgs) w (Hw : writer_ok w) :
  exists recs w', write_all ni cpuid_ebx stack w msgs = Ok w' /\ output w' = output w ++ recs /\ length recs = length msgs /\
    forall r rest tail fuel, peers w r -> conn_ok r -> stream r tail (concat recs ++ rest) ->
      (length (concat recs ++ rest) < fuel)%nat ->
      exists r', read_all ni fuel (length msgs) r = Ok (msgs.*2, r') /\ conn_ok r' /\ stream r' tail rest /\ peers w' r'.
Proof.
  revert w Hw. induction Hmsgs as [|[iv data] msgs (Hiv & Hd & Hl) Hmsgs IH]; intros w Hw.
  { exists [], w. rewrite app_nil_r. split; [done|]. split; [done|]. split; [done|]. intros r rest tail fuel Hp Hr Hs Hf. by exists r. }
  destruct (record_transfer ni Hni cpuid_ebx w Hw stack Hst iv Hiv RECORD_TYPE_APPLICATION_DATA ltac:(by repeat split) data Hd Hl)
    as (body & w1 & E1 & Eo1 & _ & Hw1 & _ & Hr1).
  destruct (IH w1 Hw1) as (recs & w' & E & Eo & Ln & Hr). cbn [write_all]. rewrite E1. cbn [mbind outcome_bind].
  set (rec := hdr _ _ ++ body) in *. exists (rec :: recs), w'. split; [done|]. split; [by rewrite Eo, Eo1, <- app_assoc|]. split; [cbn; lia|].
  intros r rest tail fuel Hp Hok Hs Hf. cbn [concat] in Hs, Hf. rewrite <- app_assoc in Hs, Hf.
  destruct (Hr1 r (concat recs ++ rest) tail fuel Hp Hok Hs Hf) as (r1 & R1 & (more & Ein) & Ok1 & S1 & P1).
  destruct (Hr r1 rest tail fuel P1 Ok1 S1) as (r' & R2 & Ok2 & S2 & P2); [rewrite length_app in Hf; lia|].
  cbn [length read_all fmap list_fmap snd]. rewrite R1. cbn [mbind outcome_bind]. rewrite R2. cbn [mbind outcome_bind].
  exists r'. split; [|done]. rewrite Ein, Nat2Z.id. rewrite (drop_app_length' (hdr _ _)) by done. by rewrite take_app_length.
Qed.

(** ** Alerts and handshake messages *)

(** Bytes 0 and 1 of the data, after the header. *)
Lemma data_bytes (hdr data more : bytes) i : length hdr = 5%nat -> (i < length data)%nat -> byte_at (hdr ++ data ++ more) (5 + i) = data !!! i.
Proof.
  intros Lh Hi. unfold byte_at. rewrite lookup_total_app_r by lia. rewrite lookup_total_app_l by lia. f_equal. lia.
Qed.

(** Claim C33. What reading a record that opens to [data] does when it is an alert
    or a handshake message, for every connection state and every way the stream
    is cut: a fatal alert ends the process; the warning "close notify" and
    levels the protocol does not define are the end of the stream; any other
    warning is skipped and the result is that of reading the rest of the stream;
    a handshake message is delivered and added to the handshake hash, and once
    the handshake data is freed it is undefined behaviour (the hash context is
    taken from a null pointer). *)
Theorem record_dispatch ni fuel c tail hdr body data rest :
  conn_ok c -> header hdr (length body) -> stream c tail (hdr ++ body ++ rest) -> opens c body data ->
  (length (hdr ++ body ++ rest) <= fuel)%nat ->
  let type := hdr !!! 0%nat in
  let level := data !!! 0%nat in
  let description := data !!! 1%nat in
  exists c', conn_ok c' /\ stream c' tail rest /\ same_keys c c' /\ (exists more, inbuf c' = hdr ++ data ++ more) /\
    (type = RECORD_TYPE_ALERT -> (2 <= length data)%nat -> level = 2 -> tls_xread_record ni (S fuel) c = Throw runtime_error) /\
    (type = RECORD_TYPE_ALERT -> (2 <= length data)%nat -> level <> 2 -> level <> 1 \/ description = 0 ->
       tls_xread_record ni (S fuel) c = Ok (0, c')) /\
    (type = RECORD_TYPE_ALERT -> (2 <= length data)%nat -> level = 1 -> description <> 0 ->
       tls_xread_record ni (S fuel) c = tls_xread_record ni fuel c') /\
    (type = RECORD_TYPE_HANDSHAKE -> hsd c = None -> tls_xread_record ni (S fuel) c = Undef) /\
    (type = RECORD_TYPE_HANDSHAKE -> forall ctx, hsd c = Some ctx ->
       tls_xread_record ni (S fuel) c =
         Ok (Z.of_nat (length data), set_hash (Some (HashMd5Sha.md5_hash ni ctx data)) (shaNI c') c')).
Proof.
  intros Hok Hh Hs Hop Hf type level description.
  destruct (find_record ni fuel c tail hdr body data rest Hok Hh Hs Hop Hf) as (c' & E & (more & Hin) & Hok' & Hs' & Hk).
  destruct Hh as (L5 & _). destruct (Hk) as (_ & _ & _ & Eh & _).
  exists c'. split; [done|]. split; [done|]. split; [done|]. split; [by exists more|]. rewrite E. unfold on_record. rewrite Hin, byte_at_header by lia.
  change 6%nat with (5 + 1)%nat. change (byte_at (hdr ++ data ++ more) 5) with (byte_at (hdr ++ data ++ more) (5 + 0)). fold type.
  repeat split.
  - intros -> L H2. rewrite !data_bytes by lia. fold level. rewrite H2, (proj2 (Z.leb_le _ _)) by lia. done.
  - intros -> L H2 H1. rewrite !data_bytes by lia. fold level description. rewrite (proj2 (Z.leb_le _ _)) by lia. cbn [Z.eqb andb].
    rewrite (proj2 (Z.eqb_neq _ _) H2). destruct (Z.eqb_spec level 1) as [E1|]; [|done]. destruct H1 as [H1|H1]; [done|]. by rewrite H1.
  - intros -> L H1 H2. rewrite !data_bytes by lia. fold level description. rewrite (proj2 (Z.leb_le _ _)) by lia.
    rewrite H1. cbn [Z.eqb andb]. by rewrite (proj2 (Z.eqb_neq _ _) H2).
  - intros -> Hn. change (RECORD_TYPE_HANDSHAKE =? RECORD_TYPE_ALERT) with false. change (RECORD_TYPE_HANDSHAKE =? RECORD_TYPE_HANDSHAKE) with true.
    cbn [andb]. cbv iota. unfold hash_handshake. by rewrite Eh, Hn.
  - intros -> ctx Hn. change (RECORD_TYPE_HANDSHAKE =? RECORD_TYPE_ALERT) with false. change (RECORD_TYPE_HANDSHAKE =? RECORD_TYPE_HANDSHAKE) with true.
    cbn [andb]. cbv iota. unfold hash_handshake. rewrite Eh, Hn. cbn [mbind outcome_bind].
    rewrite Nat2Z.id, (drop_app_length' hdr) by (by cbv [RECHDR_LEN]). by rewrite take_app_length.
Qed.

(** Before the ciphers are switched on, the body is the data. *)
Lemma opens_plain c body : min_encrypted_len_on_read c = 0%nat -> opens c body body.
Proof.
  intros Hm c' h more (_ & _ & Em & _) _ Hin. exists []. unfold decrypt_record. rewrite Em, Hm. cbn [Z.eqb Z.of_nat]. rewrite app_nil_r.
  split; [|done]. do 2 f_equal. cbn [app]. rewrite <- Hin. by destruct c'.
Qed.

(** ** Examples *)

Definition sample_conn (gcm : bool) (min : nat) (i : list read_result) : conn :=
  {| crypt := sample_state; aesgcm_flag := gcm; encrypt_on_write := true; min_encrypted_len_on_read := min;
     client_write_MAC_key := replicate 32 7; inbuf := []; ofs_to_buffered := 0; buffered_size := 0; hsd := None;
     shaNI := 0; input := i; output := [] |}.

Lemma sample_writer gcm min i : writer_ok (sample_conn gcm min i).
Proof.
  split; cbn [crypt sample_conn client_write_MAC_key].
  - apply aes_setkey_ok; [by repeat constructor|set_solver].
  - split; [reflexivity|]. by repeat constructor.
  - split; [apply Nat.le_refl|by repeat constructor].
  - by split.
  - by repeat constructor.
Qed.

Lemma sample_conn_ok gcm min i : conn_ok (sample_conn gcm min i).
Proof. split; cbn; lia. Qed.

(** All the bytes in one read. *)
Definition one_read (s : bytes) : list read_result := match s with [] => [] | _ => [Data s] end.

Lemma sample_stream gcm min s : stream (sample_conn gcm min (one_read s)) [] s.
Proof.
  destruct s as [|x s]; [exists []; done|]. exists [x :: s]. split; [by repeat constructor|]. split; [done|]. cbn. by rewrite app_nil_r.
Qed.

(** A record with HMAC and CBC, read in one piece. *)
Lemma record_roundtrip_witness : exists body w' r',
  let rec := hdr 23 (length body) ++ body in
  xwrite_encrypted HashMd5Sha.sha256_process_block64 0 (sample_conn false 48 []) TlsHmac.stack_memory (replicate 16 5) (replicate 20 9) 20 23 = Ok w' /\
  tls_xread_record HashMd5Sha.sha256_process_block64 (S (length rec)) (sample_conn false 48 (one_read rec)) = Ok (20, r').
Proof.
  destruct (record_roundtrip HashMd5Sha.sha256_process_block64 (fun _ _ _ _ => eq_refl) 0 (sample_conn false 48 []) (sample_writer false 48 [])
    TlsHmac.stack_memory (conj eq_refl eq_refl) (replicate 16 5)) with (type := 23) (data := replicate 20 9)
    as (body & w' & E & _ & _ & _ & R).
  - split; [done|]. by repeat constructor.
  - by repeat split.
  - by repeat constructor.
  - apply Nat.ltb_lt. reflexivity.
  - set (rec := hdr 23 (length body) ++ body) in *.
    destruct (R (sample_conn false 48 (one_read rec)) [] [] (S (length rec))) as (r' & Er & _).
    + by split.
    + apply sample_conn_ok.
    + rewrite app_nil_r. apply sample_stream.
    + rewrite app_nil_r. lia.
    + exists body, w', r'. exact (conj E Er).
Defined.

(** Two messages in AES-GCM records. *)
Lemma stream_roundtrip_witness : exists recs w' r',
  let msgs := [(replicate 16 0, bs "hello"); (replicate 16 0, bs "world")] in
  write_all HashMd5Sha.sha256_process_block64 0 TlsHmac.stack_memory (sample_conn true 24 []) msgs = Ok w' /\
  read_all HashMd5Sha.sha256_process_block64 (S (length (concat recs))) 2 (sample_conn true 24 (one_read (concat recs))) =
    Ok ([bs "hello"; bs "world"], r').
Proof.
  destruct (stream_roundtrip HashMd5Sha.sha256_process_block64 (fun _ _ _ _ => eq_refl) 0 TlsHmac.stack_memory (conj eq_refl eq_refl)
    [(replicate 16 0, bs "hello"); (replicate 16 0, bs "world")]) with (w := sample_conn true 24 []) as (recs & w' & E & _ & _ & R).
  - assert (5 <= 2 ^ 14)%nat as L by (apply Nat.leb_le; reflexivity).
    constructor; [|constructor; [|constructor]]; (split; [split; [done|by repeat constructor]|split; [by repeat constructor|exact L]]).
  - apply sample_writer.
  - destruct (R (sample_conn true 24 (one_read (concat recs))) [] [] (S (length (concat recs)))) as (r' & Er & _).
    + by split.
    + apply sample_conn_ok.
    + rewrite app_nil_r. apply sample_stream.
    + rewrite app_nil_r. lia.
    + exists recs, w', r'. exact (conj E Er).
Defined.

(** A request to renegotiate after the handshake. *)
Lemma record_dispatch_witness :
  tls_xread_record HashMd5Sha.sha256_process_block64 10 (sample_conn true 0 [Data [22; 3; 3; 0; 4; 0; 0; 0; 0]]) = Undef.
Proof.
  destruct (record_dispatch HashMd5Sha.sha256_process_block64 9 (sample_conn true 0 [Data [22; 3; 3; 0; 4; 0; 0; 0; 0]]) []
    [22; 3; 3; 0; 4] [0; 0; 0; 0] [0; 0; 0; 0] []) as (c' & _ & _ & _ & _ & _ & _ & _ & H & _).
  - apply sample_conn_ok.
  - apply (hdr_header 22 4). pose proof max_inbuf_value. lia.
  - exact (sample_stream true 0 [22; 3; 3; 0; 4; 0; 0; 0; 0]).
  - by apply opens_plain.
  - cbn. lia.
  - by apply H.
Defined.

End TlsRecordProps.
