(* ===== verification/Sp256.v ===== *)
(** * The curve P-256 of the TLS client (src/busybox/networking/tls_sp_c32.c)

    Numbers of 256 bits are arrays of eight 32-bit digits, least significant
    first.  The file has two versions of the low-level arithmetic: portable C on
    32-bit digits, and x86-64 code (partly assembler) that takes the same memory
    as four 64-bit words.  The class [SpArith] lists what they provide and both
    are instances; everything above is written once.  Memory is little-endian.

    Numbers are kept in Montgomery form, below 2^256 but not always below the
    modulus. *)

From S2P Require Import Prelude.

Module Sp256.

Abbreviation digits := (list Z).

Definition p256_mod : digits := [0xffffffff; 0xffffffff; 0xffffffff; 0; 0; 0; 1; 0xffffffff].

(** A number of equal sized digits, and the digits of a number. *)
Fixpoint nval (w : Z) (l : list Z) : Z :=
  match l with [] => 0 | d :: l => d + 2 ^ w * nval w l end.

Fixpoint ndigits (w : Z) (n : nat) (v : Z) : list Z :=
  match n with O => [] | S n => v mod 2 ^ w :: ndigits w n (v / 2 ^ w) end.

(** The interface of the low-level arithmetic; carries and borrows are tested
    for zero only. *)
Class SpArith := {
  sp_256_to_bin_8 : digits -> bytes;
  sp_256_from_bin_8 : bytes -> digits;
  sp_256_cmp_8 : digits -> digits -> Z;
  sp_256_add_8 : digits -> digits -> digits * bool;
  sp_256_sub_8 : digits -> digits -> digits * bool;
  sp_256_sub_8_p256_mod : digits -> digits;
  sp_256to512_mul_8 : digits -> digits -> digits;
  sp_256_rshift1_8 : digits -> bool -> digits;
  sp_512to256_mont_reduce_8 : digits -> digits }.

(** From the most significant digit down. *)
Fixpoint cmp_digits (a b : list Z) : Z :=
  match a, b with
  | x :: a, y :: b => if x =? y then cmp_digits a b else Z.b2z (y <? x) * 2 - 1
  | _, _ => 0
  end.

(** [++a[j]] until a digit does not overflow; true when there is no digit left. *)
Fixpoint inc_next_word (w : Z) (l : list Z) : list Z * bool :=
  match l with
  | [] => ([], true)
  | x :: l =>
      let x := (x + 1) mod 2 ^ w in
      if x =? 0 then let '(l, c) := inc_next_word w l in (x :: l, c) else (x :: l, false)
  end.

(** The shift loop, from the most significant digit down. *)
Fixpoint rshift_digits (w : Z) (l : list Z) (carry : Z) : list Z :=
  match l with
  | [] => []
  | x :: l => Z.lor (Z.shiftr x 1) carry :: rshift_digits w l (Z.shiftl x (w - 1) mod 2 ^ w)
  end.

(** Digits of [k] bytes, written and read in big-endian order. *)
Definition to_bin (k : nat) (r : list Z) : bytes := concat (be_bytes k <$> reverse r).

Fixpoint from_bin_loop (k n : nat) (a : bytes) (r : list Z) : list Z :=
  match n with O => r | S n => from_bin_loop k n (drop k a) (be_val (take k a) :: r) end.

(** ** Portable C, 32-bit digits *)
Module Generic.

Definition cmp_8 (a b : digits) : Z := cmp_digits (reverse a) (reverse b).

Fixpoint add_loop (a b : digits) (carry : Z) : digits * bool :=
  match a, b with
  | x :: a, y :: b =>
      let w := u32 (y + carry) in
      let v := if w =? 0 then x else u32 (x + w) in
      let carry := if w =? 0 then carry else Z.b2z (v <? x) in
      let '(r, c) := add_loop a b carry in (v :: r, c)
  | _, _ => ([], negb (carry =? 0))
  end.

Fixpoint sub_loop (a b : digits) (borrow : Z) : digits * bool :=
  match a, b with
  | x :: a, y :: b =>
      let w := u32 (y + borrow) in
      let v := if w =? 0 then x else u32 (x - w) in
      let borrow := if w =? 0 then borrow else Z.b2z (x <? v) in
      let '(r, c) := sub_loop a b borrow in (v :: r, c)
  | _, _ => ([], negb (borrow =? 0))
  end.

Definition sub_8 (a b : digits) : digits * bool := sub_loop a b 0.
Definition sub_8_p256_mod (r : digits) : digits := (sub_8 r p256_mod).1.

(** One product of a column: the 64-bit accumulator and what overflows it. *)
Definition mac (a b : digits) (k : nat) (acc : Z * Z) (i : nat) : Z * Z :=
  let m := nth i a 0 * nth (k - i) b 0 in
  let s := u64 (acc.1 + m) in
  (s, if s <? m then u32 (acc.2 + 1) else acc.2).

(** [n] columns from column [k] on; the last digit is what is left. *)
Fixpoint mul_loop (a b : digits) (n k : nat) (acc : Z) : digits :=
  match n with
  | O => [u32 acc]
  | S n =>
      let i := (k - 7)%nat in
      let '(s, hi) := fold_left (mac a b k) (seq i ((k `min` 7) + 1 - i)) (acc, 0) in
      u32 s :: mul_loop a b n (k + 1) (Z.lor (Z.shiftr s 32) (u64 (Z.shiftl hi 32)))
  end.

Definition rshift1_8 (r : digits) (carry : bool) : digits :=
  reverse (rshift_digits 32 (reverse r) (Z.shiftl (Z.b2z carry) 31)).

(** The digits r[0..8] with r[0] times the modulus added; r[0] is not stored. *)
Definition mul_add_8 (r0 r1 r2 r3 r4 r5 r6 r7 r8 : Z) : digits * bool :=
  let b := r0 in
  let r3 := u32 (r3 + b) in
  let t32 := Z.b2z (r3 <? b) in
  let r4' := if negb (t32 =? 0) then u32 (r4 + 1) else r4 in
  let t32' := if negb (t32 =? 0) then Z.b2z (r4' =? 0) else t32 in
  let r5' := if negb (t32' =? 0) then u32 (r5 + 1) else r5 in
  let t32'' := if negb (t32' =? 0) then Z.b2z (r5' =? 0) else t32' in
  let t := u64 (t32'' + b + r6) in
  let r6 := u32 t in
  let t := Z.shiftr t 32 in
  let m := u64 (u64 (Z.shiftl b 32) - b + r7) in
  let t := u64 (t + m) in
  let r7 := u32 t in
  let t := Z.shiftr t 32 in
  let r8 := u32 (r8 + u32 t) in
  ([r1; r2; r3; r4'; r5'; r6; r7; r8], r8 <? u32 t).

(** [n] rounds on the digits from the current one on; the digits passed are not
    looked at again. *)
Fixpoint reduce_loop (n : nat) (a : digits) (word16th : Z) : digits * Z :=
  match n, a with
  | S n, r0 :: r1 :: r2 :: r3 :: r4 :: r5 :: r6 :: r7 :: r8 :: a =>
      let '(r, over) := mul_add_8 r0 r1 r2 r3 r4 r5 r6 r7 r8 in
      let '(a, c) := if over : bool then inc_next_word 32 a else (a, false) in
      reduce_loop n (r ++ a) (if c : bool then u32 (word16th + 1) else word16th)
  | _, _ => (a, word16th)
  end.

Definition mont_reduce_8 (a : digits) : digits :=
  let '(r, word16th) := reduce_loop 8 a 0 in
  if negb (word16th =? 0) then sub_8_p256_mod r else r.

#[global] Instance generic : SpArith := {
  sp_256_to_bin_8 := to_bin 4;
  sp_256_from_bin_8 := fun a => from_bin_loop 4 8 a [];
  sp_256_cmp_8 := cmp_8;
  sp_256_add_8 := fun a b => add_loop a b 0;
  sp_256_sub_8 := sub_8;
  sp_256_sub_8_p256_mod := sub_8_p256_mod;
  sp_256to512_mul_8 := fun a b => mul_loop a b 15 0 0;
  sp_256_rshift1_8 := rshift1_8;
  sp_512to256_mont_reduce_8 := mont_reduce_8 }.
End Generic.

(** ** x86-64, 64-bit words *)
Module X86_64.

(** The same memory as words and as digits. *)
Fixpoint words (r : digits) : list Z :=
  match r with lo :: hi :: r => lo + 2 ^ 32 * hi :: words r | _ => [] end.

Fixpoint unwords (r : list Z) : digits :=
  match r with [] => [] | w :: r => w mod 2 ^ 32 :: w / 2 ^ 32 :: unwords r end.

Definition cmp_8 (a b : digits) : Z := cmp_digits (reverse (words a)) (reverse (words b)).

(** [addq], then [adcq]; the last [sbbq] turns the carry flag into the result. *)
Fixpoint adc (a b : list Z) (cf : bool) : list Z * bool :=
  match a, b with
  | x :: a, y :: b =>
      let s := x + y + Z.b2z cf in
      let '(r, cf) := adc a b (2 ^ 64 <=? s) in (u64 s :: r, cf)
  | _, _ => ([], cf)
  end.

(** [subq], then [sbbq]. *)
Fixpoint sbb (a b : list Z) (cf : bool) : list Z * bool :=
  match a, b with
  | x :: a, y :: b =>
      let s := x - y - Z.b2z cf in
      let '(r, cf) := sbb a b (s <? 0) in (u64 s :: r, cf)
  | _, _ => ([], cf)
  end.

Definition add_8 (a b : digits) : digits * bool :=
  let '(r, cf) := adc (words a) (words b) false in (unwords r, cf).

Definition sub_8 (a b : digits) : digits * bool :=
  let '(r, cf) := sbb (words a) (words b) false in (unwords r, cf).

(** The highest word of the modulus is subtracted by adding its complement. *)
Definition sub_8_p256_mod (r : digits) : digits :=
  let w := words r in
  let '(lo, cf) := sbb (take 3 w) [0xffffffffffffffff; 0x00000000ffffffff; 0] false in
  let reg := u64 (nth 3 w 0 - Z.b2z cf) in
  let reg := u64 (reg + 0x00000000ffffffff) in
  unwords (lo ++ [reg]).

(** [mulq], [addq], [adcq], [adcq] on the three accumulators. *)
Definition mac (a b : list Z) (k : nat) (acc : Z * Z * Z) (i : nat) : Z * Z * Z :=
  let '(accl, acch, acc_hi) := acc in
  let m := nth i a 0 * nth (k - i) b 0 in
  let s := accl + m mod 2 ^ 64 in
  let s' := acch + m / 2 ^ 64 + Z.b2z (2 ^ 64 <=? s) in
  (u64 s, u64 s', u64 (acc_hi + Z.b2z (2 ^ 64 <=? s'))).

Fixpoint mul_loop (a b : list Z) (n k : nat) (accl acch : Z) : list Z :=
  match n with
  | O => [accl]
  | S n =>
      let i := (k - 3)%nat in
      let '(l, h, hi) := fold_left (mac a b k) (seq i ((k `min` 3) + 1 - i)) (accl, acch, 0) in
      l :: mul_loop a b n (k + 1) h hi
  end.

Definition mul_8 (a b : digits) : digits := unwords (mul_loop (words a) (words b) 7 0 0 0).

Definition rshift1_8 (r : digits) (carry : bool) : digits :=
  unwords (reverse (rshift_digits 64 (reverse (words r)) (Z.shiftl (Z.b2z carry) 63))).

(** The words r[0..4] with r[0] times the modulus added; r[0] is not stored. *)
Definition mul_add_4 (r0 r1 r2 r3 r4 : Z) : list Z * bool :=
  let b := r0 in
  let bl := u64 (Z.shiftl b 32) in
  let r1 := u64 (r1 + bl) in
  let t64 := u64 (Z.b2z (r1 <? bl) + Z.shiftr b 32) in
  let r2 := u64 (r2 + t64) in
  let t64 := Z.b2z (r2 <? t64) in
  let t64 := u64 (t64 + b) in
  let t64u := Z.b2z (t64 <? b) in
  let t64 := u64 (t64 + r3) in
  let t64u := t64u + Z.b2z (t64 <? r3) in
  let hi := u64 (bl - b) in
  let b := u64 (Z.shiftr b 32 - Z.b2z (bl <? b)) in
  let lo := u64 (Z.shiftl hi 32) in
  let t64 := u64 (t64 + lo) in
  let t64u := t64u + Z.b2z (t64 <? lo) in
  let hi := Z.lor (Z.shiftr hi 32) (u64 (Z.shiftl b 32)) in
  let t64u := u64 (t64u + hi) in
  let r4 := u64 (r4 + t64u) in
  ([r1; r2; t64; r4], r4 <? t64u).

Fixpoint reduce_loop (n : nat) (a : list Z) (carry : Z) : list Z * Z :=
  match n, a with
  | S n, r0 :: r1 :: r2 :: r3 :: r4 :: a =>
      let '(r, over) := mul_add_4 r0 r1 r2 r3 r4 in
      let '(a, c) := if over : bool then inc_next_word 64 a else (a, false) in
      reduce_loop n (r ++ a) (if c : bool then u32 (carry + 1) else carry)
  | _, _ => (a, carry)
  end.

Definition mont_reduce_8 (a : digits) : digits :=
  let '(r, carry) := reduce_loop 4 (words a) 0 in
  if negb (carry =? 0) then sub_8_p256_mod (unwords r) else unwords r.

#[global] Instance x86_64 : SpArith := {
  sp_256_to_bin_8 := fun r => to_bin 8 (words r);
  sp_256_from_bin_8 := fun a => unwords (from_bin_loop 8 4 a []);
  sp_256_cmp_8 := cmp_8;
  sp_256_add_8 := add_8;
  sp_256_sub_8 := sub_8;
  sp_256_sub_8_p256_mod := sub_8_p256_mod;
  sp_256to512_mul_8 := mul_8;
  sp_256_rshift1_8 := rshift1_8;
  sp_512to256_mont_reduce_8 := mont_reduce_8 }.
End X86_64.

(** ** The field, in Montgomery form *)
Section curve.
Context `{SpArith}.

Definition sp_256_cmp_equal_8 (a b : digits) : bool := sp_256_cmp_8 a b =? 0.

(** Division by two modulo the modulus. *)
Definition sp_256_div2_8 (r : digits) : digits :=
  let '(r, carry) := if Z.odd (nth 0 r 0) then sp_256_add_8 r p256_mod else (r, false) in
  sp_256_rshift1_8 r carry.

Definition sp_256_mont_add_8 (a b : digits) : digits :=
  let '(r, carry) := sp_256_add_8 a b in
  if carry : bool then sp_256_sub_8_p256_mod r else r.

Definition sp_256_mont_sub_8 (a b : digits) : digits :=
  let '(r, borrow) := sp_256_sub_8 a b in
  if borrow : bool then (sp_256_add_8 r p256_mod).1 else r.

Definition sp_256_mont_dbl_8 (a : digits) : digits :=
  let '(r, carry) := sp_256_add_8 a a in
  if carry : bool then sp_256_sub_8_p256_mod r else r.

Definition sp_256_mont_tpl_8 (a : digits) : digits :=
  let '(r, carry) := sp_256_add_8 a a in
  let r := if carry : bool then sp_256_sub_8_p256_mod r else r in
  let '(r, carry) := sp_256_add_8 r a in
  if carry : bool then sp_256_sub_8_p256_mod r else r.

Definition sp_256_mont_mul_8 (a b : digits) : digits := sp_512to256_mont_reduce_8 (sp_256to512_mul_8 a b).
Definition sp_256_mont_sqr_8 (a : digits) : digits := sp_256_mont_mul_8 a a.

(** The product, taken out of Montgomery form. *)
Definition sp_256_mont_mul_and_reduce_8 (a b : digits) : digits :=
  sp_512to256_mont_reduce_8 (sp_256_mont_mul_8 a b ++ replicate 8 0).

(** [n] rounds left: the bits of the modulus minus 2 from 254 down. *)
Fixpoint inv_loop (n : nat) (r a : digits) : digits :=
  match n with
  | O => r
  | S i =>
      let r := sp_256_mont_sqr_8 r in
      let bit := (224 <=? i)%nat || (i =? 192)%nat || ((i <=? 95)%nat && negb (i =? 1)%nat) in
      inv_loop i (if bit then sp_256_mont_mul_8 r a else r) a
  end.

Definition sp_256_mont_inv_8 (a : digits) : digits := inv_loop 255 a a.

(** ** Into Montgomery form *)

(** The first round of carries over the signed 64-bit integers [t]; the last one
    keeps what is above its digit. *)
Definition norm_carry (t : list Z) : list Z :=
  match t with
  | [t0; t1; t2; t3; t4; t5; t6; t7] =>
      let t1 := i64 (t1 + Z.shiftr t0 32) in let t0 := Z.land t0 0xffffffff in
      let t2 := i64 (t2 + Z.shiftr t1 32) in let t1 := Z.land t1 0xffffffff in
      let t3 := i64 (t3 + Z.shiftr t2 32) in let t2 := Z.land t2 0xffffffff in
      let t4 := i64 (t4 + Z.shiftr t3 32) in let t3 := Z.land t3 0xffffffff in
      let t5 := i64 (t5 + Z.shiftr t4 32) in let t4 := Z.land t4 0xffffffff in
      let t6 := i64 (t6 + Z.shiftr t5 32) in let t5 := Z.land t5 0xffffffff in
      let t7 := i64 (t7 + Z.shiftr t6 32) in let t6 := Z.land t6 0xffffffff in
      [t0; t1; t2; t3; t4; t5; t6; t7]
  | _ => []
  end.

(** What is above 2^256 is folded into the digits, with a second round of carries. *)
Definition norm_fold (t : list Z) : digits :=
  match t with
  | [t0; t1; t2; t3; t4; t5; t6; t7] =>
      let o := i32 (Z.shiftr t7 32) in
      let t0 := i64 (t0 + o) in
      let t3 := i64 (t3 - o) in
      let t6 := i64 (t6 - o) in
      let t7 := i64 (t7 + o) in
      let t1 := i64 (t1 + Z.shiftr t0 32) in
      let t2 := i64 (t2 + Z.shiftr t1 32) in
      let t3 := i64 (t3 + Z.shiftr t2 32) in
      let t4 := i64 (t4 + Z.shiftr t3 32) in
      let t5 := i64 (t5 + Z.shiftr t4 32) in
      let t6 := i64 (t6 + Z.shiftr t5 32) in
      [u32 t0; u32 t1; u32 t2; u32 t3; u32 t4; u32 t5; u32 t6; u32 (u32 t7 + u32 (Z.shiftr t6 32))]
  | _ => []
  end.

Definition sp_256_mod_mul_norm_8 (a : digits) : digits :=
  match a with
  | [a0; a1; a2; a3; a4; a5; a6; a7] =>
      norm_fold (norm_carry (i64 <$>
        [a0 + a1 - a3 - a4 - a5 - a6;
         a1 + a2 - a4 - a5 - a6 - a7;
         a2 + a3 - a5 - a6 - a7;
         - a0 - a1 + 2 * a3 + 2 * a4 + a5 - a7;
         - a1 - a2 + 2 * a4 + 2 * a5 + a6;
         - a2 - a3 + 2 * a5 + 2 * a6 + a7;
         - a0 - a1 + a5 + 3 * a6 + 2 * a7;
         a0 - a2 - a3 - a4 - a5 + 3 * a7]))
  | _ => []
  end.

(** ** Points *)

Record sp_point := { x : digits; y : digits; z : digits; infinity : bool }.

Definition zero_8 : digits := replicate 8 0.
Definition one_8 : digits := 1 :: replicate 7 0.

Definition sp_256_point_from_bin2x32 (bin2x32 : bytes) : sp_point :=
  {| x := sp_256_from_bin_8 bin2x32; y := sp_256_from_bin_8 (drop 32 bin2x32); z := one_8; infinity := false |}.

(** One subtraction is enough. *)
Definition below_modulus (r : digits) : digits := if 0 <=? sp_256_cmp_8 r p256_mod then sp_256_sub_8_p256_mod r else r.

(** From projective to affine coordinates; the flag of [r] is left as it was. *)
Definition sp_256_map_8 (r p : sp_point) : sp_point :=
  let t1 := sp_256_mont_inv_8 (z p) in
  let t2 := sp_256_mont_sqr_8 t1 in
  let t1 := sp_256_mont_mul_8 t2 t1 in
  {| x := below_modulus (sp_256_mont_mul_and_reduce_8 (x p) t2);
     y := below_modulus (sp_256_mont_mul_and_reduce_8 (y p) t1);
     z := one_8; infinity := infinity r |}.

Definition sp_256_proj_point_dbl_8 (p : sp_point) : sp_point :=
  if infinity p then p
  else
    let t1 := sp_256_mont_sqr_8 (z p) in
    let rz := sp_256_mont_mul_8 (y p) (z p) in
    let rz := sp_256_mont_dbl_8 rz in
    let t2 := sp_256_mont_sub_8 (x p) t1 in
    let t1 := sp_256_mont_add_8 (x p) t1 in
    let t2 := sp_256_mont_mul_8 t1 t2 in
    let t1 := sp_256_mont_tpl_8 t2 in
    let ry := sp_256_mont_dbl_8 (y p) in
    let ry := sp_256_mont_sqr_8 ry in
    let t2 := sp_256_mont_sqr_8 ry in
    let t2 := sp_256_div2_8 t2 in
    let ry := sp_256_mont_mul_8 ry (x p) in
    let rx := sp_256_mont_mul_8 t1 t1 in
    let rx := sp_256_mont_sub_8 rx ry in
    let rx := sp_256_mont_sub_8 rx ry in
    let ry := sp_256_mont_sub_8 ry rx in
    let ry := sp_256_mont_mul_8 ry t1 in
    let ry := sp_256_mont_sub_8 ry t2 in
    {| x := rx; y := ry; z := rz; infinity := false |}.

(** The test for the same point, up to the sign of y. *)
Definition same_point (p q : sp_point) : bool :=
  let t1 := (sp_256_sub_8 p256_mod (y q)).1 in
  sp_256_cmp_equal_8 (x p) (x q) && sp_256_cmp_equal_8 (z p) (z q) &&
  (sp_256_cmp_equal_8 (y p) (y q) || sp_256_cmp_equal_8 (y p) t1).

(** The result is stored in [p]: the callers pass one of the two points as the
    result, and the code swaps them when it is the second one. *)
Definition sp_256_proj_point_add_8 (p q : sp_point) : sp_point :=
  if same_point p q then sp_256_proj_point_dbl_8 p
  else if infinity p || infinity q then if infinity p then q else p
  else
    let t1 := sp_256_mont_sqr_8 (z q) in
    let t3 := sp_256_mont_mul_8 t1 (z q) in
    let t1 := sp_256_mont_mul_8 t1 (x p) in
    let t2 := sp_256_mont_sqr_8 (z p) in
    let t4 := sp_256_mont_mul_8 t2 (z p) in
    let t2 := sp_256_mont_mul_8 t2 (x q) in
    let t3 := sp_256_mont_mul_8 t3 (y p) in
    let t4 := sp_256_mont_mul_8 t4 (y q) in
    let t2 := sp_256_mont_sub_8 t2 t1 in
    let t4 := sp_256_mont_sub_8 t4 t3 in
    let rz := sp_256_mont_mul_8 (z p) (z q) in
    let rz := sp_256_mont_mul_8 rz t2 in
    let rx := sp_256_mont_sqr_8 t4 in
    let t5 := sp_256_mont_sqr_8 t2 in
    let ry := sp_256_mont_mul_8 t1 t5 in
    let t5 := sp_256_mont_mul_8 t5 t2 in
    let rx := sp_256_mont_sub_8 rx t5 in
    let t1 := sp_256_mont_dbl_8 ry in
    let rx := sp_256_mont_sub_8 rx t1 in
    let ry := sp_256_mont_sub_8 ry rx in
    let ry := sp_256_mont_mul_8 ry t4 in
    let t5 := sp_256_mont_mul_8 t5 t3 in
    let ry := sp_256_mont_sub_8 ry t5 in
    {| x := rx; y := ry; z := rz; infinity := false |}.

(** ** Multiplication by a scalar *)

(** One turn: [t[y^1] = t[0] + t[1]], then [t[y] = 2 t[y]]. *)
Definition ladder_step (bit : bool) (t : sp_point * sp_point) : sp_point * sp_point :=
  let '(t0, t1) := t in
  if bit then (sp_256_proj_point_add_8 t0 t1, sp_256_proj_point_dbl_8 t1)
  else (sp_256_proj_point_dbl_8 t0, sp_256_proj_point_add_8 t1 t0).

(** The bits of a digit, from bit 31 down. *)
Fixpoint digit_steps (c : nat) (n : Z) (t : sp_point * sp_point) : sp_point * sp_point :=
  match c with
  | O => t
  | S c => digit_steps c (u32 (Z.shiftl n 1)) (ladder_step (Z.odd (Z.shiftr n 31)) t)
  end.

Definition infinite : sp_point := {| x := zero_8; y := zero_8; z := zero_8; infinity := true |}.

Definition sp_256_ecc_mulmod_8 (r g : sp_point) (k : digits) : sp_point :=
  let t1 := {| x := sp_256_mod_mul_norm_8 (x g); y := sp_256_mod_mul_norm_8 (y g); z := sp_256_mod_mul_norm_8 (z g); infinity := false |} in
  let '(t0, _) := fold_left (fun t n => digit_steps 32 n t) (reverse k) (infinite, t1) in
  sp_256_map_8 r t0.

Definition p256_base_bin : bytes :=
  [0x6b;0x17;0xd1;0xf2;0xe1;0x2c;0x42;0x47;0xf8;0xbc;0xe6;0xe5;0x63;0xa4;0x40;0xf2;
   0x77;0x03;0x7d;0x81;0x2d;0xeb;0x33;0xa0;0xf4;0xa1;0x39;0x45;0xd8;0x98;0xc2;0x96;
   0x4f;0xe3;0x42;0xe2;0xfe;0x1a;0x7f;0x9b;0x8e;0xe7;0xeb;0x4a;0x7c;0x0f;0x9e;0x16;
   0x2b;0xce;0x33;0x57;0x6b;0x31;0x5e;0xce;0xcb;0xb6;0x40;0x68;0x37;0xbf;0x51;0xf5].

Definition sp_256_ecc_mulmod_base_8 (r : sp_point) (k : digits) : sp_point :=
  sp_256_ecc_mulmod_8 r (sp_256_point_from_bin2x32 p256_base_bin) k.

Definition sp_ecc_secret_gen_256 (priv : digits) (pub2x32 : bytes) : bytes :=
  let point := sp_256_point_from_bin2x32 pub2x32 in
  sp_256_to_bin_8 (x (sp_256_ecc_mulmod_8 point point priv)).

(** [random] are the 32 bytes [tls_get_random] stored in the array. *)
Definition sp_256_ecc_gen_k_8 (random : bytes) : digits :=
  let k := ndigits 32 8 (le_val random) in
  let k := if nth 0 k 0 =? 0 then <[0%nat := 1]> k else k in
  if 0xffffffff <=? nth 7 k 0 then <[7%nat := 0xfffffffe]> k else k.

(** The private key and the bytes of the public one; [stack] is what the memory
    of the local point held. *)
Definition sp_ecc_make_key_256 (stack : sp_point) (random : bytes) : digits * bytes :=
  let privkey := sp_256_ecc_gen_k_8 random in
  let point := sp_256_ecc_mulmod_base_8 stack privkey in
  (privkey, sp_256_to_bin_8 (x point) ++ sp_256_to_bin_8 (y point)).

(** The public key and the premaster secret. *)
Definition curve_P256_compute_pubkey_and_premaster (stack : sp_point) (random peerkey2x32 : bytes) : bytes * bytes :=
  let '(privkey, pubkey2x32) := sp_ecc_make_key_256 stack random in
  (pubkey2x32, sp_ecc_secret_gen_256 privkey peerkey2x32).
End curve.
End Sp256.
