(* ===== verification/Sp256Facts.v ===== *)
(** * The two versions of the 256-bit arithmetic compute the same numbers

    [SpLaws] says what every operation of [SpArith] does to the numbers the
    digits stand for; the portable and the x86-64 version both satisfy it. *)

From S2P Require Import Prelude Sp256.

Module Sp256Facts.
Import Sp256.

Definition p : Z := 2 ^ 256 - 2 ^ 224 + 2 ^ 192 + 2 ^ 96 - 1.
Definition R : Z := 2 ^ 256.

(** ** Digits and numbers *)

Definition is_digit (w d : Z) : Prop := 0 <= d < 2 ^ w.

(** [n] digits. *)
Definition dok (w : Z) (n : nat) (l : list Z) : Prop := length l = n /\ Forall (is_digit w) l.

Lemma dok_nil w : dok w 0 [].
Proof. by split. Qed.

Lemma dok_cons w n d l : dok w (S n) (d :: l) <-> is_digit w d /\ dok w n l.
Proof. unfold dok. cbn [length]. rewrite Forall_cons. naive_solver lia. Qed.

Lemma dok_app w n m l k : dok w n l -> dok w m k -> dok w (n + m) (l ++ k).
Proof. intros [L1 F1] [L2 F2]. split; [rewrite length_app; lia|by apply Forall_app]. Qed.

Lemma dok_inv w n l : dok w (S n) l -> exists d l', l = d :: l' /\ is_digit w d /\ dok w n l'.
Proof. destruct l as [|d l]; [by intros []|]. rewrite dok_cons. intros []; eauto. Qed.

Lemma nval_app w l k : 0 <= w -> nval w (l ++ k) = nval w l + 2 ^ (w * Z.of_nat (length l)) * nval w k.
Proof.
  intros Hw. induction l as [|d l IH]; cbn [app nval length]; [rewrite Z.mul_0_r; lia|].
  rewrite IH, Nat2Z.inj_succ, Z.mul_succ_r, Z.pow_add_r by lia. ring.
Qed.

Lemma nval_range w n l : 0 <= w -> dok w n l -> 0 <= nval w l < 2 ^ (w * Z.of_nat n).
Proof.
  intros Hw. revert n. induction l as [|d l IH]; intros n [L F]; cbn [length nval] in *; subst n; [rewrite Z.mul_0_r; cbn; lia|].
  apply Forall_cons in F as [Hd F]. specialize (IH (length l) (conj eq_refl F)). unfold is_digit in Hd.
  rewrite Nat2Z.inj_succ, Z.mul_succ_r, Z.pow_add_r by lia. nia.
Qed.

Lemma ndigits_ok w n v : 0 <= w -> dok w n (ndigits w n v).
Proof.
  intros Hw. revert v. induction n as [|n IH]; intros v; [apply dok_nil|]. apply dok_cons. split; [|apply IH].
  apply Z.mod_pos_bound. lia.
Qed.

Lemma nval_ndigits w n v : 0 <= w -> 0 <= v < 2 ^ (w * Z.of_nat n) -> nval w (ndigits w n v) = v.
Proof.
  intros Hw. revert v. induction n as [|n IH]; intros v Hv; cbn [ndigits nval]; [rewrite Z.mul_0_r in Hv; cbn in Hv; lia|].
  rewrite Nat2Z.inj_succ, Z.mul_succ_r, Z.pow_add_r in Hv by lia.
  rewrite IH; [pose proof (Z.div_mod v (2 ^ w)); lia|].
  split; [apply Z.div_pos; lia|apply Z.div_lt_upper_bound; lia].
Qed.

Lemma ndigits_nval w n l : 0 <= w -> dok w n l -> ndigits w n (nval w l) = l.
Proof.
  intros Hw. revert n. induction l as [|d l IH]; intros n [L F]; cbn [length nval] in *; subst n; [done|].
  apply Forall_cons in F as [Hd F]. cbn [ndigits]. unfold is_digit in Hd.
  rewrite Z.mul_comm, Z_mod_plus_full, Z.mod_small, Z.div_add, Z.div_small, Z.add_0_l by lia. f_equal. by apply IH.
Qed.

Lemma nval_inj w n l k : 0 <= w -> dok w n l -> dok w n k -> nval w l = nval w k -> l = k.
Proof. intros Hw Hl Hk E. by rewrite <- (ndigits_nval w n l), <- (ndigits_nval w n k), E. Qed.

(** ** The laws *)

Abbreviation num := (nval 32).
Abbreviation ok := (dok 32).

(** Subtraction of the modulus when a Montgomery reduction leaves 256 bits. *)
Definition fold_top (q : Z) : Z := if R <=? q then q - p else q.

Class SpLaws (S : SpArith) : Prop := {
  to_bin_law r : ok 8 r -> sp_256_to_bin_8 r = be_bytes 32 (num r);
  from_bin_law a : bytes_ok a -> (32 <= length a)%nat -> ok 8 (sp_256_from_bin_8 a) /\ num (sp_256_from_bin_8 a) = be_val (take 32 a);
  cmp_law a b : ok 8 a -> ok 8 b -> sp_256_cmp_8 a b = Z.sgn (num a - num b);
  add_law a b : ok 8 a -> ok 8 b ->
    ok 8 (sp_256_add_8 a b).1 /\ num a + num b = num (sp_256_add_8 a b).1 + Z.b2z (sp_256_add_8 a b).2 * R;
  sub_law a b : ok 8 a -> ok 8 b ->
    ok 8 (sp_256_sub_8 a b).1 /\ num a - num b = num (sp_256_sub_8 a b).1 - Z.b2z (sp_256_sub_8 a b).2 * R;
  sub_mod_law r : ok 8 r -> ok 8 (sp_256_sub_8_p256_mod r) /\ num (sp_256_sub_8_p256_mod r) = (num r - p) mod R;
  mul_law a b : ok 8 a -> ok 8 b -> ok 16 (sp_256to512_mul_8 a b) /\ num (sp_256to512_mul_8 a b) = num a * num b;
  rshift_law r c : ok 8 r -> ok 8 (sp_256_rshift1_8 r c) /\ num (sp_256_rshift1_8 r c) = (num r + Z.b2z c * R) / 2;
  reduce_law t : ok 16 t -> ok 8 (sp_512to256_mont_reduce_8 t) /\
    exists m q, 0 <= m < R /\ num t + m * p = R * q /\ num (sp_512to256_mont_reduce_8 t) = fold_top q }.

(** A reduction leaves less than the modulus above 2^256. *)
Lemma reduce_top T m r c : 0 <= T < R * R -> 0 <= m < R -> 0 <= c -> 0 <= r < R -> T + m * p = R * (r + c * R) ->
  (if negb (c =? 0) then (r - p) mod R else r) = fold_top (r + c * R).
Proof.
  intros HT Hm Hc Hr E. unfold fold_top. assert (0 < p < R) by (unfold p, R; lia).
  assert (r + c * R < R + p) by nia. destruct (Z.eqb_spec c 0) as [->|Hc0]; cbn [negb].
  - rewrite (proj2 (Z.leb_gt _ _)) by lia. lia.
  - assert (c = 1) as -> by nia. rewrite (proj2 (Z.leb_le _ _)) by lia.
    symmetry. apply (Zmod_unique _ _ (-1)); lia.
Qed.

(** ** Loops both versions share *)

(** Digits from the most significant one down. *)
Lemma nval_reverse_cons w d l : 0 <= w -> nval w (reverse (d :: l)) = nval w (reverse l) + 2 ^ (w * Z.of_nat (length l)) * d.
Proof. intros Hw. rewrite reverse_cons, nval_app, length_reverse by done. cbn [nval]. ring. Qed.

Lemma dok_reverse w n l : dok w n l -> dok w n (reverse l).
Proof. intros [L F]. split; [by rewrite length_reverse|by apply Forall_reverse]. Qed.

Lemma sp_cmp_digits_spec w n a b : 0 <= w -> dok w n a -> dok w n b ->
  cmp_digits a b = Z.sgn (nval w (reverse a) - nval w (reverse b)).
Proof.
  intros Hw. revert a b. induction n as [|n IH]; intros a b Ha Hb.
  - destruct Ha as [Ha _], Hb as [Hb _]. apply nil_length_inv in Ha, Hb. by subst.
  - apply dok_inv in Ha as (d & a' & -> & Hd & Ha), Hb as (e & b' & -> & He & Hb). cbn [cmp_digits].
    rewrite !nval_reverse_cons by done. destruct Ha as [La Fa], Hb as [Lb Fb]. rewrite La, Lb.
    pose proof (nval_range w n (reverse a') Hw (dok_reverse _ _ _ (conj La Fa))).
    pose proof (nval_range w n (reverse b') Hw (dok_reverse _ _ _ (conj Lb Fb))).
    destruct (Z.eqb_spec d e) as [->|Hne]; [rewrite (IH a' b') by done; f_equal; ring|].
    destruct (Z.ltb_spec e d); cbn [Z.b2z Z.mul Z.sub Z.add Z.opp Pos.mul Z.pos_sub].
    + rewrite Z.sgn_pos; [done|]. nia.
    + rewrite Z.sgn_neg; [done|]. nia.
Qed.

Lemma inc_spec w n l : 0 < w -> dok w n l ->
  dok w n (inc_next_word w l).1 /\ nval w l + 1 = nval w (inc_next_word w l).1 + Z.b2z (inc_next_word w l).2 * 2 ^ (w * Z.of_nat n).
Proof.
  intros Hw. revert l. induction n as [|n IH]; intros l Hl.
  - destruct Hl as [Hl _]. apply nil_length_inv in Hl. subst. split; [apply dok_nil|]. cbn. by rewrite Z.mul_0_r.
  - apply dok_inv in Hl as (d & l' & -> & Hd & Hl). unfold is_digit in Hd. cbn [inc_next_word nval]. specialize (IH l' Hl).
    destruct (Z.eq_dec (d + 1) (2 ^ w)) as [E|E].
    + rewrite E, Z_mod_same_full. cbn [Z.eqb]. destruct (inc_next_word w l') as [r c]. cbn [fst snd nval] in *. destruct IH as [IH1 IH2].
      split; [apply dok_cons; split; [unfold is_digit; lia|done]|].
      rewrite Nat2Z.inj_succ, Z.mul_succ_r, Z.pow_add_r by lia. nia.
    + rewrite Z.mod_small by lia. destruct (Z.eqb_spec (d + 1) 0); [lia|]. cbn [fst snd nval Z.b2z].
      split; [apply dok_cons; split; [unfold is_digit; lia|done]|lia].
Qed.

Lemma rshift_spec w n l c : 1 < w -> dok w n l ->
  dok w n (rshift_digits w l (Z.shiftl (Z.b2z c) (w - 1))) /\
  nval w (reverse (rshift_digits w l (Z.shiftl (Z.b2z c) (w - 1)))) = (nval w (reverse l) + Z.b2z c * 2 ^ (w * Z.of_nat n)) / 2.
Proof.
  intros Hw. revert l c. induction n as [|n IH]; intros l c Hl.
  - destruct Hl as [Hl _]. apply nil_length_inv in Hl. subst. split; [apply dok_nil|]. cbn. rewrite Z.mul_0_r. by destruct c.
  - apply dok_inv in Hl as (d & l' & -> & Hd & Hl). unfold is_digit in Hd. cbn [rshift_digits].
    assert (2 ^ w = 2 * 2 ^ (w - 1)) as Ew by (rewrite <- Z.pow_succ_r by lia; f_equal; lia).
    assert (Z.lor (Z.shiftr d 1) (Z.shiftl (Z.b2z c) (w - 1)) = d / 2 + Z.b2z c * 2 ^ (w - 1)) as ->.
    { rewrite Z.lor_comm, <- add_mul_lor; [|lia|].
      - rewrite Z.shiftr_div_pow2 by lia. change (2 ^ 1) with 2. lia.
      - rewrite Z.shiftr_div_pow2 by lia. change (2 ^ 1) with 2. split; [apply Z.div_pos; lia|apply Z.div_lt_upper_bound; lia]. }
    assert (Z.shiftl d (w - 1) mod 2 ^ w = Z.shiftl (Z.b2z (Z.odd d)) (w - 1)) as ->.
    { rewrite !Z.shiftl_mul_pow2 by lia. rewrite Ew, Z.mul_mod_distr_r by lia. by rewrite Zmod_odd; destruct (Z.odd d). }
    specialize (IH l' (Z.odd d) Hl). destruct IH as [IH1 IH2]. destruct Hl as [Ll Fl], IH1 as [L1 F1].
    pose proof (Zmod_odd d) as Eo. pose proof (Z.div_mod d 2 ltac:(lia)) as Ed.
    assert (d mod 2 = Z.b2z (Z.odd d)) as Ed' by (rewrite Eo; by destruct (Z.odd d)).
    split.
    + apply dok_cons. split; [|by split]. unfold is_digit. rewrite Ew. destruct c; cbn [Z.b2z]; pose proof (Z.div_pos d 2); 
        assert (d / 2 < 2 ^ (w - 1)) by (apply Z.div_lt_upper_bound; lia); lia.
    + rewrite !nval_reverse_cons by lia. rewrite L1, Ll, IH2. rewrite Nat2Z.inj_succ, Z.mul_succ_r, Z.pow_add_r by lia.
      symmetry. rewrite Ed at 1. rewrite Ed'. rewrite Ew.
      replace (nval w (reverse l') + 2 ^ (w * Z.of_nat n) * (2 * (d / 2) + Z.b2z (Z.odd d)) + Z.b2z c * (2 ^ (w * Z.of_nat n) * (2 * 2 ^ (w - 1))))
        with (nval w (reverse l') + Z.b2z (Z.odd d) * 2 ^ (w * Z.of_nat n) + (2 ^ (w * Z.of_nat n) * (d / 2 + Z.b2z c * 2 ^ (w - 1))) * 2) by ring.
      rewrite Z.div_add by lia. ring.
Qed.

Lemma to_bin_spec k n l : dok (8 * Z.of_nat k) n l ->
  bytes_ok (to_bin k l) /\ length (to_bin k l) = (k * n)%nat /\ be_val (to_bin k l) = nval (8 * Z.of_nat k) l.
Proof.
  unfold to_bin. revert n. induction l as [|d l IH]; intros n [L F]; cbn [length] in L; subst n.
  - split; [constructor|]. split; [cbn; lia|done].
  - apply Forall_cons in F as [Hd F]. destruct (IH (length l) (conj eq_refl F)) as (I1 & I2 & I3).
    rewrite reverse_cons, fmap_app, concat_app. cbn [fmap list_fmap concat]. rewrite app_nil_r, bytes_ok_app, length_app, be_val_app, I2, I3, length_be_bytes.
    split; [by split; [|apply be_bytes_ok]|]. split; [lia|].
    unfold is_digit in Hd. assert (256 ^ Z.of_nat k = 2 ^ (8 * Z.of_nat k)) as E by (change 256 with (2 ^ 8); by rewrite <- Z.pow_mul_r by lia).
    rewrite be_val_be_bytes by lia. cbn [nval]. rewrite E. ring.
Qed.

Lemma from_bin_spec k n a r m : bytes_ok a -> (k * n <= length a)%nat -> dok (8 * Z.of_nat k) m r ->
  dok (8 * Z.of_nat k) (n + m) (from_bin_loop k n a r) /\
  nval (8 * Z.of_nat k) (from_bin_loop k n a r) = be_val (take (k * n) a) + 2 ^ (8 * Z.of_nat k * Z.of_nat n) * nval (8 * Z.of_nat k) r.
Proof.
  assert (256 ^ Z.of_nat k = 2 ^ (8 * Z.of_nat k)) as E by (change 256 with (2 ^ 8); by rewrite <- Z.pow_mul_r by lia).
  revert a r m. induction n as [|n IH]; intros a r m Ha Hl Hr; cbn [from_bin_loop].
  - rewrite Nat.mul_0_r, Z.mul_0_r, take_0, Z.pow_0_r, Z.mul_1_l. by split.
  - pose proof (be_val_range (take k a) (bytes_ok_take _ _ Ha)) as B. rewrite length_take, Nat.min_l, E in B by nia.
    destruct (IH (drop k a) (be_val (take k a) :: r) (S m)) as [I1 I2]; [by apply bytes_ok_drop|rewrite length_drop; nia|by apply dok_cons|].
    split; [by replace (S n + m)%nat with (n + S m)%nat by lia|]. rewrite I2. cbn [nval].
    replace (k * S n)%nat with (k + k * n)%nat by lia. rewrite <- (take_take_drop a k (k * n)), be_val_app, length_take, length_drop, Nat.min_l by nia.
    replace (256 ^ Z.of_nat (k * n)) with (2 ^ (8 * Z.of_nat k * Z.of_nat n)) by
      (change 256 with (2 ^ 8); rewrite <- Z.pow_mul_r by lia; f_equal; rewrite Nat2Z.inj_mul; ring).
    rewrite Nat2Z.inj_succ, Z.mul_succ_r, Z.pow_add_r by lia. ring.
Qed.

(** ** Columns of a product *)

Lemma sp_nth_digit w l i : Forall (is_digit w) l -> 0 <= w -> 0 <= nth i l 0 < 2 ^ w.
Proof. intros F Hw. destruct (nth_in_or_default i l 0) as [I| ->]; [by apply (proj1 (List.Forall_forall _ _) F)|lia]. Qed.

Definition sum_products (a b : list Z) (k : nat) (l : list nat) : Z :=
  fold_right (fun i s => nth i a 0 * nth (k - i) b 0 + s) 0 l.

(** Column [k] of a product of numbers of [m + 1] digits. *)
Definition column (m : nat) (a b : list Z) (k : nat) : Z := sum_products a b k (seq (k - m) ((k `min` m) + 1 - (k - m))).

(** [n] columns from [k] on. *)
Fixpoint columns (w : Z) (m : nat) (a b : list Z) (n k : nat) : Z :=
  match n with O => 0 | S n => column m a b k + 2 ^ w * columns w m a b n (k + 1) end.

Lemma sum_products_range w a b k l : 0 <= w -> Forall (is_digit w) a -> Forall (is_digit w) b ->
  0 <= sum_products a b k l <= Z.of_nat (length l) * (2 ^ w - 1) ^ 2.
Proof.
  intros Hw Fa Fb. induction l as [|i l IH]; cbn [sum_products fold_right length]; [lia|]. fold (sum_products a b k l).
  pose proof (sp_nth_digit w a i Fa Hw). pose proof (sp_nth_digit w b (k - i) Fb Hw). rewrite Nat2Z.inj_succ. nia.
Qed.

Lemma columns_nonneg w m a b n k : 0 <= w -> Forall (is_digit w) a -> Forall (is_digit w) b -> 0 <= columns w m a b n k.
Proof.
  intros Hw Fa Fb. revert k. induction n as [|n IH]; intros k; cbn [columns]; [done|].
  pose proof (sum_products_range w a b k (seq (k - m) ((k `min` m) + 1 - (k - m))) Hw Fa Fb) as S. fold (column m a b k) in S.
  specialize (IH (k + 1)%nat). pose proof (Z.pow_pos_nonneg 2 w). nia.
Qed.
End Sp256Facts.
