(* ===== verification/Sp256Generic.v ===== *)
(** * The portable version of the 256-bit arithmetic satisfies its laws *)

From S2P Require Import Prelude Sp256 Sp256Facts.

Module Sp256Generic.
Import Sp256 Sp256Facts.
Import Generic.

Lemma u32_digit v : is_digit 32 (u32 v).
Proof. apply Z.mod_pos_bound. done. Qed.

(** ** Addition and subtraction *)

(** One digit of the addition, with the test for a zero second operand. *)
Lemma add_digit x y c : is_digit 32 x -> is_digit 32 y -> 0 <= c <= 1 ->
  let w := u32 (y + c) in
  let v := if w =? 0 then x else u32 (x + w) in
  let c' := if w =? 0 then c else Z.b2z (v <? x) in
  is_digit 32 v /\ 0 <= c' <= 1 /\ x + y + c = v + 2 ^ 32 * c'.
Proof.
  unfold is_digit, u32. intros Hx Hy Hc. cbn zeta. destruct (Z.eq_dec (y + c) (2 ^ 32)) as [E|E].
  - rewrite E. cbn [Z.eqb]. rewrite Z_mod_same_full. cbn [Z.eqb]. lia.
  - rewrite (Z.mod_small (y + c)) by lia. destruct (Z.eqb_spec (y + c) 0); [lia|].
    destruct (Z.lt_ge_cases (x + (y + c)) (2 ^ 32)).
    + rewrite Z.mod_small by lia. rewrite (proj2 (Z.ltb_ge _ _)) by lia. cbn [Z.b2z]. lia.
    + rewrite <- (Z_mod_plus_full _ (-1)), Z.mod_small by lia. rewrite (proj2 (Z.ltb_lt _ _)) by lia. cbn [Z.b2z]. lia.
Qed.

Lemma gen_sub_digit x y c : is_digit 32 x -> is_digit 32 y -> 0 <= c <= 1 ->
  let w := u32 (y + c) in
  let v := if w =? 0 then x else u32 (x - w) in
  let c' := if w =? 0 then c else Z.b2z (x <? v) in
  is_digit 32 v /\ 0 <= c' <= 1 /\ x - y - c = v - 2 ^ 32 * c'.
Proof.
  unfold is_digit, u32. intros Hx Hy Hc. cbn zeta. destruct (Z.eq_dec (y + c) (2 ^ 32)) as [E|E].
  - rewrite E. rewrite Z_mod_same_full. cbn [Z.eqb]. lia.
  - rewrite (Z.mod_small (y + c)) by lia. destruct (Z.eqb_spec (y + c) 0); [lia|].
    destruct (Z.lt_ge_cases x (y + c)).
    + rewrite <- (Z_mod_plus_full _ 1), Z.mod_small by lia. rewrite (proj2 (Z.ltb_lt _ _)) by lia. cbn [Z.b2z]. lia.
    + rewrite Z.mod_small by lia. rewrite (proj2 (Z.ltb_ge _ _)) by lia. cbn [Z.b2z]. lia.
Qed.

Lemma gen_pow_step n : 2 ^ (32 * Z.of_nat (S n)) = 2 ^ 32 * 2 ^ (32 * Z.of_nat n).
Proof. rewrite Nat2Z.inj_succ, Z.mul_succ_r, Z.pow_add_r by lia. lia. Qed.

Lemma gen_pow_step' n : 2 ^ (32 * Z.of_nat (S n + 8)) = 2 ^ 32 * (R * 2 ^ (32 * Z.of_nat n)).
Proof. unfold R. rewrite <- !Z.pow_add_r by lia. f_equal. lia. Qed.

Lemma gen_add_loop_spec n a b c : ok n a -> ok n b -> 0 <= c <= 1 ->
  ok n (add_loop a b c).1 /\ num a + num b + c = num (add_loop a b c).1 + Z.b2z (add_loop a b c).2 * 2 ^ (32 * Z.of_nat n).
Proof.
  revert a b c. induction n as [|n IH]; intros a b c Ha Hb Hc.
  - destruct Ha as [Ha _], Hb as [Hb _]. apply nil_length_inv in Ha, Hb. subst. cbn. split; [apply dok_nil|]. by assert (c = 0 \/ c = 1) as [-> | ->] by lia.
  - apply dok_inv in Ha as (x & a' & -> & Hx & Ha), Hb as (y & b' & -> & Hy & Hb). destruct (add_digit x y c Hx Hy Hc) as (D & C & E).
    cbn [add_loop]. cbn zeta in *. set (w := u32 (y + c)) in *. set (v := if w =? 0 then x else u32 (x + w)) in *.
    set (c' := if w =? 0 then c else Z.b2z (v <? x)) in *. clearbody v c'.
    specialize (IH a' b' c' Ha Hb C). destruct (add_loop a' b' c') as [r co]. cbn [fst snd nval] in *. destruct IH as [I1 I2].
    split; [by apply dok_cons|]. rewrite gen_pow_step. nia.
Qed.

Lemma gen_sub_loop_spec n a b c : ok n a -> ok n b -> 0 <= c <= 1 ->
  ok n (sub_loop a b c).1 /\ num a - num b - c = num (sub_loop a b c).1 - Z.b2z (sub_loop a b c).2 * 2 ^ (32 * Z.of_nat n).
Proof.
  revert a b c. induction n as [|n IH]; intros a b c Ha Hb Hc.
  - destruct Ha as [Ha _], Hb as [Hb _]. apply nil_length_inv in Ha, Hb. subst. cbn. split; [apply dok_nil|]. by assert (c = 0 \/ c = 1) as [-> | ->] by lia.
  - apply dok_inv in Ha as (x & a' & -> & Hx & Ha), Hb as (y & b' & -> & Hy & Hb). destruct (gen_sub_digit x y c Hx Hy Hc) as (D & C & E).
    cbn [sub_loop]. cbn zeta in *. set (w := u32 (y + c)) in *. set (v := if w =? 0 then x else u32 (x - w)) in *.
    set (c' := if w =? 0 then c else Z.b2z (x <? v)) in *. clearbody v c'.
    specialize (IH a' b' c' Ha Hb C). destruct (sub_loop a' b' c') as [r co]. cbn [fst snd nval] in *. destruct IH as [I1 I2].
    split; [by apply dok_cons|]. rewrite gen_pow_step. nia.
Qed.

Lemma p256_mod_ok : ok 8 p256_mod /\ num p256_mod = p.
Proof. split; [split; [done|]|done]. repeat (apply Forall_cons; split; [unfold is_digit; lia|]). constructor. Qed.

Lemma gen_sub_mod_spec r : ok 8 r -> ok 8 (sub_8_p256_mod r) /\ num (sub_8_p256_mod r) = (num r - p) mod R.
Proof.
  intros Hr. destruct p256_mod_ok as [Mo Mn]. destruct (gen_sub_loop_spec 8 r p256_mod 0 Hr Mo ltac:(lia)) as [O E].
  unfold sub_8_p256_mod, sub_8. split; [done|]. rewrite Mn in E. change (2 ^ (32 * Z.of_nat 8)) with R in E.
  pose proof (nval_range 32 8 _ ltac:(lia) O) as B. change (2 ^ (32 * Z.of_nat 8)) with R in B.
  apply (Zmod_unique _ _ (- Z.b2z (sub_loop r p256_mod 0).2)); lia.
Qed.

(** ** Multiplication *)

Lemma gen_mac_spec a b k l acc hi : Forall (is_digit 32) a -> Forall (is_digit 32) b -> 0 <= acc < 2 ^ 64 -> 0 <= hi ->
  hi + Z.of_nat (length l) < 2 ^ 32 ->
  let r := fold_left (mac a b k) l (acc, hi) in
  0 <= r.1 < 2 ^ 64 /\ 0 <= r.2 < 2 ^ 32 /\ r.1 + 2 ^ 64 * r.2 = acc + 2 ^ 64 * hi + sum_products a b k l.
Proof.
  intros Fa Fb. revert acc hi. induction l as [|i l IH]; intros acc hi Ha Hh Hl; cbn zeta; cbn [fold_left length sum_products fold_right fst snd] in *; [lia|].
  fold (sum_products a b k l). rewrite Nat2Z.inj_succ in Hl.
  pose proof (sp_nth_digit 32 a i Fa ltac:(lia)) as Da. pose proof (sp_nth_digit 32 b (k - i) Fb ltac:(lia)) as Db.
  set (m := nth i a 0 * nth (k - i) b 0) in *. assert (0 <= m <= (2 ^ 32 - 1) * (2 ^ 32 - 1)) as Hm by nia.
  change (mac a b k (acc, hi) i) with (u64 (acc + m), if u64 (acc + m) <? m then u32 (hi + 1) else hi). clearbody m.
  destruct (Z.lt_ge_cases (acc + m) (2 ^ 64)) as [L|L].
  - rewrite u64_id by (unfold is_u64; lia). rewrite (proj2 (Z.ltb_ge _ _)) by lia.
    specialize (IH (acc + m) hi ltac:(lia) Hh ltac:(lia)). cbn zeta in IH. lia.
  - assert (u64 (acc + m) = acc + m - 2 ^ 64) as -> by (unfold u64; rewrite <- (Z_mod_plus_full _ (-1)), Z.mod_small; lia).
    rewrite (proj2 (Z.ltb_lt _ _)) by lia. rewrite u32_id by (unfold is_u32; lia).
    specialize (IH (acc + m - 2 ^ 64) (hi + 1) ltac:(lia) ltac:(lia) ltac:(lia)). cbn zeta in IH. lia.
Qed.

Lemma gen_mul_loop_spec a b n k acc : Forall (is_digit 32) a -> Forall (is_digit 32) b -> 0 <= acc < 2 ^ 64 ->
  acc + columns 32 7 a b n k < 2 ^ (32 * Z.of_nat (S n)) ->
  ok (S n) (mul_loop a b n k acc) /\ num (mul_loop a b n k acc) = acc + columns 32 7 a b n k.
Proof.
  intros Fa Fb. revert k acc. induction n as [|n IH]; intros k acc Ha Hl; cbn [mul_loop columns] in *.
  - rewrite u32_id by (unfold is_u32; lia). cbn. split; [split; [done|repeat constructor; lia]|lia].
  - destruct (gen_mac_spec a b k (seq (k - 7) ((k `min` 7) + 1 - (k - 7))) acc 0 Fa Fb Ha ltac:(lia)) as (B1 & B2 & E); [rewrite length_seq; lia|].
    fold (column 7 a b k) in E. destruct (fold_left _ _ _) as [s hi]. cbn [fst snd] in *.
    assert (Z.lor (Z.shiftr s 32) (u64 (Z.shiftl hi 32)) = (s + 2 ^ 64 * hi) / 2 ^ 32) as ->.
    { rewrite u64_id by (unfold is_u64; rewrite Z.shiftl_mul_pow2 by lia; lia). rewrite Z.shiftr_div_pow2 by lia.
      rewrite Z.lor_comm, <- add_mul_lor by first [lia|split; [apply Z.div_pos; lia|apply Z.div_lt_upper_bound; lia]].
      replace (s + 2 ^ 64 * hi) with (s + (hi * 2 ^ 32) * 2 ^ 32) by ring. rewrite Z.div_add by lia. lia. }
    assert (u32 s = (s + 2 ^ 64 * hi) mod 2 ^ 32) as ->.
    { unfold u32. replace (s + 2 ^ 64 * hi) with (s + (hi * 2 ^ 32) * 2 ^ 32) by ring. by rewrite Z_mod_plus_full. }
    assert (s + 2 ^ 64 * hi = acc + column 7 a b k) as E' by lia. rewrite E'. set (t := acc + column 7 a b k) in *.
    pose proof (columns_nonneg 32 7 a b n (k + 1) ltac:(lia) Fa Fb) as Cn. rewrite gen_pow_step in Hl.
    pose proof (Z.div_mod t (2 ^ 32) ltac:(lia)) as Dm. pose proof (Z.mod_pos_bound t (2 ^ 32) ltac:(lia)) as Mb.
    assert (0 <= t / 2 ^ 32 < 2 ^ 64) as Bt by (split; [apply Z.div_pos; lia|apply Z.div_lt_upper_bound; lia]).
    destruct (IH (k + 1)%nat (t / 2 ^ 32) Bt) as [I1 I2]; [nia|]. cbn [nval]. rewrite I2. split; [by apply dok_cons|]. unfold t in *. lia.
Qed.

Lemma gen_columns_product a b : ok 8 a -> ok 8 b -> columns 32 7 a b 15 0 = num a * num b.
Proof.
  intros [La _] [Lb _]. do 8 (destruct a as [|? a]; [done|]). destruct a; [|done]. do 8 (destruct b as [|? b]; [done|]). destruct b; [|done].
  cbv [columns column sum_products seq Nat.sub Nat.add Nat.min fold_right nth nval]. ring.
Qed.

(** ** Montgomery reduction *)

Lemma gen_split32 t : t = u32 t + 2 ^ 32 * Z.shiftr t 32 /\ is_digit 32 (u32 t).
Proof. split; [|apply u32_digit]. rewrite Z.shiftr_div_pow2 by lia. unfold u32. pose proof (Z.div_mod t (2 ^ 32)). lia. Qed.

(** The sum of two digits and whether it wrapped around. *)
Lemma gen_add_wrap x y : is_digit 32 x -> is_digit 32 y ->
  is_digit 32 (u32 (x + y)) /\ x + y = u32 (x + y) + 2 ^ 32 * Z.b2z (u32 (x + y) <? y).
Proof.
  unfold is_digit, u32. intros Hx Hy. destruct (Z.lt_ge_cases (x + y) (2 ^ 32)).
  - rewrite Z.mod_small by lia. rewrite (proj2 (Z.ltb_ge _ _)) by lia. cbn. lia.
  - rewrite <- (Z_mod_plus_full _ (-1)), Z.mod_small by lia. rewrite (proj2 (Z.ltb_lt _ _)) by lia. cbn. lia.
Qed.

Lemma inc_wrap x t : is_digit 32 x -> (t = 0 \/ t = 1) ->
  let x' := if negb (t =? 0) then u32 (x + 1) else x in
  let t' := if negb (t =? 0) then Z.b2z (x' =? 0) else t in
  is_digit 32 x' /\ (t' = 0 \/ t' = 1) /\ x + t = x' + 2 ^ 32 * t'.
Proof.
  unfold is_digit, u32. intros Hx [-> | ->]; cbn [Z.eqb negb]; cbn zeta; [lia|].
  destruct (Z.eq_dec (x + 1) (2 ^ 32)) as [E|E].
  - rewrite E, Z_mod_same_full. cbn. lia.
  - rewrite Z.mod_small by lia. destruct (Z.eqb_spec (x + 1) 0); [lia|]. cbn. lia.
Qed.

Lemma gen_mul_add_spec r0 r1 r2 r3 r4 r5 r6 r7 r8 : Forall (is_digit 32) [r0; r1; r2; r3; r4; r5; r6; r7; r8] ->
  ok 8 (mul_add_8 r0 r1 r2 r3 r4 r5 r6 r7 r8).1 /\
  num [r0; r1; r2; r3; r4; r5; r6; r7; r8] + r0 * p =
    2 ^ 32 * (num (mul_add_8 r0 r1 r2 r3 r4 r5 r6 r7 r8).1 + Z.b2z (mul_add_8 r0 r1 r2 r3 r4 r5 r6 r7 r8).2 * R).
Proof.
  rewrite !Forall_cons. intros (H0 & H1 & H2 & H3 & H4 & H5 & H6 & H7 & H8 & _). unfold mul_add_8.
  destruct (gen_add_wrap r3 r0 H3 H0) as [D3 E3]. set (s3 := u32 (r3 + r0)) in *. clearbody s3.
  set (t := Z.b2z (s3 <? r0)) in *. assert (t = 0 \/ t = 1) as Ht by (unfold t; destruct (s3 <? r0); cbn; lia). clearbody t.
  destruct (inc_wrap r4 t H4 Ht) as (D4 & Ht' & E4). cbn zeta in D4, Ht', E4.
  set (s4 := if negb (t =? 0) then u32 (r4 + 1) else r4) in *. set (t' := if negb (t =? 0) then Z.b2z (s4 =? 0) else t) in *. clearbody s4 t'.
  destruct (inc_wrap r5 t' H5 Ht') as (D5 & Ht'' & E5). cbn zeta in D5, Ht'', E5.
  set (s5 := if negb (t' =? 0) then u32 (r5 + 1) else r5) in *. set (t'' := if negb (t' =? 0) then Z.b2z (s5 =? 0) else t') in *. clearbody s5 t''.
  unfold is_digit in *. rewrite (u64_id (t'' + r0 + r6)) by (unfold is_u64; lia).
  destruct (gen_split32 (t'' + r0 + r6)) as [E6 D6]. set (s6 := u32 (t'' + r0 + r6)) in *. set (c6 := Z.shiftr _ 32) in *. clearbody s6 c6.
  unfold is_digit in D6. rewrite (Z.shiftl_mul_pow2 r0 32) by lia. rewrite (u64_id (r0 * 2 ^ 32)) by (unfold is_u64; lia).
  rewrite (u64_id (r0 * 2 ^ 32 - r0 + r7)) by (unfold is_u64; lia). rewrite (u64_id (c6 + (r0 * 2 ^ 32 - r0 + r7))) by (unfold is_u64; lia).
  destruct (gen_split32 (c6 + (r0 * 2 ^ 32 - r0 + r7))) as [E7 D7].
  set (s7 := u32 (c6 + (r0 * 2 ^ 32 - r0 + r7))) in *. set (c7 := Z.shiftr (c6 + _) 32) in *. clearbody s7 c7. unfold is_digit in D7.
  rewrite (u32_id c7) by (unfold is_u32; lia). destruct (gen_add_wrap r8 c7 ltac:(done) ltac:(unfold is_digit; lia)) as [D8 E8].
  set (s8 := u32 (r8 + c7)) in *. set (o := s8 <? c7) in *. clearbody s8 o. unfold is_digit in D8. cbn [fst snd].
  split; [split; [done|repeat (apply Forall_cons; split; [unfold is_digit; lia|]); constructor]|].
  unfold p, R. cbn [nval]. lia.
Qed.

(** A round divides by the digit size after adding a multiple of the modulus. *)
Lemma gen_reduce_loop_spec n a c : ok (n + 8) a -> 0 <= c -> c + Z.of_nat n < 2 ^ 32 ->
  let r := reduce_loop n a c in
  ok 8 r.1 /\ 0 <= r.2 /\ exists m, 0 <= m < 2 ^ (32 * Z.of_nat n) /\
    num a + c * 2 ^ (32 * Z.of_nat (n + 8)) + m * p = 2 ^ (32 * Z.of_nat n) * (num r.1 + r.2 * R).
Proof.
  revert a c. induction n as [|n IH]; intros a c Ha Hc Hn; cbn zeta.
  - cbn [reduce_loop fst snd]. split; [done|]. split; [done|]. exists 0. change (2 ^ (32 * Z.of_nat (0 + 8))) with R. change (2 ^ (32 * Z.of_nat 0)) with 1. lia.
  - destruct Ha as [La Fa].
    destruct a as [|d0 [|d1 [|d2 [|d3 [|d4 [|d5 [|d6 [|d7 [|d8 a]]]]]]]]]; cbn [length] in La; try lia.
    rewrite !Forall_cons in Fa. destruct Fa as (H0 & H1 & H2 & H3 & H4 & H5 & H6 & H7 & H8 & Fa). cbn [reduce_loop].
    destruct (gen_mul_add_spec d0 d1 d2 d3 d4 d5 d6 d7 d8) as [Mo Me]; [by rewrite !Forall_cons|].
    destruct (mul_add_8 d0 d1 d2 d3 d4 d5 d6 d7 d8) as [r o]. cbn [fst snd] in Mo, Me.
    assert (ok n a) as Ha by (split; [lia|done]).
    assert (exists a' cc, (if o then inc_next_word 32 a else (a, false)) = (a', cc) /\ ok n a' /\
      num a + Z.b2z o = num a' + Z.b2z cc * 2 ^ (32 * Z.of_nat n)) as (a' & cc & -> & Ha' & Ea).
    { destruct o; [|exists a, false; cbn; split; [done|split; [done|lia]]].
      destruct (inc_spec 32 n a ltac:(lia) Ha) as [I1 I2]. destruct (inc_next_word 32 a) as [a' cc]. exists a', cc. done. }
    set (c' := if cc then u32 (c + 1) else c). assert (c' = c + Z.b2z cc) as Ec.
    { unfold c'. destruct cc; cbn; [rewrite u32_id by (unfold is_u32; lia); lia|lia]. }
    destruct (IH (r ++ a') c') as (I1 & I2 & m & Hm & I3); [rewrite Nat.add_comm; by apply dok_app|destruct cc; cbn in Ec; lia|destruct cc; cbn in Ec; lia|].
    split; [done|]. split; [done|]. exists (d0 + 2 ^ 32 * m). unfold is_digit in H0. rewrite !gen_pow_step. split; [nia|].
    set (rr := reduce_loop n (r ++ a') c') in *. clearbody rr. destruct Mo as [Lr _]. rewrite nval_app, Lr in I3 by lia.
    change (d0 :: d1 :: d2 :: d3 :: d4 :: d5 :: d6 :: d7 :: d8 :: a) with ([d0; d1; d2; d3; d4; d5; d6; d7; d8] ++ a).
    rewrite nval_app by lia. change (2 ^ (32 * Z.of_nat (length [d0; d1; d2; d3; d4; d5; d6; d7; d8]))) with (2 ^ 32 * R).
    change (2 ^ (32 * Z.of_nat 8)) with R in I3.
    replace (2 ^ (32 * Z.of_nat (n + 8))) with (R * 2 ^ (32 * Z.of_nat n)) in * by (unfold R; rewrite <- Z.pow_add_r by lia; f_equal; lia).
    rewrite gen_pow_step'. rewrite Ec in I3. clearbody c'. clear - Me Ea I3.
    set (X := num [d0; d1; d2; d3; d4; d5; d6; d7; d8]) in *. clearbody X.
    set (B := 2 ^ 32) in *. set (P := 2 ^ (32 * Z.of_nat n)) in *. generalize dependent R. intros R. clearbody B P. intros.
    apply (f_equal (Z.mul (B * R))) in Ea. apply (f_equal (Z.mul B)) in I3. lia.
Qed.

Lemma gen_mont_reduce_spec t : ok 16 t -> ok 8 (mont_reduce_8 t) /\
  exists m q, 0 <= m < R /\ num t + m * p = R * q /\ num (mont_reduce_8 t) = fold_top q.
Proof.
  intros Ht. unfold mont_reduce_8. destruct (gen_reduce_loop_spec 8 t 0 Ht ltac:(lia) ltac:(lia)) as (O & C & m & Hm & E).
  destruct (reduce_loop 8 t 0) as [r c]. cbn [fst snd] in *. change (2 ^ (32 * Z.of_nat 8)) with R in *.
  pose proof (nval_range 32 16 t ltac:(lia) Ht) as Bt. change (2 ^ (32 * Z.of_nat 16)) with (R * R) in Bt.
  pose proof (nval_range 32 8 r ltac:(lia) O) as Br. change (2 ^ (32 * Z.of_nat 8)) with R in Br.
  rewrite Z.mul_0_l, Z.add_0_r in E. pose proof (reduce_top _ _ _ _ Bt Hm C Br E) as F. destruct (gen_sub_mod_spec r O) as [So Sn].
  split; [by destruct (negb _)|]. exists m, (num r + c * R). split; [done|]. split; [done|]. rewrite <- F. by destruct (negb _).
Qed.

#[global] Instance generic_laws : SpLaws generic.
Proof.
  split; cbn [sp_256_to_bin_8 sp_256_from_bin_8 sp_256_cmp_8 sp_256_add_8 sp_256_sub_8 sp_256_sub_8_p256_mod sp_256to512_mul_8 sp_256_rshift1_8 sp_512to256_mont_reduce_8 generic].
  - intros r Hr. destruct (to_bin_spec 4 8 r Hr) as (B & L & V). rewrite <- (be_bytes_be_val (to_bin 4 r) B), V, L. done.
  - intros a Ha Hl. destruct (from_bin_spec 4 8 a [] 0 Ha Hl (dok_nil _)) as [O E]. split; [done|]. etransitivity; [exact E|]. cbn [nval]. rewrite Z.mul_0_r. apply Z.add_0_r.
  - intros a b Ha Hb. unfold cmp_8. rewrite (sp_cmp_digits_spec 32 8) by first [lia|by apply dok_reverse]. by rewrite !reverse_involutive.
  - intros a b Ha Hb. destruct (gen_add_loop_spec 8 a b 0 Ha Hb ltac:(lia)) as [O E]. split; [done|]. rewrite Z.add_0_r in E. exact E.
  - intros a b Ha Hb. destruct (gen_sub_loop_spec 8 a b 0 Ha Hb ltac:(lia)) as [O E]. split; [done|]. rewrite Z.sub_0_r in E. exact E.
  - apply gen_sub_mod_spec.
  - intros a b Ha Hb. rewrite <- (gen_columns_product a b Ha Hb). apply (gen_mul_loop_spec a b 15 0 0 (proj2 Ha) (proj2 Hb) ltac:(lia)).
    rewrite gen_columns_product by done. pose proof (nval_range 32 8 a ltac:(lia) Ha). pose proof (nval_range 32 8 b ltac:(lia) Hb).
    change (2 ^ (32 * Z.of_nat 16)) with (2 ^ (32 * Z.of_nat 8) * 2 ^ (32 * Z.of_nat 8)). nia.
  - intros r c Hr. unfold rshift1_8. destruct (rshift_spec 32 8 (reverse r) c ltac:(lia) (dok_reverse _ _ _ Hr)) as [O E].
    rewrite reverse_involutive in E. split; [by apply dok_reverse|exact E].
  - apply gen_mont_reduce_spec.
Qed.
End Sp256Generic.
