(* ===== verification/Sp256X86.v ===== *)
(** * The x86-64 version of the 256-bit arithmetic satisfies its laws *)

From S2P Require Import Prelude Sp256 Sp256Facts.

Module Sp256X86.
Import Sp256 Sp256Facts.
Import X86_64.

Abbreviation wok := (dok 64).

Lemma words_spec n r : ok (n + n) r -> wok n (words r) /\ nval 64 (words r) = num r.
Proof.
  revert r. induction n as [|n IH]; intros r H.
  - destruct H as [H _]. apply nil_length_inv in H. subst. split; [apply dok_nil|done].
  - rewrite <- plus_n_Sm in H. cbn [Nat.add] in H. apply dok_inv in H as (lo & r1 & -> & Hlo & H). apply dok_inv in H as (hi & r' & -> & Hhi & H).
    destruct (IH r' H) as [I1 I2]. cbn [words nval]. unfold is_digit in *. split; [apply dok_cons; split; [unfold is_digit; lia|done]|].
    rewrite I2. lia.
Qed.

Lemma unwords_spec n w : wok n w -> ok (n + n) (unwords w) /\ num (unwords w) = nval 64 w.
Proof.
  revert w. induction n as [|n IH]; intros w H.
  - destruct H as [H _]. apply nil_length_inv in H. subst. split; [apply dok_nil|done].
  - apply dok_inv in H as (d & w' & -> & Hd & H). destruct (IH w' H) as [I1 I2]. cbn [unwords nval]. unfold is_digit in Hd.
    pose proof (Z.div_mod d (2 ^ 32) ltac:(lia)). pose proof (Z.mod_pos_bound d (2 ^ 32) ltac:(lia)).
    split; [rewrite <- plus_n_Sm; cbn [Nat.add]; rewrite !dok_cons; split; [done|]; split; [|done]|rewrite I2; lia].
    split; [apply Z.div_pos; lia|apply Z.div_lt_upper_bound; lia].
Qed.

Lemma u64_digit v : is_digit 64 (u64 v).
Proof. apply Z.mod_pos_bound. done. Qed.

Lemma x86_pow_step n : 2 ^ (64 * Z.of_nat (S n)) = 2 ^ 64 * 2 ^ (64 * Z.of_nat n).
Proof. rewrite Nat2Z.inj_succ, Z.mul_succ_r, Z.pow_add_r by lia. lia. Qed.

(** ** Addition and subtraction *)

(** A sum below twice the word size, and its carry. *)
Lemma x86_carry_spec s : 0 <= s < 2 * 2 ^ 64 -> s = u64 s + 2 ^ 64 * Z.b2z (2 ^ 64 <=? s).
Proof.
  intros Hs. unfold u64. destruct (Z.leb_spec (2 ^ 64) s); cbn [Z.b2z].
  - rewrite <- (Z_mod_plus_full _ (-1)), Z.mod_small by lia. lia.
  - rewrite Z.mod_small by lia. lia.
Qed.

Lemma borrow_spec s : - 2 ^ 64 <= s < 2 ^ 64 -> s = u64 s - 2 ^ 64 * Z.b2z (s <? 0).
Proof.
  intros Hs. unfold u64. destruct (Z.ltb_spec s 0); cbn [Z.b2z].
  - rewrite <- (Z_mod_plus_full _ 1), Z.mod_small by lia. lia.
  - rewrite Z.mod_small by lia. lia.
Qed.

Lemma b2z_bound b : 0 <= Z.b2z b <= 1.
Proof. by destruct b; cbn. Qed.

Lemma adc_spec n a b c : wok n a -> wok n b ->
  wok n (adc a b c).1 /\ nval 64 a + nval 64 b + Z.b2z c = nval 64 (adc a b c).1 + Z.b2z (adc a b c).2 * 2 ^ (64 * Z.of_nat n).
Proof.
  revert a b c. induction n as [|n IH]; intros a b c Ha Hb.
  - destruct Ha as [Ha _], Hb as [Hb _]. apply nil_length_inv in Ha, Hb. subst. cbn. split; [apply dok_nil|lia].
  - apply dok_inv in Ha as (d & a' & -> & Hd & Ha), Hb as (e & b' & -> & He & Hb). cbn [adc]. unfold is_digit in *. pose proof (b2z_bound c).
    pose proof (x86_carry_spec (d + e + Z.b2z c) ltac:(lia)) as E. pose proof (u64_digit (d + e + Z.b2z c)) as D.
    specialize (IH a' b' (2 ^ 64 <=? d + e + Z.b2z c) Ha Hb). destruct (adc a' b' _) as [r co]. cbn [fst snd nval] in *. destruct IH as [I1 I2].
    split; [by apply dok_cons|]. rewrite x86_pow_step. nia.
Qed.

Lemma sbb_spec n a b c : wok n a -> wok n b ->
  wok n (sbb a b c).1 /\ nval 64 a - nval 64 b - Z.b2z c = nval 64 (sbb a b c).1 - Z.b2z (sbb a b c).2 * 2 ^ (64 * Z.of_nat n).
Proof.
  revert a b c. induction n as [|n IH]; intros a b c Ha Hb.
  - destruct Ha as [Ha _], Hb as [Hb _]. apply nil_length_inv in Ha, Hb. subst. cbn. split; [apply dok_nil|lia].
  - apply dok_inv in Ha as (d & a' & -> & Hd & Ha), Hb as (e & b' & -> & He & Hb). cbn [sbb]. unfold is_digit in *. pose proof (b2z_bound c).
    pose proof (borrow_spec (d - e - Z.b2z c) ltac:(lia)) as E. pose proof (u64_digit (d - e - Z.b2z c)) as D.
    specialize (IH a' b' (d - e - Z.b2z c <? 0) Ha Hb). destruct (sbb a' b' _) as [r co]. cbn [fst snd nval] in *. destruct IH as [I1 I2].
    split; [by apply dok_cons|]. rewrite x86_pow_step. nia.
Qed.

Lemma x86_sub_mod_spec r : ok 8 r -> ok 8 (sub_8_p256_mod r) /\ num (sub_8_p256_mod r) = (num r - p) mod R.
Proof.
  intros Hr. destruct (words_spec 4 r Hr) as [Wo Wn]. unfold sub_8_p256_mod. rewrite <- Wn. generalize dependent (words r). intros w Wo Wn.
  destruct Wo as [Wl Wf]. destruct w as [|w0 [|w1 [|w2 [|w3 [|]]]]]; try done. cbn [take nth].
  rewrite !Forall_cons in Wf. destruct Wf as (H0 & H1 & H2 & H3 & _).
  destruct (sbb_spec 3 [w0; w1; w2] [0xffffffffffffffff; 0x00000000ffffffff; 0] false) as [O E].
  { split; [done|by rewrite !Forall_cons]. }
  { split; [done|]. repeat (apply Forall_cons; split; [unfold is_digit; lia|]). constructor. }
  destruct (sbb _ _ _) as [lo cf]. cbn [fst snd] in *. set (v := u64 (u64 (w3 - Z.b2z cf) + 0x00000000ffffffff)).
  pose proof (u64_digit (u64 (w3 - Z.b2z cf) + 0x00000000ffffffff)) as D. fold v in D.
  assert (wok 4 (lo ++ [v])) as Wv by (apply (dok_app 64 3 1); [done|apply dok_cons; split; [done|apply dok_nil]]).
  destruct (unwords_spec 4 _ Wv) as [Uo Un]. split; [done|]. rewrite Un.
  pose proof (nval_range 64 4 _ ltac:(lia) Wv) as B. change (2 ^ (64 * Z.of_nat 4)) with R in B.
  destruct O as [Lo _]. rewrite nval_app, Lo in * by lia. change (2 ^ (64 * Z.of_nat 3)) with (2 ^ 192) in *. cbn [nval] in *.
  assert (exists k, v = w3 - Z.b2z cf + 0x00000000ffffffff + 2 ^ 64 * k) as [k Ek].
  { exists (- ((w3 - Z.b2z cf + 0x00000000ffffffff) / 2 ^ 64)). unfold v, u64. rewrite Zplus_mod_idemp_l.
    pose proof (Z.div_mod (w3 - Z.b2z cf + 0x00000000ffffffff) (2 ^ 64)). lia. }
  clearbody v. apply (Zmod_unique _ _ (- k - 1)); [lia|]. unfold p, R. change (Z.b2z false) with 0 in E. lia.
Qed.

(** ** Multiplication *)

Lemma x86_mac_spec a b k l accl acch hi : Forall (is_digit 64) a -> Forall (is_digit 64) b ->
  is_digit 64 accl -> is_digit 64 acch -> 0 <= hi -> hi + Z.of_nat (length l) < 2 ^ 64 ->
  let '(l', h', hi') := fold_left (mac a b k) l (accl, acch, hi) in
  is_digit 64 l' /\ is_digit 64 h' /\ is_digit 64 hi' /\
  l' + 2 ^ 64 * (h' + 2 ^ 64 * hi') = accl + 2 ^ 64 * (acch + 2 ^ 64 * hi) + sum_products a b k l.
Proof.
  intros Fa Fb. revert accl acch hi. induction l as [|i l IH]; intros accl acch hi Hl Hh Hi Hn; cbn [fold_left length sum_products fold_right] in *.
  { unfold is_digit in *. lia. }
  fold (sum_products a b k l). rewrite Nat2Z.inj_succ in Hn.
  pose proof (sp_nth_digit 64 a i Fa ltac:(lia)) as Da. pose proof (sp_nth_digit 64 b (k - i) Fb ltac:(lia)) as Db.
  set (m := nth i a 0 * nth (k - i) b 0) in *. assert (0 <= m <= (2 ^ 64 - 1) * (2 ^ 64 - 1)) as Hm by nia.
  unfold is_digit in *. pose proof (Z.div_mod m (2 ^ 64) ltac:(lia)) as Dm. pose proof (Z.mod_pos_bound m (2 ^ 64) ltac:(lia)) as Mb.
  assert (0 <= m / 2 ^ 64 < 2 ^ 64 - 1) as Qb by (split; [apply Z.div_pos; lia|apply Z.div_lt_upper_bound; lia]).
  set (s := accl + m mod 2 ^ 64) in *. set (s' := acch + m / 2 ^ 64 + Z.b2z (2 ^ 64 <=? s)) in *.
  change (mac a b k (accl, acch, hi) i) with (u64 s, u64 s', u64 (hi + Z.b2z (2 ^ 64 <=? s'))).
  pose proof (b2z_bound (2 ^ 64 <=? s)). pose proof (b2z_bound (2 ^ 64 <=? s')).
  pose proof (x86_carry_spec s ltac:(lia)) as E1. pose proof (x86_carry_spec s' ltac:(lia)) as E2.
  specialize (IH (u64 s) (u64 s') (hi + Z.b2z (2 ^ 64 <=? s')) (u64_digit _) (u64_digit _) ltac:(lia) ltac:(lia)).
  rewrite (u64_id (hi + _)) by (unfold is_u64; lia). destruct (fold_left _ _ _) as [[l' h'] hi']. unfold is_digit in IH.
  destruct IH as (I1 & I2 & I3 & I4). split; [done|]. split; [done|]. split; [done|]. rewrite I4. lia.
Qed.

Lemma x86_mul_loop_spec a b n k accl acch : Forall (is_digit 64) a -> Forall (is_digit 64) b -> is_digit 64 accl -> is_digit 64 acch ->
  accl + 2 ^ 64 * acch + columns 64 3 a b n k < 2 ^ (64 * Z.of_nat (S n)) ->
  wok (S n) (mul_loop a b n k accl acch) /\ nval 64 (mul_loop a b n k accl acch) = accl + 2 ^ 64 * acch + columns 64 3 a b n k.
Proof.
  intros Fa Fb. revert k accl acch. induction n as [|n IH]; intros k accl acch Hl Hh Hb; cbn [mul_loop columns] in *; unfold is_digit in *.
  - cbn [nval]. change (2 ^ (64 * Z.of_nat 1)) with (2 ^ 64) in Hb. assert (acch = 0) by lia. split; [split; [done|repeat constructor; lia]|lia].
  - pose proof (x86_mac_spec a b k (seq (k - 3) ((k `min` 3) + 1 - (k - 3))) accl acch 0 Fa Fb Hl Hh ltac:(lia)) as M.
    rewrite length_seq in M. specialize (M ltac:(lia)). fold (column 3 a b k) in M.
    destruct (fold_left _ _ _) as [[l h] hi]. destruct M as (D1 & D2 & D3 & E). cbn [nval].
    pose proof (columns_nonneg 64 3 a b n (k + 1) ltac:(lia) Fa Fb) as Cn. rewrite x86_pow_step in Hb. unfold is_digit in *.
    destruct (IH (k + 1)%nat h hi D2 D3) as [I1 I2]; [nia|]. split; [by apply dok_cons|]. rewrite I2. lia.
Qed.

Lemma x86_columns_product a b : wok 4 a -> wok 4 b -> columns 64 3 a b 7 0 = nval 64 a * nval 64 b.
Proof.
  intros [La _] [Lb _]. do 4 (destruct a as [|? a]; [done|]). destruct a; [|done]. do 4 (destruct b as [|? b]; [done|]). destruct b; [|done].
  cbv [columns column sum_products seq Nat.sub Nat.add Nat.min fold_right nth nval]. ring.
Qed.

(** ** Montgomery reduction *)

Lemma x86_add_wrap a b : is_digit 64 a -> is_digit 64 b ->
  is_digit 64 (u64 (a + b)) /\ a + b = u64 (a + b) + 2 ^ 64 * Z.b2z (u64 (a + b) <? b).
Proof.
  unfold is_digit, u64. intros Ha Hb. destruct (Z.lt_ge_cases (a + b) (2 ^ 64)).
  - rewrite Z.mod_small by lia. rewrite (proj2 (Z.ltb_ge _ _)) by lia. cbn. lia.
  - rewrite <- (Z_mod_plus_full _ (-1)), Z.mod_small by lia. rewrite (proj2 (Z.ltb_lt _ _)) by lia. cbn. lia.
Qed.

(** The two halves of a word shifted by half a word. *)
Lemma shl32 v : is_digit 64 v -> u64 (Z.shiftl v 32) = 2 ^ 32 * (v mod 2 ^ 32).
Proof.
  intros Hv. rewrite Z.shiftl_mul_pow2 by lia. unfold u64. change (2 ^ 64) with (2 ^ 32 * 2 ^ 32). rewrite Z.mul_mod_distr_r by lia. lia.
Qed.

(** The product of a word with 2^64 - 2^32 in two words, without a wider type. *)
Lemma top_product b : is_digit 64 b ->
  let bl := u64 (Z.shiftl b 32) in
  let hi := u64 (bl - b) in
  let lo := u64 (Z.shiftl hi 32) in
  let hi' := Z.lor (Z.shiftr hi 32) (u64 (Z.shiftl (u64 (Z.shiftr b 32 - Z.b2z (bl <? b))) 32)) in
  is_digit 64 lo /\ 0 <= hi' <= 2 ^ 64 - 2 ^ 32 /\ lo + 2 ^ 64 * hi' = b * (2 ^ 64 - 2 ^ 32).
Proof.
  intros Hb. cbn zeta. rewrite (shl32 b Hb). rewrite !(Z.shiftr_div_pow2 _ 32) by lia. unfold is_digit in Hb.
  pose proof (Z.div_mod b (2 ^ 32) ltac:(lia)) as Eb. pose proof (Z.mod_pos_bound b (2 ^ 32) ltac:(lia)) as Bb.
  assert (0 <= b / 2 ^ 32 < 2 ^ 32) as Qb by (split; [apply Z.div_pos; lia|apply Z.div_lt_upper_bound; lia]).
  set (bh := b / 2 ^ 32) in *. set (bl := b mod 2 ^ 32) in *. clearbody bh bl.
  pose proof (borrow_spec (2 ^ 32 * bl - b) ltac:(lia)) as E5. pose proof (u64_digit (2 ^ 32 * bl - b)) as D5.
  set (hi := u64 (2 ^ 32 * bl - b)) in *. clearbody hi.
  assert (Z.b2z (2 ^ 32 * bl - b <? 0) = Z.b2z (2 ^ 32 * bl <? b)) as Eq.
  { f_equal. destruct (Z.ltb_spec (2 ^ 32 * bl - b) 0), (Z.ltb_spec (2 ^ 32 * bl) b); lia. }
  rewrite Eq in E5. set (o := Z.b2z (2 ^ 32 * bl <? b)) in *.
  assert (0 <= bh - o < 2 ^ 32) as Ho. { unfold o. destruct (Z.ltb_spec (2 ^ 32 * bl) b); cbn [Z.b2z]; lia. }
  rewrite (u64_id (bh - o)) by (unfold is_u64; lia). rewrite (u64_id (Z.shiftl (bh - o) 32)) by (unfold is_u64; rewrite Z.shiftl_mul_pow2 by lia; lia).
  rewrite (shl32 hi D5). unfold is_digit in D5. pose proof (Z.div_mod hi (2 ^ 32) ltac:(lia)) as Eh. pose proof (Z.mod_pos_bound hi (2 ^ 32) ltac:(lia)) as Bh.
  assert (0 <= hi / 2 ^ 32 < 2 ^ 32) as Qh by (split; [apply Z.div_pos; lia|apply Z.div_lt_upper_bound; lia]).
  rewrite Z.lor_comm, <- add_mul_lor by lia. unfold is_digit. clearbody o. lia.
Qed.

Lemma x86_mul_add_spec r0 r1 r2 r3 r4 : Forall (is_digit 64) [r0; r1; r2; r3; r4] ->
  wok 4 (mul_add_4 r0 r1 r2 r3 r4).1 /\
  nval 64 [r0; r1; r2; r3; r4] + r0 * p =
    2 ^ 64 * (nval 64 (mul_add_4 r0 r1 r2 r3 r4).1 + Z.b2z (mul_add_4 r0 r1 r2 r3 r4).2 * R).
Proof.
  rewrite !Forall_cons. intros (H0 & H1 & H2 & H3 & H4 & _). unfold mul_add_4.
  destruct (top_product r0 H0) as (Dl & Dh & Et). cbn zeta in Dl, Dh, Et.
  set (bl := u64 (Z.shiftl r0 32)) in *. set (hi := u64 (bl - r0)) in *. set (lo := u64 (Z.shiftl hi 32)) in *.
  set (hi' := Z.lor (Z.shiftr hi 32) _) in *. clearbody hi' lo. clear hi.
  assert (is_digit 64 bl /\ bl + 2 ^ 64 * Z.shiftr r0 32 = 2 ^ 32 * r0 /\ 0 <= Z.shiftr r0 32 < 2 ^ 32) as (Db & Eb & Bb).
  { unfold bl. rewrite (shl32 r0 H0), Z.shiftr_div_pow2 by lia. unfold is_digit in *. pose proof (Z.div_mod r0 (2 ^ 32) ltac:(lia)).
    pose proof (Z.mod_pos_bound r0 (2 ^ 32) ltac:(lia)). assert (r0 / 2 ^ 32 < 2 ^ 32) by (apply Z.div_lt_upper_bound; lia).
    pose proof (Z.div_pos r0 (2 ^ 32)). lia. }
  set (bh := Z.shiftr r0 32) in *. clearbody bl bh.
  destruct (x86_add_wrap r1 bl H1 Db) as [D1 E1]. set (s1 := u64 (r1 + bl)) in *. set (c1 := s1 <? bl) in *. clearbody s1 c1. pose proof (b2z_bound c1).
  rewrite (u64_id (Z.b2z c1 + bh)) by (unfold is_u64; lia).
  destruct (x86_add_wrap r2 (Z.b2z c1 + bh) H2 ltac:(unfold is_digit; lia)) as [D2 E2]. set (s2 := u64 (r2 + _)) in *. set (c2 := s2 <? _) in *. clearbody s2 c2. pose proof (b2z_bound c2).
  destruct (x86_add_wrap (Z.b2z c2) r0 ltac:(unfold is_digit; lia) H0) as [D3 E3]. set (s3 := u64 (Z.b2z c2 + r0)) in *. set (c3 := s3 <? r0) in *. clearbody s3 c3. pose proof (b2z_bound c3).
  destruct (x86_add_wrap s3 r3 D3 H3) as [D4 E4]. set (s4 := u64 (s3 + r3)) in *. set (c4 := s4 <? r3) in *. clearbody s4 c4. pose proof (b2z_bound c4).
  destruct (x86_add_wrap s4 lo D4 Dl) as [D5 E5]. set (s5 := u64 (s4 + lo)) in *. set (c5 := s5 <? lo) in *. clearbody s5 c5. pose proof (b2z_bound c5).
  rewrite (u64_id (Z.b2z c3 + Z.b2z c4 + Z.b2z c5 + hi')) by (unfold is_u64; lia).
  destruct (x86_add_wrap r4 (Z.b2z c3 + Z.b2z c4 + Z.b2z c5 + hi') H4 ltac:(unfold is_digit; lia)) as [D6 E6].
  set (s6 := u64 (r4 + _)) in *. set (c6 := s6 <? _) in *. clearbody s6 c6. unfold is_digit in *. cbn [fst snd].
  split; [split; [done|repeat (apply Forall_cons; split; [unfold is_digit; lia|]); constructor]|].
  unfold p, R. cbn [nval]. lia.
Qed.

Lemma x86_pow_step' n : 2 ^ (64 * Z.of_nat (S n + 4)) = 2 ^ 64 * (R * 2 ^ (64 * Z.of_nat n)).
Proof. unfold R. rewrite <- !Z.pow_add_r by lia. f_equal. lia. Qed.

Lemma x86_reduce_loop_spec n a c : wok (n + 4) a -> 0 <= c -> c + Z.of_nat n < 2 ^ 32 ->
  let r := reduce_loop n a c in
  wok 4 r.1 /\ 0 <= r.2 /\ exists m, 0 <= m < 2 ^ (64 * Z.of_nat n) /\
    nval 64 a + c * 2 ^ (64 * Z.of_nat (n + 4)) + m * p = 2 ^ (64 * Z.of_nat n) * (nval 64 r.1 + r.2 * R).
Proof.
  revert a c. induction n as [|n IH]; intros a c Ha Hc Hn; cbn zeta.
  - cbn [reduce_loop fst snd]. split; [done|]. split; [done|]. exists 0. change (2 ^ (64 * Z.of_nat (0 + 4))) with R. change (2 ^ (64 * Z.of_nat 0)) with 1. lia.
  - destruct Ha as [La Fa]. destruct a as [|d0 [|d1 [|d2 [|d3 [|d4 a]]]]]; cbn [length] in La; try lia.
    rewrite !Forall_cons in Fa. destruct Fa as (H0 & H1 & H2 & H3 & H4 & Fa). cbn [reduce_loop].
    destruct (x86_mul_add_spec d0 d1 d2 d3 d4) as [Mo Me]; [by rewrite !Forall_cons|].
    destruct (mul_add_4 d0 d1 d2 d3 d4) as [r o]. cbn [fst snd] in Mo, Me.
    assert (wok n a) as Ha by (split; [lia|done]).
    assert (exists a' cc, (if o then inc_next_word 64 a else (a, false)) = (a', cc) /\ wok n a' /\
      nval 64 a + Z.b2z o = nval 64 a' + Z.b2z cc * 2 ^ (64 * Z.of_nat n)) as (a' & cc & -> & Ha' & Ea).
    { destruct o; [|exists a, false; cbn; split; [done|split; [done|lia]]].
      destruct (inc_spec 64 n a ltac:(lia) Ha) as [I1 I2]. destruct (inc_next_word 64 a) as [a' cc]. exists a', cc. done. }
    set (c' := if cc then u32 (c + 1) else c). assert (c' = c + Z.b2z cc) as Ec.
    { unfold c'. destruct cc; cbn; [rewrite u32_id by (unfold is_u32; lia); lia|lia]. }
    destruct (IH (r ++ a') c') as (I1 & I2 & m & Hm & I3); [rewrite Nat.add_comm; by apply dok_app|destruct cc; cbn in Ec; lia|destruct cc; cbn in Ec; lia|].
    split; [done|]. split; [done|]. exists (d0 + 2 ^ 64 * m). unfold is_digit in H0. rewrite !x86_pow_step. split; [nia|].
    set (rr := reduce_loop n (r ++ a') c') in *. clearbody rr. destruct Mo as [Lr _]. rewrite nval_app, Lr in I3 by lia.
    change (d0 :: d1 :: d2 :: d3 :: d4 :: a) with ([d0; d1; d2; d3; d4] ++ a).
    rewrite nval_app by lia. change (2 ^ (64 * Z.of_nat (length [d0; d1; d2; d3; d4]))) with (2 ^ 64 * R).
    change (2 ^ (64 * Z.of_nat 4)) with R in I3.
    replace (2 ^ (64 * Z.of_nat (n + 4))) with (R * 2 ^ (64 * Z.of_nat n)) in * by (unfold R; rewrite <- Z.pow_add_r by lia; f_equal; lia).
    rewrite x86_pow_step'. rewrite Ec in I3. clearbody c'. clear - Me Ea I3.
    set (X := nval 64 [d0; d1; d2; d3; d4]) in *. clearbody X.
    set (B := 2 ^ 64) in *. set (P := 2 ^ (64 * Z.of_nat n)) in *. generalize dependent R. intros R. clearbody B P. intros.
    apply (f_equal (Z.mul (B * R))) in Ea. apply (f_equal (Z.mul B)) in I3. lia.
Qed.

Lemma x86_mont_reduce_spec t : ok 16 t -> ok 8 (mont_reduce_8 t) /\
  exists m q, 0 <= m < R /\ num t + m * p = R * q /\ num (mont_reduce_8 t) = fold_top q.
Proof.
  intros Ht. destruct (words_spec 8 t Ht) as [Wo Wn]. unfold mont_reduce_8.
  destruct (x86_reduce_loop_spec 4 (words t) 0 Wo ltac:(lia) ltac:(lia)) as (O & C & m & Hm & E).
  destruct (reduce_loop 4 (words t) 0) as [r c]. cbn [fst snd] in *. change (2 ^ (64 * Z.of_nat 4)) with R in *. rewrite Wn in E.
  pose proof (nval_range 32 16 t ltac:(lia) Ht) as Bt. change (2 ^ (32 * Z.of_nat 16)) with (R * R) in Bt.
  pose proof (nval_range 64 4 r ltac:(lia) O) as Br. change (2 ^ (64 * Z.of_nat 4)) with R in Br.
  rewrite Z.mul_0_l, Z.add_0_r in E. pose proof (reduce_top _ _ _ _ Bt Hm C Br E) as F.
  destruct (unwords_spec 4 r O) as [Uo Un]. destruct (x86_sub_mod_spec (unwords r) Uo) as [So Sn]. rewrite Un in Sn.
  split; [by destruct (negb _)|]. exists m, (nval 64 r + c * R). split; [done|]. split; [done|]. rewrite <- F. by destruct (negb _).
Qed.

#[global] Instance x86_64_laws : SpLaws x86_64.
Proof.
  split; cbn [sp_256_to_bin_8 sp_256_from_bin_8 sp_256_cmp_8 sp_256_add_8 sp_256_sub_8 sp_256_sub_8_p256_mod sp_256to512_mul_8 sp_256_rshift1_8 sp_512to256_mont_reduce_8 x86_64].
  - intros r Hr. destruct (words_spec 4 r Hr) as [Wo Wn]. destruct (to_bin_spec 8 4 (words r) Wo) as (B & L & V).
    rewrite <- (be_bytes_be_val (to_bin 8 (words r)) B), V, L. change (8 * Z.of_nat 8) with 64. by rewrite Wn.
  - intros a Ha Hl. destruct (from_bin_spec 8 4 a [] 0 Ha Hl (dok_nil _)) as [O E]. destruct (unwords_spec 4 _ O) as [Uo Un].
    split; [done|]. rewrite Un. etransitivity; [exact E|]. cbn [nval]. rewrite Z.mul_0_r. apply Z.add_0_r.
  - intros a b Ha Hb. destruct (words_spec 4 a Ha) as [Ao An], (words_spec 4 b Hb) as [Bo Bn]. unfold cmp_8.
    rewrite (sp_cmp_digits_spec 64 4) by first [lia|by apply dok_reverse]. by rewrite !reverse_involutive, An, Bn.
  - intros a b Ha Hb. destruct (words_spec 4 a Ha) as [Ao An], (words_spec 4 b Hb) as [Bo Bn]. unfold add_8.
    destruct (adc_spec 4 _ _ false Ao Bo) as [O E]. destruct (adc _ _ _) as [r c]. cbn [fst snd] in *. destruct (unwords_spec 4 r O) as [Uo Un].
    split; [done|]. rewrite Un. rewrite An, Bn, Z.add_0_r in E. exact E.
  - intros a b Ha Hb. destruct (words_spec 4 a Ha) as [Ao An], (words_spec 4 b Hb) as [Bo Bn]. unfold sub_8.
    destruct (sbb_spec 4 _ _ false Ao Bo) as [O E]. destruct (sbb _ _ _) as [r c]. cbn [fst snd] in *. destruct (unwords_spec 4 r O) as [Uo Un].
    split; [done|]. rewrite Un. rewrite An, Bn, Z.sub_0_r in E. exact E.
  - apply x86_sub_mod_spec.
  - intros a b Ha Hb. destruct (words_spec 4 a Ha) as [Ao An], (words_spec 4 b Hb) as [Bo Bn]. unfold mul_8.
    destruct (x86_mul_loop_spec (words a) (words b) 7 0 0 0 (proj2 Ao) (proj2 Bo)) as [O E]; [done|done| |].
    + rewrite x86_columns_product by done. pose proof (nval_range 64 4 _ ltac:(lia) Ao). pose proof (nval_range 64 4 _ ltac:(lia) Bo).
      change (2 ^ (64 * Z.of_nat 8)) with (2 ^ (64 * Z.of_nat 4) * 2 ^ (64 * Z.of_nat 4)). nia.
    + destruct (unwords_spec 8 _ O) as [Uo Un]. split; [done|]. rewrite Un, E, x86_columns_product, An, Bn by done. lia.
  - intros r c Hr. destruct (words_spec 4 r Hr) as [Wo Wn]. unfold rshift1_8.
    destruct (rshift_spec 64 4 (reverse (words r)) c ltac:(lia) (dok_reverse _ _ _ Wo)) as [O E]. rewrite reverse_involutive, Wn in E.
    destruct (unwords_spec 4 _ (dok_reverse _ _ _ O)) as [Uo Un]. split; [done|]. etransitivity; [exact Un|exact E].
  - apply x86_mont_reduce_spec.
Qed.
End Sp256X86.
