(* ===== verification/Sp256Num.v ===== *)
(** * The P-256 code on numbers instead of digits

    Every function of [Sp256] above the low-level arithmetic, on the numbers
    below 2^256 that the digits stand for, with the same wrap-around.  The
    correspondence holds for any arithmetic that satisfies [SpLaws]; so the two
    versions of the code compute the same. *)

From S2P Require Import Prelude Sp256 Sp256Facts.

Module Sp256Num.
Import Sp256 Sp256Facts.

(** ** The functions *)

(** The multiplier of the reduction: minus the inverse of the modulus. *)
Definition p_inv : Z := 0xffffffff00000002000000000000000000000001000000000000000000000001.
Definition redc (t : Z) : Z := fold_top ((t + ((t * p_inv) mod R) * p) / R).

Definition zadd (a b : Z) : Z := let s := a + b in if R <=? s then (s - R - p) mod R else s.
Definition zsub (a b : Z) : Z := let d := a - b in if d <? 0 then (d + R + p) mod R else d.
Definition ztpl (a : Z) : Z := zadd (zadd a a) a.
Definition zdiv2 (a : Z) : Z := if Z.odd a then (a + p) / 2 else a / 2.
Definition zmul (a b : Z) : Z := redc (a * b).

Definition inv_bit (i : nat) : bool := (224 <=? i)%nat || (i =? 192)%nat || ((i <=? 95)%nat && negb (i =? 1)%nat).

Fixpoint zinv_loop (n : nat) (r a : Z) : Z :=
  match n with
  | O => r
  | S i => let r := zmul r r in zinv_loop i (if inv_bit i then zmul r a else r) a
  end.
Definition zinv (a : Z) : Z := zinv_loop 255 a a.

Definition zout (a b : Z) : Z := let r := redc (zmul a b) in if p <=? r then r - p else r.

(** The weighted sum of the digits in [sp_256_mod_mul_norm_8]. *)
Definition norm_sum (a : digits) : Z :=
  match a with
  | [a0; a1; a2; a3; a4; a5; a6; a7] =>
      nval 32 [a0 + a1 - a3 - a4 - a5 - a6; a1 + a2 - a4 - a5 - a6 - a7; a2 + a3 - a5 - a6 - a7;
               - a0 - a1 + 2 * a3 + 2 * a4 + a5 - a7; - a1 - a2 + 2 * a4 + 2 * a5 + a6;
               - a2 - a3 + 2 * a5 + 2 * a6 + a7; - a0 - a1 + a5 + 3 * a6 + 2 * a7; a0 - a2 - a3 - a4 - a5 + 3 * a7]
  | _ => 0
  end.

(** What is above 2^256 is folded once. *)
Definition znorm (a : Z) : Z := let v := norm_sum (ndigits 32 8 a) in (v mod R + (v / R) * (R - p)) mod R.

Record zpoint := { zx : Z; zy : Z; zz : Z; zinfinity : bool }.

Definition zpoint_dbl (q : zpoint) : zpoint :=
  if zinfinity q then q
  else
    let t1 := zmul (zz q) (zz q) in
    let rz := zmul (zy q) (zz q) in
    let rz := zadd rz rz in
    let t2 := zsub (zx q) t1 in
    let t1 := zadd (zx q) t1 in
    let t2 := zmul t1 t2 in
    let t1 := ztpl t2 in
    let ry := zadd (zy q) (zy q) in
    let ry := zmul ry ry in
    let t2 := zmul ry ry in
    let t2 := zdiv2 t2 in
    let ry := zmul ry (zx q) in
    let rx := zmul t1 t1 in
    let rx := zsub rx ry in
    let rx := zsub rx ry in
    let ry := zsub ry rx in
    let ry := zmul ry t1 in
    let ry := zsub ry t2 in
    {| zx := rx; zy := ry; zz := rz; zinfinity := false |}.

Definition zsame_point (a b : zpoint) : bool :=
  (zx a =? zx b) && (zz a =? zz b) && ((zy a =? zy b) || (zy a =? (p - zy b) mod R)).

Definition zpoint_add (a b : zpoint) : zpoint :=
  if zsame_point a b then zpoint_dbl a
  else if zinfinity a || zinfinity b then if zinfinity a then b else a
  else
    let t1 := zmul (zz b) (zz b) in
    let t3 := zmul t1 (zz b) in
    let t1 := zmul t1 (zx a) in
    let t2 := zmul (zz a) (zz a) in
    let t4 := zmul t2 (zz a) in
    let t2 := zmul t2 (zx b) in
    let t3 := zmul t3 (zy a) in
    let t4 := zmul t4 (zy b) in
    let t2 := zsub t2 t1 in
    let t4 := zsub t4 t3 in
    let rz := zmul (zz a) (zz b) in
    let rz := zmul rz t2 in
    let rx := zmul t4 t4 in
    let t5 := zmul t2 t2 in
    let ry := zmul t1 t5 in
    let t5 := zmul t5 t2 in
    let rx := zsub rx t5 in
    let t1 := zadd ry ry in
    let rx := zsub rx t1 in
    let ry := zsub ry rx in
    let ry := zmul ry t4 in
    let t5 := zmul t5 t3 in
    let ry := zsub ry t5 in
    {| zx := rx; zy := ry; zz := rz; zinfinity := false |}.

Definition zstep (bit : bool) (t : zpoint * zpoint) : zpoint * zpoint :=
  let '(t0, t1) := t in
  if bit then (zpoint_add t0 t1, zpoint_dbl t1) else (zpoint_dbl t0, zpoint_add t1 t0).

(** The bits of a number, from bit [n - 1] down. *)
Fixpoint bits_down (n : nat) (k : Z) : list bool :=
  match n with O => [] | S n => Z.testbit k (Z.of_nat n) :: bits_down n k end.

Definition zinfinite : zpoint := {| zx := 0; zy := 0; zz := 0; zinfinity := true |}.
Definition znorm_point (x y : Z) : zpoint := {| zx := znorm x; zy := znorm y; zz := znorm 1; zinfinity := false |}.

Definition zladder (k x y : Z) : zpoint * zpoint :=
  fold_left (fun t b => zstep b t) (bits_down 256 k) (zinfinite, znorm_point x y).

(** The affine coordinates of a point. *)
Definition zmap (a : zpoint) : Z * Z :=
  let t1 := zinv (zz a) in
  let t2 := zmul t1 t1 in
  let t1 := zmul t2 t1 in
  (zout (zx a) t2, zout (zy a) t1).

Definition zmulmod (k x y : Z) : Z * Z := zmap (zladder k x y).1.

(** ** Montgomery reduction is determined by its argument *)

Lemma p_range : 0 < p < R.
Proof. done. Qed.

Lemma p_inv_spec : exists k, p * p_inv = -1 + R * k.
Proof. exists ((p * p_inv + 1) / R). evaluate. Qed.

Lemma redc_unique t m q : 0 <= m < R -> t + m * p = R * q -> redc t = fold_top q.
Proof.
  intros Hm E. unfold redc. assert ((t * p_inv) mod R = m) as ->.
  { symmetry. destruct p_inv_spec as [k Ek]. apply (Zmod_unique _ _ (q * p_inv - m * k)); [done|].
    generalize dependent p_inv. generalize dependent p. generalize dependent R. intros R Hm p E p_inv Ek.
    apply (f_equal (fun v => v * p_inv)) in E. apply (f_equal (Z.mul m)) in Ek. lia. }
  by rewrite E, Z.mul_comm, Z.div_mul by done.
Qed.

Lemma redc_exact t : exists m q, 0 <= m < R /\ t + m * p = R * q /\ redc t = fold_top q.
Proof.
  exists ((t * p_inv) mod R), ((t + ((t * p_inv) mod R) * p) / R). split; [apply Z.mod_pos_bound; done|]. split; [|done].
  assert ((t + ((t * p_inv) mod R) * p) mod R = 0) as D.
  { destruct p_inv_spec as [k Ek]. assert (R <> 0) as HR by done. generalize dependent p_inv. generalize dependent p. generalize dependent R. intros R HR p p_inv Ek.
    rewrite <- Zplus_mod_idemp_r, Zmult_mod_idemp_l, Zplus_mod_idemp_r.
    replace (t + t * p_inv * p) with (t * k * R) by (apply (f_equal (Z.mul t)) in Ek; lia). apply Z_mod_mult. }
  pose proof (Z.div_mod (t + ((t * p_inv) mod R) * p) R ltac:(done)) as E. rewrite D in E. lia.
Qed.

(** ** The correspondence *)

Definition den (a : digits) (v : Z) : Prop := ok 8 a /\ num a = v.

Lemma den_range a v : den a v -> 0 <= v < R.
Proof. intros [O <-]. apply (nval_range 32 8); [lia|done]. Qed.

Lemma den_inj a b v : den a v -> den b v -> a = b.
Proof. intros [Oa Ea] [Ob Eb]. apply (nval_inj 32 8); [lia|done|done|congruence]. Qed.

Lemma den_ndigits a v : den a v -> ndigits 32 8 v = a.
Proof. intros [O <-]. by apply ndigits_nval. Qed.

Create HintDb sp.

Section corr.
Context {Ar : SpArith} {L : SpLaws Ar}.

Lemma den_p256_mod : den p256_mod p.
Proof using. split; [split; [done|]|done]. repeat (apply Forall_cons; split; [unfold is_digit; lia|]). constructor. Qed.

Lemma den_redc t : ok 16 t -> den (sp_512to256_mont_reduce_8 t) (redc (num t)).
Proof using L. intros Ht. destruct (reduce_law t Ht) as (O & m & q & Hm & E & N). split; [done|]. by rewrite N, (redc_unique _ m q). Qed.

Lemma den_mul a b u v : den a u -> den b v -> den (sp_256_mont_mul_8 a b) (zmul u v).
Proof using L.
  intros [Oa <-] [Ob <-]. destruct (mul_law a b Oa Ob) as [O E]. unfold sp_256_mont_mul_8, zmul. rewrite <- E. by apply den_redc.
Qed.

Lemma den_sqr a u : den a u -> den (sp_256_mont_sqr_8 a) (zmul u u).
Proof using L. intros. by apply den_mul. Qed.

(** The sum after the subtraction that a carry causes. *)
Lemma den_add_fold a b u v : den a u -> den b v ->
  den (if (sp_256_add_8 a b).2 then sp_256_sub_8_p256_mod (sp_256_add_8 a b).1 else (sp_256_add_8 a b).1) (zadd u v).
Proof using L.
  intros [Oa <-] [Ob <-]. destruct (add_law a b Oa Ob) as [O E]. pose proof (nval_range 32 8 _ ltac:(lia) O) as B.
  change (2 ^ (32 * Z.of_nat 8)) with R in B. unfold zadd. rewrite E. destruct (sp_256_add_8 a b) as [r c]. cbn [fst snd] in *. destruct c; cbn [Z.b2z].
  - destruct (sub_mod_law r O) as [So Sn]. rewrite (proj2 (Z.leb_le _ _)) by lia. split; [done|]. rewrite Sn. f_equal. lia.
  - rewrite (proj2 (Z.leb_gt _ _)) by lia. split; [done|lia].
Qed.

Lemma den_add a b u v : den a u -> den b v -> den (sp_256_mont_add_8 a b) (zadd u v).
Proof using L. intros Ha Hb. pose proof (den_add_fold a b u v Ha Hb) as A. unfold sp_256_mont_add_8. by destruct (sp_256_add_8 a b) as [r []]. Qed.

Lemma den_dbl a u : den a u -> den (sp_256_mont_dbl_8 a) (zadd u u).
Proof using L. intros Ha. pose proof (den_add_fold a a u u Ha Ha) as A. unfold sp_256_mont_dbl_8. by destruct (sp_256_add_8 a a) as [r []]. Qed.

Lemma den_tpl a u : den a u -> den (sp_256_mont_tpl_8 a) (ztpl u).
Proof using L.
  intros Ha. pose proof (den_add_fold a a u u Ha Ha) as A. unfold sp_256_mont_tpl_8, ztpl. destruct (sp_256_add_8 a a) as [r c]. cbn [fst snd] in A.
  set (s := if c then sp_256_sub_8_p256_mod r else r) in *. pose proof (den_add_fold s a _ u A Ha) as A2. by destruct (sp_256_add_8 s a) as [r2 []].
Qed.

Lemma den_sub a b u v : den a u -> den b v -> den (sp_256_mont_sub_8 a b) (zsub u v).
Proof using L.
  intros [Oa <-] [Ob <-]. destruct (sub_law a b Oa Ob) as [O E]. pose proof (nval_range 32 8 _ ltac:(lia) O) as B.
  change (2 ^ (32 * Z.of_nat 8)) with R in B. unfold sp_256_mont_sub_8, zsub. rewrite E. destruct (sp_256_sub_8 a b) as [r c]. cbn [fst snd] in *. destruct c; cbn [Z.b2z].
  - destruct den_p256_mod as [Op Ep]. destruct (add_law r p256_mod O Op) as [O2 E2]. rewrite Ep in E2. rewrite (proj2 (Z.ltb_lt _ _)) by lia. split; [done|].
    pose proof (nval_range 32 8 _ ltac:(lia) O2) as B2. change (2 ^ (32 * Z.of_nat 8)) with R in B2.
    apply (Zmod_unique _ _ (Z.b2z (sp_256_add_8 r p256_mod).2)); lia.
  - rewrite (proj2 (Z.ltb_ge _ _)) by lia. split; [done|lia].
Qed.

Lemma den_odd a u : den a u -> Z.odd (nth 0 a 0) = Z.odd u.
Proof using.
  intros [O <-]. apply dok_inv in O as (d & a' & -> & _ & _). cbn [nth nval]. rewrite Z.odd_add, Z.odd_mul. change (Z.odd (2 ^ 32)) with false. cbn [andb]. by destruct (Z.odd d).
Qed.

Lemma den_div2 a u : den a u -> den (sp_256_div2_8 a) (zdiv2 u).
Proof using L.
  intros Ha. unfold sp_256_div2_8, zdiv2. rewrite (den_odd a u Ha). destruct Ha as [O <-]. destruct (Z.odd (num a)).
  - destruct den_p256_mod as [Op Ep]. destruct (add_law a p256_mod O Op) as [O2 E2]. destruct (sp_256_add_8 a p256_mod) as [r c]. cbn [fst snd] in *.
    destruct (rshift_law r c O2) as [O3 E3]. split; [done|]. by rewrite E3, <- E2, Ep.
  - destruct (rshift_law a false O) as [O3 E3]. split; [done|]. rewrite E3. cbn [Z.b2z]. f_equal. lia.
Qed.

Lemma den_inv_loop n r a u v : den r u -> den a v -> den (inv_loop n r a) (zinv_loop n u v).
Proof using L.
  revert r u. induction n as [|i IH]; intros r u Hr Ha; [done|]. cbn [inv_loop zinv_loop]. apply IH; [|done]. fold (inv_bit i).
  destruct (inv_bit i); [apply den_mul; [|done]|]; by apply den_sqr.
Qed.

Lemma den_inv a u : den a u -> den (sp_256_mont_inv_8 a) (zinv u).
Proof using L. intros Ha. unfold sp_256_mont_inv_8, zinv. exact (den_inv_loop 255 a a u u Ha Ha). Qed.

Lemma den_out a b u v : den a u -> den b v -> den (below_modulus (sp_256_mont_mul_and_reduce_8 a b)) (zout u v).
Proof using L.
  intros Ha Hb. destruct (den_mul a b u v Ha Hb) as [O E]. unfold sp_256_mont_mul_and_reduce_8, zout.
  assert (ok 16 (sp_256_mont_mul_8 a b ++ replicate 8 0)) as O2.
  { apply (dok_app 32 8 8); [done|]. split; [done|]. by apply Forall_replicate. }
  pose proof (den_redc _ O2) as I. rewrite nval_app in I by lia. replace (nval 32 (replicate 8 0)) with 0 in I by done. rewrite Z.mul_0_r, Z.add_0_r, E in I.
  set (r := sp_512to256_mont_reduce_8 _) in *. pose proof (den_range _ _ I) as B. destruct I as [O3 E3]. unfold below_modulus. destruct den_p256_mod as [Op Ep].
  rewrite (cmp_law r p256_mod O3 Op), Ep, E3. destruct (Z.leb_spec p (redc (zmul u v))) as [Hl|Hl].
  - rewrite (proj2 (Z.leb_le 0 _)) by (apply Z.sgn_nonneg; lia). destruct (sub_mod_law r O3) as [So Sn]. split; [done|]. rewrite Sn, E3.
    apply Z.mod_small. pose proof p_range. lia.
  - rewrite (proj2 (Z.leb_gt 0 _)) by (apply Z.sgn_neg_iff; lia). by split.
Qed.

(** ** Into Montgomery form *)

Lemma split_t t : exists q m, Z.shiftr t 32 = q /\ Z.land t 0xffffffff = m /\ u32 t = m /\ t = m + 2 ^ 32 * q /\ 0 <= m < 2 ^ 32.
Proof using.
  exists (t / 2 ^ 32), (t mod 2 ^ 32). split; [apply Z.shiftr_div_pow2; lia|]. split; [by apply (Z.land_ones t 32)|]. split; [done|].
  pose proof (Z.div_mod t (2 ^ 32)). pose proof (Z.mod_pos_bound t (2 ^ 32)). lia.
Qed.

Ltac no_wrap := rewrite !i64_id by (unfold is_i64; lia).
Ltac split_digit t := let q := fresh "q" in let m := fresh "m" in let E1 := fresh in let E2 := fresh in let E3 := fresh in
  destruct (split_t t) as (q & m & E1 & E2 & E3 & ? & ?); rewrite ?E1, ?E2, ?E3; clear E1 E2 E3.

Lemma carry_spec t0 t1 t2 t3 t4 t5 t6 t7 : Forall (fun t => - 2 ^ 35 <= t < 2 ^ 35) [t0; t1; t2; t3; t4; t5; t6; t7] ->
  exists d0 d1 d2 d3 d4 d5 d6 d7, norm_carry [t0; t1; t2; t3; t4; t5; t6; t7] = [d0; d1; d2; d3; d4; d5; d6; d7] /\
    Forall (is_digit 32) [d0; d1; d2; d3; d4; d5; d6] /\ - 2 ^ 36 <= d7 < 2 ^ 36 /\
    num [d0; d1; d2; d3; d4; d5; d6; d7] = num [t0; t1; t2; t3; t4; t5; t6; t7].
Proof using.
  rewrite !Forall_cons. intros (B0 & B1 & B2 & B3 & B4 & B5 & B6 & B7 & _). unfold norm_carry. cbn [nval].
  split_digit t0. rewrite (i64_id (t1 + q)) by (unfold is_i64; lia). split_digit (t1 + q).
  rewrite (i64_id (t2 + q0)) by (unfold is_i64; lia). split_digit (t2 + q0). rewrite (i64_id (t3 + q1)) by (unfold is_i64; lia). split_digit (t3 + q1).
  rewrite (i64_id (t4 + q2)) by (unfold is_i64; lia). split_digit (t4 + q2). rewrite (i64_id (t5 + q3)) by (unfold is_i64; lia). split_digit (t5 + q3).
  rewrite (i64_id (t6 + q4)) by (unfold is_i64; lia). split_digit (t6 + q4). rewrite (i64_id (t7 + q5)) by (unfold is_i64; lia).
  eexists _, _, _, _, _, _, _, _. split; [reflexivity|]. split; [repeat (apply Forall_cons; split; [unfold is_digit; lia|]); constructor|]. lia.
Qed.

Lemma fold_spec d0 d1 d2 d3 d4 d5 d6 d7 : Forall (is_digit 32) [d0; d1; d2; d3; d4; d5; d6] -> - 2 ^ 36 <= d7 < 2 ^ 36 ->
  let v := num [d0; d1; d2; d3; d4; d5; d6; d7] in
  den (norm_fold [d0; d1; d2; d3; d4; d5; d6; d7]) ((v mod R + (v / R) * (R - p)) mod R).
Proof using.
  rewrite !Forall_cons. intros (B0 & B1 & B2 & B3 & B4 & B5 & B6 & _) B7. unfold is_digit in *. cbn zeta. set (v := num [d0; d1; d2; d3; d4; d5; d6; d7]). unfold norm_fold.
  destruct (split_t d7) as (o & m & -> & _ & _ & E7 & M7). rewrite (i32_id o) by (unfold is_i32; lia).
  assert (v / R = o /\ v mod R = v - R * o) as [-> ->].
  { assert (v / R = o) as Ev by (symmetry; apply (Zdiv_unique _ _ _ (v - R * o)); unfold v, R; cbn [nval]; lia).
    split; [done|]. pose proof (Z.div_mod v R ltac:(done)). lia. }
  rewrite (i64_id (d0 + o)), (i64_id (d3 - o)), (i64_id (d6 - o)), (i64_id (d7 + o)) by (unfold is_i64; lia).
  split_digit (d0 + o). rewrite (i64_id (d1 + q)) by (unfold is_i64; lia). split_digit (d1 + q).
  rewrite (i64_id (d2 + q0)) by (unfold is_i64; lia). split_digit (d2 + q0). rewrite (i64_id (d3 - o + q1)) by (unfold is_i64; lia). split_digit (d3 - o + q1).
  rewrite (i64_id (d4 + q2)) by (unfold is_i64; lia). split_digit (d4 + q2). rewrite (i64_id (d5 + q3)) by (unfold is_i64; lia). split_digit (d5 + q3).
  rewrite (i64_id (d6 - o + q4)) by (unfold is_i64; lia). split_digit (d6 - o + q4).
  assert (u32 (u32 (d7 + o) + u32 q5) = u32 (d7 + o + q5)) as -> by (unfold u32; by rewrite <- Zplus_mod).
  split_digit (d7 + o + q5).
  split; [split; [done|repeat (apply Forall_cons; split; [unfold is_digit; lia|]); constructor]|].
  apply (Zmod_unique _ _ (q6 - o)); unfold v, R, p; cbn [nval]; lia.
Qed.

Lemma den_norm a u : den a u -> den (sp_256_mod_mul_norm_8 a) (znorm u).
Proof using.
  intros D. unfold znorm. rewrite (den_ndigits a u D). destruct D as [[La Fa] _].
  destruct a as [|a0 [|a1 [|a2 [|a3 [|a4 [|a5 [|a6 [|a7 [|]]]]]]]]]; try done.
  rewrite !Forall_cons in Fa. destruct Fa as (B0 & B1 & B2 & B3 & B4 & B5 & B6 & B7 & _). unfold is_digit in *.
  unfold sp_256_mod_mul_norm_8, norm_sum. cbn [fmap list_fmap]. rewrite !i64_id by (unfold is_i64; lia).
  destruct (carry_spec (a0 + a1 - a3 - a4 - a5 - a6) (a1 + a2 - a4 - a5 - a6 - a7) (a2 + a3 - a5 - a6 - a7)
    (- a0 - a1 + 2 * a3 + 2 * a4 + a5 - a7) (- a1 - a2 + 2 * a4 + 2 * a5 + a6) (- a2 - a3 + 2 * a5 + 2 * a6 + a7)
    (- a0 - a1 + a5 + 3 * a6 + 2 * a7) (a0 - a2 - a3 - a4 - a5 + 3 * a7)) as (d0 & d1 & d2 & d3 & d4 & d5 & d6 & d7 & -> & F & B & <-).
  { repeat (apply Forall_cons; split; [lia|]). constructor. }
  by apply fold_spec.
Qed.

(** ** Points *)

Record denp (a : sp_point) (v : zpoint) : Prop := {
  denp_x : den (x a) (zx v); denp_y : den (y a) (zy v); denp_z : den (z a) (zz v); denp_inf : infinity a = zinfinity v }.

#[local] Hint Resolve denp_x denp_y denp_z denp_inf den_mul den_sqr den_add den_dbl den_tpl den_sub den_div2 : sp.

Lemma den_equal a b u v : den a u -> den b v -> sp_256_cmp_equal_8 a b = (u =? v).
Proof using L.
  intros [Oa <-] [Ob <-]. unfold sp_256_cmp_equal_8. rewrite (cmp_law a b Oa Ob).
  destruct (Z.eqb_spec (num a) (num b)) as [->|Hne]; [by rewrite Z.sub_diag|].
  destruct (Z.eqb_spec (Z.sgn (num a - num b)) 0) as [E|]; [|done]. apply Z.sgn_null_iff in E. lia.
Qed.

Lemma denp_dbl a v : denp a v -> denp (sp_256_proj_point_dbl_8 a) (zpoint_dbl v).
Proof using L.
  intros D. pose proof D as [Hx Hy Hz Hi]. unfold sp_256_proj_point_dbl_8, zpoint_dbl. rewrite Hi. destruct (zinfinity v); [done|].
  split; cbn [x y z infinity zx zy zz zinfinity]; [auto 30 with sp nocore..|done].
Qed.

Lemma denp_same a b u v : denp a u -> denp b v -> same_point a b = zsame_point u v.
Proof using L.
  intros [Hx Hy Hz Hi] [Kx Ky Kz Ki]. unfold same_point, zsame_point.
  assert (den (sp_256_sub_8 p256_mod (y b)).1 ((p - zy v) mod R)) as Hn.
  { destruct den_p256_mod as [Op Ep], Ky as [Oy Ey]. destruct (sub_law p256_mod (y b) Op Oy) as [O E]. split; [done|].
    pose proof (nval_range 32 8 _ ltac:(lia) O) as B. change (2 ^ (32 * Z.of_nat 8)) with R in B. rewrite Ep, Ey in E.
    apply (Zmod_unique _ _ (- Z.b2z (sp_256_sub_8 p256_mod (y b)).2)); lia. }
  rewrite (den_equal _ _ _ _ Hx Kx), (den_equal _ _ _ _ Hz Kz), (den_equal _ _ _ _ Hy Ky), (den_equal _ _ _ _ Hy Hn). done.
Qed.

Lemma denp_add a b u v : denp a u -> denp b v -> denp (sp_256_proj_point_add_8 a b) (zpoint_add u v).
Proof using L.
  intros A B. unfold sp_256_proj_point_add_8, zpoint_add. rewrite (denp_same _ _ _ _ A B). destruct (zsame_point u v); [by apply denp_dbl|].
  pose proof A as [Hx Hy Hz Hi]. pose proof B as [Kx Ky Kz Ki]. rewrite Hi, Ki. destruct (zinfinity u); [done|]. destruct (zinfinity v); [done|].
  cbn [orb]. split; cbn [x y z infinity zx zy zz zinfinity]; [auto 30 with sp nocore..|done].
Qed.

Lemma denp_step bit t s : denp t.1 s.1 -> denp t.2 s.2 -> denp (ladder_step bit t).1 (zstep bit s).1 /\ denp (ladder_step bit t).2 (zstep bit s).2.
Proof using L. destruct t, s, bit; cbn [fst snd ladder_step zstep]; eauto using denp_add, denp_dbl. Qed.

(** ** The ladder *)

Definition denpp (t : sp_point * sp_point) (s : zpoint * zpoint) : Prop := denp t.1 s.1 /\ denp t.2 s.2.

Lemma digit_steps_spec c n t s : (c <= 32)%nat -> denpp t s ->
  denpp (digit_steps c (u32 (n * 2 ^ (32 - Z.of_nat c))) t) (fold_left (fun t b => zstep b t) (bits_down c n) s).
Proof using L.
  revert t s. induction c as [|c IH]; intros t s Hc D; [done|]. cbn [digit_steps bits_down fold_left].
  assert (Z.odd (Z.shiftr (u32 (n * 2 ^ (32 - Z.of_nat (S c)))) 31) = Z.testbit n (Z.of_nat c)) as ->.
  { rewrite <- Z.bit0_odd, Z.shiftr_spec by lia. unfold u32. rewrite Z.mod_pow2_bits_low, Z.mul_pow2_bits by lia. f_equal. lia. }
  assert (u32 (Z.shiftl (u32 (n * 2 ^ (32 - Z.of_nat (S c)))) 1) = u32 (n * 2 ^ (32 - Z.of_nat c))) as ->.
  { rewrite Z.shiftl_mul_pow2 by lia. unfold u32. rewrite Zmult_mod_idemp_l. f_equal. rewrite <- Z.mul_assoc, <- Z.pow_add_r by lia. do 2 f_equal. lia. }
  apply IH; [lia|]. destruct D. by apply denp_step.
Qed.

Lemma bits_down_app n m lo hi : 0 <= lo < 2 ^ Z.of_nat n -> bits_down (m + n) (lo + 2 ^ Z.of_nat n * hi) = bits_down m hi ++ bits_down n lo.
Proof using.
  intros Hl. induction m as [|m IH]; cbn [Nat.add bits_down app].
  - assert (forall k, (k <= n)%nat -> bits_down k (lo + 2 ^ Z.of_nat n * hi) = bits_down k lo) as G; [|by apply G].
    induction k as [|k IH]; intros Hk; [done|]. cbn [bits_down]. rewrite IH by lia. f_equal.
    rewrite <- (Z.mod_pow2_bits_low (lo + _) (Z.of_nat n)) by lia. rewrite Z.mul_comm, Z_mod_plus_full, Z.mod_small by lia. done.
  - rewrite IH. f_equal. rewrite Nat2Z.inj_add, <- Z.div_pow2_bits by lia. rewrite Z.mul_comm, Z.div_add, Z.div_small by lia. done.
Qed.

Lemma ladder_digits k l t s : ok k l -> denpp t s ->
  denpp (fold_left (fun t n => digit_steps 32 n t) l t) (fold_left (fun t b => zstep b t) (bits_down (32 * k) (num (reverse l))) s).
Proof using L.
  revert k t s. induction l as [|d l IH]; intros k t s [Ll Fl] D; cbn [length] in Ll; subst k.
  - done.
  - apply Forall_cons in Fl as [Hd Fl]. cbn [fold_left]. rewrite nval_reverse_cons by lia.
    assert (ok (length l) (reverse l)) as Or by (by apply dok_reverse).
    pose proof (nval_range 32 (length l) (reverse l) ltac:(lia) Or) as B.
    replace (32 * Z.of_nat (length l)) with (Z.of_nat (32 * length l)) in * by lia.
    replace (32 * S (length l))%nat with (32 + 32 * length l)%nat by lia. rewrite bits_down_app, fold_left_app by done.
    apply IH; [done|]. pose proof (digit_steps_spec 32 d t s ltac:(lia) D) as St.
    replace (u32 (d * 2 ^ (32 - Z.of_nat 32))) with d in St; [done|]. change (2 ^ (32 - Z.of_nat 32)) with 1. unfold u32, is_digit in *. rewrite Z.mul_1_r, Z.mod_small; lia.
Qed.

Lemma den_one : den one_8 1.
Proof using. split; [split; [done|]|done]. repeat (apply Forall_cons; split; [unfold is_digit; lia|]). constructor. Qed.

Lemma den_zero : den zero_8 0.
Proof using. split; [split; [done|]|done]. repeat (apply Forall_cons; split; [unfold is_digit; lia|]). constructor. Qed.

Lemma den_mulmod r g k u v n : den (x g) u -> den (y g) v -> z g = one_8 -> den k n ->
  let q := sp_256_ecc_mulmod_8 r g k in den (x q) (zmulmod n u v).1 /\ den (y q) (zmulmod n u v).2.
Proof using L.
  intros Hx Hy Hz [Ok <-]. cbn zeta. unfold sp_256_ecc_mulmod_8, zmulmod. rewrite Hz.
  set (t1 := {| x := _; y := _; z := _; infinity := _ |}).
  assert (denpp (infinite, t1) (zinfinite, znorm_point u v)) as D.
  { split; split; cbn [fst snd x y z infinity zx zy zz zinfinity t1 znorm_point zinfinite infinite]; auto using den_zero, den_norm, den_one. }
  pose proof (ladder_digits 8 (reverse k) _ _ (dok_reverse _ _ _ Ok) D) as Ld. rewrite reverse_involutive in Ld. change (32 * 8)%nat with 256%nat in Ld.
  fold (zladder (num k) u v) in Ld. destruct (fold_left _ _ _) as [t0 t1']. destruct Ld as [[Dx Dy Dz _] _]. cbn [fst] in *.
  unfold sp_256_map_8, zmap. cbn [x y fst snd]. pose proof (den_inv _ _ Dz) as I.
  pose proof (den_sqr _ _ I) as I2. pose proof (den_mul _ _ _ _ I2 I) as I3. split; by apply den_out.
Qed.

(** The key exchange on numbers: private key, public point and secret. *)
Definition base_x : Z := be_val (take 32 p256_base_bin).
Definition base_y : Z := be_val (take 32 (drop 32 p256_base_bin)).

Definition private_key (random : bytes) : Z := nval 32 (sp_256_ecc_gen_k_8 random).

Definition ecdh (random peer : bytes) : bytes * bytes :=
  let k := private_key random in
  let pub := zmulmod k base_x base_y in
  let secret := zmulmod k (be_val (take 32 peer)) (be_val (take 32 (drop 32 peer))) in
  (be_bytes 32 pub.1 ++ be_bytes 32 pub.2, be_bytes 32 secret.1).

Lemma gen_k_ok random : ok 8 (sp_256_ecc_gen_k_8 random).
Proof using.
  unfold sp_256_ecc_gen_k_8. pose proof (ndigits_ok 32 8 (le_val random) ltac:(lia)) as K.
  assert (forall l i v, ok 8 l -> 0 <= v < 2 ^ 32 -> ok 8 (<[i := v]> l)) as Ins.
  { intros l i v [Ll Fl] Hv. split; [by rewrite length_insert|]. apply Forall_insert; [done|]. split; lia. }
  set (k := ndigits 32 8 _) in *. destruct (_ =? 0), (_ <=? _); auto 10 using Ins with lia.
Qed.

Lemma from_point_spec b : bytes_ok b -> (64 <= length b)%nat ->
  let g := sp_256_point_from_bin2x32 b in den (x g) (be_val (take 32 b)) /\ den (y g) (be_val (take 32 (drop 32 b))).
Proof using L.
  intros Hb Hl. cbn zeta. unfold sp_256_point_from_bin2x32. cbn [x y].
  split; apply from_bin_law; try done; [lia|by apply bytes_ok_drop|rewrite length_drop; lia].
Qed.

Lemma compute_spec stack random peer : bytes_ok peer -> (64 <= length peer)%nat ->
  curve_P256_compute_pubkey_and_premaster stack random peer = ecdh random peer.
Proof using L.
  intros Hp Hl. unfold curve_P256_compute_pubkey_and_premaster, sp_ecc_make_key_256, sp_ecc_secret_gen_256, sp_256_ecc_mulmod_base_8, ecdh, private_key.
  assert (den (sp_256_ecc_gen_k_8 random) (num (sp_256_ecc_gen_k_8 random))) as Dk by (split; [apply gen_k_ok|done]).
  assert (bytes_ok p256_base_bin) as Bb by (apply (bool_decide_eq_true_1 _); evaluate).
  destruct (from_point_spec p256_base_bin Bb ltac:(cbn; lia)) as [Bx By]. destruct (from_point_spec peer Hp Hl) as [Px Py].
  destruct (den_mulmod stack _ _ _ _ _ Bx By eq_refl Dk) as [[Gx1 Gx2] [Gy1 Gy2]].
  destruct (den_mulmod (sp_256_point_from_bin2x32 peer) _ _ _ _ _ Px Py eq_refl Dk) as [[Sx1 Sx2] _].
  rewrite !to_bin_law by done. rewrite Gx2, Gy2, Sx2. reflexivity.
Qed.
End corr.
End Sp256Num.
