(* ===== verification/Sp256Field.v ===== *)
(** * The numbers of the P-256 code stand for field elements

    A number below 2^256 in Montgomery form stands for an element of the field
    of integers modulo the prime.  Products always come out right; sums,
    differences and the conversion into Montgomery form do unless they wrap
    around twice, because the operands need not be below the modulus. *)

From S2P Require Import Prelude Sp256 Sp256Facts Sp256Num.
From Stdlib Require Import Zdiv.

Module Sp256Field.
Import Sp256 Sp256Facts Sp256Num.

#[local] Notation "a == b" := (eqm p a b) (at level 70).
#[local] Existing Instances eqm_setoid Zplus_eqm Zminus_eqm Zmult_eqm.

(** ** Congruences *)

Lemma eqm_intro a b k : a = b + k * p -> a == b.
Proof. intros ->. unfold eqm. by rewrite Z.mod_add. Qed.

Lemma eqm_eq a b : a = b -> a == b.
Proof. by intros ->. Qed.

(** The inverse of 2^256. *)
Definition R_inv : Z := 0xfffffffe00000003fffffffd0000000200000001fffffffe0000000300000000.

Lemma p_half : R < 2 * p.
Proof. done. Qed.

Lemma p_odd : p mod 2 = 1.
Proof. done. Qed.

Lemma R_cancel a b : a * R == b * R -> a == b.
Proof.
  intros E. assert (R * R_inv == 1) as I by evaluate.
  rewrite <- (Z.mul_1_r a), <- (Z.mul_1_r b), <- I, !Z.mul_assoc. by rewrite E.
Qed.

Lemma two_cancel a b : a * 2 == b * 2 -> a == b.
Proof.
  intros E. assert (2 * ((p + 1) / 2) == 1) as I by evaluate.
  rewrite <- (Z.mul_1_r a), <- (Z.mul_1_r b), <- I, !Z.mul_assoc. by rewrite E.
Qed.

Lemma num_ndigits a : 0 <= a < R -> num (ndigits 32 8 a) = a.
Proof. intros Ha. apply nval_ndigits; [lia|exact Ha]. Qed.

(** Reading the digits with the weights of the code multiplies by 2^256. *)
Lemma norm_sum_spec a : dok 32 8 a -> norm_sum a == num a * R.
Proof.
  intros [La _]. destruct a as [|a0 [|a1 [|a2 [|a3 [|a4 [|a5 [|a6 [|a7 [|]]]]]]]]]; try done.
  apply (eqm_intro _ _ (a0 * (-1) + a1 * (-4294967297) + a2 * (-18446744078004518912) + a3 * (-79228162532711081667253501951) + a4 * (-340282367000166625977638945021017194495) + a5 * (-1461501637671185285124623296161210883009696235519) + a6 * (-6277101736848182401166692341332123086285927382448418586623) + a7 * (-26959946673427741530053695850515137729844644212646842236464328081408))).
  unfold norm_sum, p, R. cbn [nval]. lia.
Qed.

#[local] Opaque p R.

(** ** Montgomery form *)

Record mont (v f : Z) : Prop := { mont_range : 0 <= v < R; mont_val : v == f * R }.

Lemma mont_eqm v f g : mont v f -> f == g -> mont v g.
Proof. intros [B E] G. split; [done|]. by rewrite E, G. Qed.

Lemma fold_top_spec t m q : 0 <= t < R * R -> 0 <= m < R -> t + m * p = R * q -> 0 <= fold_top q < R /\ fold_top q == q.
Proof.
  intros Ht Hm E. pose proof p_range. assert (0 <= q < R + p) by nia. unfold fold_top. destruct (Z.leb_spec R q).
  - split; [lia|]. apply (eqm_intro _ _ (-1)). lia.
  - split; [lia|done].
Qed.

Lemma redc_spec t : 0 <= t < R * R -> 0 <= redc t < R /\ redc t * R == t.
Proof.
  intros Ht. destruct (redc_exact t) as (m & q & Hm & E & ->). destruct (fold_top_spec t m q Ht Hm E) as [B F].
  split; [done|]. rewrite F. apply (eqm_intro _ _ m). lia.
Qed.

Lemma mont_mul u v f g : mont u f -> mont v g -> mont (zmul u v) (f * g).
Proof.
  intros [Bu Eu] [Bv Ev]. destruct (redc_spec (u * v) ltac:(nia)) as [B E]. split; [done|]. apply R_cancel. unfold zmul. rewrite E, Eu, Ev.
  apply eqm_eq. ring.
Qed.

(** What does not wrap around twice. *)
Definition fits_add (u v : Z) : bool := u + v <? R + p.
Definition fits_sub (u v : Z) : bool := v - u <=? p.
Definition fits_norm (a : Z) : bool :=
  let v := norm_sum (ndigits 32 8 a) in
  let w := v mod R + (v / R) * (R - p) in (0 <=? w) && (w <? R).

Lemma mont_add u v f g : mont u f -> mont v g -> fits_add u v = true -> mont (zadd u v) (f + g).
Proof.
  intros [Bu Eu] [Bv Ev] F. apply Z.ltb_lt in F. pose proof p_range. unfold zadd. destruct (Z.leb_spec R (u + v)).
  - assert ((u + v - R - p) mod R = u + v - p) as -> by (symmetry; apply (Zmod_unique _ _ (-1)); lia).
    split; [lia|]. transitivity (u + v); [apply (eqm_intro _ _ (-1)); lia|]. rewrite Eu, Ev. apply eqm_eq. ring.
  - split; [lia|]. rewrite Eu, Ev. apply eqm_eq. ring.
Qed.

Lemma mont_sub u v f g : mont u f -> mont v g -> fits_sub u v = true -> mont (zsub u v) (f - g).
Proof.
  intros [Bu Eu] [Bv Ev] F. apply Z.leb_le in F. pose proof p_range. unfold zsub. destruct (Z.ltb_spec (u - v) 0).
  - assert ((u - v + R + p) mod R = u - v + p) as -> by (symmetry; apply (Zmod_unique _ _ 1); lia).
    split; [lia|]. transitivity (u - v); [apply (eqm_intro _ _ 1); lia|]. rewrite Eu, Ev. apply eqm_eq. ring.
  - split; [lia|]. rewrite Eu, Ev. apply eqm_eq. ring.
Qed.

Lemma mont_tpl u f : mont u f -> fits_add u u = true -> fits_add (zadd u u) u = true -> mont (ztpl u) (3 * f).
Proof.
  intros M F1 F2. eapply mont_eqm; [by apply mont_add; [apply mont_add| |]|]. apply eqm_eq. ring.
Qed.

Lemma mont_div2 u f : mont u (2 * f) -> mont (zdiv2 u) f.
Proof.
  intros [B E]. pose proof p_range. unfold zdiv2. pose proof (Zodd_mod u) as Ho. pose proof (Zmod_odd u) as Eo.
  destruct (Z.odd u) eqn:O.
  - assert ((u + p) mod 2 = 0) as D. { rewrite Zplus_mod, Eo. by rewrite p_odd. }
    pose proof (Z.div_mod (u + p) 2 ltac:(done)) as Q. split; [split; [apply Z.div_pos; lia|apply Z.div_lt_upper_bound; lia]|].
    apply two_cancel. transitivity u; [apply (eqm_intro _ _ 1); lia|]. rewrite E. apply eqm_eq. ring.
  - pose proof (Z.div_mod u 2 ltac:(done)) as Q. split; [split; [apply Z.div_pos; lia|apply Z.div_lt_upper_bound; lia]|].
    apply two_cancel. transitivity u; [apply eqm_eq; lia|]. rewrite E. apply eqm_eq. ring.
Qed.

Lemma mont_norm a : fits_norm a = true -> 0 <= a < R -> mont (znorm a) a.
Proof.
  unfold fits_norm, znorm. cbn zeta. intros [F1 F2]%andb_true_iff Ha. apply Z.leb_le in F1. apply Z.ltb_lt in F2.
  rewrite Z.mod_small by lia. split; [lia|].
  assert (norm_sum (ndigits 32 8 a) == a * R) as N.
  { rewrite (norm_sum_spec _ (ndigits_ok 32 8 a ltac:(lia))). by rewrite num_ndigits. }
  rewrite <- N. set (v := norm_sum _) in *. pose proof p_range. pose proof (Z.div_mod v R ltac:(lia)). apply (eqm_intro _ _ (- (v / R))). lia.
Qed.

(** ** Inversion *)

Lemma pow_S f n : f ^ Z.of_nat (S n) = f ^ Z.of_nat n * f.
Proof. rewrite Nat2Z.inj_succ, Z.pow_succ_r by lia. ring. Qed.

(** The exponent the loop has reached after the rounds from [n - 1] down. *)
Fixpoint inv_exp (n : nat) (e : Z) : Z :=
  match n with O => e | S i => inv_exp i (2 * e + Z.b2z (inv_bit i)) end.

Lemma inv_exp_pos n e : 0 <= e -> 0 <= inv_exp n e.
Proof. revert e. induction n as [|n IH]; intros e He; [done|]. cbn [inv_exp]. apply IH. destruct (inv_bit n); cbn; lia. Qed.

Lemma mont_inv_loop n u v f e : 0 <= e -> mont u (f ^ e) -> mont v f -> mont (zinv_loop n u v) (f ^ inv_exp n e).
Proof.
  revert u e. induction n as [|i IH]; intros u e He Hu Hv; [done|]. cbn [zinv_loop inv_exp]. pose proof (mont_mul _ _ _ _ Hu Hu) as M.
  apply IH; [destruct (inv_bit i); cbn; lia| |done].
  replace (f ^ e * f ^ e) with (f ^ (2 * e)) in M by (replace (2 * e) with (e + e) by ring; by apply Z.pow_add_r).
  destruct (inv_bit i); cbn [Z.b2z]; [|by rewrite Z.add_0_r].
  replace (2 * e + 1) with (Z.succ (2 * e)) by ring. rewrite Z.pow_succ_r, Z.mul_comm by lia. by apply mont_mul.
Qed.

Lemma inv_exp_value : inv_exp 255 1 = p - 2.
Proof. evaluate. Qed.

Lemma mont_inv u f : mont u f -> mont (zinv u) (f ^ (p - 2)).
Proof.
  intros Hu. assert (mont u (f ^ 1)) as H1 by (by rewrite Z.pow_1_r).
  pose proof (mont_inv_loop 255 u u f 1 ltac:(lia) H1 Hu) as M. rewrite inv_exp_value in M. unfold zinv. exact M.
Qed.

Lemma mont_out u v f g : mont u f -> mont v g -> zout u v = (f * g) mod p.
Proof.
  intros Hu Hv. destruct (mont_mul _ _ _ _ Hu Hv) as [B E]. pose proof p_range as P. unfold zout.
  destruct (redc_spec (zmul u v) ltac:(nia)) as [B2 E2]. apply (eqm_trans _ _ _ _ E2), R_cancel in E.
  set (r := redc (zmul u v)) in *. assert (R < 2 * p) as P2 by apply p_half.
  rewrite <- (Z.mod_small (if p <=? r then r - p else r) p) by (destruct (Z.leb_spec p r); lia).
  fold (eqm p (if p <=? r then r - p else r) (f * g)). rewrite <- E. destruct (p <=? r); [|done]. apply (eqm_intro _ _ (-1)). lia.
Qed.
End Sp256Field.
