(* ===== verification/Primality.v ===== *)
(** * Certificates of primality

    Pocklington's criterion, checked by computation: a number is prime when enough
    distinct primes divide the number before it and a power of some base shows for
    each of them that it divides one less than every prime factor. *)

From S2P Require Import Prelude.
From Stdlib Require Import Znumtheory Zpow_facts ZmodInv.

Module Primality.

(** A composite number has a prime factor no larger than its square root. *)
Lemma prime_factor n : 1 < n -> exists r, Z.prime r /\ (r | n) /\ (Z.prime n \/ r * r <= n).
Proof.
  intros Hn. assert (0 <= n) as H0 by lia. revert Hn. pattern n. apply Z_lt_induction; [|exact H0]. clear n H0. intros n IH Hn. destruct (prime_dec n) as [Hp|Hp]; [apply prime_alt in Hp; exists n; split; [done|]; split; [exists 1; lia|by left]|].
  destruct (not_prime_divide n Hn Hp) as (d & Hd & k & Ek).
  assert (1 < k) as Hk by nia. assert (k < n) as Hkn by nia.
  destruct (Z.le_ge_cases d k) as [Hle|Hle].
  - destruct (IH d ltac:(lia) ltac:(lia)) as (r & Pr & Dr & _). exists r. split; [done|]. split; [etransitivity; [exact Dr|by exists k]|].
    right. apply Z.divide_pos_le in Dr; [|lia]. pose proof (Z.prime_ge_2 r Pr). nia.
  - destruct (IH k ltac:(lia) ltac:(lia)) as (r & Pr & Dr & _). exists r. split; [done|]. split; [etransitivity; [exact Dr|by exists d; lia]|].
    right. apply Z.divide_pos_le in Dr; [|lia]. pose proof (Z.prime_ge_2 r Pr). nia.
Qed.

(** Bezout with exponents that are not negative. *)
Lemma bezout_pos q m : 0 < q -> 0 < m -> Z.coprime q m -> exists u v, 0 <= u /\ 0 <= v /\ u * q = 1 + v * m.
Proof.
  intros Hq Hm Hc. apply Z.Bezout_coprime in Hc as (u & v & E). pose proof (Z.div_mod u m ltac:(lia)) as D. pose proof (Z.mod_pos_bound u m Hm) as B.
  assert ((u mod m + m) * q = 1 + (q - v - (u / m) * q) * m) as Ew by nia.
  exists (u mod m + m), (q - v - (u / m) * q). split; [lia|]. split; [|exact Ew]. nia.
Qed.

Lemma pow_one_mod b r n : 1 < r -> 0 <= n -> b mod r = 1 -> b ^ n mod r = 1.
Proof.
  intros Hr Hn Hb. revert n Hn. apply natlike_ind; [by apply Z.mod_1_l|].
  intros n Hn IH. rewrite Z.pow_succ_r, Z.mul_mod, Hb, IH by lia. apply Z.mod_1_l. lia.
Qed.

(** An element of prime order [q] modulo a prime [r]. *)
Lemma order_divides q r b : Z.prime q -> Z.prime r -> b ^ q mod r = 1 -> b mod r <> 1 -> (q | r - 1).
Proof.
  intros Pq Pr Hb Hn. pose proof (Z.prime_ge_2 q Pq) as Hq2. pose proof (Z.prime_ge_2 r Pr) as Hr2.
  destruct (Zdivide_dec q (r - 1)) as [|Hd]; [done|]. exfalso. apply Hn.
  assert (b mod r <> 0) as Hb0.
  { intros E. assert (b ^ q mod r = 0) as E'; [|rewrite E' in Hb; discriminate]. replace q with (Z.succ (q - 1)) by lia.
    rewrite Z.pow_succ_r, Z.mul_mod, E, Z.mul_0_l by lia. apply Z.mod_0_l. lia. }
  pose proof (Z.fermat_nz r b Pr Hb0) as F.
  destruct (bezout_pos q (r - 1)) as (u & v & Hu & Hv & E); [lia|lia|by apply Z.coprime_prime_l|].
  assert (b ^ (u * q) mod r = 1) as E1 by (rewrite Z.mul_comm, Z.pow_mul_r by lia; apply pow_one_mod; [lia|lia|exact Hb]).
  rewrite E, Z.pow_add_r, Z.pow_1_r, (Z.mul_comm v), Z.pow_mul_r, Z.mul_mod, (pow_one_mod (b ^ (r - 1)) r v) in E1 by (lia || nia || done).
  rewrite Z.mul_1_r, Z.mod_mod in E1 by lia. done.
Qed.

(** Distinct primes divide together. *)
Definition product (l : list Z) : Z := foldr Z.mul 1 l.

Lemma product_pos l : Forall Z.prime l -> 0 < product l.
Proof. induction 1 as [|x l Px _ IH]; [done|]. change (product (x :: l)) with (x * product l). pose proof (Z.prime_ge_2 x Px). nia. Qed.

Lemma prime_in_product q l : Z.prime q -> Forall Z.prime l -> (q | product l) -> q ∈ l.
Proof.
  intros Pq. induction 1 as [|x l Px Pl IH]; cbn; intros D.
  - pose proof (Z.prime_ge_2 q Pq). apply Z.divide_1_r in D. lia.
  - apply (Z.divide_prime_mul x (product l) q Pq) in D as [D|D]; [|right; auto].
    apply Z.divide_prime_prime in D as ->; [constructor|done|done].
Qed.

Lemma product_divides l m : Forall Z.prime l -> NoDup l -> Forall (fun q => (q | m)) l -> (product l | m).
Proof.
  induction l as [|q l IH]; intros Pl Nl Dl; [apply Z.divide_1_l|]. change (product (q :: l)) with (q * product l). apply Forall_cons in Pl as [Pq Pl]. apply NoDup_cons in Nl as [Nq Nl]. apply Forall_cons in Dl as [Dq Dl].
  destruct (IH Pl Nl Dl) as [k ->]. assert (Z.coprime q (product l)) as C by (apply Z.coprime_prime_l; [done|]; intros D; by apply Nq, prime_in_product).
  rewrite Z.mul_comm in Dq. apply Z.gauss in Dq; [|exact C]. destruct Dq as [j ->]. exists j. ring.
Qed.

(** ** The certificate *)

Definition witness_ok (n : Z) (c : Z * Z) : bool :=
  let '(q, a) := c in
  ((n - 1) mod q =? 0) && (Zpow_mod a (n - 1) n =? 1) && (Z.gcd (Zpow_mod a ((n - 1) / q) n - 1) n =? 1).

Definition certified (n : Z) (cert : list (Z * Z)) : bool :=
  (1 <? n) && forallb (witness_ok n) cert && bool_decide (NoDup cert.*1) && (n <=? product cert.*1 * product cert.*1).

Lemma witness_divides n r c : 1 < n -> Z.prime r -> (r | n) -> Z.prime c.1 -> witness_ok n c = true -> (c.1 | r - 1).
Proof.
  destruct c as [q a]. cbn [fst]. intros Hn Pr Dr Pq W. pose proof (Z.prime_ge_2 q Pq). pose proof (Z.prime_ge_2 r Pr).
  unfold witness_ok in W. rewrite !Zpow_mod_correct in W by lia. apply andb_true_iff in W as [[Hq%Z.eqb_eq Ha%Z.eqb_eq]%andb_true_iff Hg%Z.eqb_eq].
  assert (n - 1 = q * ((n - 1) / q)) as En by (pose proof (Z.div_mod (n - 1) q ltac:(lia)); lia). set (m := (n - 1) / q) in *.
  assert (0 <= m) as Hm by (apply Z.div_pos; lia).
  assert (forall x, (x mod n) mod r = x mod r) as Hmm by (intros x; symmetry; apply Zmod_div_mod; [lia|lia|done]).
  apply (order_divides q r (a ^ m) Pq Pr).
  - rewrite <- Z.pow_mul_r, (Z.mul_comm m), <- En, <- Hmm, Ha by lia. apply Z.mod_1_l. lia.
  - intros E. assert ((r | Z.gcd (a ^ m mod n - 1) n)) as D.
    { apply Z.gcd_greatest; [|done]. apply Z.mod_divide; [lia|]. rewrite Zminus_mod, Hmm, E, Z.mod_1_l, Z.sub_diag by lia. apply Z.mod_0_l. lia. }
    rewrite Hg in D. apply Z.divide_1_r in D. lia.
Qed.

Lemma certified_prime n cert : certified n cert = true -> Forall (fun c => Z.prime c.1) cert -> Z.prime n.
Proof.
  unfold certified. intros [[[Hn%Z.ltb_lt Hw]%andb_true_iff Hd%bool_decide_eq_true]%andb_true_iff Hb%Z.leb_le]%andb_true_iff Hp.
  destruct (prime_factor n Hn) as (r & Pr & Dr & [|Hr]); [done|]. exfalso. pose proof (Z.prime_ge_2 r Pr).
  assert (product cert.*1 | r - 1) as D.
  { apply product_divides; [by apply Forall_fmap|done|]. apply Forall_fmap. rewrite forallb_forall in Hw. rewrite Forall_forall in *.
    intros c Hc. apply (witness_divides n r c Hn Pr Dr (Hp c Hc)). by apply Hw, list_elem_of_In. }
  assert (0 < product cert.*1) as H0 by (apply product_pos; by apply Forall_fmap).
  apply Z.divide_pos_le in D; [|lia]. nia.
Qed.

(** Small primes, by trial division. *)
Definition small_prime (n : Z) : bool := (1 <? n) && forallb (fun d => negb (n mod d =? 0)) (seqZ 2 (n - 2)).

Lemma small_prime_spec n : small_prime n = true -> Z.prime n.
Proof.
  unfold small_prime. intros [Hn%Z.ltb_lt Hf]%andb_true_iff. apply prime_alt. destruct (prime_dec n) as [|Hp]; [done|]. exfalso.
  destruct (not_prime_divide n Hn Hp) as (d & Hd & D). rewrite forallb_forall in Hf.
  specialize (Hf d ltac:(apply list_elem_of_In, elem_of_seqZ; lia)). apply negb_true_iff, Z.eqb_neq in Hf. apply Hf. by apply Z.mod_divide; [lia|].
Qed.

End Primality.
