(* ===== verification/Sp256Props.v ===== *)
(** * Properties of the P-256 key exchange

    Scalar multiplication by the code against the chord-and-tangent law of the
    curve y^2 = x^3 - 3 x + b, for arguments on which no sum wraps around
    twice; and the arguments on which the code is wrong. *)

From S2P Require Import Prelude Sp256 Sp256Facts Sp256Generic Sp256X86 Sp256Num Sp256Field Primality.
From Stdlib Require Import Zdiv.

Module Sp256Props.
Import Sp256 Sp256Facts Sp256Num Sp256Field.

#[local] Notation "a == b" := (eqm p a b) (at level 70).
#[local] Existing Instances eqm_setoid Zplus_eqm Zminus_eqm Zmult_eqm.

Lemma one_range : 0 <= 1 < R.
Proof. done. Qed.

Lemma R_nonzero : ~ R == 0.
Proof. unfold eqm. vm_compute. discriminate. Qed.

Lemma R_nonzero' : ~ - R == 0.
Proof. unfold eqm. vm_compute. discriminate. Qed.

Lemma R_value : R = 2 ^ 256.
Proof. done. Qed.

Lemma p_top : 64 * (R - p) < R.
Proof. done. Qed.

(** ** The modulus is prime *)

Ltac certify c := apply (Primality.certified_prime _ c); [vm_compute; reflexivity|repeat constructor; cbn [fst]].
Ltac small_primes := apply Primality.small_prime_spec; vm_compute; reflexivity.

(** The chain of certificates: each prime with the primes that divide the number
    before it. *)
Lemma prime_78283 : Z.prime 78283.
Proof. certify [(4349, 2)]. certify [(1087, 2)]. small_primes. Qed.
Lemma prime_704251 : Z.prime 704251.
Proof. certify [(313, 2); (5, 2)]; small_primes. Qed.
Lemma prime_44_bits : Z.prime 11290956913871.
Proof. certify [(66417393611, 2)]. certify [(3677, 2); (197, 2)]; [|small_primes]. certify [(919, 2)]. small_primes. Qed.
Lemma prime_56_bits : Z.prime 46076956964474543.
Proof. certify [(704251, 2); (78283, 2)]; [apply prime_704251|apply prime_78283]. Qed.
Lemma prime_150_bits : Z.prime 774023187263532362759620327192479577272145303.
Proof. certify [(46076956964474543, 2); (11290956913871, 2)]; [apply prime_56_bits|apply prime_44_bits]. Qed.
Lemma prime_160_bits : Z.prime 835945042244614951780389953367877943453916927241.
Proof. certify [(774023187263532362759620327192479577272145303, 2)]. apply prime_150_bits. Qed.

Lemma p_prime : Z.prime p.
Proof. certify [(835945042244614951780389953367877943453916927241, 2)]. apply prime_160_bits. Qed.

#[local] Opaque p R.

(** ** The textbook law, in affine coordinates modulo p *)

(** [None] is the point at infinity. *)
Definition point : Type := option (Z * Z).

Definition invertible (a : Z) : Prop := exists w, a * w == 1.

Lemma invertible_mul a b : invertible a -> invertible b -> invertible (a * b).
Proof.
  intros [v V] [w W]. exists (v * w). transitivity ((a * v) * (b * w)); [apply eqm_eq; ring|]. rewrite V, W. done.
Qed.

Lemma invertible_pow a n : 0 <= n -> invertible a -> invertible (a ^ n).
Proof.
  intros Hn Ha. revert n Hn. apply natlike_ind; [by exists 1|]. intros n Hn IH. rewrite Z.pow_succ_r by done. by apply invertible_mul.
Qed.

(** The power that the code computes is the inverse. *)
Lemma fermat_inverse a : invertible a -> a * a ^ (p - 2) == 1.
Proof.
  intros [w W]. pose proof (Z.prime_ge_2 p p_prime) as P2. unfold eqm. replace (a * a ^ (p - 2)) with (a ^ (p - 1)).
  - rewrite (Z.mod_small 1) by lia. apply (ZmodInv.Z.fermat_nz p a p_prime). intros E. unfold eqm in W.
    rewrite Z.mul_mod, E, Z.mul_0_l, Z.mod_0_l, Z.mod_small in W by lia. discriminate.
  - replace (p - 1) with (Z.succ (p - 2)) by lia. rewrite Z.pow_succ_r by lia. done.
Qed.

Inductive tdouble : point -> point -> Prop :=
| tdouble_infinity : tdouble None None
| tdouble_tangent x y l x3 y3 :
    invertible (2 * y) -> l * (2 * y) == 3 * x ^ 2 - 3 -> x3 == l ^ 2 - 2 * x -> y3 == l * (x - x3) - y ->
    tdouble (Some (x, y)) (Some (x3, y3)).

Inductive tplus : point -> point -> point -> Prop :=
| tplus_infinity_l Q : tplus None Q Q
| tplus_infinity_r P : tplus P None P
| tplus_chord x1 y1 x2 y2 l x3 y3 :
    invertible (x2 - x1) -> l * (x2 - x1) == y2 - y1 -> x3 == l ^ 2 - x1 - x2 -> y3 == l * (x1 - x3) - y1 ->
    tplus (Some (x1, y1)) (Some (x2, y2)) (Some (x3, y3)).

(** One bit of the Montgomery ladder: [m P] and [(m + 1) P]. *)
Definition tstep (b : bool) (s t : point * point) : Prop :=
  if b then tplus s.1 s.2 t.1 /\ tdouble s.2 t.2 else tdouble s.1 t.1 /\ tplus s.1 s.2 t.2.

Inductive tladder : list bool -> point * point -> point * point -> Prop :=
| tladder_nil s : tladder [] s s
| tladder_cons b bits s t u : tstep b s t -> tladder bits t u -> tladder (b :: bits) s u.

(** [Q] is [k] times the point [(x, y)]. *)
Definition multiple (k x y : Z) (Q : point) : Prop := exists Q', tladder (bits_down 256 k) (None, Some (x, y)) (Q, Q').

(** ** No sum of the code wraps around twice *)

Definition dbl_fits (q : zpoint) : bool :=
  zinfinity q ||
  (let t1 := zmul (zz q) (zz q) in
   let rz := zmul (zy q) (zz q) in
   let s := zadd (zx q) t1 in
   let d := zsub (zx q) t1 in
   let m := zmul s d in
   let t := ztpl m in
   let ry := zadd (zy q) (zy q) in
   let ry2 := zmul ry ry in
   let h := zdiv2 (zmul ry2 ry2) in
   let sx := zmul ry2 (zx q) in
   let x1 := zmul t t in
   let x2 := zsub x1 sx in
   let x3 := zsub x2 sx in
   let e := zsub sx x3 in
   fits_add rz rz && fits_sub (zx q) t1 && fits_add (zx q) t1 && fits_add m m && fits_add (zadd m m) m && fits_add (zy q) (zy q) &&
   fits_sub x1 sx && fits_sub x2 sx && fits_sub sx x3 && fits_sub (zmul e t) h).

Definition add_fits (a b : zpoint) : bool :=
  negb (zsame_point a b) &&
  (zinfinity a || zinfinity b ||
   (let zb2 := zmul (zz b) (zz b) in
    let zb3 := zmul zb2 (zz b) in
    let u1 := zmul zb2 (zx a) in
    let za2 := zmul (zz a) (zz a) in
    let za3 := zmul za2 (zz a) in
    let u2 := zmul za2 (zx b) in
    let s1 := zmul zb3 (zy a) in
    let s2 := zmul za3 (zy b) in
    let h := zsub u2 u1 in
    let r := zsub s2 s1 in
    let h2 := zmul h h in
    let v := zmul u1 h2 in
    let h3 := zmul h2 h in
    let x1 := zmul r r in
    let x2 := zsub x1 h3 in
    let v2 := zadd v v in
    let x3 := zsub x2 v2 in
    let d := zsub v x3 in
    fits_sub u2 u1 && fits_sub s2 s1 && fits_sub x1 h3 && fits_add v v && fits_sub x2 v2 && fits_sub v x3 &&
    fits_sub (zmul d r) (zmul h3 s1))).

Definition step_fits (b : bool) (t : zpoint * zpoint) : bool :=
  if b then add_fits t.1 t.2 && dbl_fits t.2 else dbl_fits t.1 && add_fits t.2 t.1.

Fixpoint steps_fit (bits : list bool) (t : zpoint * zpoint) : bool :=
  match bits with [] => true | b :: bits => step_fits b t && steps_fit bits (zstep b t) end.

Definition ladder_fits (k x y : Z) : bool :=
  fits_norm x && fits_norm y && steps_fit (bits_down 256 k) (zinfinite, znorm_point x y).

(** ** Points *)

(** Projective coordinates of an affine point. *)
Definition aff (q : zpoint) (P : point) : Prop :=
  match P with
  | None => zinfinity q = true
  | Some (x, y) => zinfinity q = false /\ exists Z, invertible Z /\ mont (zz q) Z /\ mont (zx q) (x * Z ^ 2) /\ mont (zy q) (y * Z ^ 3)
  end.

Ltac split_fits H := repeat match type of H with _ && _ = true => apply andb_true_iff in H as [H ?] end.

Lemma aff_dbl q P Q : dbl_fits q = true -> aff q P -> tdouble P Q -> aff (zpoint_dbl q) Q.
Proof.
  intros F A D. destruct D as [|x y l x3 y3 Hi Hl Hx Hy]; [cbn in A; unfold zpoint_dbl; by rewrite A|].
  destruct A as [I (Z & Iz & Mz & Mx & My)]. unfold zpoint_dbl, dbl_fits in *. rewrite I in *. cbn [orb] in F. cbn zeta in F. split_fits F.
  cbn [aff zx zy zz zinfinity]. split; [done|]. exists (2 * y * Z ^ 4). split; [apply invertible_mul; [done|by apply invertible_pow]|].
  pose proof (mont_mul _ _ _ _ Mz Mz) as T1.
  pose proof (mont_mul _ _ _ _ My Mz) as Rz.
  pose proof (mont_mul _ _ _ _ (mont_add _ _ _ _ Mx T1 ltac:(eassumption)) (mont_sub _ _ _ _ Mx T1 ltac:(eassumption))) as T2.
  pose proof (mont_tpl _ _ T2 ltac:(eassumption) ltac:(eassumption)) as T.
  apply (mont_eqm _ _ (l * (2 * y * Z ^ 4))) in T.
  2: { transitivity ((3 * x ^ 2 - 3) * Z ^ 4); [apply eqm_eq; ring|]. rewrite <- Hl. apply eqm_eq. ring. }
  pose proof (mont_add _ _ _ _ My My ltac:(eassumption)) as Ry. pose proof (mont_mul _ _ _ _ Ry Ry) as Ry2.
  assert (mont (zdiv2 (zmul (zmul (zadd (zy q) (zy q)) (zadd (zy q) (zy q))) (zmul (zadd (zy q) (zy q)) (zadd (zy q) (zy q))))) (8 * y ^ 4 * Z ^ 12)) as Hh.
  { apply mont_div2. eapply mont_eqm; [apply mont_mul; exact Ry2|]. apply eqm_eq. ring. }
  pose proof (mont_mul _ _ _ _ Ry2 Mx) as Sx.
  pose proof (mont_sub _ _ _ _ (mont_sub _ _ _ _ (mont_mul _ _ _ _ T T) Sx ltac:(eassumption)) Sx ltac:(eassumption)) as X3.
  apply (mont_eqm _ _ (x3 * (2 * y * Z ^ 4) ^ 2)) in X3; [|rewrite Hx; apply eqm_eq; ring].
  split; [eapply mont_eqm; [apply mont_add; [exact Rz|exact Rz|eassumption]|apply eqm_eq; ring]|]. split; [exact X3|].
  pose proof (mont_sub _ _ _ _ (mont_mul _ _ _ _ (mont_sub _ _ _ _ Sx X3 ltac:(eassumption)) T) Hh ltac:(eassumption)) as Y3.
  eapply mont_eqm; [exact Y3|]. rewrite Hy. apply eqm_eq. ring.
Qed.

Lemma aff_add a b P Q S : add_fits a b = true -> aff a P -> aff b Q -> tplus P Q S -> aff (zpoint_add a b) S.
Proof.
  intros F A B T. unfold add_fits in F. apply andb_true_iff in F as [Fs F]. apply negb_true_iff in Fs.
  unfold zpoint_add. rewrite Fs. destruct T as [Q|P|x1 y1 x2 y2 l x3 y3 Hi Hl Hx Hy].
  - cbn in A. by rewrite A.
  - cbn in B. rewrite B, orb_true_r. destruct (zinfinity a) eqn:Ia; [|done]. destruct P as [[]|]; cbn in A; [destruct A; congruence|done].
  - destruct A as [Ia (Z1 & Iz1 & Az & Ax & Ay)], B as [Ib (Z2 & Iz2 & Bz & Bx & By)]. rewrite Ia, Ib in *. cbn [orb] in *. cbn zeta in F. split_fits F.
    cbn [aff zx zy zz zinfinity]. split; [done|].
    pose proof (mont_mul _ _ _ _ Bz Bz) as Zb2. pose proof (mont_mul _ _ _ _ Zb2 Bz) as Zb3. pose proof (mont_mul _ _ _ _ Zb2 Ax) as U1.
    pose proof (mont_mul _ _ _ _ Az Az) as Za2. pose proof (mont_mul _ _ _ _ Za2 Az) as Za3. pose proof (mont_mul _ _ _ _ Za2 Bx) as U2.
    pose proof (mont_mul _ _ _ _ Zb3 Ay) as S1. pose proof (mont_mul _ _ _ _ Za3 By) as S2.
    pose proof (mont_sub _ _ _ _ U2 U1 ltac:(eassumption)) as Hh. pose proof (mont_sub _ _ _ _ S2 S1 ltac:(eassumption)) as Hr.
    apply (mont_eqm _ _ ((x2 - x1) * (Z1 * Z2) ^ 2)) in Hh; [|apply eqm_eq; ring].
    set (Z3 := Z1 * Z2 * ((x2 - x1) * (Z1 * Z2) ^ 2)).
    apply (mont_eqm _ _ (l * Z3)) in Hr.
    2: { unfold Z3. transitivity ((y2 - y1) * (Z1 * Z2) ^ 3); [apply eqm_eq; ring|]. rewrite <- Hl. apply eqm_eq. ring. }
    exists Z3. split; [pose proof (invertible_mul _ _ Iz1 Iz2); apply invertible_mul; [done|apply invertible_mul; [done|by apply invertible_pow]]|].
    pose proof (mont_mul _ _ _ _ (mont_mul _ _ _ _ Az Bz) Hh) as Rz. fold Z3 in Rz.
    pose proof (mont_mul _ _ _ _ Hh Hh) as Hh2. pose proof (mont_mul _ _ _ _ U1 Hh2) as V. pose proof (mont_mul _ _ _ _ Hh2 Hh) as Hh3.
    apply (mont_eqm _ _ (x1 * Z3 ^ 2)) in V; [|unfold Z3; apply eqm_eq; ring].
    pose proof (mont_sub _ _ _ _ (mont_mul _ _ _ _ Hr Hr) Hh3 ltac:(eassumption)) as X2.
    pose proof (mont_sub _ _ _ _ X2 (mont_add _ _ _ _ V V ltac:(eassumption)) ltac:(eassumption)) as X3.
    apply (mont_eqm _ _ (x3 * Z3 ^ 2)) in X3; [|rewrite Hx; unfold Z3; apply eqm_eq; ring].
    split; [exact Rz|]. split; [exact X3|].
    pose proof (mont_sub _ _ _ _ (mont_mul _ _ _ _ (mont_sub _ _ _ _ V X3 ltac:(eassumption)) Hr) (mont_mul _ _ _ _ Hh3 S1) ltac:(eassumption)) as Y3.
    eapply mont_eqm; [exact Y3|]. rewrite Hy. unfold Z3. apply eqm_eq. ring.
Qed.

Lemma tplus_comm P Q S : tplus P Q S -> tplus Q P S.
Proof.
  intros [|?|x1 y1 x2 y2 l x3 y3 [w W] Hl Hx Hy]; [constructor..|]. apply (tplus_chord _ _ _ _ l).
  - exists (- w). rewrite <- W. apply eqm_eq. ring.
  - transitivity (- 1 * (l * (x2 - x1))); [apply eqm_eq; ring|]. rewrite Hl. apply eqm_eq. ring.
  - rewrite Hx. apply eqm_eq. ring.
  - rewrite Hy. transitivity (l * (x2 - x3) - l * (x2 - x1) - y1); [apply eqm_eq; ring|]. rewrite Hl. apply eqm_eq. ring.
Qed.

Lemma aff_step b t s u : step_fits b t = true -> aff t.1 s.1 -> aff t.2 s.2 -> tstep b s u -> aff (zstep b t).1 u.1 /\ aff (zstep b t).2 u.2.
Proof.
  destruct t as [t0 t1], s as [P0 P1], u as [Q0 Q1], b; cbn [fst snd step_fits tstep zstep]; intros [F1 F2]%andb_true_iff A0 A1 [H1 H2].
  - split; [exact (aff_add _ _ _ _ _ F1 A0 A1 H1)|exact (aff_dbl _ _ _ F2 A1 H2)].
  - split; [exact (aff_dbl _ _ _ F1 A0 H1)|exact (aff_add _ _ _ _ _ F2 A1 A0 (tplus_comm _ _ _ H2))].
Qed.

Lemma aff_ladder bits t s u : steps_fit bits t = true -> aff t.1 s.1 -> aff t.2 s.2 -> tladder bits s u ->
  aff (fold_left (fun t b => zstep b t) bits t).1 u.1.
Proof.
  intros F A0 A1 T. revert t F A0 A1. induction T as [s|b bits s m u St T IH]; intros t F A0 A1; [done|].
  cbn [steps_fit fold_left] in *. apply andb_true_iff in F as [F1 F2]. destruct (aff_step _ _ _ _ F1 A0 A1 St). by apply IH.
Qed.

Lemma fits_norm_one : fits_norm 1 = true.
Proof. evaluate. Qed.

(** Back to affine coordinates. *)
Lemma zmap_spec q x' y' : aff q (Some (x', y')) -> zmap q = (x' mod p, y' mod p).
Proof.
  intros [_ (Z & Iz & Mz & Mx & My)]. pose proof (fermat_inverse Z Iz) as HZ. unfold zmap.
  pose proof (mont_inv _ _ Mz) as I. generalize dependent (Z ^ (p - 2)). intros W HZ I.
  pose proof (mont_mul _ _ _ _ I I) as I2. pose proof (mont_mul _ _ _ _ I2 I) as I3.
  rewrite (mont_out _ _ _ _ Mx I2), (mont_out _ _ _ _ My I3). f_equal.
  - change (x' * Z ^ 2 * (W * W) == x'). transitivity (x' * ((Z * W) * (Z * W))); [apply eqm_eq; ring|]. rewrite HZ. apply eqm_eq. ring.
  - change (y' * Z ^ 3 * (W * W * W) == y'). transitivity (y' * ((Z * W) * (Z * W) * (Z * W))); [apply eqm_eq; ring|]. rewrite HZ. apply eqm_eq. ring.
Qed.

Lemma aff_norm x y : 0 <= x < R -> 0 <= y < R -> fits_norm x = true -> fits_norm y = true -> aff (znorm_point x y) (Some (x, y)).
Proof.
  intros Bx By Fx Fy. split; [done|]. exists 1. split; [by exists 1|]. cbn [znorm_point zx zy zz]. rewrite !Z.pow_1_l, !Z.mul_1_r by lia.
  split; [apply mont_norm; [apply fits_norm_one|apply one_range]|]. split; by apply mont_norm.
Qed.

Lemma zmulmod_spec k x y x' y' : 0 <= x < R -> 0 <= y < R -> ladder_fits k x y = true -> multiple k x y (Some (x', y')) ->
  zmulmod k x y = (x' mod p, y' mod p).
Proof.
  intros Bx By F [Q' T]. unfold ladder_fits in F. apply andb_true_iff in F as [[F1 F2]%andb_true_iff F3].
  apply zmap_spec. unfold zladder. generalize dependent (bits_down 256 k). intros bits F3 T.
  apply (aff_ladder _ _ (None, Some (x, y)) (Some (x', y'), Q') F3); [done|by apply aff_norm|done].
Qed.

(** ** Exactly when sums and conversions are right *)

Lemma R_not_zero a b k : a == b -> a = b + k * R -> (k = 1 \/ k = -1) -> False.
Proof.
  intros E -> Hk. assert (R == 0 \/ - R == 0) as [H|H].
  - assert (k * R == 0) as H by (transitivity (b + k * R - b); [apply eqm_eq; ring|]; rewrite E; apply eqm_eq; ring).
    destruct Hk as [-> | ->]; [left|right]; (etransitivity; [|exact H]; apply eqm_eq; ring).
  - exact (R_nonzero H).
  - exact (R_nonzero' H).
Qed.

Lemma zadd_iff u v : 0 <= u < R -> 0 <= v < R -> zadd u v == u + v <-> u + v < R + p.
Proof.
  intros Hu Hv. pose proof p_range as P. unfold zadd. destruct (Z.leb_spec R (u + v)); [|split; [lia|done]].
  destruct (Z.lt_ge_cases (u + v) (R + p)).
  - assert ((u + v - R - p) mod R = u + v - p) as -> by (symmetry; apply (Zmod_unique _ _ (-1)); lia).
    split; [done|]. intros _. apply (eqm_intro _ _ (-1)). lia.
  - split; [|lia]. rewrite Z.mod_small by lia. intros E. exfalso. apply (R_not_zero (u + v - R) (u + v) (-1)); [|lia|by right].
    transitivity (u + v - R - p); [apply (eqm_intro _ _ 1); lia|done].
Qed.

Lemma zsub_iff u v : 0 <= u < R -> 0 <= v < R -> zsub u v == u - v <-> v - u <= p.
Proof.
  intros Hu Hv. pose proof p_range as P. unfold zsub. destruct (Z.ltb_spec (u - v) 0); [|split; [lia|done]].
  destruct (Z.le_gt_cases (v - u) p).
  - assert ((u - v + R + p) mod R = u - v + p) as -> by (symmetry; apply (Zmod_unique _ _ 1); lia).
    split; [done|]. intros _. apply (eqm_intro _ _ 1). lia.
  - split; [|lia]. rewrite Z.mod_small by lia. intros E. exfalso. apply (R_not_zero (u - v + R) (u - v) 1); [|lia|by left].
    transitivity (u - v + R + p); [apply (eqm_intro _ _ (-1)); lia|done].
Qed.

Lemma norm_sum_bound a : 0 <= a < R -> - 15 <= norm_sum (ndigits 32 8 a) / R < 15.
Proof.
  intros Ha. pose proof (ndigits_ok 32 8 a ltac:(lia)) as [L F]. destruct (ndigits 32 8 a) as [|a0 [|a1 [|a2 [|a3 [|a4 [|a5 [|a6 [|a7 [|]]]]]]]]]; try done.
  rewrite !Forall_cons in F. destruct F as (B0 & B1 & B2 & B3 & B4 & B5 & B6 & B7 & _). unfold is_digit in *.
  assert (- 15 * R <= norm_sum [a0; a1; a2; a3; a4; a5; a6; a7] < 15 * R) as B by (unfold norm_sum; rewrite R_value; cbn [nval]; lia).
  pose proof p_range. split; [apply Z.div_le_lower_bound; lia|apply Z.div_lt_upper_bound; lia].
Qed.

Lemma znorm_iff a : 0 <= a < R -> znorm a == a * R <-> fits_norm a = true.
Proof.
  intros Ha. split; [|intros F; apply (mont_norm a F Ha)]. intros E. pose proof (norm_sum_bound a Ha) as B.
  assert (norm_sum (ndigits 32 8 a) == a * R) as N by (rewrite (norm_sum_spec _ (ndigits_ok 32 8 a ltac:(lia))); by rewrite num_ndigits).
  unfold znorm, fits_norm in *. cbn zeta in *. set (v := norm_sum _) in *. set (w := v mod R + v / R * (R - p)) in *.
  pose proof p_range as P. pose proof p_top as Pt. pose proof (Z.div_mod v R ltac:(lia)) as D. pose proof (Z.mod_pos_bound v R ltac:(lia)) as M.
  assert (w == v) as W by (apply (eqm_intro _ _ (- (v / R))); unfold w; lia). assert (w == a * R) as Wa by (by transitivity v).
  assert (- R < w < 2 * R) as Bw by (unfold w; nia).
  destruct (Z.leb_spec 0 w), (Z.ltb_spec w R); cbn [andb]; try done; exfalso.
  - apply (R_not_zero (w mod R) w (-1)); [by transitivity (a * R)| |by right]. symmetry. apply (Zmod_unique _ _ 1); lia.
  - apply (R_not_zero (w mod R) w 1); [by transitivity (a * R)| |by left]. symmetry. apply (Zmod_unique _ _ (-1)); lia.
  - lia.
Qed.

(** ** The claims *)

(** A public key on the curve (with a = -3) whose x the conversion gets wrong. *)
Definition curve_b : Z := 0x5ac635d8aa3a93e7b3ebbd55769886bc651d06b0cc53b0f63bce3c3e27d2604b.
Definition on_curve (x y : Z) : Prop := y ^ 2 == x ^ 3 - 3 * x + curve_b.
Definition bad_x : Z := 0x29e821a4c74803e31ba1621582283d15a9ec080695ef474d1622bd795fec898f.
Definition bad_y : Z := 0x93007e27be5c31d4eb13514a4b812b688df45c035d57f147b953dcdd82dd1213.

(** Claim C28. The field operations of the P-256 code, for both versions of its
    arithmetic: Montgomery products and halves are always right modulo the
    prime; sums and differences are right exactly when they do not wrap around a
    second time, and the conversion into Montgomery form exactly when the folded
    sum stays in 256 bits.  There is a point of the curve, so a possible public
    key of a peer, whose x-coordinate is converted to a wrong number. *)
Theorem p256_field_operations :
  (forall Ar (L : SpLaws Ar) a b, ok 8 a -> ok 8 b ->
     num (sp_256_mont_mul_8 a b) * R == num a * num b /\
     2 * num (sp_256_div2_8 a) == num a /\
     (num (sp_256_mont_add_8 a b) == num a + num b <-> num a + num b < R + p) /\
     (num (sp_256_mont_sub_8 a b) == num a - num b <-> num b - num a <= p) /\
     (num (sp_256_mod_mul_norm_8 a) == num a * R <-> fits_norm (num a) = true)) /\
  (on_curve bad_x bad_y /\ 0 <= bad_x < p /\ ~ num (sp_256_mod_mul_norm_8 (ndigits 32 8 bad_x)) == bad_x * R).
Proof.
  split.
  - intros Ar L a b Oa Ob. assert (den a (num a)) as Da by done. assert (den b (num b)) as Db by done.
    pose proof (den_range _ _ Da) as Ra. pose proof (den_range _ _ Db) as Rb.
    destruct (den_mul _ _ _ _ Da Db) as [_ ->], (den_add _ _ _ _ Da Db) as [_ ->], (den_sub _ _ _ _ Da Db) as [_ ->], (den_div2 _ _ Da) as [_ ->],
      (den_norm _ _ Da) as [_ ->].
    split; [apply redc_spec; nia|]. split; [|split; [by apply zadd_iff|split; [by apply zsub_iff|by apply znorm_iff]]].
    unfold zdiv2. pose proof (Zmod_odd (num a)) as Eo. destruct (Z.odd (num a)).
    + assert ((num a + p) mod 2 = 0) as D by (rewrite Zplus_mod, Eo, p_odd; done). pose proof (Z.div_mod (num a + p) 2 ltac:(done)).
      apply (eqm_intro _ _ 1). lia.
    + pose proof (Z.div_mod (num a) 2 ltac:(done)). apply eqm_eq. lia.
  - split; [unfold on_curve; evaluate|]. split; [split; [vm_compute; discriminate|evaluate]|]. unfold eqm. vm_compute. discriminate.
Qed.

(** Claim C27. The portable code and the x86-64 code of the P-256 key exchange
    return the same public key and the same secret for all random bytes and all
    64-byte peer keys. *)
Theorem p256_versions_agree stack stack' random peer : bytes_ok peer -> (64 <= length peer)%nat ->
  curve_P256_compute_pubkey_and_premaster (H := Generic.generic) stack random peer =
  curve_P256_compute_pubkey_and_premaster (H := X86_64.x86_64) stack' random peer.
Proof.
  intros Hb Hl. rewrite (compute_spec (Ar := Generic.generic) stack random peer Hb Hl).
  by rewrite (compute_spec (Ar := X86_64.x86_64) stack' random peer Hb Hl).
Qed.

(** Claim C26. Scalar multiplication on P-256 refines the chord-and-tangent law:
    for either version of the arithmetic, a point below 2^256 in both coordinates
    and a scalar, if no sum of the ladder wraps around twice ([ladder_fits], which
    can be computed) and the multiple of the textbook law is not the point at
    infinity, the result is this affine multiple, reduced below the prime. *)
Theorem p256_multiplication Ar (L : SpLaws Ar) r g k x' y' :
  ok 8 (x g) -> ok 8 (y g) -> z g = one_8 -> ok 8 k ->
  ladder_fits (num k) (num (x g)) (num (y g)) = true ->
  multiple (num k) (num (x g)) (num (y g)) (Some (x', y')) ->
  num (x (sp_256_ecc_mulmod_8 r g k)) = x' mod p /\ num (y (sp_256_ecc_mulmod_8 r g k)) = y' mod p.
Proof.
  intros Ox Oy Ez Okk F M. assert (den (x g) (num (x g))) as Dx by done. assert (den (y g) (num (y g))) as Dy by done.
  pose proof (den_mulmod r g k _ _ (num k) Dx Dy Ez ltac:(done)) as D. cbn zeta in D. destruct D as [[_ Ex] [_ Ey]]. rewrite Ex, Ey.
  by rewrite (zmulmod_spec _ _ _ _ _ (den_range _ _ Dx) (den_range _ _ Dy) F M).
Qed.

(** ** Examples *)

Definition ones : digits := replicate 8 0xffffffff.

Lemma p256_field_operations_witness :
  ok 8 ones /\ ~ num (sp_256_mont_add_8 (H := X86_64.x86_64) ones ones) == num ones + num ones /\
  ~ num (sp_256_mont_sub_8 (H := X86_64.x86_64) zero_8 ones) == num zero_8 - num ones.
Proof.
  assert (ok 8 ones) as O by (split; [done|by apply Forall_replicate]). assert (ok 8 zero_8) as Oz by (split; [done|by apply Forall_replicate]).
  destruct (proj1 p256_field_operations X86_64.x86_64 _ ones ones O O) as (_ & _ & A & _).
  destruct (proj1 p256_field_operations X86_64.x86_64 _ zero_8 ones Oz O) as (_ & _ & _ & S & _).
  split; [exact O|]. split; intros E.
  - apply A in E. revert E. vm_compute. discriminate.
  - apply S in E. revert E. vm_compute. intros E. by apply E.
Defined.

Lemma p256_versions_agree_witness :
  curve_P256_compute_pubkey_and_premaster (H := Generic.generic) infinite (replicate 32 7) (replicate 64 0x55) =
  curve_P256_compute_pubkey_and_premaster (H := X86_64.x86_64) infinite (replicate 32 7) (replicate 64 0x55).
Proof. apply p256_versions_agree; [by apply Forall_replicate|done]. Defined.

(** Leading zero bits leave the ladders as they are. *)
Lemma zeros_ladder n t1 rest : zinfinity t1 = false -> zz t1 <> 0 ->
  fold_left (fun t b => zstep b t) (replicate n false ++ rest) (zinfinite, t1) = fold_left (fun t b => zstep b t) rest (zinfinite, t1) /\
  steps_fit (replicate n false ++ rest) (zinfinite, t1) = steps_fit rest (zinfinite, t1).
Proof.
  intros Hi Hz. assert (zsame_point t1 zinfinite = false) as S.
  { unfold zsame_point. cbn [zz zinfinite]. rewrite (proj2 (Z.eqb_neq (zz t1) 0) Hz). by rewrite andb_false_r. }
  assert (zstep false (zinfinite, t1) = (zinfinite, t1)) as St.
  { cbn [zstep]. unfold zpoint_add. rewrite S, Hi. done. }
  induction n as [|n [IH1 IH2]]; [done|]. cbn [replicate app fold_left steps_fit]. rewrite St, IH1, IH2. split; [done|].
  unfold step_fits. cbn [fst snd]. unfold add_fits. rewrite S. cbn [zinfinity zinfinite dbl_fits orb negb andb]. by rewrite orb_true_r.
Qed.

Lemma zeros_tladder n P rest s : tladder rest (None, P) s -> tladder (replicate n false ++ rest) (None, P) s.
Proof. intros T. induction n as [|n IH]; [done|]. cbn [replicate app]. eapply tladder_cons; [|exact IH]. split; constructor. Qed.

(** Twice, three times and four times the base point. *)
Definition base2 : Z * Z := (0x7cf27b188d034f7e8a52380304b51ac3c08969e277f21b35a60b48fc47669978, 0x07775510db8ed040293d9ac69f7430dbba7dade63ce982299e04b79d227873d1).
Definition base3 : Z * Z := (0x5ecbe4d1a6330a44c8f7ef951d4bf165e6c6b721efada985fb41661bc6e7fd6c, 0x8734640c4998ff7e374b06ce1a64a2ecd82ab036384fb83d9a79b127a27d5032).
Definition base4 : Z * Z := (0xe2534a3532d08fbba02dde659ee62bd0031fe2db785596ef509302446b030852, 0xe0f1575a4c633cc719dfee5fda862d764efc96c3f30ee0055c42c23f184ed8c6).

Lemma base_tangent : tdouble (Some (base_x, base_y)) (Some base2).
Proof. apply (tdouble_tangent _ _ 0xa249bcb3191802d3cb56fc75a8731f848e7b2caf080f3477a4e4d904a671af9d); [exists 0x7d13d1ed160030c54147c66b2e0d48cf7fe33dfb45a6dd82dded53bae22ea01a|..]; evaluate. Qed.

Lemma base_chord : tplus (Some (base_x, base_y)) (Some base2) (Some base3).
Proof. apply (tplus_chord _ _ _ _ 0x28cdb0fe6681d140c59fb73f85f16459ca4cee083742bada762de4ca226a8086); [exists 0x05cd14f7b0db3ae51c4b8a837b2f5efd55ea52a15f4802742d3248c306ae52d7|..]; evaluate. Qed.

Lemma base2_tangent : tdouble (Some base2) (Some base4).
Proof. apply (tdouble_tangent _ _ 0xc2489a9eef61dfa06d3741ff3b405300988bd0db42a937859069b9cefb576e35); [exists 0x3355e608a7d25b3e0e175eb42ce49ad42fdbd5bf97ae4531ef210539e529ec72|..]; evaluate. Qed.

Lemma bits_three : bits_down 256 3 = replicate 254 false ++ [true; true].
Proof. evaluate. Qed.

Lemma base_three : multiple 3 base_x base_y (Some base3).
Proof.
  exists (Some base4). rewrite bits_three. apply zeros_tladder.
  apply (tladder_cons _ _ _ (Some (base_x, base_y), Some base2)); [split; [apply tplus_infinity_l|exact base_tangent]|].
  apply (tladder_cons _ _ _ (Some base3, Some base4)); [split; [exact base_chord|exact base2_tangent]|apply tladder_nil].
Qed.

Lemma three_fits : ladder_fits 3 base_x base_y = true.
Proof.
  unfold ladder_fits. rewrite bits_three, (proj2 (zeros_ladder 254 (znorm_point base_x base_y) [true; true] eq_refl ltac:(vm_compute; discriminate))). evaluate.
Qed.

Definition base_point : sp_point := sp_256_point_from_bin2x32 (H := X86_64.x86_64) p256_base_bin.
Definition three_8 : digits := [3; 0; 0; 0; 0; 0; 0; 0].

Lemma p256_multiplication_witness :
  num (x (sp_256_ecc_mulmod_8 (H := X86_64.x86_64) infinite base_point three_8)) = base3.1 mod p /\
  num (y (sp_256_ecc_mulmod_8 (H := X86_64.x86_64) infinite base_point three_8)) = base3.2 mod p.
Proof.
  assert (num (x base_point) = base_x) as Ex by evaluate. assert (num (y base_point) = base_y) as Ey by evaluate. assert (num three_8 = 3) as E3 by evaluate.
  apply p256_multiplication; rewrite ?Ex, ?Ey, ?E3.
  - apply _.
  - apply (bool_decide_eq_true_1 _). vm_compute. reflexivity.
  - apply (bool_decide_eq_true_1 _). vm_compute. reflexivity.
  - reflexivity.
  - apply (bool_decide_eq_true_1 _). vm_compute. reflexivity.
  - exact three_fits.
  - exact base_three.
Defined.
End Sp256Props.
