(* ===== verification/TlsDer.v ===== *)
(** * The certificate parser of the TLS client (src/busybox/networking/tls.c)

    The certificate is DER: items with a tag, a length and a body.  The parser
    walks over the input buffer with a position and the end of the item it is
    in; it looks for the RSA key and does not check anything else.

    [buf] is the allocated input buffer and positions are indices into it, so a
    read past the allocation is [Undef]; the end of the process is
    [Throw runtime_error]. *)

From S2P Require Import Prelude Pstm PstmFacts TlsRsa.

Module TlsDer.
Import Pstm(pstm_int, ret, Okay, Err, Crash).

(** ** The code *)

Definition die {A} : outcome A := Throw runtime_error.

Definition rd (buf : bytes) (i : nat) : outcome Z := match buf !! i with Some b => Ok b | None => Undef end.

(** [end - der] is a signed difference. *)
Definition span (der end_ : nat) : Z := Z.of_nat end_ - Z.of_nat der.

(** The body that starts at [der] has to fit. *)
Definition item_body (der end_ : nat) (len : Z) : outcome (nat * nat) :=
  if span der end_ <? len then die else Ok (der, Z.to_nat len).

(** Position and length of the body of the item at [der]. *)
Definition get_der_len (buf : bytes) (der end_ : nat) : outcome (nat * nat) :=
  if span der end_ <? 2 then die
  else
    len ← rd buf (der + 1);
    if len <? 0x80 then item_body (der + 2) end_ len
    else if (len =? 0x80) || (span der end_ <? len - 0x7e) then die
    else
      len1 ← rd buf (der + 2);
      if 0x82 <? len then die
      else if len =? 0x82 then
        yy ← rd buf (der + 3);
        item_body (der + 4) end_ (0x100 * len1 + yy)
      else item_body (der + 3) end_ len1.

(** The new position and the new end. *)
Definition enter_der_item (buf : bytes) (der end_ : nat) : outcome (nat * nat) :=
  '(new_der, len) ← get_der_len buf der end_;
  Ok (new_der, new_der + len)%nat.

Definition skip_der_item (buf : bytes) (der end_ : nat) : outcome nat :=
  '(new_der, len) ← get_der_len buf der end_;
  Ok (new_der + len)%nat.

(** The return codes are ignored; this reader has no error to report. *)
Definition binary_to_pstm (bin : bytes) (len : nat) : outcome pstm_int :=
  match Pstm.pstm_read_unsigned_bin (Pstm.pstm_init_for_read_unsigned_bin len) bin len with
  | Okay a => Ok a
  | _ => Undef
  end.

Definition der_binary_to_pstm (buf : bytes) (der end_ : nat) : outcome pstm_int :=
  '(bin_ptr, len) ← get_der_len buf der end_;
  binary_to_pstm (drop bin_ptr buf) len.

Definition OID_RSA_KEY_ALG : bytes := [0x30; 0x0d; 0x06; 0x09; 0x2a; 0x86; 0x48; 0x86; 0xf7; 0x0d; 0x01; 0x01; 0x01].
Definition OID_ECDSA_KEY_ALG : bytes := [0x30; 0x13; 0x06; 0x07; 0x2a; 0x86; 0x48; 0xce; 0x3d; 0x02; 0x01].

(** [memcmp(buf + i, lit, sizeof(lit)) == 0]; both arrays must have the bytes. *)
Definition same_bytes (buf : bytes) (i : nat) (lit : bytes) : outcome bool :=
  if (length buf <? i + length lit)%nat then Undef
  else Ok (bool_decide (take (length lit) (drop i buf) = lit)).

Definition set_pub_key (key : TlsRsa.psRsaKey_t) (n e : pstm_int) (size : nat) : TlsRsa.psRsaKey_t :=
  {| TlsRsa.e := e; TlsRsa.d := TlsRsa.d key; TlsRsa.N := n; TlsRsa.qP := TlsRsa.qP key; TlsRsa.dP := TlsRsa.dP key;
     TlsRsa.dQ := TlsRsa.dQ key; TlsRsa.p := TlsRsa.p key; TlsRsa.q := TlsRsa.q key; TlsRsa.size := size;
     TlsRsa.optimized := TlsRsa.optimized key |}.

(** From the algorithm of the key to the numbers of an RSA key. *)
Definition read_rsa_key (buf : bytes) (der end_ : nat) (key : TlsRsa.psRsaKey_t) : outcome TlsRsa.psRsaKey_t :=
  der ← skip_der_item buf der end_;
  '(der, end_) ← enter_der_item buf der end_;
  if span der end_ <? 14 then die
  else
    ignore_bits ← rd buf der;
    if negb (ignore_bits =? 0) then die
    else
      '(der, end_) ← enter_der_item buf (der + 1) end_;
      n ← der_binary_to_pstm buf der end_;
      der ← skip_der_item buf der end_;
      e ← der_binary_to_pstm buf der end_;
      match Pstm.pstm_unsigned_bin_size n with
      | Okay size => Ok (set_pub_key key n e size)
      | _ => Undef
      end.

(** The flag GOT_CERT_RSA_KEY_ALG after comparing the algorithm. *)
Definition key_algorithm (buf : bytes) (der : nat) (got_rsa : bool) : outcome bool :=
  is_rsa ← same_bytes buf der OID_RSA_KEY_ALG;
  if is_rsa : bool then Ok true
  else
    is_ecdsa ← same_bytes buf der OID_ECDSA_KEY_ALG;
    if is_ecdsa : bool then Ok got_rsa else die.

(** The certificate has [len] bytes at [der]; the flag GOT_CERT_RSA_KEY_ALG and
    the key of the handshake data are the state. *)
Definition find_key_in_der_cert (buf : bytes) (der len : nat) (got_rsa : bool) (key : TlsRsa.psRsaKey_t) :
    outcome (bool * TlsRsa.psRsaKey_t) :=
  '(der, end_) ← enter_der_item buf der (der + len);
  '(der, end_) ← enter_der_item buf der end_;
  tag ← rd buf der;
  der ← (if tag =? 0xa0 then skip_der_item buf der end_ else Ok der);
  der ← skip_der_item buf der end_;
  der ← skip_der_item buf der end_;
  der ← skip_der_item buf der end_;
  der ← skip_der_item buf der end_;
  der ← skip_der_item buf der end_;
  '(der, end_) ← enter_der_item buf der end_;
  got_rsa ← key_algorithm buf der got_rsa;
  if got_rsa : bool then
    key ← read_rsa_key buf der end_ key;
    Ok (true, key)
  else Ok (false, key).
End TlsDer.
