(* ===== verification/TlsDerProps.v ===== *)
(** * Properties of the certificate parser

    The parser reads back the key of every encoded certificate, and on any other
    input it stays inside the input buffer except for two reads that are not
    guarded by the length of the item. *)

From S2P Require Import Prelude Pstm PstmFacts TlsRsa TlsDer.

Module TlsDerProps.
Import Pstm(pstm_int, ret, Okay, Err, Crash, PSTM_ZPOS) PstmFacts(wf, mag, computes, nbytes).
Import TlsDer.

(** ** The encoding (X.690, X.509) *)

Definition der_len (n : nat) : bytes :=
  let n := Z.of_nat n in
  if n <? 0x80 then [n] else if n <? 0x100 then [0x81; n] else [0x82; n / 0x100; n mod 0x100].

Definition item (tag : Z) (body : bytes) : bytes := tag :: der_len (length body) ++ body.

(** The parts of a certificate; those the parser skips are arbitrary bodies. *)
Record certificate := {
  version : option bytes; serialNumber : bytes; signatureAlgo : bytes; issuer : bytes; validity : bytes; subject : bytes;
  modulus : bytes; exponent : bytes;
  extensions : bytes;
  signature : bytes }.

Definition public_key (c : certificate) : bytes := item 0x30 (item 0x02 (modulus c) ++ item 0x02 (exponent c)).

Definition key_bits (c : certificate) : bytes := item 0x03 (0 :: public_key c).

Definition key_info (c : certificate) : bytes := item 0x30 ((OID_RSA_KEY_ALG ++ [0x05; 0x00]) ++ key_bits c).

Definition fields (c : certificate) : bytes :=
  item 0x02 (serialNumber c) ++ item 0x30 (signatureAlgo c) ++ item 0x30 (issuer c) ++ item 0x30 (validity c) ++ item 0x30 (subject c).

Definition version_field (c : certificate) : bytes := match version c with Some v => item 0xa0 v | None => [] end.

Definition tbs (c : certificate) : bytes := item 0x30 (version_field c ++ fields c ++ key_info c ++ extensions c).

Definition encode (c : certificate) : bytes := item 0x30 (tbs c ++ signature c).

(** ** Reading an encoded item *)

(** [l] is in the buffer at [der]. *)
Definition holds (buf : bytes) (der : nat) (l : bytes) : Prop := exists rest, drop der buf = l ++ rest.

Lemma holds_app buf der l1 l2 : holds buf der (l1 ++ l2) -> holds buf der l1 /\ holds buf (der + length l1) l2.
Proof.
  intros [rest E]. split; [exists (l2 ++ rest); by rewrite E, app_assoc|].
  exists rest. by rewrite <- drop_drop, E, <- app_assoc, drop_app_length.
Qed.

Lemma holds_rd buf der l i x : holds buf der l -> l !! i = Some x -> rd buf (der + i) = Ok x.
Proof.
  intros [rest E] L. unfold rd. by rewrite <- lookup_drop, E, (lookup_app_l_Some _ _ _ _ L).
Qed.

Definition header (n : nat) : nat := S (length (der_len n)).

Lemma length_item tag body : length (item tag body) = (header (length body) + length body)%nat.
Proof. unfold item, header. cbn [length]. by rewrite length_app. Qed.

(** Two bytes are enough for the lengths of a record's items. *)
Lemma get_der_len_item buf der end_ tag body :
  holds buf der (item tag body) -> Z.of_nat (length body) < 2 ^ 16 -> (der + length (item tag body) <= end_)%nat ->
  get_der_len buf der end_ = Ok (der + header (length body), length body)%nat /\ holds buf (der + header (length body)) body.
Proof.
  intros H Hl He. rewrite length_item in He. split.
  2: { apply (holds_app buf der (tag :: der_len (length body)) body H). }
  pose proof (fun i x => holds_rd buf der _ i x H) as R. unfold item, header, der_len in *. cbn zeta in *. unfold get_der_len, span, item_body.
  destruct (Z.ltb_spec (Z.of_nat (length body)) 0x80); [|destruct (Z.ltb_spec (Z.of_nat (length body)) 0x100)]; cbn [length app] in *.
  all: rewrite (proj2 (Z.ltb_ge _ 2)) by lia; rewrite (R 1%nat _ eq_refl); cbn [mbind outcome_bind].
  - rewrite (proj2 (Z.ltb_lt _ _)) by lia. unfold span. rewrite (proj2 (Z.ltb_ge _ _)) by lia. f_equal. f_equal; lia.
  - rewrite (proj2 (Z.ltb_ge (Z.of_nat end_ - Z.of_nat der) _)) by lia. cbn [Z.ltb Z.eqb Z.compare Pos.compare Pos.compare_cont Pos.eqb orb].
    rewrite (R 2%nat _ eq_refl). cbn [mbind outcome_bind]. unfold span. rewrite (proj2 (Z.ltb_ge _ _)) by lia. f_equal. f_equal; lia.
  - rewrite (proj2 (Z.ltb_ge (Z.of_nat end_ - Z.of_nat der) _)) by lia. cbn [Z.ltb Z.eqb Z.compare Pos.compare Pos.compare_cont Pos.eqb orb].
    rewrite (R 2%nat _ eq_refl). cbn [mbind outcome_bind]. rewrite (R 3%nat _ eq_refl). cbn [mbind outcome_bind]. unfold span.
    rewrite <- Z.div_mod by done. rewrite (proj2 (Z.ltb_ge _ _)) by lia. f_equal. f_equal; lia.
Qed.
Lemma skip_item buf der end_ tag body l :
  holds buf der (item tag body ++ l) -> Z.of_nat (length body) < 2 ^ 16 -> (der + length (item tag body) <= end_)%nat ->
  skip_der_item buf der end_ = Ok (der + length (item tag body))%nat /\ holds buf (der + length (item tag body)) l.
Proof.
  intros [H Hr]%holds_app Hl He. destruct (get_der_len_item _ _ _ _ _ H Hl He) as [E _]. unfold skip_der_item. rewrite E.
  split; [|done]. cbn [mbind outcome_bind]. rewrite length_item. f_equal. lia.
Qed.

Lemma enter_item buf der end_ tag body :
  holds buf der (item tag body) -> Z.of_nat (length body) < 2 ^ 16 -> (der + length (item tag body) <= end_)%nat ->
  enter_der_item buf der end_ = Ok (der + header (length body), der + header (length body) + length body)%nat /\
  holds buf (der + header (length body)) body.
Proof.
  intros H Hl He. destruct (get_der_len_item _ _ _ _ _ H Hl He) as [E ?]. unfold enter_der_item. by rewrite E.
Qed.

Lemma der_holds_length buf der l : holds buf der l -> l <> [] -> (der + length l <= length buf)%nat.
Proof. intros [rest E] Hl. apply (f_equal length) in E. rewrite length_drop, length_app in E. destruct l; [done|]. cbn [length] in *. lia. Qed.

(** The reader looks at the bytes of the number only. *)
Lemma read_prefix a body rest : Z.of_nat (length body) <= 2 ^ 14 ->
  Pstm.pstm_read_unsigned_bin a (body ++ rest) (length body) = Pstm.pstm_read_unsigned_bin a body (length body).
Proof.
  intros Hl. unfold Pstm.pstm_read_unsigned_bin. rewrite Nat.ltb_irrefl. destruct (Nat.ltb_spec (length (body ++ rest)) (length body)) as [H|_]; [rewrite length_app in H; lia|].
  replace (Pstm.PSTM_MAX_SIZE * 4)%nat with (Z.to_nat 16384) by (unfold Pstm.PSTM_MAX_SIZE; lia). destruct (Nat.ltb_spec (Z.to_nat 16384) (length body)); [lia|].
  by rewrite take_app_length, (take_ge body) by lia.
Qed.

(** What the exponentiation needs of a modulus besides its value. *)
Definition roomy (n : Pstm.pstm_int) : Prop := (mag n <> 0 -> Pstm.sign n = Pstm.PSTM_ZPOS) /\ (Pstm.used n + 1 <= Pstm.alloc n)%nat.

Lemma number_item buf der end_ tag body :
  bytes_ok body -> holds buf der (item tag body) -> Z.of_nat (length body) <= 2 ^ 14 -> (der + length (item tag body) <= end_)%nat ->
  exists n, der_binary_to_pstm buf der end_ = Ok n /\ wf n /\ mag n = be_val body /\ roomy n.
Proof.
  intros Hb H Hl He. destruct (get_der_len_item _ _ _ _ _ H ltac:(lia) He) as [E [rest D]]. unfold der_binary_to_pstm, binary_to_pstm.
  rewrite E. cbn [mbind outcome_bind]. rewrite D.
  rewrite read_prefix by lia.
  destruct (PstmFacts.read_unsigned_bin_spec (Pstm.pstm_init_for_read_unsigned_bin (length body)) body (length body)) as (n & -> & W & M & S & A); [lia|lia|done|].
  rewrite take_ge in M, S by lia. exists n. split; [done|]. split; [done|]. split; [done|]. split; [by rewrite M|].
  assert (Pstm.used n <= length body / 4 + 1)%nat.
  { apply PstmFacts.used_le; [done|]. rewrite M. pose proof (be_val_range body Hb) as R. change PstmFacts.B with (256 ^ 4). rewrite <- Z.pow_mul_r by lia.
    pose proof (Nat.div_mod_eq (length body) 4). pose proof (Nat.mod_upper_bound (length body) 4).
    assert (256 ^ Z.of_nat (length body) <= 256 ^ (4 * Z.of_nat (length body / 4 + 1))) by (apply Z.pow_le_mono_r; lia). lia. }
  rewrite A. unfold Pstm.pstm_init_for_read_unsigned_bin, Pstm.pstm_init_size, Pstm.alloc. cbn [Pstm.dp]. rewrite length_replicate, Nat.div_mul by lia. lia.
Qed.

(** ** The key of a certificate *)

Lemma read_rsa_key_spec buf der end_ key c :
  bytes_ok (modulus c) -> bytes_ok (exponent c) -> holds buf der ((OID_RSA_KEY_ALG ++ [0x05; 0x00]) ++ key_bits c) ->
  Z.of_nat (length (key_bits c)) < 2 ^ 16 ->
  Z.of_nat (length (modulus c)) <= 2 ^ 14 -> Z.of_nat (length (exponent c)) <= 2 ^ 14 ->
  (13 <= length (public_key c))%nat ->
  (der + 15 + length (key_bits c) <= end_)%nat ->
  exists n e, read_rsa_key buf der end_ key = Ok (set_pub_key key n e (nbytes (be_val (modulus c)))) /\
    wf n /\ mag n = be_val (modulus c) /\ wf e /\ mag e = be_val (exponent c) /\ roomy n.
Proof.
  intros Hbm Hbe H Hi Hm Hx H14 He. unfold read_rsa_key.
  change (OID_RSA_KEY_ALG ++ [5; 0]) with (item 0x30 (drop 2 OID_RSA_KEY_ALG ++ [5; 0])) in H.
  assert (length (item 0x30 (drop 2 OID_RSA_KEY_ALG ++ [5; 0])) = 15%nat) as L by done.
  destruct (skip_item buf der end_ _ _ _ H ltac:(done) ltac:(lia)) as [-> H1]. cbn [mbind outcome_bind]. rewrite L in *.
  pose proof (length_item 3 (0 :: public_key c)) as L3. fold (key_bits c) in L3. cbn [length] in L3.
  destruct (enter_item buf _ end_ _ _ H1 ltac:(cbn [length]; lia) ltac:(fold (key_bits c); lia)) as [-> H2]. cbn [mbind outcome_bind].
  cbn [length] in *. set (d := (der + 15 + header (S (length (public_key c))))%nat) in *. unfold span.
  rewrite (proj2 (Z.ltb_ge _ 14)) by lia. replace (rd buf d) with (Ok 0) by (symmetry; rewrite <- (Nat.add_0_r d); by apply (holds_rd _ _ _ _ _ H2)).
  cbn [mbind outcome_bind Z.eqb negb]. destruct (holds_app _ _ [0] (public_key c) H2) as [_ H3]. cbn [length] in H3.
  pose proof (length_item 0x30 (item 2 (modulus c) ++ item 2 (exponent c))) as L4. fold (public_key c) in L4.
  destruct (enter_item buf _ (d + S (length (public_key c))) _ _ H3 ltac:(rewrite length_app in *; lia) ltac:(fold (public_key c); lia)) as [-> H4].
  cbn [mbind outcome_bind]. set (d2 := (d + 1 + _)%nat) in *. rewrite length_app in *.
  destruct (number_item buf d2 (d2 + (length (item 2 (modulus c)) + length (item 2 (exponent c)))) 2 (modulus c) Hbm (proj1 (holds_app _ _ _ _ H4)) ltac:(lia) ltac:(lia))
    as (n & -> & Wn & Mn & Rn). cbn [mbind outcome_bind].
  destruct (skip_item buf _ (d2 + (length (item 2 (modulus c)) + length (item 2 (exponent c)))) _ _ _ H4 ltac:(lia) ltac:(lia)) as [-> H5]. cbn [mbind outcome_bind].
  destruct (number_item buf _ (d2 + (length (item 2 (modulus c)) + length (item 2 (exponent c)))) _ _ Hbe H5 ltac:(lia) ltac:(lia))
    as (e & -> & We & Me & _). cbn [mbind outcome_bind].
  rewrite PstmFacts.unsigned_bin_size_spec by done. rewrite Mn. eauto 10.
Qed.

Ltac lapp := repeat rewrite length_app; lia.
Ltac lens := rewrite ?length_app, ?length_item; lia.

Lemma skip_fields {A} buf der end_ c tail (k : nat -> outcome A) :
  holds buf der (fields c ++ tail) -> Z.of_nat (length (fields c)) < 2 ^ 16 -> (der + length (fields c) <= end_)%nat ->
  (der ← skip_der_item buf der end_; der ← skip_der_item buf der end_; der ← skip_der_item buf der end_;
   der ← skip_der_item buf der end_; der ← skip_der_item buf der end_; k der) = k (der + length (fields c))%nat.
Proof.
  unfold fields. rewrite <- !app_assoc, !length_app, !length_item. intros H Hl He.
  destruct (skip_item _ _ end_ _ _ _ H ltac:(lia) ltac:(lens)) as [-> H1]. cbn [mbind outcome_bind].
  destruct (skip_item _ _ end_ _ _ _ H1 ltac:(lia) ltac:(lens)) as [-> H2]. cbn [mbind outcome_bind].
  destruct (skip_item _ _ end_ _ _ _ H2 ltac:(lia) ltac:(lens)) as [-> H3]. cbn [mbind outcome_bind].
  destruct (skip_item _ _ end_ _ _ _ H3 ltac:(lia) ltac:(lens)) as [-> H4]. cbn [mbind outcome_bind].
  destruct (skip_item _ _ end_ _ _ _ H4 ltac:(lia) ltac:(lens)) as [-> _]. cbn [mbind outcome_bind]. rewrite !length_item. f_equal. lia.
Qed.

Lemma skip_version {A} buf der end_ c tail (k : nat -> outcome A) :
  holds buf der (version_field c ++ fields c ++ tail) -> Z.of_nat (length (version_field c)) < 2 ^ 16 -> (der + length (version_field c) <= end_)%nat ->
  (tag ← rd buf der; der ← (if tag =? 0xa0 then skip_der_item buf der end_ else Ok der); k der) = k (der + length (version_field c))%nat.
Proof.
  unfold version_field. intros H Hl He. destruct (version c) as [v|].
  - rewrite length_item in Hl. destruct (skip_item buf der end_ _ _ _ H ltac:(lia) He) as [E _]. apply holds_app in H as [H _].
    rewrite <- (Nat.add_0_r der) at 1. rewrite (holds_rd _ _ _ 0 0xa0 H eq_refl). cbn [mbind outcome_bind Z.eqb Pos.eqb]. by rewrite E.
  - rewrite <- (Nat.add_0_r der) at 1. rewrite (holds_rd _ _ _ 0 0x02 H eq_refl). cbn [mbind outcome_bind Z.eqb Pos.eqb length]. by rewrite Nat.add_0_r.
Qed.

Lemma key_algorithm_rsa buf der got l : holds buf der (OID_RSA_KEY_ALG ++ l) -> key_algorithm buf der got = Ok true.
Proof.
  intros [H _]%holds_app. assert (OID_RSA_KEY_ALG <> []) as Hne by discriminate. pose proof (der_holds_length _ _ _ H Hne) as L. destruct H as [rest E].
  unfold key_algorithm, same_bytes. destruct (Nat.ltb_spec (length buf) (der + length OID_RSA_KEY_ALG)); [lia|].
  rewrite E, take_app_length. by rewrite (bool_decide_eq_true_2 _ eq_refl).
Qed.

Lemma find_key_spec pre post c got key :
  bytes_ok (modulus c) -> bytes_ok (exponent c) -> Z.of_nat (length (encode c)) < 2 ^ 16 ->
  Z.of_nat (length (modulus c)) <= 2 ^ 14 -> Z.of_nat (length (exponent c)) <= 2 ^ 14 -> (13 <= length (public_key c))%nat ->
  exists n e, find_key_in_der_cert (pre ++ encode c ++ post) (length pre) (length (encode c)) got key =
      Ok (true, set_pub_key key n e (nbytes (be_val (modulus c)))) /\
    wf n /\ mag n = be_val (modulus c) /\ wf e /\ mag e = be_val (exponent c) /\ roomy n.
Proof.
  intros Hbm Hbe Hl Hm Hx H13. set (buf := pre ++ encode c ++ post) in *.
  assert (holds buf (length pre) (encode c)) as H by (exists post; unfold buf; by rewrite drop_app_length).
  clearbody buf. unfold find_key_in_der_cert.
  pose proof (length_item 0x30 (tbs c ++ signature c)) as L1. fold (encode c) in L1.
  pose proof (length_item 0x30 (version_field c ++ fields c ++ key_info c ++ extensions c)) as L2. fold (tbs c) in L2.
  pose proof (length_item 0x30 ((OID_RSA_KEY_ALG ++ [0x05; 0x00]) ++ key_bits c)) as L3. fold (key_info c) in L3.
  repeat rewrite length_app in L1. repeat rewrite length_app in L2. repeat rewrite length_app in L3. assert (length OID_RSA_KEY_ALG = 13%nat) as L0 by done.
  assert (length [0x05; 0x00] = 2%nat) as L0' by done.
  destruct (enter_item buf _ (length pre + length (encode c)) _ _ H ltac:(lapp) ltac:(fold (encode c); lia)) as [-> [H1 _]%holds_app].
  cbn [mbind outcome_bind]. set (d1 := (length pre + _)%nat) in *.
  destruct (enter_item buf _ (d1 + length (tbs c ++ signature c)) _ _ H1 ltac:(lapp) ltac:(fold (tbs c); lapp)) as [-> H2].
  cbn [mbind outcome_bind]. set (d2 := (d1 + _)%nat) in *.
  rewrite (skip_version _ _ _ _ _ _ H2) by lapp. apply holds_app in H2 as [_ H3].
  rewrite (skip_fields _ _ _ _ _ _ H3) by lapp. apply holds_app in H3 as [_ [H4 _]%holds_app].
  destruct (enter_item buf _ (d2 + length (version_field c ++ fields c ++ key_info c ++ extensions c)) _ _ H4 ltac:(lapp) ltac:(fold (key_info c); lapp)) as [-> H5].
  cbn [mbind outcome_bind]. rewrite (key_algorithm_rsa _ _ _ ([5; 0] ++ key_bits c)) by (by rewrite app_assoc). cbn [mbind outcome_bind].
  edestruct (read_rsa_key_spec buf) as (n & e & -> & ?); [done|done|exact H5|lia|done|done|done|lapp|]. cbn [mbind outcome_bind]. eauto.
Qed.

(** Claim C29. Round trip of certificates: wherever an encoded certificate with an
    RSA key lies in the input buffer, the parser finds that it is an RSA
    certificate and reads the modulus, the exponent and the size of the modulus
    in bytes; a version field may be present or not, and the parts that are
    skipped may have any content. *)
Theorem certificate_key_found pre post c got key :
  bytes_ok (modulus c) -> bytes_ok (exponent c) -> Z.of_nat (length (encode c)) < 2 ^ 16 ->
  Z.of_nat (length (modulus c)) <= 2 ^ 14 -> Z.of_nat (length (exponent c)) <= 2 ^ 14 -> (13 <= length (public_key c))%nat ->
  exists n e, find_key_in_der_cert (pre ++ encode c ++ post) (length pre) (length (encode c)) got key =
      Ok (true, set_pub_key key n e (nbytes (be_val (modulus c)))) /\
    wf n /\ mag n = be_val (modulus c) /\ wf e /\ mag e = be_val (exponent c).
Proof. intros H1 H2 H3 H4 H5 H6. destruct (find_key_spec pre post c got key H1 H2 H3 H4 H5 H6) as (n & e & E & W & M & W' & M' & _). eauto 10. Qed.

(** A certificate with an RSA key of 16 bytes. *)
Definition sample_certificate : certificate :=
  {| version := Some [0x02; 0x01; 0x02]; serialNumber := [7]; signatureAlgo := [0x06; 0x01; 0x2a]; issuer := []; validity := replicate 30 0x31;
     subject := replicate 300 0x41; modulus := 0 :: replicate 15 0xc5 ++ [0x0b]; exponent := [1; 0; 1]; extensions := replicate 200 0xee;
     signature := item 0x30 [] ++ item 0x03 (replicate 128 0x99) |}.

Definition empty_key : TlsRsa.psRsaKey_t :=
  let z := {| Pstm.used := 0; Pstm.sign := 0; Pstm.dp := [] |} in
  {| TlsRsa.e := z; TlsRsa.d := z; TlsRsa.N := z; TlsRsa.qP := z; TlsRsa.dP := z; TlsRsa.dQ := z; TlsRsa.p := z; TlsRsa.q := z;
     TlsRsa.size := 0; TlsRsa.optimized := false |}.

Lemma certificate_key_found_witness :
  exists n e, find_key_in_der_cert ([1; 2; 3] ++ encode sample_certificate ++ [9]) 3 (length (encode sample_certificate)) false empty_key =
      Ok (true, set_pub_key empty_key n e 16) /\
    wf n /\ mag n = be_val (modulus sample_certificate) /\ wf e /\ mag e = 65537.
Proof.
  destruct (certificate_key_found [1; 2; 3] [9] sample_certificate false empty_key) as (n & e & H); [| | | | | |exists n, e; exact H].
  - apply (bool_decide_eq_true_1 _). vm_compute. reflexivity.
  - apply (bool_decide_eq_true_1 _). vm_compute. reflexivity.
  - vm_compute. reflexivity.
  - vm_compute. discriminate.
  - vm_compute. discriminate.
  - apply Nat.leb_le. vm_compute. reflexivity.
Defined.

(** ** Arbitrary input *)

(** Every outcome but undefined behaviour, and what holds of the results. *)
Definition safe {A} (Q : A -> Prop) (o : outcome A) : Prop :=
  match o with Ok a => Q a | Throw _ => True | Undef => False end.

Lemma safe_bind {A B} (P : A -> Prop) (Q : B -> Prop) (o : outcome A) (f : A -> outcome B) :
  safe P o -> (forall a, P a -> safe Q (f a)) -> safe Q (o ≫= f).
Proof. destruct o; cbn; auto. Qed.

Section input.
Context (buf : bytes) (Hb : bytes_ok buf).

Lemma rd_safe i : (i < length buf)%nat -> safe is_u8 (rd buf i).
Proof using Hb.
  intros [b E]%lookup_lt_is_Some. unfold rd. rewrite E. by apply (Forall_lookup_1 is_u8 buf i).
Qed.

(** A body is inside the item it was looked for in. *)
Definition inside (der end_ : nat) (r : nat * nat) : Prop := (der + 2 <= r.1 /\ r.1 + r.2 <= end_)%nat.

Lemma item_body_safe der d end_ len : 0 <= len -> (der + 2 <= d)%nat -> safe (inside der end_) (item_body d end_ len).
Proof using. intros Hl Hd. unfold item_body, span. destruct (Z.ltb_spec (Z.of_nat end_ - Z.of_nat d) len); [done|]. unfold inside. cbn. lia. Qed.

Lemma get_der_len_safe der end_ : (end_ <= length buf)%nat -> safe (inside der end_) (get_der_len buf der end_).
Proof using Hb.
  intros He. unfold get_der_len, span. destruct (Z.ltb_spec (Z.of_nat end_ - Z.of_nat der) 2); [done|].
  eapply safe_bind; [apply rd_safe; lia|]. intros len [Hl0 Hl1]. destruct (Z.ltb_spec len 0x80); [apply item_body_safe; lia|].
  destruct (Z.eqb_spec len 0x80); [done|]. destruct (Z.ltb_spec (Z.of_nat end_ - Z.of_nat der) (len - 0x7e)); [done|]. cbn [orb].
  eapply safe_bind; [apply rd_safe; lia|]. intros len1 [G0 G1]. destruct (Z.ltb_spec 0x82 len); [done|].
  destruct (Z.eqb_spec len 0x82); [|apply item_body_safe; lia].
  eapply safe_bind; [apply rd_safe; lia|]. intros yy [G2 G3]. apply item_body_safe; lia.
Qed.

Lemma skip_safe der end_ : (end_ <= length buf)%nat -> safe (fun d => d <= end_)%nat (skip_der_item buf der end_).
Proof using Hb. intros He. eapply safe_bind; [by apply get_der_len_safe|]. intros [d l] []. cbn in *. lia. Qed.

Lemma enter_safe der end_ : (end_ <= length buf)%nat -> safe (fun r => r.1 <= r.2 <= end_)%nat (enter_der_item buf der end_).
Proof using Hb. intros He. eapply safe_bind; [by apply get_der_len_safe|]. intros [d l] []. cbn in *. lia. Qed.

(** A number longer than the arithmetic can hold loses its leading bytes. *)
Lemma read_long a b c : (c <= length b)%nat -> 2 ^ 14 < Z.of_nat c ->
  Pstm.pstm_read_unsigned_bin a b c = Pstm.pstm_read_unsigned_bin a (drop (c - Z.to_nat 16384) b) (Z.to_nat 16384).
Proof using.
  intros Hc Hl. unfold Pstm.pstm_read_unsigned_bin. rewrite length_drop.
  replace (Pstm.PSTM_MAX_SIZE * 4)%nat with (Z.to_nat 16384) by (unfold Pstm.PSTM_MAX_SIZE; lia).
  destruct (Nat.ltb_spec (length b) c); [lia|]. destruct (Nat.ltb_spec (length b - (c - Z.to_nat 16384)) (Z.to_nat 16384)); [lia|].
  destruct (Nat.ltb_spec (Z.to_nat 16384) c); [|lia]. by rewrite Nat.ltb_irrefl.
Qed.

Lemma number_safe der end_ : (end_ <= length buf)%nat -> safe wf (der_binary_to_pstm buf der end_).
Proof using Hb.
  intros He. eapply safe_bind; [by apply get_der_len_safe|]. intros [d l] []. cbn [fst snd] in *. unfold binary_to_pstm.
  destruct (Z.le_gt_cases (Z.of_nat l) (2 ^ 14)) as [Hl|Hl].
  - destruct (PstmFacts.read_unsigned_bin_spec (Pstm.pstm_init_for_read_unsigned_bin l) (drop d buf) l)
      as (n & -> & W & _); [rewrite length_drop; lia|lia|by apply bytes_ok_drop|done].
  - rewrite read_long by (rewrite ?length_drop; lia).
    destruct (PstmFacts.read_unsigned_bin_spec (Pstm.pstm_init_for_read_unsigned_bin l) (drop (l - Z.to_nat 16384) (drop d buf)) (Z.to_nat 16384))
      as (n & -> & W & _); [rewrite !length_drop; lia|lia|by apply bytes_ok_drop, bytes_ok_drop|done].
Qed.

(** What an extracted key satisfies. *)
Definition read_key (k : TlsRsa.psRsaKey_t) : Prop :=
  wf (TlsRsa.N k) /\ wf (TlsRsa.e k) /\ TlsRsa.size k = nbytes (mag (TlsRsa.N k)).

Lemma read_rsa_key_safe der end_ key : (end_ <= length buf)%nat -> safe read_key (read_rsa_key buf der end_ key).
Proof using Hb.
  intros He. eapply safe_bind; [by apply skip_safe|]. intros d Hd. eapply safe_bind; [by apply enter_safe|]. intros [d1 e1] H1. cbn [fst snd] in H1.
  unfold span. destruct (Z.ltb_spec (Z.of_nat e1 - Z.of_nat d1) 14); [done|].
  eapply safe_bind; [apply rd_safe; lia|]. intros b _. destruct (negb _); [done|].
  eapply safe_bind; [apply enter_safe; lia|]. intros [d2 e2] H2. cbn [fst snd] in H2.
  eapply safe_bind; [apply number_safe; lia|]. intros n Hn. eapply safe_bind; [apply skip_safe; lia|]. intros d3 H3.
  eapply safe_bind; [apply number_safe; lia|]. intros e Hev. rewrite PstmFacts.unsigned_bin_size_spec by done. done.
Qed.

Lemma same_bytes_safe i lit : (i + length lit <= length buf)%nat -> safe (fun _ => True) (same_bytes buf i lit).
Proof using. intros H. unfold same_bytes. by destruct (Nat.ltb_spec (length buf) (i + length lit)); [lia|]. Qed.

Lemma key_algorithm_safe der got : (der + 13 <= length buf)%nat -> safe (fun _ => True) (key_algorithm buf der got).
Proof using.
  intros H. eapply safe_bind; [by apply same_bytes_safe|]. intros [] _; [done|].
  eapply safe_bind; [apply same_bytes_safe; cbn; lia|]. by intros [] _.
Qed.

Lemma find_key_safe der len key : (der + len + 13 <= length buf)%nat ->
  safe (fun r => if r.1 : bool then read_key r.2 else r.2 = key) (find_key_in_der_cert buf der len false key).
Proof using Hb.
  intros H. eapply safe_bind; [apply enter_safe; lia|]. intros [d1 e1] H1. cbn [fst snd] in H1.
  eapply safe_bind; [apply enter_safe; lia|]. intros [d2 e2] H2. cbn [fst snd] in H2.
  eapply safe_bind; [apply rd_safe; lia|]. intros tag _.
  eapply (safe_bind (fun _ => True)); [destruct (_ =? _); [|done]; eapply safe_bind; [apply get_der_len_safe; lia|]; by intros []|]. intros d3 _.
  do 5 (eapply safe_bind; [apply skip_safe; lia|]; intros ? _).
  eapply safe_bind; [apply enter_safe; lia|]. intros [d9 e9] H9. cbn [fst snd] in H9.
  eapply safe_bind; [apply key_algorithm_safe; lia|]. intros [] _; [|done].
  eapply safe_bind; [apply read_rsa_key_safe; lia|]. done.
Qed.
End input.

(** Claim C30. On any bytes the parser ends the process or returns, provided that
    the buffer goes on for 13 bytes after the certificate, and then either the
    key is untouched or its numbers are well formed and its size is that of the
    modulus; with no bytes behind the certificate it can read past the buffer,
    because the tag of the first field and the algorithm are read before
    anything is known about the length of their items. *)
Theorem certificate_parser_bounds :
  (forall buf der len key, bytes_ok buf -> (der + len + 13 <= length buf)%nat ->
     match find_key_in_der_cert buf der len false key with
     | Ok (true, k) => read_key k
     | Ok (false, k) => k = key
     | Throw _ => True
     | Undef => False
     end) /\
  (forall pre key, find_key_in_der_cert (pre ++ [0x30; 0x02; 0x30; 0x00]) (length pre) 4 false key = Undef).
Proof.
  split.
  - intros buf der len key Hb H. pose proof (find_key_safe buf Hb der len key H) as S.
    destruct (find_key_in_der_cert buf der len false key) as [[[] k]| |]; exact S.
  - intros pre key. change [0x30; 0x02; 0x30; 0x00] with (item 0x30 (item 0x30 [])). set (buf := pre ++ _).
    assert (holds buf (length pre) (item 0x30 (item 0x30 []))) as H by (exists []; unfold buf; by rewrite drop_app_length, app_nil_r).
    unfold find_key_in_der_cert. change 4%nat with (length (item 0x30 (item 0x30 []))).
    destruct (enter_item buf _ (length pre + length (item 0x30 (item 0x30 []))) _ _ H ltac:(done) ltac:(lia)) as [-> H1]. cbn [mbind outcome_bind].
    set (d := (_ + _)%nat) in *. destruct (enter_item buf d (d + length (item 0x30 [])) _ _ H1 ltac:(done) ltac:(lia)) as [-> _].
    cbn [mbind outcome_bind]. unfold rd, buf. rewrite lookup_ge_None_2; [done|]. unfold d. rewrite length_app.
    change (header (length (item 48 []))) with 2%nat. change (header (length [])) with 2%nat. change (length (item 48 (item 48 []))) with 4%nat. lia.
Qed.

Lemma certificate_parser_bounds_witness :
  exists k, find_key_in_der_cert (encode sample_certificate ++ replicate 13 0) 0 (length (encode sample_certificate)) false empty_key = Ok (true, k) /\
    read_key k.
Proof.
  pose proof (proj1 certificate_parser_bounds (encode sample_certificate ++ replicate 13 0) 0%nat (length (encode sample_certificate)) empty_key) as H.
  destruct (find_key_in_der_cert _ _ _ _ _) as [[[] k]| |] eqn:E; [|vm_compute in E; discriminate E..].
  exists k. split; [done|]. apply H.
  - apply (bool_decide_eq_true_1 _). vm_compute. reflexivity.
  - apply Nat.leb_le. vm_compute. reflexivity.
Defined.
End TlsDerProps.
