(* ===== verification/TlsHandshake.v ===== *)
(** * The handshake of the TLS client and its copy loop (src/busybox/networking/tls.c)

    The client's side of the TLS 1.2 handshake on top of the record layer: the
    messages it sends and parses, the key exchange and the keys of the record
    layer, and the loop that copies between standard input, the connection and
    standard output.

    The state is the connection of the record layer with the negotiated
    parameters and the handshake data.  [urandom] has the results of the reads
    of /dev/urandom to come.  [stack] is what uninitialised memory held; the end
    of the process is [Throw runtime_error]. *)

From S2P Require Import Prelude HashStream HashMd5Sha HashSpec HashProps TlsAes TlsFe TlsAesGcm Pstm TlsRsa TlsHmac TlsRecord Sp256 TlsDer.

Module TlsHandshake.
Import TlsAes TlsAesGcm TlsRecord.
Import HashStream(copy_into).
Import Pstm(ret, Okay, Err, Crash).

(** ** The state *)

Definition HANDSHAKE_CLIENT_HELLO : Z := 1.
Definition HANDSHAKE_SERVER_HELLO : Z := 2.
Definition HANDSHAKE_CERTIFICATE : Z := 11.
Definition HANDSHAKE_SERVER_KEY_EXCHANGE : Z := 12.
Definition HANDSHAKE_CERTIFICATE_REQUEST : Z := 13.
Definition HANDSHAKE_SERVER_HELLO_DONE : Z := 14.
Definition HANDSHAKE_CLIENT_KEY_EXCHANGE : Z := 16.
Definition HANDSHAKE_FINISHED : Z := 20.

Definition TLS_MAX_OUTBUF : Z := 2 ^ 14.
Definition OUTBUF_PFX : Z := 8 + 16.
Definition OUTBUF_SFX : Z := 32 + 16.
Definition RSA_PREMASTER_SIZE : nat := 48.
Definition AES128_KEYSIZE : nat := 16.
Definition AES256_KEYSIZE : nat := 32.
Definition SHA256_OUTSIZE : nat := 32.
Definition P256_KEYSIZE : nat := 32.
Definition CURVE25519_KEYSIZE : nat := 32.

(** The handshake data; its hash context is the field [hsd] of the connection. *)
Record tls_handshake_data := {
  client_and_server_rand32 : bytes;
  master_secret : bytes;
  server_rsa_pub_key : TlsRsa.psRsaKey_t;
  ecc_pub_key32 : bytes }.

Record flags := {
  NEED_EC_KEY : bool;
  GOT_CERT_RSA_KEY_ALG : bool;
  GOT_EC_KEY : bool;
  GOT_EC_CURVE_X25519 : bool }.

(** The lengths of the parts of the key block. *)
Record suite := { cipher_id : Z; MAC_size : nat; key_size : nat; IV_size : nat }.

(** The flags ENCRYPTION_AESGCM and ENCRYPT_ON_WRITE are in [con].  The contents
    of the output buffer are passed to the functions that write records. *)
Record tls := {
  con : conn;
  fl : flags;
  params : suite;
  outbuf_size : Z;
  hs : option tls_handshake_data;
  urandom : list bytes }.

Definition set_con (v : conn) (s : tls) : tls :=
  {| con := v; fl := fl s; params := params s; outbuf_size := outbuf_size s; hs := hs s; urandom := urandom s |}.
Definition set_fl (v : flags) (s : tls) : tls :=
  {| con := con s; fl := v; params := params s; outbuf_size := outbuf_size s; hs := hs s; urandom := urandom s |}.
Definition set_params (v : suite) (s : tls) : tls :=
  {| con := con s; fl := fl s; params := v; outbuf_size := outbuf_size s; hs := hs s; urandom := urandom s |}.
Definition set_outbuf_size (v : Z) (s : tls) : tls :=
  {| con := con s; fl := fl s; params := params s; outbuf_size := v; hs := hs s; urandom := urandom s |}.
Definition set_hs (v : option tls_handshake_data) (s : tls) : tls :=
  {| con := con s; fl := fl s; params := params s; outbuf_size := outbuf_size s; hs := v; urandom := urandom s |}.
Definition set_urandom (v : list bytes) (s : tls) : tls :=
  {| con := con s; fl := fl s; params := params s; outbuf_size := outbuf_size s; hs := hs s; urandom := v |}.

(** The two flags and the limit that the handshake sets in the connection. *)
Definition set_modes (gcm enc : bool) (min : nat) (c : conn) : conn :=
  {| crypt := crypt c; aesgcm_flag := gcm; encrypt_on_write := enc; min_encrypted_len_on_read := min;
     client_write_MAC_key := client_write_MAC_key c; inbuf := inbuf c; ofs_to_buffered := ofs_to_buffered c;
     buffered_size := buffered_size c; hsd := hsd c; shaNI := shaNI c; input := input c; output := output c |}.
Definition set_keys (tls : tls_state) (block : bytes) (c : conn) : conn :=
  {| crypt := tls; aesgcm_flag := aesgcm_flag c; encrypt_on_write := encrypt_on_write c;
     min_encrypted_len_on_read := min_encrypted_len_on_read c; client_write_MAC_key := block; inbuf := inbuf c;
     ofs_to_buffered := ofs_to_buffered c; buffered_size := buffered_size c; hsd := hsd c; shaNI := shaNI c; input := input c; output := output c |}.

(** [xzalloc]ed handshake data; [sha256_begin] sets the function pointer. *)
Definition zero_key : TlsRsa.psRsaKey_t :=
  let z := {| Pstm.used := 0; Pstm.sign := 0; Pstm.dp := [] |} in
  {| TlsRsa.e := z; TlsRsa.d := z; TlsRsa.N := z; TlsRsa.qP := z; TlsRsa.dP := z; TlsRsa.dQ := z; TlsRsa.p := z; TlsRsa.q := z;
     TlsRsa.size := 0; TlsRsa.optimized := false |}.
Definition zero_hs : tls_handshake_data :=
  {| client_and_server_rand32 := replicate 64 0; master_secret := replicate 48 0; server_rsa_pub_key := zero_key; ecc_pub_key32 := replicate 64 0 |}.
Definition zero_ctx : HashMd5Sha.md5_ctx_t := HashMd5Sha.Md5Ctx (replicate 64 0) HashMd5Sha.Md5Block 0 (replicate 8 0).

(** [new_tls_state]: zeros; the key arrays follow one another in memory. *)
Definition zero_aes : tls_aes := {| key := replicate 60 0; rounds := 0 |}.
Definition new_tls_state (ni_cached : Z) (net : list read_result) (random : list bytes) : tls :=
  {| con := {| crypt := {| aes_encrypt := zero_aes; aes_decrypt := zero_aes; H := replicate 16 0; client_write_IV := []; server_write_IV := [];
                           write_seq64_be := 0 |};
               aesgcm_flag := false; encrypt_on_write := false; min_encrypted_len_on_read := 0;
               client_write_MAC_key := replicate (2 * (32 + 32 + 4)) 0; inbuf := []; ofs_to_buffered := 0; buffered_size := 0;
               hsd := None; shaNI := ni_cached; input := net; output := [] |};
     fl := {| NEED_EC_KEY := false; GOT_CERT_RSA_KEY_ALG := false; GOT_EC_KEY := false; GOT_EC_CURVE_X25519 := false |};
     params := {| cipher_id := 0; MAC_size := 0; key_size := 0; IV_size := 0 |};
     outbuf_size := 0; hs := None; urandom := random |}.

(** ** Access to the state *)

Definition die {A} : M tls A := throw runtime_error.

Definition on_conn {A} (f : conn -> outcome (A * conn)) : M tls A := fun s =>
  match f (con s) with
  | Ok (a, c) => (Ok a, set_con c s)
  | Throw e => (Throw e, s)
  | Undef => (Undef, s)
  end.
Definition update_conn (f : conn -> outcome conn) : M tls unit := on_conn (fun c => c ← f c; Ok (tt, c)).

(** [tls->hsd->...]: a null pointer without handshake data. *)
Definition get_hs : M tls tls_handshake_data := fun s =>
  match hs s with Some d => (Ok d, s) | None => (Undef, s) end.
Definition put_hs (d : tls_handshake_data) : M tls unit := modify (set_hs (Some d)).

(** [n] bytes of the input buffer from [i] on, which has to have them. *)
Definition inbuf_bytes (i n : nat) : M tls bytes := fun s =>
  if (i + n <=? length (inbuf (con s)))%nat then (Ok (take n (drop i (inbuf (con s)))), s) else (Undef, s).
Definition inbuf_byte (i : nat) : M tls Z :=
  b ← inbuf_bytes i 1;
  mret (byte_at b 0).

Definition get24be (p : bytes) : Z := 0x100 * (0x100 * byte_at p 0 + byte_at p 1) + byte_at p 2.

(** A short read ends the process. *)
Definition tls_get_random (len : nat) : M tls bytes := fun s =>
  match urandom s with
  | r :: rs => if (length r =? len)%nat then (Ok r, set_urandom rs s) else (Throw runtime_error, s)
  | [] => (Throw runtime_error, s)
  end.

Definition tls_free_outbuf : M tls unit := modify (set_outbuf_size 0).

Definition tls_get_outbuf (len : Z) : M tls unit :=
  if TLS_MAX_OUTBUF <? len then die
  else
    let len := len + (OUTBUF_PFX + OUTBUF_SFX) in
    modify (fun s => if outbuf_size s <? len then set_outbuf_size len s else s).

Definition tls_get_zeroed_outbuf (len : Z) : M tls bytes :=
  tls_get_outbuf len ;;
  mret (replicate (Z.to_nat len) 0).

Section handshake.
(** The assembler SHA-256 block function, the answer of cpuid, the memory of
    the HMAC contexts and of a point, and the arithmetic of the P-256 code. *)
Context (ni : list Z -> bytes -> list Z) (cpuid_ebx : Z) (stack : TlsHmac.hmac_precomputed_t) (stack_point : Sp256.sp_point) `{SP : Sp256.SpArith}.

(** Reading consumes at least a byte in each turn. *)
Definition read_fuel (c : conn) : nat :=
  S (buffered_size c + sum_list ((fun r => match r with Data b => S (length b) | Failed => 1 end)%nat <$> input c)).

Definition xread_record : M tls Z := on_conn (fun c => tls_xread_record ni (S (read_fuel c)) c).

(** The random vector is drawn for records of the CBC suites only. *)
Definition send_encrypted (buf : bytes) (size : nat) (type : Z) : M tls unit :=
  gcm ← gets (fun s => aesgcm_flag (con s));
  iv ← (if gcm : bool then mret [] else tls_get_random AES_BLOCK_SIZE);
  update_conn (fun c => xwrite_encrypted ni cpuid_ebx c stack iv buf size type).

Definition send_and_hash (buf : bytes) (size : nat) : M tls unit :=
  enc ← gets (fun s => encrypt_on_write (con s));
  if enc : bool then send_encrypted buf size RECORD_TYPE_HANDSHAKE
  else update_conn (fun c => xwrite_and_update_handshake_hash ni cpuid_ebx c stack [] buf size).

(** ** Messages *)

Definition tls_xread_handshake_block (min_len : Z) : M tls Z :=
  len ← xread_record;
  if len <? min_len then die
  else
    type ← inbuf_byte 0;
    if negb (type =? RECORD_TYPE_HANDSHAKE) then die else mret len.

Definition fill_handshake_record_hdr (buf : bytes) (type len : Z) : bytes :=
  let len := u32 (len - 4) in
  copy_into buf 0 [u8 type; u8 (Z.shiftr len 16); u8 (Z.shiftr len 8); Z.land len 0xff].

Definition NUM_CIPHERS : Z := 7.

Definition ciphers : bytes :=
  [0x00; 2 * (1 + NUM_CIPHERS); 0x00; 0xFF; 0xC0; 0x23; 0xC0; 0x27; 0xC0; 0x2B; 0xC0; 0x2F; 0x00; 0x3C; 0x00; 0x3D; 0x00; 0x9C; 0x01; 0x00].

Definition extensions : bytes :=
  [0x00; 0x0a; 0x00; 2 * (1 + 1 + 1); 0x00; 2 * (0 + 1 + 1); 0x00; 0x17; 0x00; 0x1d;
   0x00; 0x0d; 0x00; 2 * (1 + 3); 0x00; 2 * (0 + 3); 0x04; 0x01; 0x04; 0x02; 0x04; 0x03].

(** [sizeof(struct client_hello)]: the fixed part, then the lists of ciphers and
    compression types. *)
Definition sizeof_client_hello : nat := 4 + 2 + 32 + 1 + 2 + 16 + 1 + 1.

(** The host name's characters, without the terminating zero. *)
Definition sni_bytes (sni : option bytes) : bytes := match sni with Some n => take (127 - 5) n | None => [] end.

(** Everything but the random bytes. *)
Definition fill_client_hello (record rand32 sni : bytes) (len ext_len : Z) : bytes :=
  let sni_len := Z.of_nat (length sni) in
  let record := fill_handshake_record_hdr record HANDSHAKE_CLIENT_HELLO len in
  let record := copy_into record 4 [TLS_MAJ; TLS_MIN] in
  let record := copy_into record 6 rand32 in
  let record := copy_into record 39 ciphers in
  let ptr := sizeof_client_hello in
  let record := copy_into record ptr [u8 (Z.shiftr ext_len 8); u8 ext_len] in
  let ptr := (ptr + 2)%nat in
  if sni_len =? 0 then copy_into record ptr extensions
  else
    let record := <[(ptr + 3)%nat := u8 (sni_len + 5)]> record in
    let record := <[(ptr + 5)%nat := u8 (sni_len + 3)]> record in
    let record := <[(ptr + 8)%nat := u8 sni_len]> record in
    let record := copy_into record (ptr + 9) sni in
    copy_into record (ptr + 9 + length sni) extensions.

Definition send_client_hello_and_alloc_hsd (sni : option bytes) : M tls unit :=
  let name := sni_bytes sni in
  let ext_len := Z.of_nat (length extensions) + (if (length name =? 0)%nat then 0 else 9 + Z.of_nat (length name)) in
  let len := Z.of_nat sizeof_client_hello + 2 + ext_len in
  record ← tls_get_zeroed_outbuf len;
  rand32 ← tls_get_random 32;
  let record := fill_client_hello record rand32 name len ext_len in
  put_hs {| client_and_server_rand32 := copy_into (client_and_server_rand32 zero_hs) 0 rand32; master_secret := master_secret zero_hs;
            server_rsa_pub_key := server_rsa_pub_key zero_hs; ecc_pub_key32 := ecc_pub_key32 zero_hs |} ;;
  update_conn (fun c => let '(ctx, sh) := HashMd5Sha.sha256_begin (shaNI c) cpuid_ebx zero_ctx in Ok (set_hash (Some ctx) sh c)) ;;
  send_and_hash record (Z.to_nat len).

(** The parameters of a cipher suite, from its two bytes: the suite, whether the
    key exchange is ECDHE, and whether the cipher is AES-GCM; [IV_size] is the
    old value. *)
Definition suite_params (cipherid0 cipherid1 : Z) (IV_size : nat) : suite * bool * bool :=
  let id := 0x100 * cipherid0 + cipherid1 in
  let mk k gcm := {| cipher_id := id; MAC_size := if gcm : bool then 0 else SHA256_OUTSIZE; key_size := k; IV_size := if gcm then 4 else IV_size |} in
  if cipherid0 =? 0xC0 then
    let k := if Z.land cipherid1 1 =? 0 then AES256_KEYSIZE else AES128_KEYSIZE in
    let gcm := (0x2B <=? cipherid1) && (cipherid1 <=? 0x30) in
    (mk k gcm, true, gcm)
  else
    let k := if (cipherid1 =? 0x3C) || (cipherid1 =? 0x9C) then AES128_KEYSIZE else AES256_KEYSIZE in
    let gcm := cipherid1 =? 0x9C in
    (mk k gcm, false, gcm).

(** Positions in [struct server_hello], which starts with the record header. *)
Definition get_server_hello : M tls unit :=
  len ← tls_xread_handshake_block (74 - 32);
  hp ← inbuf_bytes 5 6;
  if negb (byte_at hp 0 =? HANDSHAKE_SERVER_HELLO) || negb (byte_at hp 1 =? 0) || negb (byte_at hp 2 =? 0) ||
     negb (byte_at hp 4 =? TLS_MAJ) || negb (byte_at hp 5 =? TLS_MIN) then die
  else
    let len24 := byte_at hp 3 in
    session_id_len ← inbuf_byte 43;
    if negb (session_id_len =? 32) && negb (session_id_len =? 0) then die
    else
      let cipherid := if session_id_len =? 32 then 76%nat else (76 - 32)%nat in
      let len24 := if session_id_len =? 32 then len24 else len24 + 32 in
      if len24 <? 70 then die
      else
        rand32 ← inbuf_bytes 11 32;
        d ← get_hs;
        put_hs {| client_and_server_rand32 := copy_into (client_and_server_rand32 d) 32 rand32; master_secret := master_secret d;
                  server_rsa_pub_key := server_rsa_pub_key d; ecc_pub_key32 := ecc_pub_key32 d |} ;;
        id ← inbuf_bytes cipherid 2;
        modify (fun s =>
          let '(p, ec, gcm) := suite_params (byte_at id 0) (byte_at id 1) (IV_size (params s)) in
          let f := fl s in
          let c := con s in
          set_params p (set_con (set_modes (aesgcm_flag c || gcm) (encrypt_on_write c) (min_encrypted_len_on_read c) c)
            (set_fl {| NEED_EC_KEY := NEED_EC_KEY f || ec; GOT_CERT_RSA_KEY_ALG := GOT_CERT_RSA_KEY_ALG f; GOT_EC_KEY := GOT_EC_KEY f;
                       GOT_EC_CURVE_X25519 := GOT_EC_CURVE_X25519 f |} s))).

(** The three nested lengths; what is left is the first certificate. *)
Definition get_server_cert : M tls unit :=
  len ← tls_xread_handshake_block 10;
  certbuf ← inbuf_bytes RECHDR_LEN 10;
  if negb (byte_at certbuf 0 =? HANDSHAKE_CERTIFICATE) then die
  else
    let len1 := get24be (drop 1 certbuf) in
    if len - 4 <? len1 then die
    else
      let len := len1 in
      let len1 := get24be (drop 4 certbuf) in
      if len - 3 <? len1 then die
      else
        let len := len1 in
        let len1 := get24be (drop 7 certbuf) in
        if len - 3 <? len1 then die
        else if len1 =? 0 then skip
        else
          d ← get_hs;
          f ← gets fl;
          buf ← gets (fun s => inbuf (con s));
          '(rsa, key) ← lift (TlsDer.find_key_in_der_cert buf (RECHDR_LEN + 10) (Z.to_nat len1) (GOT_CERT_RSA_KEY_ALG f) (server_rsa_pub_key d));
          modify (set_fl {| NEED_EC_KEY := NEED_EC_KEY f; GOT_CERT_RSA_KEY_ALG := rsa; GOT_EC_KEY := GOT_EC_KEY f;
                            GOT_EC_CURVE_X25519 := GOT_EC_CURVE_X25519 f |}) ;;
          put_hs {| client_and_server_rand32 := client_and_server_rand32 d; master_secret := master_secret d; server_rsa_pub_key := key;
                    ecc_pub_key32 := ecc_pub_key32 d |}.

Definition got_ec_key (x25519 : bool) (point : bytes) : M tls unit :=
  d ← get_hs;
  put_hs {| client_and_server_rand32 := client_and_server_rand32 d; master_secret := master_secret d;
            server_rsa_pub_key := server_rsa_pub_key d; ecc_pub_key32 := copy_into (ecc_pub_key32 d) 0 point |} ;;
  modify (fun s => let f := fl s in
    set_fl {| NEED_EC_KEY := NEED_EC_KEY f; GOT_CERT_RSA_KEY_ALG := GOT_CERT_RSA_KEY_ALG f; GOT_EC_KEY := true;
              GOT_EC_CURVE_X25519 := GOT_EC_CURVE_X25519 f || x25519 |} s).

(** The four bytes of curve type, curve and length, read as a little-endian word. *)
Definition process_server_key (len : Z) : M tls unit :=
  keybuf ← inbuf_bytes RECHDR_LEN 4;
  let len1 := get24be (drop 1 keybuf) in
  if len - 4 <? len1 then die
  else if len1 <? 1 + 2 + 1 + 32 then die
  else
    t32 ← inbuf_bytes (RECHDR_LEN + 4) 4;
    let t32 := le_val t32 in
    if t32 =? 0x201d0003 then
      point ← inbuf_bytes (RECHDR_LEN + 8) 32;
      got_ec_key true point
    else if t32 =? 0x41170003 then
      form ← inbuf_byte (RECHDR_LEN + 8);
      if negb (form =? 4) then die
      else
        point ← inbuf_bytes (RECHDR_LEN + 9) 64;
        got_ec_key false point
    else die.

Definition send_empty_client_cert : M tls unit :=
  record ← tls_get_zeroed_outbuf 7;
  let record := <[0%nat := HANDSHAKE_CERTIFICATE]> record in
  let record := <[3%nat := 3]> record in
  send_and_hash record 7.

(** ** The key exchange *)

(** The encrypted premaster secret, or the negative return code. *)
Definition rsa_encrypt_premaster (premaster : bytes) : M tls (Z * bytes) :=
  d ← get_hs;
  let key := server_rsa_pub_key d in
  let filler := Z.of_nat (TlsRsa.size key) - 3 - Z.of_nat RSA_PREMASTER_SIZE in
  let outlen := 4096%nat in
  random ← (if (outlen <? TlsRsa.size key)%nat || (filler <? 8) then mret [] else tls_get_random (Z.to_nat filler));
  match TlsRsa.psRsaEncryptPub (fun _ => random) key premaster (replicate outlen 0) outlen with
  | Okay (out, n) => mret (Z.of_nat n, out)
  | Err code => if code =? TlsRsa.DIE then die else mret (code, replicate outlen 0)
  | Crash => undef
  end.

(** [record->key] with its length, and the premaster secret.  A negative return
    code of the encryption is used as a length. *)
Definition client_key : M tls (bytes * Z * bytes) :=
  f ← gets fl;
  if negb (NEED_EC_KEY f) then
    if negb (GOT_CERT_RSA_KEY_ALG f) then die
    else
      premaster ← tls_get_random RSA_PREMASTER_SIZE;
      let premaster := copy_into premaster 0 [TLS_MAJ; TLS_MIN] in
      '(len, out) ← rsa_encrypt_premaster premaster;
      mret ([u8 (Z.shiftr len 8); Z.land len 0xff] ++ out, len + 2, premaster)
  else if negb (GOT_EC_KEY f) then die
  else
    d ← get_hs;
    random ← tls_get_random 32;
    if GOT_EC_CURVE_X25519 f then
      let '(pub, premaster) := TlsFe.curve_x25519_compute_pubkey_and_premaster random (take 32 (ecc_pub_key32 d)) in
      let len := Z.of_nat CURVE25519_KEYSIZE in
      mret ([u8 len] ++ pub, len + 1, premaster)
    else
      let '(pub, premaster) := Sp256.curve_P256_compute_pubkey_and_premaster stack_point random (ecc_pub_key32 d) in
      let len := 1 + Z.of_nat P256_KEYSIZE * 2 in
      mret ([u8 len; 4] ++ pub, len + 1, premaster).

(** [None] of the pseudorandom function is the end of the process. *)
Definition prf (n : nat) (secret label seed : bytes) : M tls bytes := fun s =>
  match TlsHmac.prf_hmac_sha256 ni cpuid_ebx (shaNI (con s)) stack n secret label seed with
  | Some (out, sh) => (Ok out, set_con (set_hash (hsd (con s)) sh (con s)) s)
  | None => (Throw runtime_error, s)
  end.

(** The keys out of the key block; [aes_setkey] and the hash key of GCM. *)
Definition install_keys (p : suite) (block : bytes) : M tls unit :=
  update_conn (fun c =>
    let mem := copy_into (client_write_MAC_key c) 0 block in
    let client_write_key := drop (2 * MAC_size p) mem in
    let server_write_key := drop (key_size p) client_write_key in
    let client_iv := drop (key_size p) server_write_key in
    let server_iv := drop (IV_size p) client_iv in
    let enc := aes_setkey client_write_key (key_size p) in
    h ← aes_encrypt_one_block enc (replicate 16 0);
    Ok (set_keys {| aes_encrypt := enc; aes_decrypt := aes_setkey server_write_key (key_size p); H := h;
                    client_write_IV := client_iv; server_write_IV := server_iv; write_seq64_be := write_seq64_be (crypt c) |} mem c)).

Definition send_client_key_exchange : M tls unit :=
  record ← tls_get_zeroed_outbuf (4 + (2 + 4 * 1024));
  '(key, len, premaster) ← client_key;
  let record := copy_into record 0 ([HANDSHAKE_CLIENT_KEY_EXCHANGE; 0; u8 (Z.shiftr len 8); Z.land len 0xff] ++ key) in
  let len := len + 4 in
  (if len <? 0 then undef else send_and_hash record (Z.to_nat len)) ;;
  d ← get_hs;
  master ← prf 48 premaster (bs "master secret") (client_and_server_rand32 d);
  put_hs {| client_and_server_rand32 := client_and_server_rand32 d; master_secret := master; server_rsa_pub_key := server_rsa_pub_key d;
            ecc_pub_key32 := ecc_pub_key32 d |} ;;
  p ← gets params;
  let tmp64 := drop 32 (client_and_server_rand32 d) ++ take 32 (client_and_server_rand32 d) in
  block ← prf (2 * (MAC_size p + key_size p + IV_size p)) master (bs "key expansion") tmp64;
  install_keys p block.

Definition rec_CHANGE_CIPHER_SPEC : bytes := [RECORD_TYPE_CHANGE_CIPHER_SPEC; TLS_MAJ; TLS_MIN; 0; 1; 1].

Definition send_change_cipher_spec : M tls unit := update_conn (fun c => Ok (xwrite rec_CHANGE_CIPHER_SPEC c)).

(** Ends the handshake hash. *)
Definition end_handshake_hash : M tls bytes := on_conn (fun c =>
  match hsd c with
  | None => Undef
  | Some ctx => let '(ctx, digest) := HashMd5Sha.sha1_end ni ctx in Ok (digest, set_hash (Some ctx) (shaNI c) c)
  end).

Definition send_client_finished : M tls unit :=
  tls_get_outbuf 16 ;;
  handshake_hash ← end_handshake_hash;
  d ← get_hs;
  prf_result ← prf 12 (master_secret d) (bs "client finished") handshake_hash;
  let record := fill_handshake_record_hdr (replicate 4 0) HANDSHAKE_FINISHED 16 ++ prf_result in
  send_encrypted record 16 RECORD_TYPE_HANDSHAKE.

(** ** The handshake *)

Definition set_encrypt_on_write : M tls unit := modify (fun s => let c := con s in
  set_con (set_modes (aesgcm_flag c) true (min_encrypted_len_on_read c) c) s).

(** The limit for encrypted records, from the cipher. *)
Definition set_min_encrypted_len : M tls unit := modify (fun s => let c := con s in
  let mac_blocks := ((TLS_MAC_SIZE + AES_BLOCK_SIZE - 1) / AES_BLOCK_SIZE)%nat in
  let min := if aesgcm_flag c then (8 + AES_BLOCK_SIZE)%nat else (AES_BLOCK_SIZE + mac_blocks * AES_BLOCK_SIZE)%nat in
  set_con (set_modes (aesgcm_flag c) (encrypt_on_write c) min c) s).

Definition free_hsd : M tls unit := modify (fun s => set_hs None (set_con (set_hash None (shaNI (con s)) (con s)) s)).

(** The messages of the server after its certificate; true when it requests one. *)
Definition get_server_flight : M tls bool :=
  len ← tls_xread_handshake_block 4;
  type ← inbuf_byte RECHDR_LEN;
  (if type =? HANDSHAKE_SERVER_KEY_EXCHANGE then
     f ← gets fl;
     when (NEED_EC_KEY f) (process_server_key len) ;;
     _ ← tls_xread_handshake_block 4;
     skip
   else skip) ;;
  type ← inbuf_byte RECHDR_LEN;
  let got_cert_req := type =? HANDSHAKE_CERTIFICATE_REQUEST in
  (if got_cert_req then _ ← tls_xread_handshake_block 4; skip else skip) ;;
  type ← inbuf_byte RECHDR_LEN;
  if negb (type =? HANDSHAKE_SERVER_HELLO_DONE) then die else mret got_cert_req.

(** The server's change of cipher and its Finished. *)
Definition get_server_finished : M tls unit :=
  len ← xread_record;
  if negb (len =? 1) then die
  else
    rec ← inbuf_bytes 0 6;
    if negb (bool_decide (rec = rec_CHANGE_CIPHER_SPEC)) then die
    else
      set_min_encrypted_len ;;
      len ← xread_record;
      if len <? 4 then die
      else
        type ← inbuf_byte RECHDR_LEN;
        if negb (type =? HANDSHAKE_FINISHED) then die else free_hsd.

Definition tls_handshake (sni : option bytes) : M tls unit :=
  send_client_hello_and_alloc_hsd sni ;;
  get_server_hello ;;
  get_server_cert ;;
  got_cert_req ← get_server_flight;
  when got_cert_req send_empty_client_cert ;;
  send_client_key_exchange ;;
  send_change_cipher_spec ;;
  set_encrypt_on_write ;;
  send_client_finished ;;
  get_server_finished.

(** ** The copy loop *)

Definition tls_xwrite (buf : bytes) (len : nat) : M tls unit := send_encrypted buf len RECORD_TYPE_APPLICATION_DATA.

Definition INBUF_STEP : Z := 4 * 1024.

(** Standard input as the results of its reads, whether it is still polled, what
    was written to standard output and the size of the next read. *)
Record loop := {
  ltls : tls;
  stdin : list read_result;
  stdin_open : bool;
  stdout : list bytes;
  inbuf_size : Z }.

Definition set_ltls (v : tls) (s : loop) : loop :=
  {| ltls := v; stdin := stdin s; stdin_open := stdin_open s; stdout := stdout s; inbuf_size := inbuf_size s |}.
Definition set_stdin (v : list read_result) (open : bool) (size : Z) (s : loop) : loop :=
  {| ltls := ltls s; stdin := v; stdin_open := open; stdout := stdout s; inbuf_size := size |}.
Definition set_stdout (v : list bytes) (s : loop) : loop :=
  {| ltls := ltls s; stdin := stdin s; stdin_open := stdin_open s; stdout := v; inbuf_size := inbuf_size s |}.

Definition in_tls {A} (m : M tls A) : M loop A := fun s => let '(r, t) := m (ltls s) in (r, set_ltls t s).

Definition larger (size : Z) : Z :=
  let size := size + INBUF_STEP in
  if TLS_MAX_OUTBUF <? size then TLS_MAX_OUTBUF else size.

(** Standard input can be read; true ends the loop. *)
Definition on_stdin (exit_on_local_eof : bool) : M loop bool :=
  size ← gets inbuf_size;
  in_tls (tls_get_outbuf size) ;;
  i ← gets stdin;
  let '(r, i) := safe_read (Z.to_nat size) i in
  match r with
  | None | Some [] =>
      modify (set_stdin i false size) ;;
      in_tls tls_free_outbuf ;;
      mret exit_on_local_eof
  | Some buf =>
      let nread := length buf in
      modify (set_stdin i true (if Z.of_nat nread =? size then larger size else size)) ;;
      in_tls (tls_xwrite buf nread) ;;
      mret false
  end.

(** The connection can be read: a record and those already in the buffer, each
    of which has at least a header; true ends the loop. *)
Fixpoint on_network (fuel : nat) : M loop bool :=
  match fuel with
  | O => undef
  | S f =>
      nread ← in_tls xread_record;
      if nread <? 1 then mret true
      else
        type ← in_tls (inbuf_byte 0);
        if negb (type =? RECORD_TYPE_APPLICATION_DATA) then throw runtime_error
        else
          data ← in_tls (inbuf_bytes RECHDR_LEN (Z.to_nat nread));
          modify (fun s => set_stdout (stdout s ++ [data]) s) ;;
          more ← gets (fun s => tls_has_buffered_record (con (ltls s)));
          if (more =? 0)%nat then mret false else on_network f
  end.

(** One result of [poll], [None] for an error. *)
Definition loop_turn (exit_on_local_eof : bool) (poll : option (bool * bool)) : M loop bool :=
  match poll with
  | None => throw runtime_error
  | Some (ready0, ready1) =>
      open ← gets stdin_open;
      stop ← (if ready0 && open then on_stdin exit_on_local_eof else mret false);
      if stop : bool then mret true
      else if ready1 : bool then
        fuel ← gets (fun s => read_fuel (con (ltls s)));
        on_network fuel
      else mret false
  end.

(** The loop over the results of [poll] to come; false when it still runs after
    the last of them. *)
Fixpoint tls_run_copy_loop (exit_on_local_eof : bool) (polls : list (option (bool * bool))) : M loop bool :=
  match polls with
  | [] => mret false
  | p :: polls =>
      stop ← loop_turn exit_on_local_eof p;
      if stop : bool then mret true else tls_run_copy_loop exit_on_local_eof polls
  end.

(** The state in which the loop starts. *)
Definition start_loop (t : tls) (i : list read_result) : loop :=
  {| ltls := t; stdin := i; stdin_open := true; stdout := []; inbuf_size := INBUF_STEP |}.
End handshake.
End TlsHandshake.
