(* ===== verification/TlsReading.v ===== *)
(** * Reading records from any peer

    Facts about the reading side of the record layer that hold whatever the peer
    sends: it terminates, and it changes nothing but the input buffer and the
    handshake hash. *)

From S2P Require Import Prelude HashStream HashMd5Sha HashSpec HashProps TlsAes TlsAesGcm TlsHmac TlsRecord TlsRecordProps TlsHandshake.

Module TlsReading.
Import TlsAes TlsAesGcm TlsRecord TlsRecordProps TlsHandshake.
Import HashStream(copy_into).

(** ** Termination *)

(** What is left to read from the socket. *)
Definition pending (i : list read_result) : nat :=
  sum_list ((fun r => match r with Data b => S (length b) | Failed => 1 end)%nat <$> i).

Lemma read_fuel_pending c : read_fuel c = S (buffered_size c + pending (input c)).
Proof. done. Qed.

(** A read that returns bytes leaves fewer to read. *)
Lemma safe_read_pending rem i x d i' : safe_read rem i = (Some (x :: d), i') -> (pending i' + length (x :: d) <= pending i)%nat.
Proof.
  destruct i as [|[b|] i]; cbn [safe_read]; [done| |done]. intros [= Ed <-].
  rewrite <- Ed, length_take. unfold pending.
  destruct (Nat.leb_spec (length b) rem) as [Hr|Hr]; cbn; [lia|]. rewrite length_drop. lia.
Qed.

Lemma safe_read_end rem i o i' : safe_read rem i = (o, i') -> (pending i' <= pending i)%nat.
Proof.
  destruct o as [[|x d]|]; intros E.
  - destruct i as [|[b|] i]; cbn [safe_read] in E; [by injection E as <-| |done]. injection E as Et <-.
    unfold pending. destruct (Nat.leb_spec (length b) rem); cbn; rewrite ?length_drop; lia.
  - apply safe_read_pending in E. lia.
  - destruct i as [|[b|] i]; cbn [safe_read] in E; [done|done|]. injection E as <-. unfold pending. cbn. lia.
Qed.

(** The connection between two turns of the reading loop. *)
Definition reading (c c' : conn) : Prop :=
  crypt c' = crypt c /\ aesgcm_flag c' = aesgcm_flag c /\ min_encrypted_len_on_read c' = min_encrypted_len_on_read c /\
  ofs_to_buffered c' = ofs_to_buffered c /\ buffered_size c' = buffered_size c /\ hsd c' = hsd c /\ untouched c c'.

#[export] Instance reading_preorder : PreOrder reading.
Proof.
  split; [done|]. intros c1 c2 c3 H1 H2. unfold reading, untouched in *. naive_solver congruence.
Qed.

Lemma fill_fuel f1 : forall f2 c total target, (pending (input c) < f1)%nat -> (pending (input c) < f2)%nat ->
  fill f1 c total target = fill f2 c total target.
Proof.
  induction f1 as [|f1 IH]; intros [|f2] c total target H1 H2; [lia..|]. cbn [fill].
  set (c1 := if (length (inbuf c) - total =? 0)%nat then _ else _).
  assert (input c1 = input c) as Ei by (unfold c1; by destruct (_ =? _)%nat).
  set (fresh := (RECHDR_LEN <=? total)%nat && (target =? MAX_INBUF)%nat). set (tg := if fresh then record_size (inbuf c) else target).
  destruct (fresh && _); [done|]. destruct (tg <=? total)%nat; [done|].
  destruct (safe_read _ (input c1)) as [[[|x d]|] i] eqn:E; [done| |done].
  apply IH; cbn [input set_io]; apply safe_read_pending in E; rewrite Ei in E; cbn [length] in E; lia.
Qed.

(** What the loop leaves. *)
Lemma fill_result f : forall c total target r c', fill f c total target = Ok (r, c') ->
  reading c c' /\
  match r with
  | None => (pending (input c') <= pending (input c))%nat
  | Some (total', target') => (target' <= total')%nat /\ (total' + pending (input c') <= total + pending (input c))%nat /\
      (5 <= target -> 5 <= target')%nat
  end.
Proof.
  induction f as [|f IH]; intros c total target r c'; cbn [fill]; [done|].
  set (c1 := if (length (inbuf c) - total =? 0)%nat then _ else _).
  assert (input c1 = input c /\ reading c c1) as [Ei Hc1] by (unfold c1; by destruct (_ =? _)%nat).
  set (fresh := (RECHDR_LEN <=? total)%nat && (target =? MAX_INBUF)%nat). set (tg := if fresh then record_size (inbuf c) else target).
  assert (5 <= target -> 5 <= tg)%nat as Htg.
  { intros H5. unfold tg. destruct fresh; [unfold record_size, RECHDR_LEN; lia|done]. }
  destruct (fresh && _); [done|]. destruct (Nat.leb_spec tg total).
  { intros [= <- <-]. split; [done|]. split; [done|]. split; [lia|done]. }
  destruct (safe_read _ (input c1)) as [[[|x d]|] i] eqn:E; [| |done].
  - destruct (total =? 0)%nat; [|done]. intros [= <- <-]. apply safe_read_end in E. rewrite Ei in E. done.
  - intros [Hr H']%IH. split; [etrans; [exact Hc1|]; exact Hr|].
    apply safe_read_pending in E. rewrite Ei in E. destruct r as [[total' target']|]; cbn [input set_io] in H'; [|lia].
    destruct H' as (H1 & H2 & H3). split; [done|]. split; [lia|]. auto.
Qed.

(** Decryption works in place. *)
Lemma decrypt_result c sz c' sz' : decrypt_record c sz = Ok (c', sz') -> exists b, c' = set_inbuf b c.
Proof.
  unfold decrypt_record. destruct (_ =? 0); [intros [= <- _]; exists (inbuf c); by destruct c|]. destruct (sz <? _); [done|].
  destruct (aesgcm_flag c).
  - destruct (_ <? 0); [done|]. destruct (tls_aesgcm_decrypt _ _ _); cbn [mbind outcome_bind]; [|done..]. intros [= <- _]. by eexists.
  - destruct (Z.of_nat TLS_MAC_SIZE <? _); [|intros [= <- _]; exists (inbuf c); by destruct c]. destruct (negb _); [done|].
    destruct (aes_cbc_decrypt _ _ _); cbn [mbind outcome_bind]; [|done..]. intros [= <- _]. by eexists.
Qed.

(** The fuel of [xread_record] is enough: with more the result is the same. *)
Lemma xread_fuel ni f1 : forall f2 c, (read_fuel c < f1)%nat -> (read_fuel c < f2)%nat -> tls_xread_record ni f1 c = tls_xread_record ni f2 c.
Proof.
  induction f1 as [|f1 IH]; intros [|f2] c H1 H2; [lia..|]. rewrite read_fuel_pending in H1, H2. cbn [tls_xread_record].
  set (c0 := if (buffered_size c =? 0)%nat then _ else _). assert (input c0 = input c) as Ei by (unfold c0; by destruct (_ =? _)%nat).
  rewrite (fill_fuel (S f1) (S f2)) by (rewrite Ei; lia).
  destruct (fill _ _ _ _) as [[[[total target]|] c1]| |] eqn:Ef; [|done..]. cbn [mbind outcome_bind].
  apply fill_result in Ef as [_ (T1 & T2 & T3)]. rewrite Ei in T2. specialize (T3 ltac:(apply max_inbuf)).
  destruct (decrypt_record _ _) as [[c2 sz]| |] eqn:Ed; [|done..]. cbn [mbind outcome_bind]. apply decrypt_result in Ed as [b ->].
  destruct (sz <? 0); [done|]. unfold on_record. destruct (_ && (2 <=? sz)); [|done]. destruct (_ =? 2); [done|]. destruct (_ && _); [|done].
  apply IH; rewrite read_fuel_pending; cbn [buffered_size set_inbuf set_buffered input]; lia.
Qed.

(** ** What reading leaves alone *)

(** The same connection, up to the input and the handshake hash. *)
Definition framed (c c' : conn) : Prop :=
  crypt c' = crypt c /\ aesgcm_flag c' = aesgcm_flag c /\ min_encrypted_len_on_read c' = min_encrypted_len_on_read c /\
  (hsd c' = None <-> hsd c = None) /\ untouched c c'.

#[export] Instance framed_preorder : PreOrder framed.
Proof.
  split; [done|]. intros c1 c2 c3 (A1 & A2 & A3 & A4 & A5) (B1 & B2 & B3 & B4 & B5). unfold framed, untouched in *.
  rewrite B1, B2, B3, B4. naive_solver congruence.
Qed.

Lemma reading_framed c c' : reading c c' -> framed c c'.
Proof. intros (A1 & A2 & A3 & A4 & A5 & A6 & A7). unfold framed. by rewrite A6. Qed.

Lemma xread_framed ni f : forall c n c', tls_xread_record ni f c = Ok (n, c') -> framed c c'.
Proof.
  induction f as [|f IH]; intros c n c'; cbn [tls_xread_record]; [done|].
  set (c0 := if (buffered_size c =? 0)%nat then _ else _). assert (framed c c0) as H0 by (unfold c0; by destruct (_ =? _)%nat).
  destruct (fill _ _ _ _) as [[[[total target]|] c1]| |] eqn:Ef; [| |done..]; cbn [mbind outcome_bind];
    apply fill_result in Ef as [Hr _]; apply reading_framed in Hr; assert (framed c c1) as H1 by (by etrans).
  2: { intros [= _ <-]. done. }
  destruct (decrypt_record _ _) as [[c2 sz]| |] eqn:Ed; [|done..]. cbn [mbind outcome_bind]. apply decrypt_result in Ed as [b ->].
  destruct (sz <? 0); [done|]. set (c2 := set_inbuf _ _). assert (framed c c2) as H2 by exact H1. clearbody c2. clear -IH H2.
  unfold on_record. destruct (_ && (2 <=? sz)).
  - destruct (_ =? 2); [done|]. destruct (_ && _); [|by intros [= _ <-]]. intros E%IH. by etrans.
  - destruct (_ =? RECORD_TYPE_HANDSHAKE); [|by intros [= _ <-]]. unfold hash_handshake. destruct (hsd c2) eqn:Eh; [|done]. intros [= _ <-].
    etrans; [exact H2|]. unfold framed. cbn. by rewrite Eh.
Qed.

(** ** Decryption always returns *)

Lemma tab_rsbox_byte i : is_u8 (tab rsbox i).
Proof.
  unfold tab. destruct (nth_in_or_default (Z.to_nat i) rsbox 0) as [H| -> ]; [|done].
  assert (forallb (fun x => (0 <=? x) && (x <? 256)) rsbox = true) as Hs by (vm_compute; reflexivity).
  rewrite forallb_forall in Hs. specialize (Hs _ H). cbn beta in Hs. unfold is_u8. lia.
Qed.

Lemma InvSubBytes_ok s : length s = 16%nat -> state_ok (InvSubBytes s).
Proof. intros L. unfold InvSubBytes. split; [by rewrite length_fmap|]. apply Forall_fmap, Forall_true. intros x. apply tab_rsbox_byte. Qed.

Lemma length_InvShiftRows s : length (InvShiftRows s) = length s.
Proof. unfold InvShiftRows, swap_row2, move, put. by rewrite !length_insert. Qed.

Lemma Multiply_byte x : is_u8 (Multiply x).
Proof. unfold Multiply. change 255 with (Z.ones 8). rewrite Z.land_ones by lia. apply Z.mod_pos_bound. lia. Qed.

Lemma InvMixColumns_ok s : length s = 16%nat -> state_ok (InvMixColumns s).
Proof.
  intros L. do 16 (destruct s as [|? s]; [discriminate L|]). destruct s; [|discriminate L]. split; [done|].
  repeat (constructor; [apply Multiply_byte|]). constructor.
Qed.

Lemma decrypt_loop_total r ks : forall s, keys_ok ks -> (4 * r + 4 <= length ks)%nat -> length s = 16%nat ->
  exists s', decrypt_loop (S r) ks s = Ok s' /\ state_ok s'.
Proof.
  induction r as [|r IH]; intros s Hk Hl Hs; cbn [decrypt_loop]; fold decrypt_loop;
    pose proof (InvSubBytes_ok (InvShiftRows s) ltac:(by rewrite length_InvShiftRows)) as H1.
  - destruct (AddRoundKey_inv _ (drop (4 * 0) ks) H1) as (s1 & -> & H2 & _); [by apply Forall_drop|rewrite length_drop; lia|]. by exists s1.
  - destruct (AddRoundKey_inv _ (drop (4 * S r) ks) H1) as (s1 & -> & [L2 _] & _); [by apply Forall_drop|rewrite length_drop; lia|].
    cbn [mbind outcome_bind]. apply IH; [done|lia|]. apply InvMixColumns_ok, L2.
Qed.

Lemma aes_decrypt_total aes s : aes_ok aes -> state_ok s -> exists s', aes_decrypt_1 aes s = Ok s' /\ state_ok s'.
Proof.
  intros (Hr & Hk & Hl) Hs. unfold aes_decrypt_1.
  destruct (AddRoundKey_inv s (drop (rounds aes * 4) (key aes)) Hs) as (s1 & -> & [L1 _] & _); [by apply Forall_drop|rewrite length_drop; lia|].
  cbn [mbind outcome_bind]. destruct (rounds aes) as [|r]; [lia|]. apply decrypt_loop_total; [done|lia|done].
Qed.

Lemma cbc_decrypt_total aes f : forall iv ct n, aes_ok aes -> length ct = (16 * n)%nat -> (length ct <= f)%nat -> state_ok iv -> bytes_ok ct ->
  exists pt, cbc_decrypt_loop f aes iv ct = Ok pt /\ length pt = length ct /\ bytes_ok pt.
Proof.
  induction f as [|f IH]; intros iv ct n Ha Hn Hf Hiv Hb.
  - destruct ct; [|cbn in Hf; lia]. by exists [].
  - destruct ct as [|c0 ct']; [by exists []|]. set (ct := c0 :: ct') in *. cbn [cbc_decrypt_loop]. fold ct.
    destruct n as [|n]; [unfold ct in Hn; cbn in Hn; lia|]. rewrite (proj2 (Nat.ltb_ge _ _)) by lia.
    assert (state_ok (take 16 ct)) as Ht by (split; [rewrite length_take; lia|by apply bytes_ok_take]).
    destruct (aes_decrypt_total aes (take 16 ct) Ha Ht) as (s & -> & [Ls Bs]). cbn [mbind outcome_bind].
    destruct (IH (take 16 ct) (drop 16 ct) n Ha) as (pt & -> & L & B); [rewrite length_drop; lia|rewrite length_drop; lia|done|by apply bytes_ok_drop|].
    cbn [mbind outcome_bind]. eexists. split; [done|]. destruct Hiv as [Liv Biv]. rewrite length_app, length_zip_with, L, length_drop.
    split; [lia|]. apply bytes_ok_app. split; [by apply zip_xor_bytes|done].
Qed.

Lemma gcm_decrypt_total aes nonce f : forall cnt buf o n, aes_ok aes -> (12 <= length nonce)%nat -> bytes_ok nonce ->
  (o + n + 8 <= length buf)%nat -> (n <= f)%nat -> bytes_ok buf ->
  exists buf', decrypt_in_place f aes nonce cnt buf o n = Ok buf' /\ bytes_ok buf'.
Proof.
  induction f as [|f IH]; intros cnt buf o n Ha Hn Hnb Hl Hf Hb; cbn [decrypt_in_place]; (destruct (Nat.eqb_spec n 0); [by eexists|]); [lia|].
  destruct (set_counter_ok nonce (cnt + 1) Hn Hnb) as [Lc Bc].
  destruct (encrypt_block_ok aes _ Ha Lc Bc) as (s & -> & Ls & Bs).
  cbn [mbind outcome_bind]. set (k := if (16 <? n)%nat then 16%nat else n).
  assert (1 <= k <= 16 /\ k <= n)%nat as Hk by (unfold k; destruct (Nat.ltb_spec 16 n); lia).
  unfold xorbuf3. rewrite length_drop. destruct (Nat.ltb_spec (length s) k); [lia|]. destruct (Nat.ltb_spec (length buf - (o + 8)) k); [lia|].
  cbn [orb mbind outcome_bind]. apply IH; [done|done|done| |lia|].
  - rewrite !length_app, length_zip_with, !length_take, !length_drop. lia.
  - rewrite !bytes_ok_app. split; [auto with bytes|]. split; [|auto with bytes]. apply zip_xor_bytes; auto with bytes.
Qed.

(** The keys that reading uses, if it decrypts at all. *)
Definition read_keys (c : conn) : Prop :=
  min_encrypted_len_on_read c <> 0%nat ->
  aes_ok (aes_decrypt (crypt c)) /\ (4 <= length (server_write_IV (crypt c)))%nat /\ bytes_ok (server_write_IV (crypt c)) /\
  (min_encrypted_len_on_read c = if aesgcm_flag c then 24%nat else 48%nat).

Lemma byte_at_nonneg b i : bytes_ok b -> 0 <= byte_at b i.
Proof.
  intros Hb. unfold byte_at. rewrite list_lookup_total_alt. destruct (b !! i) as [x|] eqn:E; [|done].
  pose proof (Forall_lookup_1 _ _ _ _ Hb E) as [Hx _]. done.
Qed.

Lemma decrypt_total c sz : read_keys c -> bytes_ok (inbuf c) -> 0 <= sz -> (5 + Z.to_nat sz <= length (inbuf c))%nat ->
  decrypt_record c sz = Throw runtime_error \/
  exists b sz', decrypt_record c sz = Ok (set_inbuf b c, sz') /\ length b = length (inbuf c) /\ bytes_ok b /\ sz' <= sz.
Proof.
  intros Hk Hb Hs Hl. unfold decrypt_record. set (p := drop RECHDR_LEN (inbuf c)).
  assert (length p = length (inbuf c) - 5)%nat as Lp by (unfold p; by rewrite length_drop).
  assert (bytes_ok p) as Bp by (by apply bytes_ok_drop).
  destruct (Z.eqb_spec (Z.of_nat (min_encrypted_len_on_read c)) 0) as [E0|E0].
  { right. exists (inbuf c), sz. split; [by destruct c|]. split; [done|]. split; [done|lia]. }
  destruct (Hk ltac:(lia)) as (Ha & HIV & BIV & ->). destruct (aesgcm_flag c).
  - change (Z.of_nat 24) with 24. destruct (Z.ltb_spec sz 24); [by left|]. destruct (Z.ltb_spec (sz - (8 + 16)) 0); [lia|]. right.
    unfold tls_aesgcm_decrypt.
    destruct (gcm_decrypt_total (aes_decrypt (crypt c)) (take 4 (server_write_IV (crypt c)) ++ take 8 p ++ replicate 4 0) (Z.to_nat (sz - (8 + 16))) 1 p 0
      (Z.to_nat (sz - (8 + 16))) Ha) as (buf & E & Bb);
      [rewrite !length_app, !length_take, length_replicate; lia|rewrite !bytes_ok_app; auto using zero_bytes_ok with bytes|lia|lia|done|].
    rewrite E. cbn [mbind outcome_bind]. apply decrypt_in_place_frame in E as [L _]; [|lia].
    eexists _, _. split; [done|]. rewrite length_app, length_take, bytes_ok_app. cbv [RECHDR_LEN]. split; [lia|]. split; [auto with bytes|lia].
  - change (Z.of_nat 48) with 48. destruct (Z.ltb_spec sz 48); [by left|]. cbn [TLS_MAC_SIZE Z.of_nat]. change (32 <? 48) with true. cbn match.
    change 15 with (Z.ones 4). rewrite Z.land_ones by lia. destruct (Z.eqb_spec (sz mod 2 ^ 4) 0) as [Em|]; [|by left]. cbn [negb]. right.
    pose proof (Z.div_mod sz (2 ^ 4) ltac:(lia)) as Dm.
    unfold aes_cbc_decrypt. rewrite (take_take p).
    destruct (cbc_decrypt_total (aes_decrypt (crypt c)) (length (take (Z.to_nat (sz - 16)) (drop 16 p))) (take (16 `min` 16) p)
      (take (Z.to_nat (sz - 16)) (drop 16 p)) (Z.to_nat (sz / 2 ^ 4) - 1) Ha) as (pt & -> & L & Bpt);
      [rewrite length_take, length_drop; lia|done|split; [rewrite length_take; lia|auto with bytes]|auto with bytes|].
    cbn [mbind outcome_bind]. rewrite length_take, length_drop in L. set (q := copy_into p 0 pt).
    assert (length q = length p) as Lq by (unfold q; rewrite HashStream.length_copy_into; lia).
    assert (bytes_ok q) as Bq by (unfold q, copy_into; rewrite !bytes_ok_app; auto with bytes).
    pose proof (byte_at_nonneg q (Z.to_nat (sz - 16 - 1)) Bq).
    eexists _, _. split; [done|]. rewrite length_app, length_take, Lq, bytes_ok_app. cbv [RECHDR_LEN]. split; [lia|]. split; [auto with bytes|lia].
Qed.

(** ** Reading always ends *)

(** The network delivers bytes. *)
Definition bytes_conn (c : conn) : Prop :=
  bytes_ok (inbuf c) /\ Forall (fun r => match r with Data b => bytes_ok b | Failed => True end) (input c).

Lemma safe_read_bytes rem i d i' : Forall (fun r => match r with Data b => bytes_ok b | Failed => True end) i -> safe_read rem i = (Some d, i') ->
  bytes_ok d /\ (length d <= rem)%nat /\ Forall (fun r => match r with Data b => bytes_ok b | Failed => True end) i'.
Proof.
  intros Hi. destruct Hi as [|[b|] i Hb Hi]; cbn [safe_read]; [intros [= <- <-]; repeat split; [constructor|cbn; lia|constructor]| |done].
  intros [= <- <-]. rewrite length_take. split; [auto with bytes|]. split; [lia|]. destruct (_ <=? _)%nat; [done|]. constructor; [auto with bytes|done].
Qed.

Lemma grow_bytes buf : bytes_ok buf -> bytes_ok (grow buf).
Proof. intros H. unfold grow. rewrite bytes_ok_app. auto using zero_bytes_ok. Qed.

Lemma fill_total f : forall c total target, (pending (input c) < f)%nat -> bytes_conn c ->
  (total <= length (inbuf c))%nat -> (length (inbuf c) <= MAX_INBUF)%nat ->
  fill f c total target = Throw runtime_error \/
  exists r c', fill f c total target = Ok (r, c') /\ bytes_conn c' /\ (length (inbuf c) <= length (inbuf c') <= MAX_INBUF)%nat /\
    match r with None => True | Some (total', _) => total' <= length (inbuf c') end%nat.
Proof.
  induction f as [|f IH]; intros c total target Hf [Hb Hi] Ht Hm; [lia|]. cbn [fill].
  set (c1 := if (length (inbuf c) - total =? 0)%nat then _ else _).
  assert (input c1 = input c /\ bytes_ok (inbuf c1) /\ length (inbuf c) <= length (inbuf c1) <= MAX_INBUF)%nat as (Ei & Hb1 & Hl1).
  { unfold c1. destruct (_ =? _)%nat; [|done]. cbn [input set_inbuf inbuf]. rewrite length_grow by done. split; [done|]. split; [by apply grow_bytes|lia]. }
  set (fresh := (RECHDR_LEN <=? total)%nat && (target =? MAX_INBUF)%nat). set (tg := if fresh then record_size (inbuf c) else target).
  destruct (fresh && _); [by left|]. destruct (tg <=? total)%nat; [right; by eexists (Some (total, tg)), c|].
  destruct (safe_read _ (input c1)) as [[[|x d]|] i] eqn:E; [| |by left].
  - destruct (total =? 0)%nat; [|by left]. right. eexists None, _. split; [done|]. rewrite Ei in E. apply safe_read_bytes in E as (_ & _ & Bi); [|done].
    by split.
  - assert (pending i + length (x :: d) <= pending (input c))%nat as Hp by (rewrite <- Ei; by eapply safe_read_pending). rewrite Ei in E.
    apply safe_read_bytes in E as (Bd & Ld & Bi); [|done]. cbn [length] in Hp.
    assert (length (copy_into (inbuf c1) total (x :: d)) = length (inbuf c1)) as Lc by (rewrite HashStream.length_copy_into; lia).
    destruct (IH (set_io i (output c1) (set_inbuf (copy_into (inbuf c1) total (x :: d)) c1)) (total + length (x :: d))%nat tg) as [->|(r & c' & -> & B & L & R)].
    + cbn [input set_io]. lia.
    + split; cbn [inbuf input set_io set_inbuf]; [|done]. unfold copy_into. rewrite !bytes_ok_app. auto with bytes.
    + cbn [inbuf set_io set_inbuf]. rewrite Lc. lia.
    + cbn [inbuf set_io set_inbuf]. rewrite Lc. lia.
    + by left.
    + right. exists r, c'. split; [done|]. split; [done|]. cbn [inbuf set_io set_inbuf] in L. rewrite Lc in L. split; [lia|done].
Qed.

Lemma xread_total ni f : forall c, (read_fuel c < f)%nat -> conn_ok c -> bytes_conn c -> read_keys c -> hsd c <> None ->
  tls_xread_record ni f c = Throw runtime_error \/
  exists n c', tls_xread_record ni f c = Ok (n, c') /\ 0 <= n /\ (n = 0 \/ Z.of_nat (length (inbuf c')) >= 5 + n) /\ conn_ok c' /\ bytes_conn c'.
Proof.
  induction f as [|f IH]; intros c Hf [Ho Hm] [Hb Hi] Hk Hh; [lia|]. rewrite read_fuel_pending in Hf. cbn [tls_xread_record].
  set (c0 := if (buffered_size c =? 0)%nat then _ else _).
  assert (reading c c0 /\ input c0 = input c /\ bytes_ok (inbuf c0) /\ length (inbuf c0) = length (inbuf c)) as (R0 & Ei & B0 & L0).
  { unfold c0. destruct (_ =? _)%nat; [done|]. split; [done|]. split; [done|]. cbn [inbuf set_inbuf].
    rewrite HashStream.length_copy_into by (rewrite length_take, length_drop; lia). split; [|done].
    unfold copy_into. rewrite !bytes_ok_app. auto 6 with bytes. }
  destruct (fill_total (S f) c0 (buffered_size c) MAX_INBUF) as [->|(r & c1 & E & B1 & L1 & T1)];
    [rewrite Ei; lia|split; [done|by rewrite Ei]|lia|lia|by left|].
  rewrite E. cbn [mbind outcome_bind]. apply fill_result in E as [R1 P1]. assert (reading c c1) as R by (by etrans). clear R0 R1.
  destruct r as [[total target]|].
  2: { right. eexists 0, _. split; [done|]. split; [lia|]. split; [by left|]. destruct R as (_ & _ & _ & Eo & _). split; [|done].
       split; cbn [ofs_to_buffered buffered_size inbuf set_buffered]; [rewrite Eo|]; lia. }
  rewrite Ei in P1. destruct P1 as (P1 & P2 & P3). specialize (P3 ltac:(apply max_inbuf)). set (c2 := set_buffered _ _ c1).
  assert (read_keys c2) as Hk2.
  { destruct R as (R1 & R2 & R3 & _). unfold read_keys. cbn [crypt aesgcm_flag min_encrypted_len_on_read c2 set_buffered]. rewrite R1, R2, R3. exact Hk. }
  destruct B1 as [B1 I1].
  destruct (decrypt_total c2 (Z.of_nat (target - RECHDR_LEN)) Hk2) as [->|(b & sz & -> & Lb & Bb & Hsz)];
    [done|lia|cbn [inbuf c2 set_buffered]; cbv [RECHDR_LEN]; lia|by left|].
  cbn [mbind outcome_bind]. cbn [inbuf c2 set_buffered] in Lb. cbv [RECHDR_LEN] in Hsz. destruct (Z.ltb_spec sz 0); [by left|].
  set (c3 := set_inbuf b c2).
  assert (conn_ok c3) as O3 by (split; cbn [ofs_to_buffered buffered_size inbuf c3 c2 set_buffered set_inbuf]; lia).
  assert (bytes_conn c3) as B3 by (by split). assert (5 + sz <= Z.of_nat (length (inbuf c3))) as L3 by (cbn [inbuf c3 set_inbuf]; lia).
  assert (hsd c3 <> None) as H3 by (destruct R as (_ & _ & _ & _ & _ & R6 & _); cbn; by rewrite R6).
  unfold on_record. destruct (_ && (2 <=? sz)).
  - destruct (_ =? 2); [by left|]. destruct (_ && _); [|right; exists 0, c3; split; [done|]; split; [lia|]; by split; [left|]].
    apply IH; [|done|done|done|done]. rewrite read_fuel_pending. cbn [buffered_size input c3 c2 set_inbuf set_buffered]. lia.
  - right. destruct (_ =? RECORD_TYPE_HANDSHAKE); [|exists sz, c3; split; [done|]; split; [lia|]; split; [right; lia|done]].
    unfold hash_handshake. destruct (hsd c3) as [ctx|]; [|done]. cbn [mbind outcome_bind]. eexists sz, _. split; [done|]. split; [lia|]. split; [right; cbn [inbuf set_hash]; lia|done].
Qed.

(** ** After the handshake

    Without handshake data every step is the same, but for the hash of a handshake
    record, which has no memory to be kept in. *)

Definition res_map {A B} (f : A -> B) (r : outcome A) : outcome B :=
  match r with Ok x => Ok (f x) | Throw e => Throw e | Undef => Undef end.

Lemma fill_hash h n f : forall c total target,
  fill f (set_hash h n c) total target = res_map (fun p => (p.1, set_hash h n p.2)) (fill f c total target).
Proof.
  induction f as [|f IH]; intros c total target; [done|]. cbn [fill]. cbn [inbuf set_hash].
  set (fresh := (RECHDR_LEN <=? total)%nat && (target =? MAX_INBUF)%nat). set (tg := if fresh then record_size (inbuf c) else target).
  destruct (fresh && _); [done|]. destruct (tg <=? total)%nat; [done|]. destruct (length (inbuf c) - total =? 0)%nat; cbn [inbuf input set_hash set_inbuf].
  all: destruct (safe_read _ (input c)) as [[[|x d]|] i]; [by destruct (total =? 0)%nat|rewrite <- IH; done|done].
Qed.

Lemma decrypt_hash h n c sz : decrypt_record (set_hash h n c) sz = res_map (fun p => (set_hash h n p.1, p.2)) (decrypt_record c sz).
Proof.
  unfold decrypt_record. cbn [inbuf min_encrypted_len_on_read aesgcm_flag crypt set_hash]. destruct (_ =? 0); [done|]. destruct (sz <? _); [done|].
  destruct (aesgcm_flag c).
  - destruct (_ <? 0); [done|]. by destruct (tls_aesgcm_decrypt _ _ _).
  - destruct (Z.of_nat TLS_MAC_SIZE <? _); [|done]. destruct (negb _); [done|]. by destruct (aes_cbc_decrypt _ _ _).
Qed.

Lemma xread_hash ni n f : forall c, hsd c <> None ->
  match tls_xread_record ni f c with
  | Ok (r, c') => tls_xread_record ni f (set_hash None n c) = Ok (r, set_hash None n c') \/
                  tls_xread_record ni f (set_hash None n c) = Undef /\ byte_at (inbuf c') 0 = RECORD_TYPE_HANDSHAKE
  | Throw e => tls_xread_record ni f (set_hash None n c) = Throw e
  | Undef => tls_xread_record ni f (set_hash None n c) = Undef
  end.
Proof.
  induction f as [|f IH]; intros c Hh; [done|]. cbn [tls_xread_record]. cbn [buffered_size ofs_to_buffered inbuf set_hash].
  set (c0 := if (buffered_size c =? 0)%nat then c else _).
  assert ((if (buffered_size c =? 0)%nat then set_hash None n c else set_inbuf (copy_into (inbuf c) 0 (take (buffered_size c) (drop (ofs_to_buffered c) (inbuf c)))) (set_hash None n c))
          = set_hash None n c0) as -> by (unfold c0; by destruct (_ =? _)%nat).
  assert (hsd c0 = hsd c) as E0 by (unfold c0; by destruct (_ =? _)%nat). rewrite fill_hash.
  destruct (fill _ c0 _ _) as [[[[total target]|] c1]| |] eqn:Ef; cbn [res_map mbind outcome_bind fst snd]; [|by left|done..].
  apply fill_result in Ef as [(_ & _ & _ & _ & _ & Eh & _) _].
  change (set_buffered target (total - target) (set_hash None n c1)) with (set_hash None n (set_buffered target (total - target) c1)). rewrite decrypt_hash.
  destruct (decrypt_record _ _) as [[c2 sz]| |] eqn:Ed; cbn [res_map mbind outcome_bind fst snd]; [|done..].
  apply decrypt_result in Ed as [b ->]. destruct (sz <? 0); [done|].
  set (c2 := set_inbuf b _). assert (hsd c2 <> None) as H2 by (cbn; congruence). clearbody c2. clear -IH H2.
  unfold on_record. cbn [inbuf set_hash]. destruct (_ && (2 <=? sz)).
  - destruct (_ =? 2); [done|]. destruct (_ && _); [|by left]. by apply IH.
  - destruct (Z.eqb_spec (byte_at (inbuf c2) 0) RECORD_TYPE_HANDSHAKE) as [Et|]; [|by left].
    unfold hash_handshake. cbn [hsd set_hash]. destruct (hsd c2); [|done]. by right.
Qed.

(** Claim C25. Whatever bytes and errors the network delivers, and however they are
    cut into reads, in the handshake and after it, reading a record ends, with a
    number of turns bounded by the bytes there are.  It ends the process, or it
    returns a size whose bytes are inside the input buffer, whose positions stay in
    range, and has changed neither the keys nor the modes of the connection nor what
    was written; or it does the one thing that is undefined: when the handshake data
    has been freed and the peer sends a handshake record, which with handshake data
    would be returned, it is added to a hash that does not exist. *)
Theorem reading_always_ends ni c fuel : (read_fuel c < fuel)%nat -> conn_ok c -> bytes_conn c -> read_keys c ->
  (tls_xread_record ni fuel c = Throw runtime_error \/
   (exists n c', tls_xread_record ni fuel c = Ok (n, c') /\ 0 <= n /\ (n = 0 \/ 5 + n <= Z.of_nat (length (inbuf c'))) /\
     conn_ok c' /\ bytes_conn c' /\ framed c c') \/
   (hsd c = None /\ tls_xread_record ni fuel c = Undef /\
    forall ctx, exists n c', tls_xread_record ni fuel (set_hash (Some ctx) (shaNI c) c) = Ok (n, c') /\
      byte_at (inbuf c') 0 = RECORD_TYPE_HANDSHAKE)) /\
  tls_xread_record ni fuel c = tls_xread_record ni (S (read_fuel c)) c.
Proof.
  intros Hf Ho Hb Hk. split; [|apply xread_fuel; lia].
  enough (tls_xread_record ni fuel c = Throw runtime_error \/
    (exists n c', tls_xread_record ni fuel c = Ok (n, c') /\ 0 <= n /\ (n = 0 \/ 5 + n <= Z.of_nat (length (inbuf c'))) /\ conn_ok c' /\ bytes_conn c') \/
    (hsd c = None /\ tls_xread_record ni fuel c = Undef /\ forall ctx, exists n c', tls_xread_record ni fuel (set_hash (Some ctx) (shaNI c) c) = Ok (n, c') /\
      byte_at (inbuf c') 0 = RECORD_TYPE_HANDSHAKE)) as [H|[(n & c' & E & H1 & H2 & H3 & H4)|H]]; [by left| |by right; right|].
  { right. left. exists n, c'. do 5 (split; [done|]). by eapply xread_framed. }
  destruct (hsd c) as [ctx0|] eqn:Eh.
  - destruct (xread_total ni fuel c Hf Ho Hb Hk ltac:(by rewrite Eh)) as [E|(n & c' & E & Hn & Hl & Ho' & Hb')]; [by left|right; left].
    exists n, c'. split; [done|]. split; [done|]. split; [destruct Hl; [by left|right; lia]|done].
  - assert (forall ctx, set_hash None (shaNI c) (set_hash (Some ctx) (shaNI c) c) = c) as Ec
      by (intros; clear -Eh; destruct c; cbn in Eh; subst; reflexivity).
    assert (forall ctx, tls_xread_record ni fuel (set_hash (Some ctx) (shaNI c) c) = Throw runtime_error /\ tls_xread_record ni fuel c = Throw runtime_error \/
      exists n c', tls_xread_record ni fuel (set_hash (Some ctx) (shaNI c) c) = Ok (n, c') /\ 0 <= n /\ (n = 0 \/ 5 + n <= Z.of_nat (length (inbuf c'))) /\
        conn_ok c' /\ bytes_conn c' /\
        (tls_xread_record ni fuel c = Ok (n, set_hash None (shaNI c) c') \/ tls_xread_record ni fuel c = Undef /\ byte_at (inbuf c') 0 = RECORD_TYPE_HANDSHAKE)) as H.
    { intros ctx. pose proof (xread_hash ni (shaNI c) fuel (set_hash (Some ctx) (shaNI c) c) ltac:(done)) as Hx. rewrite Ec in Hx.
      destruct (xread_total ni fuel (set_hash (Some ctx) (shaNI c) c) Hf Ho Hb Hk ltac:(done)) as [E|(n & c' & E & Hn & Hl & Ho' & Hb')]; rewrite E in Hx; [by left|].
      right. exists n, c'. split; [done|]. split; [done|]. split; [destruct Hl; [by left|right; lia]|done]. }
    destruct (H (HashMd5Sha.sha1_begin HashProps.used_ctx)) as [[_ E]|(n & c' & _ & Hn & Hl & Ho' & Hb' & [E|[E _]])]; [by left|..].
    + right. left. by eexists n, _.
    + right. right. split; [done|]. split; [done|]. intros ctx. destruct (H ctx) as [[_ E']|(n' & c'' & E' & _ & _ & _ & _ & [E2|[_ E2]])]; [by rewrite E in E'|by rewrite E in E2|].
      by exists n', c''.
Qed.

(** A connection in the handshake that gets a header in two pieces and then an error. *)
Definition broken_conn : conn :=
  set_hash (Some HashProps.used_ctx) 0 (sample_conn false 0 [Data [22; 3]; Data [3; 0; 9; 1]; Failed]).

(** A connection after the handshake that gets a handshake record. *)
Definition late_conn : conn := sample_conn false 0 [Data [22; 3; 3; 0; 4]; Data [0; 0; 0; 0]].

Lemma reading_always_ends_witness :
  tls_xread_record HashMd5Sha.sha256_process_block64 100 broken_conn =
  tls_xread_record HashMd5Sha.sha256_process_block64 (S (read_fuel broken_conn)) broken_conn /\
  forall ctx, exists n c', tls_xread_record HashMd5Sha.sha256_process_block64 100 (set_hash (Some ctx) (shaNI late_conn) late_conn) = Ok (n, c') /\
    byte_at (inbuf c') 0 = RECORD_TYPE_HANDSHAKE.
Proof.
  split.
  - apply (reading_always_ends HashMd5Sha.sha256_process_block64 broken_conn 100).
    + vm_compute. lia.
    + split; cbn; lia.
    + split; [constructor|]. constructor; [by repeat constructor|]. constructor; [by repeat constructor|]. by constructor.
    + intros E. by destruct E.
  - destruct (reading_always_ends HashMd5Sha.sha256_process_block64 late_conn 100) as [[E|[(n & c' & E & _)|(_ & _ & H)]] _].
    + vm_compute. lia.
    + split; cbn; lia.
    + split; [constructor|]. constructor; [by repeat constructor|]. constructor; [by repeat constructor|]. by constructor.
    + intros E. by destruct E.
    + exfalso. vm_compute in E. discriminate E.
    + exfalso. vm_compute in E. discriminate E.
    + exact H.
Defined.
End TlsReading.
