(* ===== verification/TlsMessages.v ===== *)
(** * The messages of the client

    The bytes that the client's handshake messages have by RFC 5246, RFC 6066 and
    RFC 8422, and that the code writes them. *)

From S2P Require Import Prelude HashStream HashMd5Sha HashSpec HashProps TlsAes TlsAesGcm TlsHmac TlsRecord TlsRecordProps TlsHandshake.

Module TlsMessages.
Import TlsAes TlsAesGcm TlsRecord TlsRecordProps TlsHandshake.
Import HashStream(copy_into).

(** ** Formats *)

(** A vector with its length in [k] bytes. *)
Definition vec (k : nat) (l : bytes) : bytes := be_bytes k (Z.of_nat (length l)) ++ l.

(** A handshake message. *)
Definition msg (type : Z) (body : bytes) : bytes := type :: vec 3 body.

Definition extension (id : Z) (data : bytes) : bytes := be_bytes 2 id ++ vec 2 data.

(** The cipher suites offered, and the value of RFC 5746 in front of them. *)
Definition offered : list Z := [0xC023; 0xC027; 0xC02B; 0xC02F; 0x003C; 0x003D; 0x009C].

Definition server_name (name : bytes) : bytes := if (length name =? 0)%nat then [] else extension 0 (vec 2 (0 :: vec 2 name)).

Definition client_hello (rand name : bytes) : bytes :=
  msg 1 ([3; 3] ++ rand ++ vec 1 [] ++ vec 2 (concat (be_bytes 2 <$> 0x00FF :: offered)) ++ vec 1 [0] ++
         vec 2 (server_name name ++ extension 10 (vec 2 (concat (be_bytes 2 <$> [23; 29]))) ++
                extension 13 (vec 2 (concat (be_bytes 2 <$> [0x0401; 0x0402; 0x0403]))))).

Definition empty_certificate : bytes := msg 11 (vec 3 []).
Definition finished (verify_data : bytes) : bytes := msg 20 verify_data.

(** ** The code writes them *)

Lemma copy_at a x b d : length x = length d -> copy_into (a ++ x ++ b) (length a) d = a ++ d ++ b.
Proof.
  intros L. unfold copy_into. rewrite take_app_length, <- L. f_equal. f_equal. rewrite app_assoc, drop_app_length'; [done|]. by rewrite length_app.
Qed.

Lemma copy_after i a x b d : i = length a -> length x = length d -> copy_into (a ++ x ++ b) i d = a ++ d ++ b.
Proof. intros ->. apply copy_at. Qed.

Lemma copy_start x b d : length x = length d -> copy_into (x ++ b) 0 d = d ++ b.
Proof. apply (copy_at []). Qed.

Lemma length_vec k l : length (vec k l) = (k + length l)%nat.
Proof. unfold vec. by rewrite length_app, length_be_bytes. Qed.

Lemma be_bytes_small k z : 0 <= z < 256 -> be_bytes (S k) z = replicate k 0 ++ [z].
Proof.
  intros Hz. unfold be_bytes. cbn [le_bytes]. rewrite reverse_cons, Z.mod_small, (Z.div_small z 256) by lia. f_equal.
  induction k as [|k IH]; [done|]. cbn [le_bytes]. rewrite reverse_cons. change (0 mod 256) with 0. change (0 / 256) with 0. rewrite IH.
  by rewrite <- replicate_S_end.
Qed.

(** The lengths that the header function writes. *)
Lemma header_bytes type len : is_u8 type -> 4 <= len < 2 ^ 16 ->
  [u8 type; u8 (Z.shiftr (u32 (len - 4)) 16); u8 (Z.shiftr (u32 (len - 4)) 8); Z.land (u32 (len - 4)) 0xff] = type :: be_bytes 3 (len - 4).
Proof.
  intros Ht Hl. rewrite (u8_id type) by done. f_equal. rewrite (u32_id (len - 4)) by (unfold is_u32; lia).
  set (n := len - 4) in *. unfold be_bytes. cbn [le_bytes]. cbv [reverse rev_append].
  change 0xff with (Z.ones 8). rewrite Z.land_ones, !Z.shiftr_div_pow2, Z.div_div by lia. done.
Qed.

(** The part with fixed positions. *)
Lemma fixed_part h rand e0 e1 t : length h = 4%nat -> length rand = 32%nat ->
  copy_into (copy_into (copy_into (copy_into (copy_into (replicate 61 0 ++ t) 0 h) 4 [TLS_MAJ; TLS_MIN]) 6 rand) 39 ciphers) 59 [e0; e1] =
  (h ++ [3; 3] ++ rand ++ [0] ++ ciphers ++ [e0; e1]) ++ t.
Proof.
  intros Lh Lr. change (replicate 61 0) with (replicate 4 0 ++ replicate 2 0 ++ replicate 32 0 ++ [0] ++ replicate 20 0 ++ replicate 2 0).
  rewrite <- !app_assoc. rewrite (copy_start (replicate 4 0)) by (by rewrite Lh).
  rewrite (copy_after 4 h (replicate 2 0)) by done. rewrite (app_assoc h). rewrite (copy_after 6 (h ++ _)) by (rewrite ?length_app; (by rewrite Lh) || (by rewrite Lr)).
  rewrite <- (app_assoc h). cbn [app]. replace (h ++ TLS_MAJ :: TLS_MIN :: rand ++ 0 :: replicate 20 0 ++ replicate 2 0 ++ t)
    with ((h ++ TLS_MAJ :: TLS_MIN :: rand ++ [0]) ++ replicate 20 0 ++ replicate 2 0 ++ t) by (repeat (rewrite <- app_assoc; cbn [app]); done).
  assert (length (h ++ TLS_MAJ :: TLS_MIN :: rand ++ [0]) = 39%nat) as L by (rewrite length_app; cbn [length]; rewrite length_app, Lh, Lr; done).
  rewrite (copy_after 39 (h ++ _)) by done. rewrite app_assoc.
  rewrite (copy_after 59 (_ ++ ciphers)) by (done || by rewrite length_app, L). repeat (rewrite <- app_assoc; cbn [app]). done.
Qed.

Lemma server_name_part h n name t : length h = 61%nat -> n = Z.of_nat (length name) -> 0 <= n <= 122 ->
  copy_into (<[(61 + 8)%nat := u8 n]> (<[(61 + 5)%nat := u8 (n + 3)]> (<[(61 + 3)%nat := u8 (n + 5)]> (h ++ replicate 9 0 ++ replicate (length name) 0 ++ t)))) (61 + 9) name =
  (h ++ extension 0 (vec 2 (0 :: vec 2 name))) ++ t.
Proof.
  intros Lh -> Hn. rewrite !(u8_id (Z.of_nat _ + _)), (u8_id (Z.of_nat _)) by (unfold is_u8; lia). rewrite <- Lh at 1 2 3.
  rewrite !insert_app_r. cbn [replicate app insert list_insert].
  replace (h ++ 0 :: 0 :: 0 :: Z.of_nat (length name) + 5 :: 0 :: Z.of_nat (length name) + 3 :: 0 :: 0 :: Z.of_nat (length name) :: replicate (length name) 0 ++ t)
    with ((h ++ [0; 0; 0; Z.of_nat (length name) + 5; 0; Z.of_nat (length name) + 3; 0; 0; Z.of_nat (length name)]) ++ replicate (length name) 0 ++ t)
    by (rewrite <- app_assoc; done).
  rewrite copy_after by (rewrite ?length_app, ?length_replicate, ?Lh; done). rewrite <- !app_assoc. f_equal.
  unfold extension. change (be_bytes 2 0) with [0; 0]. assert (length (0%Z :: vec 2 name) = 3 + length name)%nat as L1 by (cbn [length]; rewrite length_vec; lia).
  assert (length (vec 2 (0%Z :: vec 2 name)) = 5 + length name)%nat as L2 by (rewrite length_vec, L1; lia).
  unfold vec at 1. rewrite L2, (be_bytes_small 1) by lia. unfold vec at 1. rewrite L1, (be_bytes_small 1) by lia. unfold vec. rewrite (be_bytes_small 1) by lia.
  cbn [replicate app]. repeat f_equal; lia.
Qed.

Lemma ext_len_bytes n : 0 <= n < 2 ^ 16 -> [u8 (Z.shiftr n 8); u8 n] = be_bytes 2 n.
Proof. intros H. rewrite be_bytes_2 by done. change 255 with (Z.ones 8). rewrite Z.land_ones by lia. done. Qed.

Lemma client_hello_bytes rand name : length rand = 32%nat -> (length name <= 122)%nat ->
  let ext_len := Z.of_nat (length extensions) + (if (length name =? 0)%nat then 0 else 9 + Z.of_nat (length name)) in
  let len := Z.of_nat sizeof_client_hello + 2 + ext_len in
  fill_client_hello (replicate (Z.to_nat len) 0) rand name len ext_len = client_hello rand name /\ Z.to_nat len = length (client_hello rand name) /\
  0 <= len <= 300.
Proof.
  intros Lr Ln ext_len len.
  assert (0 <= ext_len <= 22 + 131 /\ len = 61 + ext_len) as [He El].
  { unfold len, ext_len. change (Z.of_nat sizeof_client_hello) with 59. change (Z.of_nat (length extensions)) with 22. destruct (_ =? 0)%nat; lia. }
  set (exts := server_name name ++ extensions).
  assert (Z.of_nat (length exts) = ext_len) as Lx.
  { unfold exts, server_name, ext_len. destruct (length name =? 0)%nat; [done|].
    unfold extension. rewrite !length_app, length_be_bytes, length_vec, length_vec. cbn [length]. rewrite length_vec. lia. }
  assert (client_hello rand name = (1 :: be_bytes 3 (len - 4)) ++ [3; 3] ++ rand ++ [0] ++ ciphers ++ be_bytes 2 ext_len ++ exts) as Ech.
  { unfold client_hello, msg. change (extension 10 _ ++ extension 13 _) with extensions. fold exts. unfold vec at 1.
    assert (length ([3; 3] ++ rand ++ vec 1 [] ++ vec 2 (concat (be_bytes 2 <$> 0x00FF :: offered)) ++ vec 1 [0] ++ vec 2 exts) = Z.to_nat (len - 4)) as ->.
    { rewrite !length_app, Lr, !length_vec. change (length (concat _)) with 16%nat. cbn [length]. lia. }
    rewrite Z2Nat.id by lia. unfold vec at 4. rewrite Lx. done. }
  split; [|split; [|lia]].
  2: { rewrite Ech. rewrite !length_app. cbn [length]. rewrite !length_be_bytes, Lr. change (length ciphers) with 20%nat. lia. }
  rewrite Ech. unfold fill_client_hello, fill_handshake_record_hdr. change sizeof_client_hello with 59%nat. change (59 + 2)%nat with 61%nat.
  rewrite header_bytes by (done || lia). change HANDSHAKE_CLIENT_HELLO with 1.
  replace (Z.to_nat len) with (61 + Z.to_nat ext_len)%nat by lia. rewrite replicate_add, fixed_part, ext_len_bytes by (done || lia).
  set (h := _ ++ [3; 3] ++ _). assert (length h = 61%nat) as Lh.
  { unfold h. rewrite !length_app. cbn [length]. rewrite !length_be_bytes, Lr. done. }
  replace ((1 :: be_bytes 3 (len - 4)) ++ [3; 3] ++ rand ++ [0] ++ ciphers ++ be_bytes 2 ext_len ++ exts) with (h ++ exts)
    by (unfold h; by rewrite <- !app_assoc).
  clearbody h. clear Ech El. clearbody len. unfold exts, ext_len, server_name in *.
  destruct (Nat.eqb_spec (length name) 0) as [E0|E0].
  - rewrite E0. cbn [Z.of_nat Z.eqb app]. change (Z.to_nat _) with (length extensions).
    rewrite <- (app_nil_r (replicate _ 0)), copy_after by (done || by rewrite length_replicate). by rewrite app_nil_r.
  - rewrite (proj2 (Z.eqb_neq _ _)) by lia. change (length extensions) with 22%nat in *.
    replace (Z.to_nat (Z.of_nat 22 + (9 + Z.of_nat (length name)))) with (9 + (length name + 22))%nat by lia.
    rewrite (replicate_add 9), (replicate_add (length name)), server_name_part by (done || lia).
    rewrite <- (app_nil_r (replicate 22 0)), copy_after; [by rewrite app_nil_r, <- app_assoc| |by rewrite length_replicate].
    unfold extension. rewrite !length_app, length_be_bytes, length_vec, length_vec. cbn [length]. rewrite length_vec. lia.
Qed.

Lemma empty_certificate_bytes : <[3%nat := 3]> (<[0%nat := HANDSHAKE_CERTIFICATE]> (replicate (Z.to_nat 7) 0)) = empty_certificate.
Proof. done. Qed.

Lemma finished_bytes v : length v = 12%nat -> fill_handshake_record_hdr (replicate 4 0) HANDSHAKE_FINISHED 16 ++ v = finished v.
Proof. intros L. unfold finished, msg, vec. rewrite L. done. Qed.
End TlsMessages.
