(* ===== verification/TlsKeyExchange.v ===== *)
(** * The key exchanges by the standards

    What the client's RSA and P-256 key exchanges give, in terms of the numbers and
    the curve of the standards, and the conditions under which the arithmetic of
    the code is exact. *)

From S2P Require Import Prelude Pstm PstmFacts PstmExpFacts TlsRsa Sp256 Sp256Facts Sp256Num Sp256Props.

Module TlsKeyExchange.
Import Pstm PstmFacts PstmExpFacts.

(** ** RSA (RFC 8017, 7.2.1) *)

(** The block that is encrypted; a zero of the random bytes is replaced. *)
Definition rsa_block (filler premaster : bytes) : bytes := [0; 2] ++ (TlsRsa.non_zero <$> filler) ++ [0] ++ premaster.

(** The ciphertext as a number of [sz] bytes. *)
Definition rsa_ciphertext (n e : Z) (sz : nat) (filler premaster : bytes) : bytes := be_bytes sz (be_val (rsa_block filler premaster) ^ e mod n).

(** The key [rk] has the modulus [n] of [sz] bytes and the exponent [e], and the
    arithmetic of the code is exact for the block. *)
Record rsa_usable (rk : TlsRsa.psRsaKey_t) (n e : Z) (sz : nat) (blk : bytes) : Prop := {
  u_wf : wf (TlsRsa.N rk) /\ wf (TlsRsa.e rk) /\ sign (TlsRsa.N rk) = PSTM_ZPOS;
  u_values : mag (TlsRsa.N rk) = n /\ mag (TlsRsa.e rk) = e;
  u_odd : n mod 2 = 1;
  u_size : TlsRsa.size rk = sz /\ sz = nbytes n;
  u_digits : Z.of_nat (used (TlsRsa.N rk)) < 1999 /\ (used (TlsRsa.N rk) + 1 <= alloc (TlsRsa.N rk))%nat;
  u_base : base_ok (used (TlsRsa.N rk)) (be_val blk) n = true }.

(** Only one size is ever asked of the source of random bytes. *)
Lemma encrypt_random f g key inp out outlen :
  f (Z.to_nat (Z.of_nat (TlsRsa.size key) - 3 - Z.of_nat (length inp))) = g (Z.to_nat (Z.of_nat (TlsRsa.size key) - 3 - Z.of_nat (length inp))) ->
  TlsRsa.psRsaEncryptPub f key inp out outlen = TlsRsa.psRsaEncryptPub g key inp out outlen.
Proof. intros E. unfold TlsRsa.psRsaEncryptPub, TlsRsa.pkcs1Pad. by rewrite E. Qed.

Lemma rsa_exchange rk n e sz filler premaster out outlen : rsa_usable rk n e sz (rsa_block filler premaster) ->
  length premaster = 48%nat -> bytes_ok premaster -> bytes_ok filler -> bytes_ok out -> (59 <= sz <= outlen)%nat -> (outlen <= length out)%nat ->
  length filler = (sz - 51)%nat ->
  TlsRsa.psRsaEncryptPub (fun _ => filler) rk premaster out outlen = Okay (rsa_ciphertext n e sz filler premaster ++ drop sz out, sz).
Proof.
  intros [(W1 & W2 & S) (Vn & Ve) Ho (Es & En) (D1 & D2) Hb] Lp Bp Bf Bo Hsz Hout Lf.
  set (random := fun k => if (k =? length filler)%nat then filler else replicate k 0).
  assert (forall k, length (random k) = k /\ bytes_ok (random k)) as Hr.
  { intros k. unfold random. destruct (Nat.eqb_spec k (length filler)) as [->|]; [done|]. rewrite length_replicate. split; [done|]. by apply Forall_replicate. }
  rewrite (encrypt_random _ random).
  2: { unfold random. rewrite Es, Lp. replace (Z.to_nat (Z.of_nat sz - 3 - Z.of_nat 48)) with (length filler) by lia. by rewrite Nat.eqb_refl. }
  assert (TlsRsa.block random premaster (TlsRsa.size rk) = rsa_block filler premaster) as Eb.
  { unfold TlsRsa.block, rsa_block, random. rewrite Es, Lp. replace (sz - 3 - 48)%nat with (length filler) by lia. by rewrite Nat.eqb_refl. }
  rewrite (TlsRsa.encrypt_spec random Hr rk premaster out outlen W1 W2 S); rewrite ?Eb, ?Vn, ?Ve, ?Es; [done|done|done|lia|lia|done|done|lia|lia|done].
Qed.

(** ** P-256 (RFC 8422, 5.10): multiples of the base point and of the peer's point *)

Record p256_usable (k : Z) (point : bytes) (pub secret : Z * Z) : Prop := {
  v_pub : Sp256Props.multiple k Sp256Num.base_x Sp256Num.base_y (Some pub);
  v_secret : Sp256Props.multiple k (be_val (take 32 point)) (be_val (take 32 (drop 32 point))) (Some secret);
  v_pub_fits : Sp256Props.ladder_fits k Sp256Num.base_x Sp256Num.base_y = true;
  v_secret_fits : Sp256Props.ladder_fits k (be_val (take 32 point)) (be_val (take 32 (drop 32 point))) = true }.

Definition affine (q : Z * Z) : bytes := be_bytes 32 (q.1 mod Sp256Facts.p) ++ be_bytes 32 (q.2 mod Sp256Facts.p).

Lemma coordinate_range b : bytes_ok b -> 0 <= be_val (take 32 b) < Sp256Facts.R.
Proof.
  intros Hb. pose proof (be_val_range (take 32 b) ltac:(auto with bytes)) as B. rewrite length_take in B.
  assert (256 ^ Z.of_nat (32 `min` length b) <= 256 ^ 32) by (apply Z.pow_le_mono_r; lia). change (256 ^ 32) with Sp256Facts.R in *. lia.
Qed.

Lemma p256_exchange random point pub secret : bytes_ok point -> p256_usable (Sp256Num.private_key random) point pub secret ->
  Sp256Num.ecdh random point = (affine pub, be_bytes 32 (secret.1 mod Sp256Facts.p)).
Proof.
  intros Bp [M1 M2 F1 F2]. destruct pub as [px py], secret as [sx sy]. unfold Sp256Num.ecdh, affine.
  assert (bytes_ok Sp256.p256_base_bin) as Bb by (apply (bool_decide_eq_true_1 _); vm_compute; reflexivity).
  pose proof (coordinate_range _ Bb : 0 <= Sp256Num.base_x < Sp256Facts.R) as Rx.
  pose proof (coordinate_range _ (bytes_ok_drop _ _ Bb) : 0 <= Sp256Num.base_y < Sp256Facts.R) as Ry.
  rewrite (Sp256Props.zmulmod_spec _ _ _ _ _ Rx Ry F1 M1).
  by rewrite (Sp256Props.zmulmod_spec _ _ _ _ _ (coordinate_range _ Bp) (coordinate_range _ (bytes_ok_drop _ _ Bp)) F2 M2).
Qed.

End TlsKeyExchange.
