(* ===== verification/TlsHandshakeFacts.v ===== *)
(** * The steps of the handshake

    What each step of the client does when the server sends a well-formed
    message: the record is read however the network cuts it, the message is added
    to the transcript, and exactly the named parts of the state change. *)

From S2P Require Import Prelude HashStream HashMd5Sha HashSpec HashProps TlsAes TlsFe TlsAesGcm Pstm TlsRsa TlsHmac TlsRecord TlsRecordProps Sp256 Sp256Facts Sp256Num TlsDer TlsHandshake TlsReading TlsMessages TlsKeyExchange.

Module TlsHandshakeFacts.
Import TlsAes TlsAesGcm TlsRecord TlsRecordProps TlsHandshake TlsReading TlsMessages.
Import HashStream(copy_into).
Import Pstm(ret, Okay, Err, Crash).

(** ** The state between two messages *)

(** What the steps are about: all but the input, the hash and the buffer sizes. *)
Record view := View {
  v_crypt : tls_state; v_mem : bytes; v_gcm : bool; v_fl : flags; v_params : suite; v_hs : option tls_handshake_data;
  v_out : list bytes; v_rand : list bytes }.

Definition view_of (s : tls) : view :=
  View (crypt (con s)) (client_write_MAC_key (con s)) (aesgcm_flag (con s)) (fl s) (params s) (hs s) (output (con s)) (urandom s).

Definition sent (rec : bytes) (v : view) : view :=
  View (v_crypt v) (v_mem v) (v_gcm v) (v_fl v) (v_params v) (v_hs v) (v_out v ++ [rec]) (v_rand v).
Definition drawn (rs : list bytes) (v : view) : view :=
  View (v_crypt v) (v_mem v) (v_gcm v) (v_fl v) (v_params v) (v_hs v) (v_out v) rs.
Definition with_hs (d : tls_handshake_data) (v : view) : view :=
  View (v_crypt v) (v_mem v) (v_gcm v) (v_fl v) (v_params v) (Some d) (v_out v) (v_rand v).
Definition with_fl (f : flags) (v : view) : view :=
  View (v_crypt v) (v_mem v) (v_gcm v) f (v_params v) (v_hs v) (v_out v) (v_rand v).
Definition with_suite (p : suite) (gcm : bool) (v : view) : view :=
  View (v_crypt v) (v_mem v) gcm (v_fl v) p (v_hs v) (v_out v) (v_rand v).
Definition with_keys (k : tls_state) (mem : bytes) (v : view) : view :=
  View k mem (v_gcm v) (v_fl v) (v_params v) (v_hs v) (v_out v) (v_rand v).

(** The connection reads and writes plain records and has [rest] still to read. *)
Record idle (s : tls) (tail : list read_result) (rest : bytes) (v : view) : Prop := {
  i_conn : conn_ok (con s);
  i_stream : stream (con s) tail rest;
  i_min : min_encrypted_len_on_read (con s) = 0%nat;
  i_enc : encrypt_on_write (con s) = false;
  i_view : view_of s = v }.

(** The handshake messages so far are [m]. *)
Definition transcript (ni : list Z -> bytes -> list Z) (s : tls) (m : bytes) : Prop :=
  exists ctx, hsd (con s) = Some ctx /\ HashProps.tracks256 ni ctx m.

Definition ready (ni : list Z -> bytes -> list Z) (s : tls) (tail : list read_result) (rest m : bytes) (v : view) : Prop :=
  idle s tail rest v /\ transcript ni s m.

(** Nothing but the connection's bookkeeping differs. *)
Lemma idle_con s tail rest v c : idle s tail rest v -> conn_ok c -> stream c tail rest ->
  min_encrypted_len_on_read c = 0%nat -> encrypt_on_write c = false ->
  idle (set_con c s) tail rest (view_of (set_con c s)).
Proof. intros [H1 H2 H3 H4 H5] O S' M' E'. by split. Qed.

Lemma view_hs s tail rest v : idle s tail rest v -> hs s = v_hs v.
Proof. intros [_ _ _ _ <-]. done. Qed.

(** ** Random bytes and buffers *)

Lemma random_step s tail rest v r rs n : idle s tail rest v -> v_rand v = r :: rs -> length r = n ->
  exists s', tls_get_random n s = (Ok r, s') /\ idle s' tail rest (drawn rs v) /\ con s' = con s.
Proof.
  intros [H1 H2 H3 H4 Hv] Hr Hn. unfold tls_get_random. assert (urandom s = r :: rs) as -> by (by rewrite <- Hr, <- Hv).
  rewrite (proj2 (Nat.eqb_eq _ _) Hn). eexists. split; [done|]. split; [|done]. split; try done. by rewrite <- Hv.
Qed.

Lemma outbuf_step s tail rest v n : idle s tail rest v -> n <= 2 ^ 14 ->
  exists s', tls_get_outbuf n s = (Ok tt, s') /\ idle s' tail rest v /\ con s' = con s.
Proof.
  intros [H1 H2 H3 H4 Hv] Hn. unfold tls_get_outbuf. rewrite (proj2 (Z.ltb_ge TLS_MAX_OUTBUF n)) by done. unfold modify.
  destruct (_ <? _); eexists; (split; [done|]); (split; [|done]); split; done.
Qed.

Lemma zeroed_step s tail rest v n : idle s tail rest v -> n <= 2 ^ 14 ->
  exists s', tls_get_zeroed_outbuf n s = (Ok (replicate (Z.to_nat n) 0), s') /\ idle s' tail rest v /\ con s' = con s.
Proof.
  intros Hi Hn. destruct (outbuf_step _ _ _ _ n Hi Hn) as (s' & E & Hi' & Ec). exists s'. split; [|done].
  unfold tls_get_zeroed_outbuf. by rewrite (bind_ok _ _ _ _ _ E).
Qed.

Lemma bind_assoc' {A B C} (m : M tls A) (m2 : M tls B) (m3 : M tls C) s : (m ;; m2 ;; m3) s = ((m ;; m2) ;; m3) s.
Proof. symmetry. exact (bind_assoc m (fun _ => m2) (fun _ => m3) s). Qed.

Lemma get_hs_step s d : hs s = Some d -> get_hs s = (Ok d, s).
Proof. intros E. unfold get_hs. by rewrite E. Qed.

(** ** Reading a handshake message *)

Lemma pending_data chunks tail : (length (concat chunks) <= pending ((Data <$> chunks) ++ tail))%nat.
Proof.
  induction chunks as [|b chunks IH]; [cbn; lia|]. cbn [concat]. rewrite length_app. unfold pending in *. cbn in *. lia.
Qed.

Lemma stream_fuel c tail s : stream c tail s -> (length s < read_fuel c)%nat.
Proof.
  intros (chunks & _ & Ei & ->). rewrite read_fuel_pending, Ei, length_app, length_take. pose proof (pending_data chunks tail). lia.
Qed.

(** Reading [n] bytes in the middle of the buffer. *)
Lemma read_at s pre x post i n : inbuf (con s) = pre ++ x ++ post -> i = length pre -> n = length x -> inbuf_bytes i n s = (Ok x, s).
Proof.
  intros E -> ->. unfold inbuf_bytes. rewrite E. destruct (Nat.leb_spec (length pre + length x) (length (pre ++ x ++ post))) as [_|H].
  - by rewrite drop_app_length, take_app_length.
  - rewrite !length_app in H. lia.
Qed.

Lemma read_byte s pre x post i : inbuf (con s) = pre ++ x :: post -> i = length pre -> inbuf_byte i s = (Ok x, s).
Proof. intros E Hi. unfold inbuf_byte. by rewrite (bind_ok _ _ _ _ _ (read_at s pre [x] post i 1 E Hi eq_refl)). Qed.

Lemma hdr_cons type n : exists h, hdr type n = type :: h /\ length h = 4%nat.
Proof. exists ([3; 3] ++ be_bytes 2 (Z.of_nat n)). split; [done|]. by rewrite length_app, length_be_bytes. Qed.

Section steps.
Context (ni : list Z -> bytes -> list Z) (Hni : HashProps.same_block ni) (cpuid_ebx : Z).
Context (stack : TlsHmac.hmac_precomputed_t) (Hstack : TlsHmac.sized stack) (stack_point : Sp256.sp_point) `{SP : Sp256.SpArith} (HSP : Sp256Facts.SpLaws SP).

(** A record of the handshake that opens to [data]. *)
Lemma handshake_record c tail body data rest ctx : conn_ok c -> (5 + length body <= MAX_INBUF)%nat ->
  stream c tail (hdr 22 (length body) ++ body ++ rest) -> opens c body data -> hsd c = Some ctx ->
  exists c', tls_xread_record ni (S (read_fuel c)) c = Ok (Z.of_nat (length data), c') /\
    (exists more, inbuf c' = hdr 22 (length body) ++ data ++ more) /\ conn_ok c' /\ stream c' tail rest /\
    crypt c' = crypt c /\ aesgcm_flag c' = aesgcm_flag c /\ min_encrypted_len_on_read c' = min_encrypted_len_on_read c /\ untouched c c' /\
    hsd c' = Some (HashMd5Sha.md5_hash ni ctx data).
Proof using.
  intros Ho Hm Hs Hop Hh. pose proof (stream_fuel _ _ _ Hs) as Hf.
  destruct (find_record ni (read_fuel c) c tail (hdr 22 (length body)) body data rest Ho (hdr_header _ _ Hm) Hs Hop ltac:(lia))
    as (c' & -> & (more & Ein) & Ho' & Hs' & (K1 & K2 & K3 & K4 & K5)).
  destruct (hdr_cons 22 (length body)) as (h & Eh & Lh). unfold on_record. rewrite Ein, Eh. cbn [byte_at app]. 
  change (byte_at (22 :: h ++ data ++ more) 0) with 22. change (22 =? RECORD_TYPE_ALERT) with false. change (22 =? RECORD_TYPE_HANDSHAKE) with true. cbn [andb].
  cbv iota. unfold hash_handshake. rewrite K4, Hh. cbn [mbind outcome_bind]. rewrite Nat2Z.id.
  change (22 :: h ++ data ++ more) with ((22 :: h) ++ data ++ more). rewrite drop_app_length' by (cbn [length]; by rewrite Lh). rewrite take_app_length.
  eexists. split; [done|]. split; [exists more; cbn [inbuf set_hash]; by rewrite Ein, Eh|]. split; [done|]. split; [done|]. repeat (split; [done|]). done.
Qed.

Lemma recv s tail rest m v b min_len : ready ni s tail (hdr 22 (length b) ++ b ++ rest) m v ->
  (5 + length b <= MAX_INBUF)%nat -> min_len <= Z.of_nat (length b) ->
  exists s', tls_xread_handshake_block ni min_len s = (Ok (Z.of_nat (length b)), s') /\ ready ni s' tail rest (m ++ b) v /\
    exists more, inbuf (con s') = hdr 22 (length b) ++ b ++ more.
Proof using.
  intros [[H1 H2 H3 H4 Hv] (ctx & Hc & Ht)] Hl Hmin.
  destruct (handshake_record (con s) tail b b rest ctx H1 Hl H2 (opens_plain _ b H3) Hc)
    as (c' & E & (more & Ein) & Ho & Hs & K1 & K2 & K3 & (U1 & U2 & U3 & U4) & Hctx).
  exists (set_con c' s). assert (xread_record ni s = (Ok (Z.of_nat (length b)), set_con c' s)) as Ex by (unfold xread_record, on_conn; by rewrite E).
  unfold tls_xread_handshake_block. rewrite (bind_ok _ _ _ _ _ Ex). destruct (Z.ltb_spec (Z.of_nat (length b)) min_len); [lia|].
  destruct (hdr_cons 22 (length b)) as (h & Eh & _).
  rewrite (bind_ok _ _ _ _ _ (read_byte (set_con c' s) [] 22 (h ++ b ++ more) 0 ltac:(cbn [con set_con]; by rewrite Ein, Eh) eq_refl)).
  split; [done|]. split; [|by exists more].
  split; [|eexists; split; [exact Hctx|by apply HashProps.md5_hash_tracks256]]. split; cbn [con set_con]; [done|done|by rewrite K3|by rewrite U1|].
  rewrite <- Hv. unfold view_of. cbn [con set_con fl params hs urandom]. by rewrite K1, K2, U2, U4.
Qed.

(** ** Writing a handshake message *)

Lemma send s tail rest m v b junk : ready ni s tail rest m v -> Z.of_nat (length b) < 2 ^ 16 ->
  exists s', send_and_hash ni cpuid_ebx stack (b ++ junk) (length b) s = (Ok tt, s') /\
    ready ni s' tail rest (m ++ b) (sent (hdr 22 (length b) ++ b) v) /\ inbuf (con s') = inbuf (con s).
Proof using.
  intros [[H1 H2 H3 H4 Hv] (ctx & Hc & Ht)] Hl. unfold send_and_hash.
  rewrite (bind_ok _ _ _ false s) by (unfold gets; by rewrite H4).
  unfold update_conn, on_conn, xwrite_and_update_handshake_hash. rewrite H4. cbn [negb]. unfold hash_handshake, xwrite_handshake_record.
  rewrite take_app_length, record_hdr_spec by done. cbn [hsd xwrite set_io]. rewrite Hc. cbn [mbind outcome_bind].
  eexists. split; [done|]. split; [|done]. split.
  - split; try done. cbn [con set_con]. rewrite <- Hv. done.
  - eexists. split; [done|]. by apply HashProps.md5_hash_tracks256.
Qed.

Lemma send_exact s tail rest m v b : ready ni s tail rest m v -> Z.of_nat (length b) < 2 ^ 16 ->
  exists s', send_and_hash ni cpuid_ebx stack b (length b) s = (Ok tt, s') /\
    ready ni s' tail rest (m ++ b) (sent (hdr 22 (length b) ++ b) v) /\ inbuf (con s') = inbuf (con s).
Proof using. intros Hr Hl. pose proof (send _ _ _ _ _ b [] Hr Hl) as P. by rewrite app_nil_r in P. Qed.
(** ** The client's hello *)

Definition hello_hs (rand : bytes) : tls_handshake_data :=
  {| client_and_server_rand32 := rand ++ replicate 32 0; master_secret := replicate 48 0; server_rsa_pub_key := zero_key; ecc_pub_key32 := replicate 64 0 |}.

Lemma client_hello_step s tail rest v sni r rs : idle s tail rest v -> v_rand v = r :: rs -> length r = 32%nat ->
  let ch := client_hello r (sni_bytes sni) in
  exists s', send_client_hello_and_alloc_hsd ni cpuid_ebx stack sni s = (Ok tt, s') /\
    ready ni s' tail rest ch (sent (hdr 22 (length ch) ++ ch) (with_hs (hello_hs r) (drawn rs v))).
Proof using.
  intros Hi Hr Lr ch. unfold send_client_hello_and_alloc_hsd. set (name := sni_bytes sni) in *.
  assert (length name <= 122)%nat as Ln by (unfold name, sni_bytes; destruct sni; [rewrite length_take|cbn]; lia).
  destruct (client_hello_bytes r name Lr Ln) as (Eb & El & Hlen). cbv zeta in Eb, El, Hlen.
  set (ext_len := Z.of_nat (length extensions) + _) in *. set (len := Z.of_nat sizeof_client_hello + 2 + ext_len) in *.
  destruct (zeroed_step _ _ _ _ len Hi ltac:(lia)) as (s1 & E1 & Hi1 & _). rewrite (bind_ok _ _ _ _ _ E1). clear E1.
  destruct (random_step _ _ _ _ r rs 32 Hi1 Hr Lr) as (s2 & E2 & Hi2 & _). rewrite (bind_ok _ _ _ _ _ E2). clear E2.
  rewrite Eb, El. fold ch.
  assert (copy_into (client_and_server_rand32 zero_hs) 0 r = r ++ replicate 32 0) as ->.
  { change (client_and_server_rand32 zero_hs) with (replicate 32 0 ++ replicate 32 0). apply copy_start. by rewrite Lr. }
  rewrite (bind_ok (put_hs _) _ s2 tt (set_hs (Some _) s2) eq_refl). set (s3 := set_hs _ s2).
  assert (idle s3 tail rest (with_hs (hello_hs r) (drawn rs v))) as Hi3.
  { destruct Hi2 as [A1 A2 A3 A4 Av]. split; try done. by rewrite <- Av. }
  clearbody s3. clear s2 Hi2 s1 Hi1.
  pose proof (HashProps.sha256_begin_tracks ni (shaNI (con s3)) cpuid_ebx zero_ctx eq_refl) as T.
  destruct (HashMd5Sha.sha256_begin (shaNI (con s3)) cpuid_ebx zero_ctx) as [ctx sh] eqn:Eh. cbn [fst] in T.
  rewrite (bind_ok _ _ s3 tt (set_con (set_hash (Some ctx) sh (con s3)) s3)) by (unfold update_conn, on_conn; by rewrite Eh).
  set (s4 := set_con _ s3). assert (ready ni s4 tail rest [] (with_hs (hello_hs r) (drawn rs v))) as Hr4.
  { split; [|by exists ctx]. destruct Hi3 as [A1 A2 A3 A4 Av]. by split. }
  destruct (send_exact s4 tail rest [] _ ch Hr4) as (s5 & -> & Hr5 & _); [fold ch in El; lia|]. by exists s5.
Qed.

(** ** The server's hello *)

Record server_hello := { srandom : bytes; session : bytes; suite0 : Z; suite1 : Z; trailer : bytes }.

Definition hello_body (h : server_hello) : bytes := [3; 3] ++ srandom h ++ vec 1 (session h) ++ [suite0 h; suite1 h] ++ trailer h.

Definition hello_ok (h : server_hello) : Prop :=
  length (srandom h) = 32%nat /\ (length (session h) = 0%nat \/ length (session h) = 32%nat) /\ (1 <= length (trailer h))%nat /\
  (length (hello_body h) <= 255)%nat.

Definition hello_fl (ec : bool) (f : flags) : flags :=
  {| NEED_EC_KEY := NEED_EC_KEY f || ec; GOT_CERT_RSA_KEY_ALG := GOT_CERT_RSA_KEY_ALG f;
     GOT_EC_KEY := GOT_EC_KEY f; GOT_EC_CURVE_X25519 := GOT_EC_CURVE_X25519 f |}.

Definition with_srandom (h : server_hello) (d : tls_handshake_data) : tls_handshake_data :=
  {| client_and_server_rand32 := take 32 (client_and_server_rand32 d) ++ srandom h; master_secret := master_secret d;
     server_rsa_pub_key := server_rsa_pub_key d; ecc_pub_key32 := ecc_pub_key32 d |}.

(** The state after the hello. *)
Definition after_hello (h : server_hello) (d : tls_handshake_data) (v : view) : view :=
  let '(p, ec, gcm) := suite_params (suite0 h) (suite1 h) (IV_size (v_params v)) in
  with_hs (with_srandom h d) (with_fl (hello_fl ec (v_fl v)) (with_suite p (v_gcm v || gcm) v)).

Lemma server_hello_step s tail rest m v h d : let b := msg 2 (hello_body h) in
  ready ni s tail (hdr 22 (length b) ++ b ++ rest) m v -> hello_ok h -> v_hs v = Some d -> length (client_and_server_rand32 d) = 64%nat ->
  exists s', get_server_hello ni s = (Ok tt, s') /\ ready ni s' tail rest (m ++ b) (after_hello h d v).
Proof using.
  intros b Hr (Lr & Lsid & Lt & Lb) Hd L64. unfold get_server_hello. pose proof max_inbuf_value as Hmax.
  assert (Z.of_nat (length b) = 4 + Z.of_nat (length (hello_body h))) as Lbz by (unfold b, msg; cbn [length]; rewrite length_vec; lia).
  assert (length (hello_body h) = 37 + length (session h) + length (trailer h))%nat as Lhb.
  { unfold hello_body. rewrite !length_app, length_vec, Lr. cbn [length]. lia. }
  destruct (recv s tail rest m v b (74 - 32) Hr ltac:(lia) ltac:(lia)) as (s1 & E1 & Hr1 & more & Ein). rewrite (bind_ok _ _ _ _ _ E1). clear E1 Hr s Hmax.
  assert (length (hdr 22 (length b)) = 5%nat) as L5 by (unfold hdr; by rewrite length_app, length_be_bytes).
  assert (b = [2; 0; 0; Z.of_nat (length (hello_body h)); 3; 3] ++ srandom h ++ [Z.of_nat (length (session h))] ++ session h ++ [suite0 h; suite1 h] ++ trailer h) as Eb.
  { unfold b, msg, vec. rewrite (be_bytes_small 2) by lia. unfold hello_body, vec. rewrite (be_bytes_small 0) by lia. cbn [replicate app]. done. }
  rewrite Eb, <- !app_assoc in Ein. rewrite <- Eb in Ein. set (h5 := hdr 22 (length b)) in *.
  rewrite (bind_ok _ _ _ _ _ (read_at s1 h5 _ _ 5 6 Ein ltac:(by rewrite L5) eq_refl)).
  cbn [byte_at lookup_total list_lookup_total]. cbn [Z.eqb Pos.eqb negb orb HANDSHAKE_SERVER_HELLO TLS_MAJ TLS_MIN].
  assert (inbuf (con s1) = (h5 ++ [2; 0; 0; Z.of_nat (length (hello_body h)); 3; 3] ++ srandom h) ++
    Z.of_nat (length (session h)) :: session h ++ [suite0 h; suite1 h] ++ trailer h ++ more) as Ein1 by (rewrite Ein, <- !app_assoc; done).
  rewrite (bind_ok _ _ _ _ _ (read_byte s1 _ _ _ 43 Ein1 ltac:(by rewrite !length_app, L5, Lr))).
  assert ((Z.of_nat (length (session h)) =? 32) || (Z.of_nat (length (session h)) =? 0) = true) as Hsid by (destruct Lsid as [->| ->]; done).
  rewrite <- negb_orb, Hsid. cbn [negb].
  assert ((if Z.of_nat (length (session h)) =? 32 then Z.of_nat (length (hello_body h)) else Z.of_nat (length (hello_body h)) + 32) <? 70 = false) as ->.
  { apply Z.ltb_ge. destruct (Z.eqb_spec (Z.of_nat (length (session h))) 32); lia. }
  assert (inbuf (con s1) = (h5 ++ [2; 0; 0; Z.of_nat (length (hello_body h)); 3; 3]) ++ srandom h ++
    Z.of_nat (length (session h)) :: session h ++ [suite0 h; suite1 h] ++ trailer h ++ more) as Ein2 by (rewrite Ein, <- !app_assoc; done).
  rewrite (bind_ok _ _ _ _ _ (read_at s1 _ _ _ 11 32 Ein2 ltac:(by rewrite length_app, L5) ltac:(by rewrite Lr))). clear Ein1 Ein2.
  destruct Hr1 as [Hi1 Htr]. rewrite (bind_ok _ _ _ _ _ (get_hs_step s1 d ltac:(by rewrite (view_hs _ _ _ _ Hi1)))).
  rewrite (bind_ok (put_hs _) _ s1 tt (set_hs (Some _) s1) eq_refl). set (s2 := set_hs _ s1).
  rewrite (bind_ok _ _ _ _ _ (read_at s2 (h5 ++ [2; 0; 0; Z.of_nat (length (hello_body h)); 3; 3] ++ srandom h ++ [Z.of_nat (length (session h))] ++ session h)
    [suite0 h; suite1 h] (trailer h ++ more) (if Z.of_nat (length (session h)) =? 32 then 76%nat else (76 - 32)%nat) 2
    ltac:(cbn [s2 con set_hs]; rewrite Ein, <- !app_assoc; done)
    ltac:(rewrite !length_app, L5, Lr; destruct Lsid as [-> | ->]; done) eq_refl)).
  unfold modify. eexists. split; [done|]. change (byte_at [suite0 h; suite1 h] 0) with (suite0 h). change (byte_at [suite0 h; suite1 h] 1) with (suite1 h).
  unfold after_hello. destruct Hi1 as [A1 A2 A3 A4 Av]. rewrite <- Av. cbn [v_params view_of].
  change (params s2) with (params s1). destruct (suite_params (suite0 h) (suite1 h) (IV_size (params s1))) as [[p ec] gcm].
  split; [|exact Htr]. split; try done. unfold view_of, with_hs, with_fl, with_suite, with_srandom. cbn. f_equal. do 2 f_equal.
  unfold copy_into. rewrite drop_ge, app_nil_r by (rewrite Lr; lia). done.
Qed.
(** ** The server's certificate *)

Definition certificate_msg (cert chain : bytes) : bytes := msg 11 (vec 3 (vec 3 cert ++ chain)).

(** The parser finds [rsa] and a key with the property [K] in the certificate,
    wherever it is. *)
Definition parses (cert : bytes) (rsa : bool) (K : TlsRsa.psRsaKey_t -> Prop) : Prop :=
  forall pre post, exists key, TlsDer.find_key_in_der_cert (pre ++ cert ++ post) (length pre) (length cert) false zero_key = Ok (rsa, key) /\ K key.

Definition with_key (key : TlsRsa.psRsaKey_t) (d : tls_handshake_data) : tls_handshake_data :=
  {| client_and_server_rand32 := client_and_server_rand32 d; master_secret := master_secret d; server_rsa_pub_key := key; ecc_pub_key32 := ecc_pub_key32 d |}.
Definition rsa_fl (rsa : bool) (f : flags) : flags :=
  {| NEED_EC_KEY := NEED_EC_KEY f; GOT_CERT_RSA_KEY_ALG := rsa; GOT_EC_KEY := GOT_EC_KEY f; GOT_EC_CURVE_X25519 := GOT_EC_CURVE_X25519 f |}.

Lemma get24be_bytes n l : 0 <= n < 2 ^ 24 -> get24be (be_bytes 3 n ++ l) = n.
Proof using.
  intros Hn. unfold get24be, be_bytes. cbn [le_bytes]. cbv [reverse rev_append]. cbn [app byte_at lookup_total list_lookup_total].
  pose proof (Z.div_mod n 256 ltac:(lia)). pose proof (Z.div_mod (n / 256) 256 ltac:(lia)).
  rewrite (Z.mod_small (n / 256 / 256)) by (split; [apply Z.div_pos; [apply Z.div_pos|]; lia|apply Z.div_lt_upper_bound; [lia|]; apply Z.div_lt_upper_bound; lia]).
  lia.
Qed.

Lemma certificate_step s tail rest m v cert chain rsa K d : let b := certificate_msg cert chain in
  ready ni s tail (hdr 22 (length b) ++ b ++ rest) m v -> (5 + length b <= MAX_INBUF)%nat -> cert <> [] -> parses cert rsa K ->
  v_hs v = Some d -> server_rsa_pub_key d = zero_key -> GOT_CERT_RSA_KEY_ALG (v_fl v) = false ->
  exists s' key, get_server_cert ni s = (Ok tt, s') /\ K key /\ ready ni s' tail rest (m ++ b) (with_hs (with_key key d) (with_fl (rsa_fl rsa (v_fl v)) v)).
Proof using.
  intros b Hr Hl Hne Hp Hd Hz Hg. unfold get_server_cert. assert (length cert <> 0%nat) as Hc0 by (by destruct cert). pose proof max_inbuf_value as Hmax.
  assert (length b = 10 + length cert + length chain)%nat as Lb.
  { unfold b, certificate_msg, msg. cbn [length]. rewrite !length_vec, length_app, length_vec. lia. }
  destruct (recv s tail rest m v b 10 Hr Hl ltac:(lia)) as (s1 & E1 & Hr1 & more & Ein). rewrite (bind_ok _ _ _ _ _ E1). clear E1 Hr s.
  assert (length (hdr 22 (length b)) = 5%nat) as L5 by (unfold hdr; by rewrite length_app, length_be_bytes). set (h5 := hdr 22 (length b)) in *.
  set (n1 := Z.of_nat (6 + length cert + length chain)). set (n2 := Z.of_nat (3 + length cert + length chain)). set (n3 := Z.of_nat (length cert)).
  set (c10 := 11 :: be_bytes 3 n1 ++ be_bytes 3 n2 ++ be_bytes 3 n3).
  assert (b = c10 ++ cert ++ chain) as Eb.
  { unfold b, certificate_msg, msg, c10, vec at 1. rewrite length_vec, length_app, length_vec. unfold vec at 1. rewrite length_app, length_vec. unfold vec.
    replace (Z.of_nat (3 + (3 + length cert + length chain))) with n1 by lia. fold n2 n3. cbn [app]. by rewrite <- !app_assoc. }
  assert (length c10 = 10%nat) as L10 by (unfold c10; cbn [length]; by rewrite !length_app, !length_be_bytes).
  rewrite Eb, <- !app_assoc in Ein.
  rewrite (bind_ok _ _ _ _ _ (read_at s1 h5 c10 _ RECHDR_LEN 10 Ein ltac:(by rewrite L5) ltac:(by rewrite L10))).
  assert (get24be (drop 1 c10) = n1) as -> by (unfold c10; cbn [drop]; apply get24be_bytes; lia).
  assert (get24be (drop 4 c10) = n2) as ->.
  { unfold c10. cbn [drop]. rewrite drop_app_length' by (by rewrite length_be_bytes). apply get24be_bytes. lia. }
  assert (get24be (drop 7 c10) = n3) as ->.
  { unfold c10. cbn [drop]. rewrite app_assoc, drop_app_length' by (by rewrite length_app, !length_be_bytes). rewrite <- (app_nil_r (be_bytes 3 n3)). apply get24be_bytes. lia. }
  change (byte_at c10 0) with 11. cbn [Z.eqb Pos.eqb negb HANDSHAKE_CERTIFICATE].
  destruct (Z.ltb_spec (Z.of_nat (length b) - 4) n1); [lia|]. destruct (Z.ltb_spec (n1 - 3) n2); [lia|]. destruct (Z.ltb_spec (n2 - 3) n3); [lia|].
  destruct (Z.eqb_spec n3 0); [lia|]. clear Hmax.
  destruct Hr1 as [Hi1 Htr]. rewrite (bind_ok _ _ _ _ _ (get_hs_step s1 d ltac:(by rewrite (view_hs _ _ _ _ Hi1)))).
  rewrite (bind_ok (gets fl) _ s1 (fl s1) s1 eq_refl). rewrite (bind_ok (gets _) _ s1 (inbuf (con s1)) s1 eq_refl).
  assert (GOT_CERT_RSA_KEY_ALG (fl s1) = false) as Hg1 by (destruct Hi1 as [_ _ _ _ <-]; exact Hg). rewrite Hg1, Hz, Ein.
  unfold n3. rewrite Nat2Z.id. destruct (Hp (h5 ++ c10) (chain ++ more)) as (key & Ek & HK). rewrite <- app_assoc, length_app, L5, L10 in Ek.
  change (RECHDR_LEN + 10)%nat with (5 + 10)%nat. rewrite (bind_ok (lift _) _ s1 (rsa, key) s1) by (unfold lift; by rewrite Ek). cbn beta iota.
  rewrite (bind_ok (modify _) _ s1 tt _ eq_refl). eexists _, key. split; [done|]. split; [done|]. split; [|exact Htr].
  destruct Hi1 as [A1 A2 A3 A4 Av]. split; try done. by rewrite <- Av.
Qed.
(** ** The rest of the server's flight *)

Inductive server_key :=
| NoServerKey
| X25519Key (point sig : bytes)
| P256Key (point sig : bytes).

Definition key_msg (k : server_key) : list bytes :=
  match k with
  | NoServerKey => []
  | X25519Key point sig => [msg 12 ([3; 0; 29] ++ vec 1 point ++ sig)]
  | P256Key point sig => [msg 12 ([3; 0; 23] ++ vec 1 (4 :: point) ++ sig)]
  end.

Definition key_ok (k : server_key) : Prop :=
  match k with
  | NoServerKey => True
  | X25519Key point sig => length point = 32%nat /\ (length sig <= 2 ^ 10)%nat
  | P256Key point sig => length point = 64%nat /\ (length sig <= 2 ^ 10)%nat
  end.

Definition request_msg (req : option bytes) : list bytes := match req with Some r => [msg 13 r] | None => [] end.
Definition hello_done : bytes := msg 14 [].

(** Each message in a record of its own. *)
Definition plain (b : bytes) : bytes := hdr 22 (length b) ++ b.
Definition plain_all (ms : list bytes) : bytes := concat (plain <$> ms).

Definition with_point (point : bytes) (d : tls_handshake_data) : tls_handshake_data :=
  {| client_and_server_rand32 := client_and_server_rand32 d; master_secret := master_secret d; server_rsa_pub_key := server_rsa_pub_key d;
     ecc_pub_key32 := copy_into (ecc_pub_key32 d) 0 point |}.
Definition ec_fl (x25519 : bool) (f : flags) : flags :=
  {| NEED_EC_KEY := NEED_EC_KEY f; GOT_CERT_RSA_KEY_ALG := GOT_CERT_RSA_KEY_ALG f; GOT_EC_KEY := true; GOT_EC_CURVE_X25519 := GOT_EC_CURVE_X25519 f || x25519 |}.

Definition after_key (k : server_key) (d : tls_handshake_data) (v : view) : view :=
  match k with
  | NoServerKey => v
  | X25519Key point _ => with_hs (with_point point d) (with_fl (ec_fl true (v_fl v)) v)
  | P256Key point _ => with_hs (with_point point d) (with_fl (ec_fl false (v_fl v)) v)
  end.

Lemma got_ec_key_step s tail rest m v d x point : ready ni s tail rest m v -> v_hs v = Some d ->
  exists s', got_ec_key x point s = (Ok tt, s') /\ ready ni s' tail rest m (with_hs (with_point point d) (with_fl (ec_fl x (v_fl v)) v)).
Proof using.
  intros [Hi Htr] Hd. unfold got_ec_key. rewrite (bind_ok _ _ _ _ _ (get_hs_step s d ltac:(by rewrite (view_hs _ _ _ _ Hi)))).
  rewrite (bind_ok (put_hs _) _ s tt (set_hs (Some _) s) eq_refl). eexists. split; [done|]. split; [|exact Htr].
  destruct Hi as [A1 A2 A3 A4 Av]. split; try done. by rewrite <- Av.
Qed.

Lemma key_step s tail rest m v d k b more : ready ni s tail rest m v -> v_hs v = Some d -> key_ok k -> key_msg k = [b] ->
  inbuf (con s) = hdr 22 (length b) ++ b ++ more ->
  exists s', process_server_key (Z.of_nat (length b)) s = (Ok tt, s') /\ ready ni s' tail rest m (after_key k d v) /\
    exists t, b = 12 :: t.
Proof using.
  intros Hr Hd Hk Hb Ein. assert (length (hdr 22 (length b)) = 5%nat) as L5 by (unfold hdr; by rewrite length_app, length_be_bytes).
  set (h5 := hdr 22 (length b)) in *. unfold process_server_key.
  assert (exists (id : Z) (form point sig : bytes), b = 12 :: vec 3 (([3; 0; id; Z.of_nat (length (form ++ point))] ++ form ++ point) ++ sig) /\
    (length (form ++ point) <= 65)%nat /\ (32 <= length (form ++ point))%nat /\ Z.of_nat (length sig) <= 1024 /\
    (k = X25519Key point sig /\ id = 29 /\ form = [] /\ length point = 32%nat \/ k = P256Key point sig /\ id = 23 /\ form = [4] /\ length point = 64%nat))
    as (id & form & point & sig & Eb & L1 & L2 & L3 & Hcase).
  { destruct k as [|point sig|point sig]; [done| |]; destruct Hk as [Hk1 Hk2]; change (2 ^ 10)%nat with (Z.to_nat 1024) in Hk2; injection Hb as <-.
    - exists 29, [], point, sig. unfold msg. cbn [app]. split; [|rewrite Hk1; repeat split; try lia; left; done].
      unfold vec at 2. rewrite Hk1. change (be_bytes 1 (Z.of_nat 32)) with [32]. done.
    - exists 23, [4], point, sig. unfold msg. cbn [app]. split; [|cbn [length]; rewrite Hk1; repeat split; try lia; right; done].
      unfold vec at 2. cbn [length]. rewrite Hk1. change (be_bytes 1 (Z.of_nat 65)) with [65]. done. }
  set (body := (([3; 0; id; Z.of_nat (length (form ++ point))] ++ form ++ point) ++ sig)) in *.
  assert (length body = 4 + length (form ++ point) + length sig)%nat as Lbody by (unfold body; rewrite !length_app; cbn [length]; lia).
  set (k4 := 12 :: be_bytes 3 (Z.of_nat (length body))).
  assert (length k4 = 4%nat) as L4 by (unfold k4; cbn [length]; by rewrite length_be_bytes).
  assert (b = k4 ++ body) as Eb' by (rewrite Eb; done). rewrite Eb', <- app_assoc in Ein.
  rewrite (bind_ok _ _ _ _ _ (read_at s h5 k4 _ RECHDR_LEN 4 Ein ltac:(by rewrite L5) ltac:(by rewrite L4))).
  assert (get24be (drop 1 k4) = Z.of_nat (length body)) as ->.
  { unfold k4. cbn [drop]. rewrite <- (app_nil_r (be_bytes 3 _)). apply get24be_bytes. lia. }
  assert (Z.of_nat (length b) = 4 + Z.of_nat (length body)) as Lb by (rewrite Eb', length_app; lia).
  destruct (Z.ltb_spec (Z.of_nat (length b) - 4) (Z.of_nat (length body))); [lia|].
  destruct (Z.ltb_spec (Z.of_nat (length body)) (1 + 2 + 1 + 32)); [lia|].
  assert (inbuf (con s) = (h5 ++ k4) ++ [3; 0; id; Z.of_nat (length (form ++ point))] ++ form ++ point ++ sig ++ more) as Ein1.
  { rewrite Ein. unfold body. by rewrite <- !app_assoc. }
  rewrite (bind_ok _ _ _ _ _ (read_at s (h5 ++ k4) _ _ (RECHDR_LEN + 4) 4 Ein1 ltac:(by rewrite length_app, L5, L4) eq_refl)).
  assert (inbuf (con s) = (h5 ++ k4 ++ [3; 0; id; Z.of_nat (length (form ++ point))]) ++ form ++ point ++ sig ++ more) as Ein2.
  { rewrite Ein1. by rewrite <- !app_assoc. }
  assert (length (h5 ++ k4 ++ [3; 0; id; Z.of_nat (length (form ++ point))]) = 13%nat) as L13 by (by rewrite !length_app, L5, L4).
  assert (exists t, b = 12 :: t) as Ht by (rewrite Eb; by eexists).
  destruct Hcase as [(-> & -> & -> & Lp)|(-> & -> & -> & Lp)]; cbn [app length] in *; rewrite Lp in *.
  - change (le_val [3; 0; 29; Z.of_nat 32]) with 0x201d0003. cbn [Z.eqb Pos.eqb].
    rewrite (bind_ok _ _ _ _ _ (read_at s _ point _ (RECHDR_LEN + 8) 32 Ein2 ltac:(by rewrite L13) ltac:(by rewrite Lp))).
    destruct (got_ec_key_step _ _ _ _ _ _ true point Hr Hd) as (s' & E & Hr'). by exists s'.
  - change (le_val [3; 0; 23; Z.of_nat 65]) with 0x41170003. cbn [Z.eqb Pos.eqb].
    rewrite (bind_ok _ _ _ _ _ (read_byte s _ 4 _ (RECHDR_LEN + 8) Ein2 ltac:(by rewrite L13))). cbn [Z.eqb Pos.eqb negb].
    assert (inbuf (con s) = ((h5 ++ k4 ++ [3; 0; 23; Z.of_nat 65]) ++ [4]) ++ point ++ sig ++ more) as Ein3 by (rewrite Ein2; by rewrite <- !app_assoc).
    rewrite (bind_ok _ _ _ _ _ (read_at s _ point _ (RECHDR_LEN + 9) 64 Ein3 ltac:(by rewrite length_app, L13) ltac:(by rewrite Lp))).
    destruct (got_ec_key_step _ _ _ _ _ _ false point Hr Hd) as (s' & E & Hr'). by exists s'.
Qed.
(** The end of [get_server_flight], from a message in the buffer on. *)
Definition flight_end : M tls bool :=
  type ← inbuf_byte RECHDR_LEN;
  let got_cert_req := type =? HANDSHAKE_CERTIFICATE_REQUEST in
  (if got_cert_req then _ ← tls_xread_handshake_block ni 4; skip else skip) ;;
  type ← inbuf_byte RECHDR_LEN;
  if negb (type =? HANDSHAKE_SERVER_HELLO_DONE) then die else mret got_cert_req.

Lemma first_byte s b x t more : inbuf (con s) = hdr 22 (length b) ++ b ++ more -> b = x :: t -> inbuf_byte RECHDR_LEN s = (Ok x, s).
Proof using.
  intros E ->. apply (read_byte s _ x (t ++ more) RECHDR_LEN E). unfold hdr. by rewrite length_app, length_be_bytes.
Qed.

Lemma recv_plain s tail rest m v b bs min_len : ready ni s tail (plain_all (b :: bs) ++ rest) m v -> (5 + length b <= MAX_INBUF)%nat -> min_len <= Z.of_nat (length b) ->
  exists s', tls_xread_handshake_block ni min_len s = (Ok (Z.of_nat (length b)), s') /\ ready ni s' tail (plain_all bs ++ rest) (m ++ b) v /\
    exists more, inbuf (con s') = hdr 22 (length b) ++ b ++ more.
Proof using.
  intros Hr. unfold plain_all in Hr. cbn [fmap list_fmap concat] in Hr. unfold plain at 1 in Hr. rewrite <- !app_assoc in Hr. by apply recv.
Qed.

Lemma length_msg type b : length (msg type b) = (4 + length b)%nat.
Proof using. unfold msg. cbn [length]. by rewrite length_vec. Qed.

Lemma flight_end_step s tail rest m v req b bs more : request_msg req ++ [hello_done] = b :: bs -> ready ni s tail (plain_all bs ++ rest) m v ->
  inbuf (con s) = hdr 22 (length b) ++ b ++ more ->
  exists s', flight_end s = (Ok (bool_decide (is_Some req)), s') /\ ready ni s' tail rest (m ++ concat bs) v.
Proof using.
  intros Eb Hr Ein. unfold flight_end. destruct req as [r|]; cbn [request_msg app] in Eb; injection Eb as <- <-.
  - rewrite (bind_ok _ _ _ _ _ (first_byte s _ 13 _ _ Ein eq_refl)). cbn [Z.eqb Pos.eqb HANDSHAKE_CERTIFICATE_REQUEST].
    pose proof max_inbuf_value.
    destruct (recv_plain s tail rest m v hello_done [] 4 Hr) as (s1 & E1 & Hr1 & more1 & Ein1); [cbn; lia|cbn; lia|].
    rewrite (bind_ok (tls_xread_handshake_block ni 4 ≫= (fun _ => skip)) _ s tt s1) by (by rewrite (bind_ok _ _ _ _ _ E1)).
    rewrite (bind_ok _ _ _ _ _ (first_byte s1 _ 14 _ _ Ein1 eq_refl)). exists s1. split; [done|]. cbn [concat app]. by rewrite app_nil_r.
  - rewrite (bind_ok _ _ _ _ _ (first_byte s _ 14 _ _ Ein eq_refl)). cbn [Z.eqb Pos.eqb HANDSHAKE_CERTIFICATE_REQUEST].
    rewrite (bind_ok skip _ s tt s) by done. rewrite (bind_ok _ _ _ _ _ (first_byte s _ 14 _ _ Ein eq_refl)). exists s. split; [done|].
    cbn [concat]. by rewrite app_nil_r.
Qed.

Lemma flight_step s tail rest m v d k req : ready ni s tail (plain_all (key_msg k ++ request_msg req ++ [hello_done]) ++ rest) m v ->
  v_hs v = Some d -> key_ok k -> (k <> NoServerKey -> NEED_EC_KEY (v_fl v) = true) -> (forall r, req = Some r -> length r <= 2 ^ 14)%nat ->
  exists s', get_server_flight ni s = (Ok (bool_decide (is_Some req)), s') /\
    ready ni s' tail rest (m ++ concat (key_msg k ++ request_msg req ++ [hello_done])) (after_key k d v).
Proof using.
  intros Hr Hd Hk Hneed Hreq. assert (k = NoServerKey \/ k <> NoServerKey) as Hdec by (destruct k; auto; by right). pose proof max_inbuf_value as Hmax. change (2 ^ 14)%nat with (Z.to_nat (2 ^ 14)) in Hreq.
  assert (exists b bs, request_msg req ++ [hello_done] = b :: bs /\ (5 + length b <= MAX_INBUF)%nat /\ (4 <= length b)%nat /\ exists t x, b = x :: t /\ x <> 12)
    as (b & bs & Eb & L1 & L2 & t & x & Ex & Hx).
  { destruct req as [r|]; cbn [request_msg app]; eexists _, _; (split; [done|]); unfold hello_done; rewrite length_msg.
    - specialize (Hreq r eq_refl). split; [lia|]. split; [lia|]. eexists _, 13. split; [reflexivity|lia].
    - cbn [length]. split; [lia|]. split; [lia|]. eexists _, 14. split; [reflexivity|lia]. }
  rewrite Eb in *. change (get_server_flight ni) with (len ← tls_xread_handshake_block ni 4;
    type ← inbuf_byte RECHDR_LEN;
    (if type =? HANDSHAKE_SERVER_KEY_EXCHANGE then
       f ← gets fl; when (NEED_EC_KEY f) (process_server_key len) ;; _ ← tls_xread_handshake_block ni 4; skip else skip) ;; flight_end).
  assert (k <> NoServerKey -> exists kb, key_msg k = [kb] /\ (5 + length kb <= MAX_INBUF)%nat /\ (4 <= length kb)%nat) as Hkb.
  { clear -Hk Hmax. intros Hne. destruct k as [|point sig|point sig]; [by destruct Hne| |]; destruct Hk as [Hk1 Hk2]; change (2 ^ 10)%nat with (Z.to_nat 1024) in Hk2; eexists; (split; [reflexivity|]);
      rewrite length_msg, !length_app, length_vec; cbn [length]; lia. }
  clear Hmax. destruct Hdec as [->|Hne].
  - cbn [key_msg app] in *. destruct (recv_plain s tail rest m v b bs 4 Hr L1 ltac:(lia)) as (s1 & E1 & Hr1 & more & Ein).
    rewrite (bind_ok _ _ _ _ _ E1), (bind_ok _ _ _ _ _ (first_byte s1 _ _ _ _ Ein Ex)).
    change HANDSHAKE_SERVER_KEY_EXCHANGE with 12. rewrite (proj2 (Z.eqb_neq _ _) Hx).
    rewrite (bind_ok skip _ s1 tt s1) by done. destruct (flight_end_step s1 tail rest _ v req b bs more Eb Hr1 Ein) as (s' & E & Hr').
    exists s'. split; [done|]. cbn [concat]. by rewrite app_assoc.
  - destruct (Hkb Hne) as (kb & Ekb & L3 & L4).
    rewrite Ekb in Hr |- *. cbn [app] in Hr.
    destruct (recv_plain s tail rest m v kb (b :: bs) 4 Hr L3 ltac:(lia)) as (s1 & E1 & Hr1 & more & Ein). rewrite (bind_ok _ _ _ _ _ E1).
    destruct (key_step s1 tail _ _ v d k kb more Hr1 Hd Hk Ekb Ein) as (s2 & E2 & Hr2 & t' & Et).
    rewrite (bind_ok _ _ _ _ _ (first_byte s1 _ _ _ _ Ein Et)). cbn [Z.eqb Pos.eqb HANDSHAKE_SERVER_KEY_EXCHANGE].
    destruct (recv_plain s2 tail rest _ _ b bs 4 Hr2 L1 ltac:(lia)) as (s3 & E3 & Hr3 & more3 & Ein3).
    assert (NEED_EC_KEY (fl s1) = true) as Hn by (destruct Hr1 as [[_ _ _ _ Av] _]; rewrite <- (Hneed Hne), <- Av; done).
    erewrite (bind_ok _ (fun _ => flight_end) s1 tt s3).
    2: { rewrite (bind_ok (gets fl) _ s1 (fl s1) s1 eq_refl). unfold when. rewrite Hn, (bind_ok _ _ _ _ _ E2), (bind_ok _ _ _ _ _ E3). done. }
    destruct (flight_end_step s3 tail rest _ _ req b bs more3 Eb Hr3 Ein3) as (s' & E & Hr'). exists s'. split; [done|].
    cbn [concat app]. by rewrite !app_assoc in *.
Qed.
(** ** The key exchange *)

Lemma empty_certificate_step s tail rest m v : ready ni s tail rest m v ->
  exists s', send_empty_client_cert ni cpuid_ebx stack s = (Ok tt, s') /\ ready ni s' tail rest (m ++ empty_certificate) (sent (plain empty_certificate) v).
Proof using.
  intros [Hi Htr]. unfold send_empty_client_cert. destruct (zeroed_step _ _ _ _ 7 Hi ltac:(lia)) as (s1 & E1 & Hi1 & Ec).
  rewrite (bind_ok _ _ _ _ _ E1). rewrite empty_certificate_bytes.
  destruct (send_exact s1 tail rest m v empty_certificate) as (s2 & E2 & Hr2 & _); [|cbn; lia|by exists s2].
  split; [done|]. unfold transcript. by rewrite Ec.
Qed.

(** The bytes of the client's key and the premaster secret by the standards, from
    the random bytes [rs]: for RSA the encryption of the premaster secret with the
    modulus and exponent of the keys allowed by [K]; for X25519 and P-256 the
    multiples of the base point and of the server's point. *)
Definition exchange (K : TlsRsa.psRsaKey_t -> Prop) (k : server_key) (rs : list bytes) (key premaster : bytes) (rs' : list bytes) : Prop :=
  match k with
  | NoServerKey => exists r filler n e sz,
      rs = r :: filler :: rs' /\ length r = 48%nat /\ premaster = [3; 3] ++ drop 2 r /\ key = vec 2 (TlsKeyExchange.rsa_ciphertext n e sz filler premaster) /\
      (59 <= sz <= 4096)%nat /\ length filler = (sz - 51)%nat /\
      forall rk, K rk -> TlsKeyExchange.rsa_usable rk n e sz (TlsKeyExchange.rsa_block filler premaster)
  | X25519Key point _ => exists r,
      rs = r :: rs' /\ length r = 32%nat /\ key = vec 1 (le_bytes 32 (TlsFe.x25519_spec (TlsFe.clamp r) 9)) /\
      premaster = le_bytes 32 (TlsFe.x25519_spec (TlsFe.clamp r) (le_val point))
  | P256Key point _ => exists r pub secret,
      rs = r :: rs' /\ length r = 32%nat /\ TlsKeyExchange.p256_usable (Sp256Num.private_key r) point pub secret /\
      key = vec 1 (4 :: TlsKeyExchange.affine pub) /\ premaster = be_bytes 32 (secret.1 mod Sp256Facts.p)
  end.

(** The flags and the peer's key that lead to this exchange. *)
Definition chosen (K : TlsRsa.psRsaKey_t -> Prop) (k : server_key) (f : flags) (d : tls_handshake_data) : Prop :=
  match k with
  | NoServerKey => NEED_EC_KEY f = false /\ GOT_CERT_RSA_KEY_ALG f = true /\ K (server_rsa_pub_key d)
  | X25519Key point _ => NEED_EC_KEY f = true /\ GOT_EC_KEY f = true /\ GOT_EC_CURVE_X25519 f = true /\ bytes_ok point /\ length point = 32%nat /\
      exists l, ecc_pub_key32 d = point ++ l
  | P256Key point _ => NEED_EC_KEY f = true /\ GOT_EC_KEY f = true /\ GOT_EC_CURVE_X25519 f = false /\ bytes_ok point /\ length point = 64%nat /\
      ecc_pub_key32 d = point
  end.

Lemma x25519_pair r point : length point = 32%nat -> bytes_ok point ->
  TlsFe.curve_x25519_compute_pubkey_and_premaster r point =
  (le_bytes 32 (TlsFe.x25519_spec (TlsFe.clamp r) 9), le_bytes 32 (TlsFe.x25519_spec (TlsFe.clamp r) (le_val point))).
Proof using.
  intros L B. unfold TlsFe.curve_x25519_compute_pubkey_and_premaster. rewrite (TlsFe.curve25519_bytes (TlsFe.clamp r) None) by done.
  rewrite (TlsFe.curve25519_bytes (TlsFe.clamp r) (Some point)) by (by intros u [= <-]). reflexivity.
Qed.

Lemma client_key_step s tail rest v d K k key premaster rs' : idle s tail rest v -> v_hs v = Some d -> chosen K k (v_fl v) d ->
  exchange K k (v_rand v) key premaster rs' -> Forall bytes_ok (v_rand v) ->
  exists s' junk, client_key stack_point s = (Ok (key ++ junk, Z.of_nat (length key), premaster), s') /\ idle s' tail rest (drawn rs' v) /\ con s' = con s.
Proof using HSP.
  intros Hi Hd Hc He Hbs. assert (fl s = v_fl v) as Ef by (destruct Hi as [_ _ _ _ <-]; done). unfold client_key. rewrite (bind_ok (gets fl) _ s (fl s) s eq_refl), Ef.
  destruct k as [|point sig|point sig].
  - destruct Hc as (-> & -> & HK). destruct He as (r & filler & n & e & sz & Er & Lr & -> & -> & Hn & Lf & HE). cbn [negb].
    rewrite Er in Hbs. apply Forall_cons in Hbs as [Br Hbs]. apply Forall_cons in Hbs as [Bf _].
    destruct (random_step _ _ _ _ r (filler :: rs') RSA_PREMASTER_SIZE Hi Er Lr) as (s1 & E1 & Hi1 & C1). rewrite (bind_ok _ _ _ _ _ E1).
    assert (copy_into r 0 [TLS_MAJ; TLS_MIN] = [3; 3] ++ drop 2 r) as -> by done.
    unfold rsa_encrypt_premaster. rewrite bind_assoc. rewrite (bind_ok _ _ _ _ _ (get_hs_step s1 d ltac:(by rewrite (view_hs _ _ _ _ Hi1)))).
    pose proof (HE _ HK) as Hu. pose proof (proj1 (TlsKeyExchange.u_size _ _ _ _ _ Hu)) as Es. rewrite Es. change RSA_PREMASTER_SIZE with 48%nat.
    assert (Z.of_nat 4096 = 4096) as E4096 by done.
    assert (TlsRsa.psRsaEncryptPub (fun _ => filler) (server_rsa_pub_key d) ([3; 3] ++ drop 2 r) (replicate 4096 0) 4096 =
            Okay (TlsKeyExchange.rsa_ciphertext n e sz filler ([3; 3] ++ drop 2 r) ++ drop sz (replicate 4096 0), sz)) as Ee.
    { apply (TlsKeyExchange.rsa_exchange _ _ _ _ _ _ _ _ Hu); [rewrite length_app, length_drop; cbn [length]; lia|apply bytes_ok_app; split; [by repeat constructor|auto with bytes]
        |done|by apply Forall_replicate|lia|rewrite length_replicate; lia|done]. }
    set (ct := TlsKeyExchange.rsa_ciphertext n e sz filler ([3; 3] ++ drop 2 r)) in *. assert (length ct = sz) as Lct by apply length_be_bytes.
    set (out := drop sz (replicate 4096 0)) in *. clearbody out. rewrite <- Lct in *. clear Es.
    rewrite (proj2 (Nat.ltb_ge _ (length ct))) by lia. rewrite (proj2 (Z.ltb_ge _ 8)) by lia. cbn [orb].
    destruct (random_step s1 tail rest _ filler rs' (Z.to_nat (Z.of_nat (length ct) - 3 - Z.of_nat 48)) Hi1 eq_refl ltac:(lia)) as (s2 & E2 & Hi2 & C2).
    rewrite bind_assoc, (bind_ok _ _ _ _ _ E2), Ee. rewrite (bind_ok (mret _) _ s2 (Z.of_nat (length ct), ct ++ out) s2 eq_refl). cbn beta iota.
    exists s2, out. split; [|split; [done|congruence]]. unfold mret, M_ret. rewrite length_vec.
    assert (vec 2 ct ++ out = [u8 (Z.shiftr (Z.of_nat (length ct)) 8); Z.land (Z.of_nat (length ct)) 255] ++ ct ++ out) as ->
      by (unfold vec; rewrite be_bytes_2 by lia; by rewrite <- app_assoc).
    by replace (Z.of_nat (2 + length ct)) with (Z.of_nat (length ct) + 2) by lia.
  - destruct Hc as (-> & -> & -> & Bp & Lp & (l & Ep)). destruct He as (r & Er & Lr & -> & ->). cbn [negb].
    rewrite (bind_ok _ _ _ _ _ (get_hs_step s d ltac:(by rewrite (view_hs _ _ _ _ Hi)))).
    destruct (random_step _ _ _ _ r rs' 32 Hi Er Lr) as (s1 & E1 & Hi1 & C1). rewrite (bind_ok _ _ _ _ _ E1).
    rewrite Ep, take_app_length', x25519_pair by done. exists s1, []. split; [|done]. unfold mret, M_ret. rewrite length_vec, length_le_bytes, app_nil_r.
    unfold vec. rewrite length_le_bytes. done.
  - destruct Hc as (-> & -> & -> & Bp & Lp & Ep). destruct He as (r & pub & secret & Er & Lr & Hus & -> & ->). cbn [negb].
    rewrite (bind_ok _ _ _ _ _ (get_hs_step s d ltac:(by rewrite (view_hs _ _ _ _ Hi)))).
    destruct (random_step _ _ _ _ r rs' 32 Hi Er Lr) as (s1 & E1 & Hi1 & C1). rewrite (bind_ok _ _ _ _ _ E1).
    rewrite Ep, Sp256Num.compute_spec by (done || lia). rewrite (TlsKeyExchange.p256_exchange r point pub secret Bp Hus).
    assert (length (TlsKeyExchange.affine pub) = 64%nat) as L64 by (unfold TlsKeyExchange.affine; by rewrite length_app, !length_be_bytes).
    exists s1, []. split; [|done]. unfold mret, M_ret. rewrite length_vec, app_nil_r. cbn [length]. rewrite L64.
    unfold vec. cbn [length]. rewrite L64. done.
Qed.
(** ** The keys *)

Lemma prf_step s tail rest m v n secret label seed : ready ni s tail rest m v -> bytes_ok secret -> (length secret <= 64)%nat -> bytes_ok label -> bytes_ok seed ->
  exists s', prf ni cpuid_ebx stack n secret label seed s = (Ok (TlsHmac.PRF secret label seed n), s') /\ ready ni s' tail rest m v /\ hsd (con s') = hsd (con s).
Proof using Hni Hstack.
  intros [[H1 H2 H3 H4 Hv] Htr] Hs Ls Hl Hd. unfold prf.
  destruct (TlsHmac.prf_spec ni Hni cpuid_ebx (shaNI (con s)) stack n secret label seed Hstack Hs Ls Hl Hd) as [[sh ->] _].
  eexists. split; [done|]. split; [|done]. split; [by split|done].
Qed.

Lemma setkey_prefix k l n : (n <= length k)%nat -> aes_setkey (k ++ l) n = aes_setkey k n.
Proof using.
  intros Hn. unfold aes_setkey, KeyExpansion. assert (get_be32 (k ++ l) <$> seq 0 (n / 4) = get_be32 k <$> seq 0 (n / 4)) as ->; [|done].
  apply list_fmap_ext. intros i j Hj. apply lookup_seq in Hj as [-> Hi].
  assert (4 * i + 3 < length k)%nat as Hlt by (pose proof (Nat.mul_div_le n 4 ltac:(lia)); lia).
  unfold get_be32. rewrite drop_app_le by lia. rewrite take_app_le by (rewrite length_drop; lia). done.
Qed.

(** The parts of the key block, in the order of RFC 5246, 6.3. *)
Definition part (block : bytes) (from n : nat) : bytes := take n (drop from block).

(** The record layer has the keys of the key block. *)
Definition keyed (p : suite) (block : bytes) (k : tls_state) (mem : bytes) : Prop :=
  let M := MAC_size p in
  let K := key_size p in
  let I := IV_size p in
  take (2 * M) mem = part block 0 (2 * M) /\
  aes_encrypt k = aes_setkey (part block (2 * M) K) K /\
  aes_decrypt k = aes_setkey (part block (2 * M + K) K) K /\
  take I (client_write_IV k) = part block (2 * M + 2 * K) I /\
  take I (server_write_IV k) = part block (2 * M + 2 * K + I) I /\
  aes_encrypt_one_block (aes_encrypt k) (replicate 16 0) = Ok (H k).

(** The record layer can write and read with them. *)
Definition usable (k : tls_state) (mem : bytes) : Prop :=
  aes_ok (aes_encrypt k) /\ aes_ok (aes_decrypt k) /\ block_ok (H k) /\ bytes_ok mem /\
  (4 <= length (client_write_IV k))%nat /\ bytes_ok (client_write_IV k) /\ (4 <= length (server_write_IV k))%nat /\ bytes_ok (server_write_IV k).

(** The sizes of the suites. *)
Definition sizes_ok (p : suite) : Prop := key_size p ∈ [16; 32]%nat /\ (MAC_size p = 32%nat /\ IV_size p = 0%nat \/ MAC_size p = 0%nat /\ IV_size p = 4%nat).

Lemma drop_split (l : bytes) i n : (i + n <= length l)%nat -> drop i l = part l i n ++ drop (i + n) l.
Proof using. intros Hl. unfold part. rewrite <- drop_drop. by rewrite take_drop. Qed.

Lemma part_app (a b : bytes) i n : (i + n <= length a)%nat -> part (a ++ b) i n = part a i n.
Proof using. intros Hl. unfold part. rewrite drop_app_le by lia. by rewrite take_app_le by (rewrite length_drop; lia). Qed.

Lemma install_step s tail rest m v p block : ready ni s tail rest m v -> sizes_ok p -> length (v_mem v) = 136%nat -> bytes_ok (v_mem v) -> bytes_ok block ->
  length block = (2 * (MAC_size p + key_size p + IV_size p))%nat ->
  exists s' k mem, install_keys p block s = (Ok tt, s') /\ ready ni s' tail rest m (with_keys k mem v) /\ keyed p block k mem /\ usable k mem /\
    write_seq64_be k = write_seq64_be (v_crypt v).
Proof using.
  clear Hni Hstack HSP. intros [[H1 H2 H3 H4 Hv] Htr] [Hk Hs] Lm Bm Bb Lb. unfold install_keys, update_conn, on_conn.
  assert (client_write_MAC_key (con s) = v_mem v) as -> by (by rewrite <- Hv).
  set (old := v_mem v) in *. assert (key_size p = 16%nat \/ key_size p = 32%nat) as Hk' by set_solver.
  assert (length block <= 136)%nat as Hle by lia.
  assert (copy_into old 0 block = block ++ drop (length block) old) as -> by done.
  set (mem := block ++ drop (length block) old).
  assert (length mem = 136%nat) as Lmem by (unfold mem; rewrite length_app, length_drop; lia).
  assert (bytes_ok mem) as Bmem by (unfold mem; rewrite bytes_ok_app; auto with bytes).
  assert (forall i n, i + n <= length block -> part mem i n = part block i n)%nat as Hpart by (intros i n Hin; unfold mem; by apply part_app).
  rewrite !drop_drop. set (kp := key_size p) in *. set (M := MAC_size p) in *. set (I := IV_size p) in *.
  rewrite (drop_split mem (2 * M) kp), setkey_prefix by (unfold part; rewrite ?length_take, ?length_drop; lia).
  rewrite (drop_split mem (2 * M + kp) kp), setkey_prefix by (unfold part; rewrite ?length_take, ?length_drop; lia).
  rewrite !Hpart by lia.
  assert (forall i, i + kp <= length block -> aes_ok (aes_setkey (part block i kp) kp))%nat as Hok.
  { intros i Hi. apply aes_setkey_ok; [unfold part; auto with bytes|]. destruct Hk' as [->| ->]; set_solver. }
  destruct (encrypt_block_ok (aes_setkey (part block (2 * M) kp) kp) (replicate 16 0) (Hok (2 * M)%nat ltac:(lia)) eq_refl (zero_bytes_ok 16)) as (h & Eh & Hh).
  rewrite Eh. cbn [mbind outcome_bind].
  eexists _, _, mem. split; [done|]. split; [|split; [|split]].
  - split; [|exact Htr]. split; try done. rewrite <- Hv. unfold view_of, with_keys. cbn. done.
  - unfold keyed. fold M kp I. cbn [aes_encrypt aes_decrypt client_write_IV server_write_IV TlsAesGcm.H].
    assert (forall i n, i + n <= length block -> take n (drop i mem) = part block i n)%nat as Hp by (intros i n Hin; by apply Hpart).
    split; [apply (Hp 0%nat); lia|]. split; [done|]. split; [done|]. split; [rewrite <- (Hp (2 * M + 2 * kp)%nat) by lia; do 2 f_equal; lia|].
    split; [rewrite <- (Hp (2 * M + 2 * kp + I)%nat) by lia; do 2 f_equal; lia|done].
  - unfold usable. cbn [aes_encrypt aes_decrypt client_write_IV server_write_IV TlsAesGcm.H]. rewrite !length_drop.
    split; [apply Hok; lia|]. split; [apply Hok; lia|]. split; [done|]. split; [done|]. split; [lia|]. split; [auto with bytes|]. split; [lia|auto with bytes].
  - cbn [write_seq64_be]. by rewrite <- Hv.
Qed.
Definition with_master (master : bytes) (d : tls_handshake_data) : tls_handshake_data :=
  {| client_and_server_rand32 := client_and_server_rand32 d; master_secret := master; server_rsa_pub_key := server_rsa_pub_key d; ecc_pub_key32 := ecc_pub_key32 d |}.

(** RFC 5246, 8.1 and 6.3. *)
Definition master_of (premaster crandom srandom : bytes) : bytes := TlsHmac.PRF premaster (bs "master secret") (crandom ++ srandom) 48.
Definition key_block_of (p : suite) (master crandom srandom : bytes) : bytes :=
  TlsHmac.PRF master (bs "key expansion") (srandom ++ crandom) (2 * (MAC_size p + key_size p + IV_size p)).

Lemma exchange_sizes K k rs key premaster rs' : Forall bytes_ok rs -> exchange K k rs key premaster rs' ->
  bytes_ok premaster /\ (length premaster <= 64)%nat /\ Z.of_nat (length key) <= 4098 /\ Forall bytes_ok rs'.
Proof using.
  intros Hb. destruct k as [|point sig|point sig]; cbn [exchange].
  - intros (r & filler & n & e & sz & -> & Lr & -> & -> & Hn & _). apply Forall_cons in Hb as [Hr Hb]. apply Forall_cons in Hb as [_ Hb].
    split; [apply bytes_ok_app; split; [by repeat constructor|auto with bytes]|]. rewrite length_app, length_drop, length_vec. unfold TlsKeyExchange.rsa_ciphertext. rewrite length_be_bytes. cbn [length].
    assert (Z.of_nat 4096 = 4096) by done. split; [lia|]. split; [lia|done].
  - intros (r & -> & Lr & -> & ->). apply Forall_cons in Hb as [_ Hb]. rewrite length_vec, !length_le_bytes. split; [apply le_bytes_ok|]. split; [lia|]. by split; [lia|].
  - intros (r & pub & secret & -> & Lr & _ & -> & ->). apply Forall_cons in Hb as [_ Hb]. unfold TlsKeyExchange.affine. rewrite length_vec, !length_be_bytes. cbn [length].
    rewrite length_app, !length_be_bytes. split; [apply be_bytes_ok|]. split; [lia|]. by split; [lia|].
Qed.

Lemma key_exchange_step s tail rest m v d K k key premaster rs' crandom : ready ni s tail rest m v -> v_hs v = Some d -> chosen K k (v_fl v) d ->
  exchange K k (v_rand v) key premaster rs' -> Forall bytes_ok (v_rand v) -> sizes_ok (v_params v) -> length (v_mem v) = 136%nat -> bytes_ok (v_mem v) ->
  forall srandom, client_and_server_rand32 d = crandom ++ srandom -> length crandom = 32%nat -> bytes_ok crandom -> bytes_ok srandom ->
  let master := master_of premaster crandom srandom in
  let cke := msg 16 key in
  exists s' kst mem, send_client_key_exchange ni cpuid_ebx stack stack_point s = (Ok tt, s') /\
    ready ni s' tail rest (m ++ cke) (with_keys kst mem (with_hs (with_master master d) (sent (plain cke) (drawn rs' v)))) /\
    keyed (v_params v) (key_block_of (v_params v) master crandom srandom) kst mem /\ usable kst mem /\ write_seq64_be kst = write_seq64_be (v_crypt v) /\
    bytes_ok master /\ length master = 48%nat.
Proof using Hni Hstack HSP.
  intros [Hi Htr] Hd Hc He Hb Hp Lm Bm srandom Er Lc Bc Bs master cke. destruct (exchange_sizes _ _ _ _ _ _ Hb He) as (Bpm & Lpm & Lk & _).
  unfold send_client_key_exchange. destruct (zeroed_step _ _ _ _ (4 + (2 + 4 * 1024)) Hi ltac:(lia)) as (s1 & E1 & Hi1 & C1). rewrite (bind_ok _ _ _ _ _ E1).
  destruct (client_key_step s1 tail rest v d K k key premaster rs' Hi1 Hd Hc He Hb) as (s2 & junk & E2 & Hi2 & C2). rewrite (bind_ok _ _ _ _ _ E2). cbn beta iota.
  assert ([HANDSHAKE_CLIENT_KEY_EXCHANGE; 0; u8 (Z.shiftr (Z.of_nat (length key)) 8); Z.land (Z.of_nat (length key)) 0xff] ++ key ++ junk = cke ++ junk) as ->.
  { unfold cke, msg, vec, be_bytes. cbn [le_bytes]. cbv [reverse rev_append]. cbn [app].
    change 0xff with (Z.ones 8). rewrite Z.land_ones, Z.shiftr_div_pow2 by lia. unfold u8. change (2 ^ 8) with 256.
    rewrite (Z.div_small (_ / 256)); [done|]. split; [apply Z.div_pos; lia|]. apply Z.div_lt_upper_bound; lia. }
  assert (copy_into (replicate (Z.to_nat (4 + (2 + 4 * 1024))) 0) 0 (cke ++ junk) = cke ++ junk ++ drop (length (cke ++ junk)) (replicate (Z.to_nat (4 + (2 + 4 * 1024))) 0)) as ->.
  { unfold copy_into. rewrite take_0, app_nil_l, Nat.add_0_l. by rewrite <- app_assoc. }
  assert (length cke = 4 + length key)%nat as Lcke by (unfold cke; apply length_msg).
  rewrite (proj2 (Z.ltb_ge (Z.of_nat (length key) + 4) 0)) by lia. replace (Z.to_nat (Z.of_nat (length key) + 4)) with (length cke) by lia.
  assert (ready ni s2 tail rest m (drawn rs' v)) as Hr2 by (split; [done|]; unfold transcript; by rewrite C2, C1).
  destruct (send s2 tail rest m _ cke (junk ++ drop (length (cke ++ junk)) (replicate (Z.to_nat (4 + (2 + 4 * 1024))) 0)) Hr2 ltac:(lia)) as (s3 & E3 & Hr3 & _).
  rewrite (bind_ok _ _ _ _ _ E3). destruct (Hr3) as [Hi3 _]. rewrite (bind_ok _ _ _ _ _ (get_hs_step s3 d ltac:(by rewrite (view_hs _ _ _ _ Hi3)))).
  assert (bytes_ok (client_and_server_rand32 d)) as Brand by (rewrite Er; by apply bytes_ok_app).
  destruct (prf_step s3 tail rest _ _ 48 premaster (bs "master secret") (client_and_server_rand32 d) Hr3 Bpm Lpm ltac:(by repeat constructor) Brand) as (s4 & E4 & Hr4 & _).
  rewrite (bind_ok _ _ _ _ _ E4). replace (TlsHmac.PRF premaster _ _ 48) with master by (unfold master, master_of; by rewrite Er).
  destruct (TlsHmac.prf_spec ni Hni cpuid_ebx 0 stack 48 premaster (bs "master secret") (crandom ++ srandom) Hstack Bpm Lpm ltac:(by repeat constructor) ltac:(by rewrite <- Er))
    as (_ & Lmaster & Bmaster). fold (master_of premaster crandom srandom) in Lmaster, Bmaster. fold master in Lmaster, Bmaster.
  rewrite (bind_ok (put_hs _) _ s4 tt (set_hs (Some _) s4) eq_refl). set (s5 := set_hs _ s4).
  assert (ready ni s5 tail rest (m ++ cke) (with_hs (with_master master d) (sent (plain cke) (drawn rs' v)))) as Hr5.
  { destruct Hr4 as [[A1 A2 A3 A4 Av] Ht4]. split; [|exact Ht4]. split; try done. change (hdr 22 (length cke) ++ cke) with (plain cke) in Av. by rewrite <- Av. }
  rewrite (bind_ok (gets params) _ s5 (params s5) s5 eq_refl).
  assert (params s5 = v_params v) as -> by (destruct Hr5 as [[_ _ _ _ Av] _]; exact (f_equal v_params Av)).
  assert (drop 32 (client_and_server_rand32 d) ++ take 32 (client_and_server_rand32 d) = srandom ++ crandom) as ->
    by (rewrite Er, drop_app_length', take_app_length' by done; done).
  destruct (prf_step s5 tail rest _ _ (2 * (MAC_size (v_params v) + key_size (v_params v) + IV_size (v_params v))) master (bs "key expansion") (srandom ++ crandom) Hr5
    Bmaster ltac:(lia) ltac:(by repeat constructor) ltac:(by apply bytes_ok_app)) as (s6 & E6 & Hr6 & _). rewrite (bind_ok _ _ _ _ _ E6).
  fold (key_block_of (v_params v) master crandom srandom).
  destruct (TlsHmac.prf_spec ni Hni cpuid_ebx 0 stack (2 * (MAC_size (v_params v) + key_size (v_params v) + IV_size (v_params v))) master (bs "key expansion") (srandom ++ crandom)
    Hstack Bmaster ltac:(lia) ltac:(by repeat constructor) ltac:(by apply bytes_ok_app)) as (_ & Lblock & Bblock). fold (key_block_of (v_params v) master crandom srandom) in Lblock, Bblock.
  destruct (install_step s6 tail rest _ _ (v_params v) (key_block_of (v_params v) master crandom srandom) Hr6 Hp Lm Bm Bblock Lblock)
    as (s7 & kst & mem & E7 & Hr7 & Hk7 & Hu7 & Hs7). exists s7, kst, mem. split; [exact E7|]. split; [exact Hr7|]. auto.
Qed.
(** ** The end of the handshake *)

Definition next_seq_state (k : tls_state) : tls_state := set_seq k (SWAP_BE64 (u64 (1 + SWAP_BE64 (write_seq64_be k)))).

(** [body] is the record layer's encryption of [data] under these keys. *)
Definition sealed_with (k : tls_state) (mem : bytes) (gcm : bool) (type : Z) (iv data body : bytes) : Prop :=
  exists w, crypt w = k /\ client_write_MAC_key w = mem /\ aesgcm_flag w = gcm /\ sealed w type iv data body.

(** The random vector of a record, if its suite has one. *)
Definition vector (gcm : bool) (rs : list bytes) (iv : bytes) (rs' : list bytes) : Prop :=
  if gcm then iv = [] /\ rs' = rs else rs = iv :: rs' /\ length iv = 16%nat /\ bytes_ok iv.

Lemma send_encrypted_step s v rs' iv b : view_of s = v -> usable (v_crypt v) (v_mem v) -> is_u64 (write_seq64_be (v_crypt v)) -> vector (v_gcm v) (v_rand v) iv rs' ->
  bytes_ok b -> (length b <= 2 ^ 14)%nat -> forall type, is_u8 type ->
  exists c body sh, send_encrypted ni cpuid_ebx stack b (length b) type s = (Ok tt, set_con c (set_urandom rs' s)) /\
    c = wrote (con s) (hdr type (length body) ++ body) sh /\ sealed_with (v_crypt v) (v_mem v) (v_gcm v) type iv b body /\ readable (con s) b body.
Proof using Hni Hstack.
  intros Hv (U1 & U2 & U3 & U4 & U5 & U6 & _) Hseq Hvec Bb Lb type Ht. unfold send_encrypted. rewrite (bind_ok (gets _) _ s (aesgcm_flag (con s)) s eq_refl).
  assert (writer_ok (con s)) as Hw by (subst v; by split).
  assert ((if aesgcm_flag (con s) then mret [] else tls_get_random AES_BLOCK_SIZE) s = (Ok iv, set_urandom rs' s) /\
    (aesgcm_flag (con s) = false -> length iv = 16%nat /\ bytes_ok iv)) as [E Hiv].
  { subst v. cbn [v_gcm v_rand view_of] in Hvec. unfold vector in Hvec. destruct (aesgcm_flag (con s)).
    - destruct Hvec as [-> ->]. split; [by destruct s|done].
    - destruct Hvec as (Er & L & B). split; [|done]. unfold tls_get_random. rewrite Er. rewrite (proj2 (Nat.eqb_eq _ _)) by done. done. }
  rewrite (bind_ok _ _ _ _ _ E).
  destruct (xwrite_encrypted_spec ni Hni cpuid_ebx (con s) Hw stack Hstack iv Hiv type Ht b Bb Lb) as (body & sh & Ex & Hse & Hrd).
  eexists _, body, sh. split; [unfold update_conn, on_conn; cbn [con set_urandom]; by rewrite Ex|]. split; [done|]. split; [|done]. subst v. by exists (con s).
Qed.

(** The connection after the client's Finished. *)
Record secured (s : tls) (tail : list read_result) (rest : bytes) (v : view) : Prop := {
  s_conn : conn_ok (con s);
  s_stream : stream (con s) tail rest;
  s_min : min_encrypted_len_on_read (con s) = 0%nat;
  s_enc : encrypt_on_write (con s) = true;
  s_hash : is_Some (hsd (con s));
  s_view : view_of s = v }.

Definition with_rand_out (k : tls_state) (rs : list bytes) (out : list bytes) (v : view) : view :=
  View k (v_mem v) (v_gcm v) (v_fl v) (v_params v) (v_hs v) out rs.

(** Steps of the client on a secured connection. *)
Lemma secure_step s tail rest v : idle s tail rest v -> is_Some (hsd (con s)) ->
  exists s', (send_change_cipher_spec ;; set_encrypt_on_write) s = (Ok tt, s') /\
    secured s' tail rest (with_rand_out (v_crypt v) (v_rand v) (v_out v ++ [rec_CHANGE_CIPHER_SPEC]) v) /\ hsd (con s') = hsd (con s).
Proof using. intros [H1 H2 H3 H4 Hv] Hh. eexists. split; [done|]. split; [|done]. split; try done. by rewrite <- Hv. Qed.

Lemma secured_outbuf s tail rest v n : secured s tail rest v -> n <= 2 ^ 14 -> exists s', tls_get_outbuf n s = (Ok tt, s') /\ secured s' tail rest v /\ hsd (con s') = hsd (con s).
Proof using.
  intros [H1 H2 H3 H4 H5 Hv] Hn. unfold tls_get_outbuf. rewrite (proj2 (Z.ltb_ge TLS_MAX_OUTBUF n)) by done. unfold modify.
  destruct (_ <? _); eexists; (split; [done|]); (split; [|done]); by split.
Qed.

Lemma secured_hash s tail rest v ctx m : secured s tail rest v -> hsd (con s) = Some ctx -> bytes_ok m -> HashProps.tracks256 ni ctx m ->
  exists s', end_handshake_hash ni s = (Ok (HashSpec.sha256 m), s') /\ secured s' tail rest v.
Proof using Hni.
  intros [H1 H2 H3 H4 H5 Hv] Hc Bm Ht. unfold end_handshake_hash, on_conn. rewrite Hc. pose proof (HashProps.sha256_end_spec ni ctx m Hni Bm Ht) as Ed.
  destruct (HashMd5Sha.sha1_end ni ctx) as [ctx' digest]. cbn [snd] in Ed. subst digest. eexists. split; [done|]. by split.
Qed.

Lemma secured_prf s tail rest v n secret label seed : secured s tail rest v -> bytes_ok secret -> (length secret <= 64)%nat -> bytes_ok label -> bytes_ok seed ->
  exists s', prf ni cpuid_ebx stack n secret label seed s = (Ok (TlsHmac.PRF secret label seed n), s') /\ secured s' tail rest v.
Proof using Hni Hstack.
  intros [H1 H2 H3 H4 H5 Hv] Hs Ls Hl Hd. unfold prf.
  destruct (TlsHmac.prf_spec ni Hni cpuid_ebx (shaNI (con s)) stack n secret label seed Hstack Hs Ls Hl Hd) as [[sh ->] _]. eexists. split; [done|]. by split.
Qed.

Definition verify_data (master m : bytes) : bytes := TlsHmac.PRF master (bs "client finished") (HashSpec.sha256 m) 12.

Lemma client_finished_step s tail rest m v d rs' iv : ready ni s tail rest m v -> v_hs v = Some d -> bytes_ok m -> bytes_ok (master_secret d) -> length (master_secret d) = 48%nat ->
  usable (v_crypt v) (v_mem v) -> is_u64 (write_seq64_be (v_crypt v)) -> vector (v_gcm v) (v_rand v) iv rs' ->
  exists s' body, (send_change_cipher_spec ;; set_encrypt_on_write ;; send_client_finished ni cpuid_ebx stack) s = (Ok tt, s') /\
    sealed_with (v_crypt v) (v_mem v) (v_gcm v) 22 iv (finished (verify_data (master_secret d) m)) body /\
    secured s' tail rest (with_rand_out (next_seq_state (v_crypt v)) rs' (v_out v ++ [rec_CHANGE_CIPHER_SPEC; hdr 22 (length body) ++ body]) v).
Proof using Hni Hstack.
  intros [Hi (ctx & Hctx & Htr)] Hd Bm Bms Lms Hu Hseq Hvec.
  destruct (secure_step s tail rest v Hi (ex_intro _ ctx Hctx)) as (s2 & E2 & H2 & C2).
  rewrite (bind_assoc' send_change_cipher_spec), (bind_ok _ _ _ _ _ E2). unfold send_client_finished.
  destruct (secured_outbuf _ _ _ _ 16 H2 ltac:(lia)) as (s3 & E3 & H3 & C3). rewrite (bind_ok _ _ _ _ _ E3).
  destruct (secured_hash _ _ _ _ ctx m H3 ltac:(by rewrite C3, C2) Bm Htr) as (s4 & E4 & H4). rewrite (bind_ok _ _ _ _ _ E4).
  assert (hs s4 = Some d) as Hd4 by (destruct H4 as [_ _ _ _ _ Av]; rewrite <- Hd; exact (f_equal v_hs Av)). rewrite (bind_ok _ _ _ _ _ (get_hs_step s4 d Hd4)).
  destruct (TlsHmac.sha256_bytes m) as [Bh Lh].
  destruct (secured_prf _ _ _ _ 12 (master_secret d) (bs "client finished") (HashSpec.sha256 m) H4 Bms ltac:(lia) ltac:(by repeat constructor) Bh) as (s5 & E5 & H5).
  rewrite (bind_ok _ _ _ _ _ E5). fold (verify_data (master_secret d) m).
  destruct (TlsHmac.prf_spec ni Hni cpuid_ebx 0 stack 12 (master_secret d) (bs "client finished") (HashSpec.sha256 m) Hstack Bms ltac:(lia) ltac:(by repeat constructor) Bh)
    as (_ & Lv & Bv). fold (verify_data (master_secret d) m) in Lv, Bv. rewrite finished_bytes by done. set (b := finished _).
  assert (length b = 16%nat) as Lb by (unfold b, finished; by rewrite length_msg, Lv).
  assert (bytes_ok b) as Bb by (unfold b, finished, msg, vec; constructor; [done|]; apply bytes_ok_app; split; [apply be_bytes_ok|done]).
  destruct H5 as [A1 A2 A3 A4 A5 Av].
  destruct (send_encrypted_step s5 _ rs' iv b Av Hu Hseq Hvec Bb) with (type := RECORD_TYPE_HANDSHAKE) as (c & body & sh & E6 & -> & Hse & _);
    [rewrite Lb; apply Nat.leb_le; reflexivity|done|].
  rewrite Lb in E6. eexists _, body. split; [exact E6|]. split; [exact Hse|]. split; try done.
  unfold view_of, with_rand_out in *. injection Av as V1 V2 V3 V4 V5 V6 V7 V8. cbn. rewrite V1, V2, V3, V4, V5, V6, V7. by rewrite <- app_assoc.
Qed.
(** The established connection: encrypting in both directions, without handshake data. *)
Record established (s : tls) (tail : list read_result) (rest : bytes) (v : view) : Prop := {
  e_conn : conn_ok (con s);
  e_stream : stream (con s) tail rest;
  e_min : min_encrypted_len_on_read (con s) = if v_gcm v then 24%nat else 48%nat;
  e_enc : encrypt_on_write (con s) = true;
  e_hash : hsd (con s) = None;
  e_view : view_of s = v }.

Definition without_hs (v : view) : view := View (v_crypt v) (v_mem v) (v_gcm v) (v_fl v) (v_params v) None (v_out v) (v_rand v).

Lemma server_finished_step s tail rest v fb fdata t : secured s tail (rec_CHANGE_CIPHER_SPEC ++ (hdr 22 (length fb) ++ fb) ++ rest) v ->
  (5 + length fb <= MAX_INBUF)%nat -> fdata = 20 :: t -> (4 <= length fdata)%nat ->
  (forall r, crypt r = v_crypt v -> aesgcm_flag r = v_gcm v -> min_encrypted_len_on_read r = (if v_gcm v then 24%nat else 48%nat) -> opens r fb fdata) ->
  exists s', get_server_finished ni s = (Ok tt, s') /\ established s' tail rest (without_hs v).
Proof using.
  intros [H1 H2 H3 H4 [ctx H5] Hv] Hl Ef Lf Hop. unfold get_server_finished. pose proof max_inbuf_value.
  change rec_CHANGE_CIPHER_SPEC with (hdr 20 (length [1]) ++ [1]) in H2. rewrite <- !app_assoc in H2.
  destruct (read_record ni (S (read_fuel (con s))) (con s) tail (hdr 20 (length [1])) [1] [1] (hdr 22 (length fb) ++ fb ++ rest) H1) as (c1 & E1 & (more & Ein) & O1 & S1 & (K1 & K2 & K3 & K4 & U1 & U2 & U3 & U4));
    [apply hdr_header; cbn; lia|done|by apply opens_plain|done|done|apply stream_fuel in H2; lia|].
  rewrite (bind_ok (xread_record ni) _ s 1 (set_con c1 s)) by (unfold xread_record, on_conn; by rewrite E1). cbn [Z.eqb Pos.eqb negb].
  rewrite (bind_ok _ _ _ _ _ (read_at (set_con c1 s) [] (hdr 20 (length [1]) ++ [1]) more 0 6 ltac:(cbn [con set_con]; by rewrite Ein, <- app_assoc) eq_refl eq_refl)).
  rewrite bool_decide_eq_true_2 by done. cbn [negb].
  set (min := if v_gcm v then 24%nat else 48%nat).
  assert (aesgcm_flag c1 = v_gcm v) as G1 by (rewrite K2; exact (f_equal v_gcm Hv)).
  rewrite (bind_ok set_min_encrypted_len _ _ tt (set_con (set_modes (v_gcm v) (encrypt_on_write c1) min c1) (set_con c1 s))).
  2: { unfold set_min_encrypted_len, modify. cbn [con set_con]. rewrite G1. unfold min. by destruct (v_gcm v). }
  set (c2 := set_modes (v_gcm v) (encrypt_on_write c1) min c1).
  destruct (handshake_record c2 tail fb fdata rest ctx O1 Hl S1) as (c3 & E3 & (more3 & Ein3) & O3 & S3 & L1 & L2 & L3 & (M1 & M2 & M3 & M4) & _).
  { apply Hop; [cbn [c2 crypt set_modes]; rewrite K1; exact (f_equal v_crypt Hv)|done|done]. }
  { cbn [c2 hsd set_modes]. by rewrite K4. }
  rewrite (bind_ok (xread_record ni) _ _ (Z.of_nat (length fdata)) (set_con c3 s)) by (unfold xread_record, on_conn; cbn [con set_con]; by rewrite E3).
  destruct (Z.ltb_spec (Z.of_nat (length fdata)) 4); [lia|].
  rewrite (bind_ok _ _ _ _ _ (read_byte (set_con c3 s) (hdr 22 (length fb)) 20 (t ++ more3) RECHDR_LEN ltac:(cbn [con set_con]; by rewrite Ein3, Ef)
    ltac:(unfold hdr; by rewrite length_app, length_be_bytes))). cbn [Z.eqb Pos.eqb negb HANDSHAKE_FINISHED].
  eexists. split; [done|]. split; [exact O3|exact S3| | |done|]; cbn [con set_con set_hs set_hash min_encrypted_len_on_read encrypt_on_write].
  - by rewrite L3.
  - rewrite M1. cbn [c2 encrypt_on_write set_modes]. by rewrite U1.
  - unfold view_of, without_hs in *. subst v. cbn. rewrite L1, L2, M2, M4. cbn [c2 crypt client_write_MAC_key aesgcm_flag output set_modes]. by rewrite K1, U2, U4.
Qed.
End steps.
End TlsHandshakeFacts.
