(* ===== verification/TlsCopyLoop.v ===== *)
(** * The copy loop is a pipe in both directions

    Whatever [poll] reports and in which order, the loop sends what it reads from
    standard input as records that the peer can read, and writes the peer's
    application data to standard output. *)

From S2P Require Import Prelude HashStream HashMd5Sha HashSpec HashProps TlsAes TlsAesGcm TlsHmac TlsRecord TlsRecordProps TlsHandshake TlsReading TlsHandshakeFacts.

Module TlsCopyLoop.
Import TlsAes TlsAesGcm TlsRecord TlsRecordProps TlsHandshake TlsReading.

(** ** What is sent *)

Definition app_record (body : bytes) : bytes := hdr RECORD_TYPE_APPLICATION_DATA (length body) ++ body.

Section loop.
Context (ni : list Z -> bytes -> list Z) (Hni : HashProps.same_block ni) (cpuid_ebx : Z).
Context (stack : TlsHmac.hmac_precomputed_t) (Hstack : TlsHmac.sized stack).

(** Between the states [c] and [c'] the connection wrote [recs], in which a peer
    reads [ds], for every way the network cuts them. *)
Definition carries (c c' : conn) (ds recs : list bytes) : Prop :=
  output c' = output c ++ recs /\
  forall r rest tail fuel, peers c r -> conn_ok r -> stream r tail (concat recs ++ rest) -> (length (concat recs ++ rest) < fuel)%nat ->
    exists r', read_all ni fuel (length ds) r = Ok (ds, r') /\ conn_ok r' /\ stream r' tail rest /\ peers c' r'.

(** What the peer depends on. *)
Definition same_writer (c c' : conn) : Prop :=
  crypt c' = crypt c /\ aesgcm_flag c' = aesgcm_flag c /\ output c' = output c.

Lemma peers_writer c c' r : same_writer c c' -> peers c r -> peers c' r.
Proof using. intros (E1 & E2 & _) [H1 H2 H3 H4]. split; by rewrite ?E1, ?E2. Qed.

Lemma carries_nothing c c' : same_writer c c' -> carries c c' [] [].
Proof using.
  intros H. split; [rewrite app_nil_r; apply H|]. intros r rest tail fuel Hp Ho Hs _. exists r. split; [done|]. split; [done|]. split; [done|].
  by apply (peers_writer c).
Qed.

Lemma read_all_app fuel ds1 ds2 r r1 r2 : read_all ni fuel (length ds1) r = Ok (ds1, r1) -> read_all ni fuel (length ds2) r1 = Ok (ds2, r2) ->
  read_all ni fuel (length (ds1 ++ ds2)) r = Ok (ds1 ++ ds2, r2).
Proof using.
  revert r. induction ds1 as [|d ds1 IH]; intros r; cbn [app length read_all]; [by intros [= ->]|].
  destruct (tls_xread_record ni fuel r) as [[sz r']| |]; cbn [mbind outcome_bind]; [|done..].
  destruct (read_all ni fuel (length ds1) r') as [[ds' r'']| |] eqn:E; cbn [mbind outcome_bind]; [|done..].
  intros [= <- -> ->] E2. by rewrite (IH _ E E2).
Qed.

Lemma carries_trans c1 c2 c3 ds1 ds2 recs1 recs2 : carries c1 c2 ds1 recs1 -> carries c2 c3 ds2 recs2 -> carries c1 c3 (ds1 ++ ds2) (recs1 ++ recs2).
Proof using.
  intros [O1 H1] [O2 H2]. split; [by rewrite O2, O1, app_assoc|]. intros r rest tail fuel Hp Ho Hs Hf. rewrite concat_app, <- app_assoc in Hs, Hf.
  destruct (H1 r (concat recs2 ++ rest) tail fuel Hp Ho Hs Hf) as (r1 & E1 & Ho1 & Hs1 & Hp1).
  destruct (H2 r1 rest tail fuel Hp1 Ho1 Hs1) as (r2 & E2 & P); [rewrite length_app in Hf; lia|].
  exists r2. split; [by apply (read_all_app _ _ _ _ r1)|done].
Qed.

(** One record. *)
Lemma record_fits (d body : bytes) : (length d <= 2 ^ 14)%nat -> (length body <= length d + 64)%nat -> (5 + length body <= MAX_INBUF)%nat.
Proof using. pose proof max_inbuf_value. change (2 ^ 14)%nat with (Z.to_nat (2 ^ 14)). lia. Qed.

Lemma carries_record w d body sh : (length d <= 2 ^ 14)%nat -> readable w d body ->
  carries w (wrote w (app_record body) sh) [d] [app_record body].
Proof using.
  intros Hd [Hl Hop]. split; [done|]. intros r rest tail fuel Hp Ho Hs Hf. cbn [concat] in Hs, Hf. rewrite app_nil_r in Hs, Hf.
  unfold app_record in Hs, Hf. rewrite <- app_assoc in Hs, Hf.
  destruct (read_record ni fuel r tail _ body d rest Ho (hdr_header _ _ (record_fits d body Hd Hl)) Hs (Hop r Hp)) as (r' & E & (more & Ein) & Ho' & Hs' & Hk);
    [done|done|done|].
  exists r'. cbn [length read_all]. rewrite E. cbn [mbind outcome_bind]. rewrite Ein, Nat2Z.id, drop_app_length', take_app_length by done.
  split; [done|]. split; [done|]. split; [done|]. by apply (peers_next w _ r r').
Qed.

(** ** What is received *)

(** The keys and modes that decide how a record is read. *)
Definition same_reader (c r : conn) : Prop :=
  aes_decrypt (crypt r) = aes_decrypt (crypt c) /\ server_write_IV (crypt r) = server_write_IV (crypt c) /\ aesgcm_flag r = aesgcm_flag c /\
  min_encrypted_len_on_read r = min_encrypted_len_on_read c.

#[local] Instance same_reader_preorder : PreOrder same_reader.
Proof. split; [done|]. intros c1 c2 c3 (A1 & A2 & A3 & A4) (B1 & B2 & B3 & B4). unfold same_reader. by rewrite B1, B2, B3, B4. Qed.

Lemma same_keys_reader c c' : same_keys c c' -> same_reader c c'.
Proof using. intros (E1 & E2 & E3 & _). unfold same_reader. by rewrite E1, E2, E3. Qed.

Lemma peers_reader w c r : peers w c -> same_reader c r -> peers w r.
Proof using. intros [H1 H2 H3 H4] (E1 & E2 & E3 & E4). split; by rewrite ?E1, ?E2, ?E3, ?E4. Qed.

Definition incoming (c : conn) (d body : bytes) : Prop :=
  d <> [] /\ (5 + length body <= MAX_INBUF)%nat /\ forall r, same_reader c r -> opens r body d.

Lemma incoming_reader c c' d body : same_reader c c' -> incoming c d body -> incoming c' d body.
Proof using. intros E (H1 & H2 & H3). split; [done|]. split; [done|]. intros r Hr. apply H3. by etrans. Qed.

(** The records of a peer are of this kind. *)
Lemma write_all_incoming msgs : forall w c, writer_ok w -> Forall msg_ok msgs -> Forall (fun m => m.2 <> []) msgs -> peers w c ->
  exists w' bodies, write_all ni cpuid_ebx stack w msgs = Ok w' /\ output w' = output w ++ (app_record <$> bodies) /\
    Forall2 (incoming c) msgs.*2 bodies.
Proof using Hni Hstack.
  induction msgs as [|[iv d] msgs IH]; intros w c Hw Hm Hn Hp; cbn [write_all].
  { exists w, []. split; [done|]. split; [by rewrite app_nil_r|constructor]. }
  apply Forall_cons in Hm as [(Hiv & Hd & Hl) Hm]. apply Forall_cons in Hn as [Hn0 Hn].
  destruct (xwrite_encrypted_spec ni Hni cpuid_ebx w Hw stack Hstack iv (fun _ => Hiv) RECORD_TYPE_APPLICATION_DATA ltac:(done) d Hd Hl)
    as (body & sh & E & _ & Hle & Hop).
  cbn [snd] in *. rewrite E. cbn [mbind outcome_bind]. set (w1 := wrote w _ sh).
  destruct (IH w1 c) as (w' & bodies & E' & Eo & F); [by apply (writer_next w)|done|done|by apply (peers_next w w1 c c)|].
  exists w', (body :: bodies). split; [done|]. split; [rewrite Eo; change (output w1) with (output w ++ [app_record body]); by rewrite <- app_assoc|]. cbn [fmap list_fmap snd]. constructor; [|done].
  split; [done|]. split; [by apply (record_fits d)|]. intros r Hr. apply Hop. by apply (peers_reader w c).
Qed.

(** ** The state of the loop *)

(** What standard input delivers before its first end or error. *)
Fixpoint available (i : list read_result) : bytes :=
  match i with
  | Data (x :: b) :: i => (x :: b) ++ available i
  | _ => []
  end.

Definition unsent (s : loop) : bytes := if stdin_open s then available (stdin s) else [].

Lemma read_available n i : (0 < n)%nat ->
  match safe_read n i with
  | (Some (x :: d), i') => available i = (x :: d) ++ available i' /\ (length (x :: d) <= n)%nat
  | _ => available i = []
  end.
Proof using.
  intros Hn. destruct i as [|[[|x b]|] i]; cbn [safe_read]; [done|by rewrite take_nil| |done].
  destruct n as [|n]; [lia|]. cbn [take]. destruct (Nat.leb_spec (length (x :: b)) (S n)) as [H|H]; cbn [length] in H.
  - rewrite take_ge by lia. split; [done|]. cbn. lia.
  - split; [|cbn; rewrite length_take; lia]. cbn [drop]. destruct (drop n b) as [|y b'] eqn:E.
    { apply (f_equal length) in E. rewrite length_drop in E. cbn in E. lia. }
    change (available (Data (y :: b') :: i)) with ((y :: b') ++ available i). rewrite <- E. cbn [available app].
    by rewrite (app_assoc (take n b)), take_drop.
Qed.

Definition input_bytes (i : list read_result) : Prop := Forall (fun r => match r with Data b => bytes_ok b | Failed => True end) i.

Lemma read_rest_bytes n i : input_bytes i -> input_bytes (safe_read n i).2.
Proof using. intros [|[b|] i' Hb Hi]; [constructor| |done]. cbn. destruct (_ <=? _)%nat; [done|]. constructor; [by apply bytes_ok_drop|done]. Qed.

(** Nothing but the connection is of interest in the TLS state. *)
Definition lcon (s : loop) : conn := con (ltls s).

Record piping (s : loop) (ins bodies : list bytes) : Prop := {
  pp_writer : writer_ok (lcon s);
  pp_conn : conn_ok (lcon s);
  pp_stream : stream (lcon s) [] (concat (app_record <$> bodies));
  pp_ins : Forall2 (incoming (lcon s)) ins bodies;
  pp_size : 1 <= inbuf_size s <= 2 ^ 14;
  pp_stdin : input_bytes (stdin s);
  pp_random : Forall (fun v => length v = 16%nat /\ bytes_ok v) (urandom (ltls s)) }.

(** What the loop did between two states in which standard input was reported
    ready [k] times: the data written to standard output and the pieces of standard
    input sent to the peer, one each time unless standard input has ended. *)
Record moved (k : nat) (s s' : loop) (got sent : list bytes) : Prop := {
  mv_stdout : stdout s' = stdout s ++ got;
  mv_sent : exists recs, carries (lcon s) (lcon s') sent recs;
  mv_unsent : unsent s = concat sent ++ unsent s';
  mv_size : Forall (fun d => 0 < length d <= 2 ^ 14)%nat sent;
  mv_turns : stdin_open s' = true -> stdin_open s = true /\ length sent = k }.

Lemma moved_trans k1 k2 s1 s2 s3 got1 got2 sent1 sent2 : moved k1 s1 s2 got1 sent1 -> moved k2 s2 s3 got2 sent2 ->
  moved (k1 + k2) s1 s3 (got1 ++ got2) (sent1 ++ sent2).
Proof using.
  intros [A1 [r1 A2] A3 A4 A5] [B1 [r2 B2] B3 B4 B5]. split.
  - by rewrite B1, A1, app_assoc.
  - eexists. by eapply carries_trans.
  - by rewrite A3, B3, concat_app, app_assoc.
  - by apply Forall_app.
  - intros [H2 L2]%B5. destruct (A5 H2) as [H1 L1]. rewrite length_app. split; [done|lia].
Qed.

Lemma moved_nothing k s : (stdin_open s = true -> k = 0%nat) -> moved k s s [] [].
Proof using. intros Hk. split; [by rewrite app_nil_r|exists []; by apply carries_nothing|done|constructor|]. intros Ho. split; [done|]. by rewrite (Hk Ho). Qed.

(** ** A turn for standard input *)

(** The next read is larger, within the limit. *)
Lemma larger_ok size : 1 <= size <= 2 ^ 14 -> 1 <= larger size <= 2 ^ 14.
Proof using. intros H. unfold larger, INBUF_STEP, TLS_MAX_OUTBUF. destruct (Z.ltb_spec (2 ^ 14) (size + 4 * 1024)); lia. Qed.

Definition supplied (s : loop) (n : nat) : Prop := aesgcm_flag (lcon s) = false -> (n <= length (urandom (ltls s)))%nat.

(** Sending a piece. *)
Lemma xwrite_step t d : writer_ok (con t) -> bytes_ok d -> (length d <= 2 ^ 14)%nat ->
  Forall (fun v => length v = 16%nat /\ bytes_ok v) (urandom t) -> (aesgcm_flag (con t) = false -> urandom t <> []) ->
  exists t' body sh, tls_xwrite ni cpuid_ebx stack d (length d) t = (Ok tt, t') /\ con t' = wrote (con t) (app_record body) sh /\
    readable (con t) d body /\ Forall (fun v => length v = 16%nat /\ bytes_ok v) (urandom t') /\
    (aesgcm_flag (con t) = false -> length (urandom t) <= S (length (urandom t')))%nat.
Proof using Hni Hstack.
  intros Hw Hd Hl Hv Hr. unfold tls_xwrite, send_encrypted.
  rewrite (bind_ok (gets _) _ t _ t eq_refl).
  assert (exists iv t1, (if aesgcm_flag (con t) then mret [] else tls_get_random AES_BLOCK_SIZE) t = (Ok iv, t1) /\ con t1 = con t /\
    (aesgcm_flag (con t) = false -> length iv = 16%nat /\ bytes_ok iv) /\ Forall (fun v => length v = 16%nat /\ bytes_ok v) (urandom t1) /\
    (aesgcm_flag (con t) = false -> length (urandom t) <= S (length (urandom t1)))%nat) as (iv & t1 & Er & E1 & Hiv & Hv1 & Hc).
  { destruct (aesgcm_flag (con t)) eqn:Hg; [by exists [], t|]. specialize (Hr eq_refl). unfold tls_get_random.
    destruct (urandom t) as [|v vs] eqn:Ev; [done|]. apply Forall_cons in Hv as [[Lv Bv] Hv]. rewrite Lv. by exists v, (set_urandom vs t). }
  rewrite (bind_ok _ _ _ _ _ Er). unfold update_conn, on_conn. rewrite E1.
  destruct (xwrite_encrypted_spec ni Hni cpuid_ebx (con t) Hw stack Hstack iv Hiv RECORD_TYPE_APPLICATION_DATA ltac:(done) d Hd Hl) as (body & sh & -> & _ & Hrd).
  cbn [mbind outcome_bind]. by eexists _, body, sh.
Qed.

Lemma on_stdin_step eof s ins bodies : piping s ins bodies -> stdin_open s = true -> supplied s 1 ->
  exists stop s' sent, on_stdin ni cpuid_ebx stack eof s = (Ok stop, s') /\ piping s' ins bodies /\ moved 1 s s' [] sent /\
    (forall n, supplied s (S n) -> supplied s' n) /\ (stop = true -> eof = true /\ stdin_open s' = false).
Proof using Hni Hstack.
  intros [H1 H2 H3 H4 H5 H6 H7] Hopen Hv. unfold on_stdin. rewrite (bind_ok (gets _) _ s _ s eq_refl).
  assert (exists z, tls_get_outbuf (inbuf_size s) (ltls s) = (Ok tt, set_outbuf_size z (ltls s))) as [z Ez].
  { unfold tls_get_outbuf. rewrite (proj2 (Z.ltb_ge TLS_MAX_OUTBUF (inbuf_size s))) by (unfold TLS_MAX_OUTBUF; lia). unfold modify.
    destruct (_ <? _); [by eexists|]. exists (outbuf_size (ltls s)). by destruct (ltls s). }
  rewrite (bind_ok (in_tls _) _ s tt (set_ltls (set_outbuf_size z (ltls s)) s)) by (unfold in_tls; by rewrite Ez).
  set (s1 := set_ltls _ s). rewrite (bind_ok (gets _) _ s1 _ s1 eq_refl).
  pose proof (read_available (Z.to_nat (inbuf_size s)) (stdin s) ltac:(lia)) as Ha.
  pose proof (fun d i' => safe_read_bytes (Z.to_nat (inbuf_size s)) (stdin s) d i' H6) as Hb. pose proof (read_rest_bytes (Z.to_nat (inbuf_size s)) _ H6) as Hi.
  change (stdin s1) with (stdin s). destruct (safe_read _ _) as [[[|x d]|] i'] eqn:Er.
  1, 3: exists eof; eexists _, []; (split; [reflexivity|]); (split; [by split|]); (split; [|split; [intros n Hs Hg; exact (Nat.lt_le_incl _ _ (Hs Hg))|done]]);
    (split; [by rewrite app_nil_r|exists []; by apply carries_nothing|unfold unsent; by rewrite Hopen|constructor|done]).
  destruct Ha as [Ha Hl]. destruct (Hb _ _ eq_refl) as (Bd & _ & _). set (p := x :: d) in *.
  rewrite (bind_ok (modify _) _ s1 tt _ eq_refl). set (s2 := set_stdin i' true _ s1).
  destruct (xwrite_step (ltls s2) p) as (t' & body & sh & Et & Ec & Hrd & Hv' & Hc); [done|done| |done| |].
  { change (2 ^ 14)%nat with (Z.to_nat (2 ^ 14)). lia. }
  { intros Hg. specialize (Hv Hg). intros E. change (urandom (ltls s2)) with (urandom (ltls s)) in E. rewrite E in Hv. cbn in Hv. lia. }
  rewrite (bind_ok (in_tls _) _ s2 tt (set_ltls t' s2)) by (unfold in_tls; by rewrite Et).
  exists false, (set_ltls t' s2), [p]. split; [reflexivity|]. change (con (ltls s2)) with (lcon s) in *.
  assert (lcon (set_ltls t' s2) = wrote (lcon s) (app_record body) sh) as Ew by done.
  split; [split|split; [split|split; [|done]]]; rewrite ?Ew; try done.
  - by apply (writer_next (lcon s)).
  - change (1 <= (if Z.of_nat (length p) =? inbuf_size s then larger (inbuf_size s) else inbuf_size s) <= 2 ^ 14).
    destruct (_ =? _); [by apply larger_ok|done].
  - by rewrite app_nil_r.
  - exists [app_record body]. apply carries_record; [|done]. change (2 ^ 14)%nat with (Z.to_nat (2 ^ 14)). lia.
  - unfold unsent. rewrite Hopen, Ha. by cbn [concat]; rewrite app_nil_r.
  - constructor; [|constructor]. change (2 ^ 14)%nat with (Z.to_nat (2 ^ 14)). unfold p in *. cbn [length] in *. lia.
  - intros n Hs Hg. unfold supplied in Hs. rewrite Ew in Hg. specialize (Hs Hg). specialize (Hc Hg).
    change (urandom (ltls s2)) with (urandom (ltls s)) in Hc. change (ltls (set_ltls t' s2)) with t'. lia.
Qed.

(** ** A turn for the connection *)

Definition with_conn (c : conn) (s : loop) : loop := set_ltls (set_con c (ltls s)) s.

Lemma framed_moved s c : framed (lcon s) c -> moved 0 s (with_conn c s) [] [].
Proof using.
  intros (E1 & E2 & _ & _ & _ & _ & _ & Eo). split; [by rewrite app_nil_r|exists []; by apply carries_nothing|done|constructor|done].
Qed.

Lemma framed_piping s c ins bodies : framed (lcon s) c -> piping s ins bodies -> conn_ok c -> forall ins' bodies',
  stream c [] (concat (app_record <$> bodies')) -> Forall2 (incoming (lcon s)) ins' bodies' -> piping (with_conn c s) ins' bodies'.
Proof using.
  intros (E1 & E2 & E3 & _ & _ & Ek & _ & _) [H1 H2 H3 H4 H5 H6 H7] Hc ins' bodies' Hs Hi. split; try done.
  - destruct H1 as [W1 W2 W3 W4 W5]. split; cbn; by rewrite ?E1, ?Ek.
  - eapply Forall2_impl; [exact Hi|]. intros d b. apply incoming_reader. unfold same_reader. cbn. by rewrite E1, E2, E3.
Qed.

(** At the end of the peer's data the read returns 0. *)
Lemma read_end c : conn_ok c -> stream c [] [] -> exists c', tls_xread_record ni (S (read_fuel c)) c = Ok (0, c').
Proof using.
  intros [Ho Hm] (chunks & Hc & Hi & Hs). symmetry in Hs. apply app_eq_nil in Hs as [Ht Hcc].
  assert (chunks = []) as ->. { destruct Hc as [|b chunks Hb _]; [done|]. cbn [concat] in Hcc. by apply app_eq_nil in Hcc as [-> _]. }
  assert (buffered_size c = 0%nat) as Eb by (apply (f_equal length) in Ht; rewrite length_take, length_drop in Ht; cbn [length] in Ht; lia).
  cbn [tls_xread_record]. rewrite Eb. cbn [Nat.eqb]. pose proof max_inbuf as Hx. cbn [fill].
  destruct (room c 0) as (inb & Er & Hl & _); [lia|done|lia|]. rewrite Er.
  change (RECHDR_LEN <=? 0)%nat with false. cbn [andb]. rewrite (proj2 (Nat.leb_gt MAX_INBUF 0)) by lia.
  change (input (set_inbuf inb c)) with (input c). rewrite Hi. cbn [fmap list_fmap app safe_read Nat.eqb mbind outcome_bind]. by eexists.
Qed.

Lemma on_network_step fuel : forall s ins bodies, piping s ins bodies -> (length (concat (app_record <$> bodies)) < fuel)%nat ->
  exists stop s' n, on_network ni fuel s = (Ok stop, s') /\ (n <= length ins)%nat /\ moved 0 s s' (take n ins) [] /\
    (forall k, supplied s k -> supplied s' k) /\ (stop = true -> n = length ins) /\
    (stop = false -> (0 < n)%nat /\ piping s' (drop n ins) (drop n bodies)).
Proof using.
  induction fuel as [|fuel IH]; intros s ins bodies Hp Hf; [lia|]. cbn [on_network]. pose proof Hp as [H1 H2 H3 H4 H5 H6 H7].
  destruct H4 as [|d body ins bodies (Hd & Hl & Hop) H4].
  { destruct (read_end _ H2 H3) as (c' & E). exists true, (with_conn c' s), 0%nat.
    rewrite (bind_ok (in_tls _) _ s 0 (with_conn c' s)) by (unfold in_tls, xread_record, on_conn; fold (lcon s); by rewrite E).
    split; [done|]. split; [done|]. split; [by apply framed_moved; eapply xread_framed|].
    split; [|done]. intros k Hk Hg. apply Hk. apply xread_framed in E as (_ & E2 & _). by rewrite <- E2. }
  cbn [fmap list_fmap concat] in H3, Hf. unfold app_record at 1 in H3. unfold app_record at 1 in Hf. rewrite <- app_assoc in H3, Hf.
  set (rest := concat (app_record <$> bodies)) in *.
  destruct (read_record ni (S (read_fuel (lcon s))) (lcon s) [] _ body d rest H2 (hdr_header _ _ Hl) H3 (Hop _ (reflexivity _)))
    as (c' & E & (more & Ein) & Hok' & Hs' & _); [done|done|pose proof (TlsHandshakeFacts.stream_fuel _ _ _ H3); lia|].
  pose proof (xread_framed _ _ _ _ _ E) as Hfr. set (s1 := with_conn c' s).
  rewrite (bind_ok (in_tls _) _ s (Z.of_nat (length d)) s1) by (unfold in_tls, xread_record, on_conn; fold (lcon s); by rewrite E).
  assert (length d <> 0%nat) as Hd0 by (by destruct d). destruct (Z.ltb_spec (Z.of_nat (length d)) 1); [lia|].
  destruct (TlsHandshakeFacts.hdr_cons RECORD_TYPE_APPLICATION_DATA (length body)) as (h & Eh & Lh).
  rewrite (bind_ok (in_tls _) _ s1 RECORD_TYPE_APPLICATION_DATA s1)
    by (unfold in_tls; rewrite (TlsHandshakeFacts.read_byte (ltls s1) [] RECORD_TYPE_APPLICATION_DATA (h ++ d ++ more)); [reflexivity|rewrite Eh in Ein; exact Ein|done]).
  cbn [negb Z.eqb RECORD_TYPE_APPLICATION_DATA Pos.eqb].
  rewrite (bind_ok (in_tls _) _ s1 d s1)
    by (unfold in_tls; rewrite (TlsHandshakeFacts.read_at (ltls s1) _ d more _ _ Ein); [reflexivity|done|lia]).
  rewrite (bind_ok (modify _) _ s1 tt _ eq_refl). set (s2 := set_stdout _ s1). rewrite (bind_ok (gets _) _ s2 _ s2 eq_refl).
  assert (moved 0 s s2 [d] []) as Hmv by (destruct (framed_moved s c' Hfr) as [A1 A2 A3 A4 A5]; by split).
  assert (piping s2 ins bodies) as Hp2 by (destruct (framed_piping s c' _ _ Hfr Hp Hok' ins bodies Hs' H4); by split).
  assert (forall k, supplied s k -> supplied s2 k) as Hsup by (intros k Hk Hg; apply Hk; destruct Hfr as (_ & Eg & _); by rewrite <- Eg).
  destruct (_ =? 0)%nat.
  { exists false, s2, 1%nat. split; [done|]. split; [cbn; lia|]. split; [done|]. split; [done|]. split; [done|]. intros _. split; [lia|done]. }
  destruct (IH s2 ins bodies Hp2) as (stop & s' & n & En & Hn & Hm & Hk & Ht & Hff); [fold rest; rewrite !length_app in Hf; cbn in Hf; lia|].
  exists stop, s', (S n). split; [done|]. split; [cbn; lia|]. split; [exact (moved_trans 0 0 _ _ _ [d] _ [] [] Hmv Hm)|]. split; [auto|].
  split; [intros; cbn; auto|]. intros Hst. destruct (Hff Hst). split; [lia|done].
Qed.

(** ** The loop *)

Definition network_turns (polls : list (option (bool * bool))) : nat :=
  sum_list ((fun p => match p with Some (_, true) => 1 | _ => 0 end)%nat <$> polls).

Definition stdin_turns (polls : list (option (bool * bool))) : nat :=
  sum_list ((fun p => match p with Some (true, _) => 1 | _ => 0 end)%nat <$> polls).

Lemma stdin_turn eof (ready0 : bool) s ins bodies : piping s ins bodies -> supplied s 1 ->
  exists stop s' sent, (if ready0 && stdin_open s then on_stdin ni cpuid_ebx stack eof else mret false) s = (Ok stop, s') /\ piping s' ins bodies /\
    moved (if ready0 then 1 else 0) s s' [] sent /\ (forall n, supplied s (S n) -> supplied s' n) /\ (stop = true -> eof = true /\ stdin_open s' = false).
Proof using Hni Hstack.
  intros Hp Hs. destruct (ready0 && stdin_open s) eqn:Eb; [apply andb_prop in Eb as [-> Ho]; by apply on_stdin_step|].
  exists false, s, []. split; [done|]. split; [done|]. split; [apply moved_nothing; intros Ho; rewrite Ho, andb_true_r in Eb; by rewrite Eb|]. split; [|done].
  intros n Hn Hg. exact (Nat.lt_le_incl _ _ (Hn Hg)).
Qed.

Lemma turn_step eof ready0 ready1 s ins bodies : piping s ins bodies -> supplied s 1 ->
  exists stop s' n sent, loop_turn ni cpuid_ebx stack eof (Some (ready0, ready1)) s = (Ok stop, s') /\ (n <= length ins)%nat /\
    moved (if ready0 then 1 else 0) s s' (take n ins) sent /\ (forall k, supplied s (S k) -> supplied s' k) /\
    (stop = true -> n = length ins \/ eof = true /\ stdin_open s' = false) /\
    (stop = false -> (if ready1 then 0 < n else n = 0)%nat /\ piping s' (drop n ins) (drop n bodies)).
Proof using Hni Hstack.
  intros Hp Hs. unfold loop_turn. rewrite (bind_ok (gets _) _ s _ s eq_refl).
  destruct (stdin_turn eof ready0 s ins bodies Hp Hs) as (stop & s1 & sent & E & Hp1 & Hm & Hk & Ht). rewrite (bind_ok _ _ _ _ _ E).
  destruct stop; [|destruct ready1]; [exists true, s1, 0%nat, sent|  |exists false, s1, 0%nat, sent].
  1, 3: split; [done|]; split; [lia|]; split; [done|]; split; [done|]; split; [by auto|done].
  rewrite (bind_ok (gets _) _ s1 _ s1 eq_refl).
  destruct (on_network_step (read_fuel (lcon s1)) s1 ins bodies Hp1) as (stop & s' & n & En & Hn & Hm' & Hk' & Ht' & Hff).
  { apply TlsHandshakeFacts.stream_fuel with (tail := []), Hp1. }
  exists stop, s', n, sent. split; [done|]. split; [done|].
  split; [pose proof (moved_trans _ _ _ _ _ [] _ _ [] Hm Hm') as P; by rewrite app_nil_r, Nat.add_0_r in P|]. split; [auto|]. split; [auto|done].
Qed.

Lemma loop_run eof polls : forall s ins bodies, piping s ins bodies -> supplied s (length polls) -> Forall is_Some polls ->
  exists stop s' n sent m, tls_run_copy_loop ni cpuid_ebx stack eof polls s = (Ok stop, s') /\ (n <= length ins)%nat /\
    moved (stdin_turns (take m polls)) s s' (take n ins) sent /\
    (stop = true -> n = length ins \/ eof = true /\ stdin_open s' = false) /\
    (stop = false -> (network_turns polls <= n)%nat /\ take m polls = polls) /\
    (forall m', (m' < m)%nat -> exists s1, tls_run_copy_loop ni cpuid_ebx stack eof (take m' polls) s = (Ok false, s1)).
Proof using Hni Hstack.
  induction polls as [|p polls IH]; intros s ins bodies Hp Hs Hpo; cbn [tls_run_copy_loop].
  { exists false, s, 0%nat, [], 0%nat. split; [done|]. split; [lia|]. split; [by apply moved_nothing|]. split; [done|]. split; [done|]. lia. }
  apply Forall_cons in Hpo as [[[ready0 ready1] ->] Hpo].
  destruct (turn_step eof ready0 ready1 s ins bodies Hp) as (stop & s1 & n & sent & E & Hn & Hm & Hk & Ht & Hf).
  { intros Hg. specialize (Hs Hg). cbn in Hs. lia. }
  assert (forall l, stdin_turns (Some (ready0, ready1) :: l) = (if ready0 then 1 else 0) + stdin_turns l)%nat as Hst1 by (intros l; by destruct ready0).
  rewrite (bind_ok _ _ _ _ _ E). destruct stop.
  { exists true, s1, n, sent, 1%nat. split; [done|]. split; [done|].
    split; [cbn [take]; rewrite Hst1; by rewrite Nat.add_0_r|]. split; [done|]. split; [done|]. intros [|m']; [by eexists|lia]. }
  destruct (Hf eq_refl) as [Hn0 Hp1].
  destruct (IH s1 (drop n ins) (drop n bodies) Hp1 (Hk _ Hs) Hpo) as (stop & s' & n' & sent' & m & E' & Hn' & Hm' & Ht' & Hf' & Hr').
  rewrite length_drop in Hn', Ht'. exists stop, s', (n + n')%nat, (sent ++ sent'), (S m). split; [done|]. split; [lia|].
  split; [pose proof (moved_trans _ _ _ _ _ _ _ _ _ Hm Hm') as P; rewrite take_take_drop in P; cbn [take]; by rewrite Hst1|].
  split; [intros Hst; destruct (Ht' Hst); [left; lia|by right]|]. split.
  - intros Hst. destruct (Hf' Hst) as [Hf1 Hf2]. split; [unfold network_turns in *; cbn; destruct ready1; lia|]. cbn [take]. by rewrite Hf2.
  - intros [|m'] Hlt; [by eexists|]. cbn [take tls_run_copy_loop]. rewrite (bind_ok _ _ _ _ _ E). apply Hr'. lia.
Qed.

End loop.

(** ** An example *)

End TlsCopyLoop.
