(* ===== verification/TlsOrder.v ===== *)
(** * The order of the client's messages, for any server

    Whatever the peer sends, what the client has written when the handshake ends,
    fails or is undefined is a beginning of the sequence of messages of RFC 5246,
    and all of it when the handshake returns. *)

From S2P Require Import Prelude HashStream HashMd5Sha TlsAes TlsAesGcm TlsHmac TlsRecord TlsRecordProps Sp256 TlsDer TlsHandshake TlsReading TlsMessages.

Module TlsOrder.
Import TlsAesGcm TlsRecord TlsRecordProps TlsHandshake TlsReading TlsMessages.

(** ** Sequences of records *)

(** The records are of the given kinds, in order; if [complete], all of them. *)
Fixpoint follows (kinds : list (bytes -> Prop)) (recs : list bytes) (complete : bool) : Prop :=
  match kinds, recs with
  | _, [] => complete = true -> kinds = []
  | k :: kinds, r :: recs => k r /\ follows kinds recs complete
  | [], _ :: _ => False
  end.

Lemma follows_app k1 k2 r1 r2 b : follows k1 r1 true -> follows k2 r2 b -> follows (k1 ++ k2) (r1 ++ r2) b.
Proof.
  revert r1. induction k1 as [|k k1 IH]; intros [|r r1]; cbn; [done|done|by intros H; specialize (H eq_refl)|]. intros [H1 H2] H. auto.
Qed.

Lemma follows_stop k1 k2 r1 : follows k1 r1 false -> follows (k1 ++ k2) r1 false.
Proof. revert r1. induction k1 as [|k k1 IH]; intros [|r r1]; cbn; [by destruct k2|done|done|]. intros [H1 H2]. auto. Qed.

Lemma follows_partial k r b : follows k r b -> follows k r false.
Proof. revert r. induction k as [|x k IH]; intros [|y r]; cbn; [done|done|done|]. intros [H1 H2]. auto. Qed.

Lemma follows_nothing b : follows [] [] b.
Proof. done. Qed.

(** ** What a part of the handshake writes *)

Definition written (s : tls) : list bytes := output (con s).
Definition is_ok {A} (r : outcome A) : bool := match r with Ok _ => true | _ => false end.

(** [m] writes records of the given [kinds], and keeps the mode of writing. *)
Definition emits {A} (enc : bool) (kinds : list (bytes -> Prop)) (m : M tls A) : Prop :=
  forall s, encrypt_on_write (con s) = enc ->
    encrypt_on_write (con (m s).2) = enc /\ exists recs, written (m s).2 = written s ++ recs /\ follows kinds recs (is_ok (m s).1).

Lemma emits_bind {A B} enc k1 k2 (m : M tls A) (f : A -> M tls B) : emits enc k1 m -> (forall a, emits enc k2 (f a)) -> emits enc (k1 ++ k2) (m ≫= f).
Proof.
  intros Hm Hf s Hs. destruct (Hm s Hs) as (He & r1 & E1 & F1). unfold mbind, M_bind. destruct (m s) as [[a|e|] s1]; cbn [fst snd is_ok] in *.
  - destruct (Hf a s1 He) as (He' & r2 & E2 & F2). split; [done|]. exists (r1 ++ r2). split; [by rewrite E2, E1, app_assoc|by apply follows_app].
  - split; [done|]. exists r1. split; [done|by apply follows_stop].
  - split; [done|]. exists r1. split; [done|by apply follows_stop].
Qed.

(** Silent parts. *)
Definition quiet (s s' : tls) : Prop := written s' = written s /\ encrypt_on_write (con s') = encrypt_on_write (con s).

#[export] Instance quiet_preorder : PreOrder quiet.
Proof. split; [done|]. intros s1 s2 s3 [A1 A2] [B1 B2]. split; congruence. Qed.

Lemma emits_quiet {A} enc (m : M tls A) : preserves quiet m -> emits enc [] m.
Proof.
  intros H s Hs. destruct (H s) as [E1 E2]. split; [congruence|]. exists []. split; [by rewrite app_nil_r|apply follows_nothing].
Qed.

Lemma emits_then {A B} enc k (m : M tls A) (f : A -> M tls B) : preserves quiet m -> (forall a, emits enc k (f a)) -> emits enc k (m ≫= f).
Proof. intros Hm. apply (emits_bind enc [] k). by apply emits_quiet. Qed.

(** The same with what is known of the result. *)
Lemma emits_with {A B} (Q : A -> Prop) enc k (m : M tls A) (f : A -> M tls B) : preserves quiet m -> (forall s a s', m s = (Ok a, s') -> Q a) ->
  (forall a, Q a -> emits enc k (f a)) -> emits enc k (m ≫= f).
Proof.
  intros Hm HQ Hf s Hs. destruct (Hm s) as [E1 E2]. unfold mbind, M_bind. destruct (m s) as [[a|e|] s1] eqn:E; cbn [fst snd is_ok] in *.
  - destruct (Hf a (HQ _ _ _ E) s1 ltac:(congruence)) as (He' & r2 & E3 & F). split; [done|]. exists r2. by rewrite E3, E1.
  - split; [congruence|]. exists []. split; [by rewrite app_nil_r|]. by destruct k.
  - split; [congruence|]. exists []. split; [by rewrite app_nil_r|]. by destruct k.
Qed.

Lemma emits_before {A B} enc k (m : M tls A) (f : A -> M tls B) : emits enc k m -> (forall a, preserves quiet (f a)) -> emits enc k (m ≫= f).
Proof. intros Hm Hf. rewrite <- (app_nil_r k). apply emits_bind; [done|]. intros a. by apply emits_quiet. Qed.

Lemma quiet_conn {A} (f : conn -> outcome (A * conn)) :
  (forall c a c', f c = Ok (a, c') -> output c' = output c /\ encrypt_on_write c' = encrypt_on_write c) -> preserves quiet (on_conn f).
Proof. intros H s. unfold on_conn. destruct (f (con s)) as [[a c']| |] eqn:E; [|done..]. exact (H _ _ _ E). Qed.

Section order.
Context (ni : list Z -> bytes -> list Z) (cpuid_ebx : Z) (stack : TlsHmac.hmac_precomputed_t) (stack_point : Sp256.sp_point) `{SP : Sp256.SpArith}.

Lemma quiet_xread : preserves quiet (xread_record ni).
Proof using. apply quiet_conn. intros c a c' E. apply xread_framed in E as (_ & _ & _ & _ & E1 & _ & _ & E2). done. Qed.

Lemma quiet_die {A} : preserves quiet (die : M tls A).
Proof using. done. Qed.

Lemma quiet_bytes i n : preserves quiet (inbuf_bytes i n).
Proof using. intros s. unfold inbuf_bytes. by destruct (_ <=? _)%nat. Qed.

Lemma quiet_get_hs : preserves quiet get_hs.
Proof using. intros s. unfold get_hs. by destruct (hs s). Qed.

Lemma quiet_put_hs d : preserves quiet (put_hs d).
Proof using. done. Qed.

Lemma quiet_random n : preserves quiet (tls_get_random n).
Proof using. intros s. unfold tls_get_random. destruct (urandom s); [done|]. by destruct (_ =? _)%nat. Qed.

Lemma quiet_outbuf n : preserves quiet (tls_get_outbuf n).
Proof using. unfold tls_get_outbuf. preserves; [done|]. apply preserves_modify. intros s. by destruct (_ <? _). Qed.

Lemma quiet_prf n secret label seed : preserves quiet (prf ni cpuid_ebx stack n secret label seed).
Proof using. intros s. unfold prf. by destruct (TlsHmac.prf_hmac_sha256 _ _ _ _ _ _ _ _) as [[? ?]|]. Qed.
End order.
#[local] Hint Resolve quiet_xread quiet_die quiet_bytes quiet_get_hs quiet_put_hs quiet_random quiet_outbuf quiet_prf : preserves.

Section parts.
Context (ni : list Z -> bytes -> list Z) (cpuid_ebx : Z) (stack : TlsHmac.hmac_precomputed_t) (stack_point : Sp256.sp_point) `{SP : Sp256.SpArith}.

(** ** Reading the server's messages *)

Lemma quiet_byte i : preserves quiet (inbuf_byte i).
Proof using. unfold inbuf_byte. preserves. Qed.
#[local] Hint Resolve quiet_byte : preserves.

Lemma quiet_block n : preserves quiet (tls_xread_handshake_block ni n).
Proof using. unfold tls_xread_handshake_block. preserves. Qed.
#[local] Hint Resolve quiet_block : preserves.

Lemma quiet_hello : preserves quiet (get_server_hello ni).
Proof using.
  unfold get_server_hello. preserves. apply preserves_modify. intros s. by destruct (suite_params _ _ _) as [[? ?] ?].
Qed.

Lemma quiet_cert : preserves quiet (get_server_cert ni).
Proof using. unfold get_server_cert. preserves; by apply preserves_modify. Qed.

Lemma quiet_server_key n : preserves quiet (process_server_key n).
Proof using. unfold process_server_key, got_ec_key. preserves; by apply preserves_modify. Qed.
#[local] Hint Resolve quiet_hello quiet_cert quiet_server_key : preserves.

Lemma quiet_flight : preserves quiet (get_server_flight ni).
Proof using. unfold get_server_flight, when. preserves. Qed.

Lemma quiet_finished : preserves quiet (get_server_finished ni).
Proof using. unfold get_server_finished, set_min_encrypted_len, free_hsd. preserves; by apply preserves_modify. Qed.

(** ** The client's messages *)

Definition hello_record (rec : bytes) : Prop :=
  exists rand name, length rand = 32%nat /\ let b := client_hello rand name in rec = hdr 22 (length b) ++ b.
Definition certificate_record (rec : bytes) : Prop := rec = hdr 22 7 ++ empty_certificate.
(** The length is that of the encrypted key, or follows from an error code. *)
Definition key_exchange_record (rec : bytes) : Prop :=
  exists n t, rec = record_hdr RECORD_TYPE_HANDSHAKE (Z.of_nat n) ++ take n (HANDSHAKE_CLIENT_KEY_EXCHANGE :: t).
Definition change_cipher_record (rec : bytes) : Prop := rec = rec_CHANGE_CIPHER_SPEC.
(** A record of an encrypting connection around a Finished message. *)
Definition finished_record (rec : bytes) : Prop :=
  exists c c' iv verify, encrypt_on_write c = true /\
    xwrite_encrypted ni cpuid_ebx c stack iv ([HANDSHAKE_FINISHED; 0; 0; 12] ++ verify) 16 RECORD_TYPE_HANDSHAKE = Ok c' /\ output c' = output c ++ [rec].

(** A message before the change of cipher. *)
Lemma emits_plain buf n (K : bytes -> Prop) : K (record_hdr RECORD_TYPE_HANDSHAKE (Z.of_nat n) ++ take n buf) ->
  emits false [K] (send_and_hash ni cpuid_ebx stack buf n).
Proof using.
  intros HK s Hs. unfold send_and_hash. rewrite (bind_ok (gets _) _ s _ s eq_refl), Hs.
  unfold update_conn, on_conn, xwrite_and_update_handshake_hash, hash_handshake. rewrite Hs. cbn [negb].
  change (hsd (xwrite_handshake_record (con s) buf n)) with (hsd (con s)).
  destruct (hsd (con s)); cbn [mbind outcome_bind fst snd is_ok]; (split; [done|]).
  - eexists. split; [done|]. by split.
  - exists []. split; [by rewrite app_nil_r|done].
Qed.

Lemma quiet_zeroed n : preserves quiet (tls_get_zeroed_outbuf n).
Proof using. unfold tls_get_zeroed_outbuf. preserves. Qed.

Lemma zeroed_value n s r s' : tls_get_zeroed_outbuf n s = (Ok r, s') -> r = replicate (Z.to_nat n) 0.
Proof using.
  unfold tls_get_zeroed_outbuf, mbind, M_bind. destruct (tls_get_outbuf n s) as [[[]| |] s1]; [|done..]. by intros [= <- _].
Qed.

Lemma random_value n s r s' : tls_get_random n s = (Ok r, s') -> length r = n.
Proof using.
  unfold tls_get_random. destruct (urandom s) as [|v vs]; [done|]. destruct (Nat.eqb_spec (length v) n); [|done]. by intros [= <- _].
Qed.

Lemma emits_hello sni : emits false [hello_record] (send_client_hello_and_alloc_hsd ni cpuid_ebx stack sni).
Proof using.
  unfold send_client_hello_and_alloc_hsd. set (name := sni_bytes sni).
  assert (length name <= 122)%nat as Ln by (unfold name, sni_bytes; destruct sni; [rewrite length_take|cbn]; lia).
  eapply emits_with; [apply quiet_zeroed|apply zeroed_value|]. intros record ->.
  eapply emits_with; [apply quiet_random|apply random_value|]. intros rand Lr.
  destruct (client_hello_bytes rand name Lr Ln) as (Ech & Hl & Hlen). set (len := Z.of_nat sizeof_client_hello + 2 + _) in *. rewrite Ech.
  apply emits_then; [apply quiet_put_hs|]. intros _. apply emits_then.
  { apply quiet_conn. intros c a c'. by destruct (HashMd5Sha.sha256_begin _ _ _) as [ctx sh]; intros [= _ <-]. }
  intros _. rewrite Hl. apply emits_plain. exists rand, name. split; [done|]. cbn zeta. rewrite take_ge by lia.
  rewrite record_hdr_spec by (done || lia). done.
Qed.

Lemma emits_certificate : emits false [certificate_record] (send_empty_client_cert ni cpuid_ebx stack).
Proof using.
  unfold send_empty_client_cert. eapply emits_with; [apply quiet_zeroed|apply zeroed_value|]. intros record ->.
  rewrite empty_certificate_bytes. apply emits_plain. unfold certificate_record. change 7%nat with (length empty_certificate) at 2 3.
  rewrite take_ge by done. by rewrite record_hdr_spec.
Qed.

Lemma quiet_client_key : preserves quiet (client_key stack_point).
Proof using. unfold client_key, rsa_encrypt_premaster. preserves. Qed.

Lemma quiet_install p block : preserves quiet (install_keys p block).
Proof using.
  unfold install_keys, update_conn. apply quiet_conn. intros c u c'. cbn zeta.
  destruct (TlsAes.aes_encrypt_one_block _ _); cbn [mbind outcome_bind]; [|done..]. by intros [= _ <-].
Qed.

Lemma emits_key_exchange : emits false [key_exchange_record] (send_client_key_exchange ni cpuid_ebx stack stack_point).
Proof using.
  unfold send_client_key_exchange. eapply emits_with; [apply quiet_zeroed|apply zeroed_value|]. intros record ->.
  apply emits_then; [apply quiet_client_key|]. intros [[key len] premaster]. apply emits_before.
  - destruct (_ <? 0); [|apply emits_plain; by eexists _, _].
    intros s Hs. split; [done|]. exists []. split; [by rewrite app_nil_r|done].
  - intros _. preserves. apply quiet_install.
Qed.

Lemma emits_change : emits false [change_cipher_record] send_change_cipher_spec.
Proof using. intros s Hs. split; [done|]. eexists. split; [done|]. by split. Qed.


Lemma xwrite_encrypted_appends c iv buf n type c' : xwrite_encrypted ni cpuid_ebx c stack iv buf n type = Ok c' ->
  encrypt_on_write c' = encrypt_on_write c /\ exists rec, output c' = output c ++ [rec].
Proof using.
  unfold xwrite_encrypted. destruct (aesgcm_flag c).
  - destruct (xwrite_encrypted_aesgcm _ _ _ _) as [[rec st]| |]; cbn [mbind outcome_bind]; [|done..]. intros [= <-]. split; [done|by exists rec].
  - unfold xwrite_encrypted_and_hmac_signed. destruct (TlsHmac.hmac _ _ _ _ _ _) as [[mac sh]|]; [|done].
    destruct (TlsAes.aes_cbc_encrypt _ _ _); cbn [mbind outcome_bind]; [|done..]. intros [= <-]. split; [done|by eexists].
Qed.

Lemma quiet_hash_end : preserves quiet (end_handshake_hash ni).
Proof using.
  apply quiet_conn. intros c a c'. destruct (hsd c); [|done]. destruct (HashMd5Sha.sha1_end _ _). by intros [= _ <-].
Qed.

Lemma emits_finished : emits true [finished_record] (send_client_finished ni cpuid_ebx stack).
Proof using.
  unfold send_client_finished, send_encrypted. apply emits_then; [apply quiet_outbuf|]. intros _. apply emits_then; [apply quiet_hash_end|]. intros hash.
  apply emits_then; [apply quiet_get_hs|]. intros d. apply emits_then; [apply quiet_prf|]. intros verify.
  apply emits_then; [auto with preserves|]. intros gcm. apply emits_then; [preserves|]. intros iv.
  intros s Hs. unfold update_conn, on_conn. set (data := fill_handshake_record_hdr _ _ _ ++ verify).
  destruct (xwrite_encrypted ni cpuid_ebx (con s) stack iv data 16 RECORD_TYPE_HANDSHAKE) as [c'| |] eqn:E; cbn [mbind outcome_bind fst snd is_ok].
  - destruct (xwrite_encrypted_appends _ _ _ _ _ _ E) as (He & rec & Ho). split; [cbn; congruence|]. exists [rec]. split; [done|]. split; [|done].
    by exists (con s), c', iv, verify.
  - split; [done|]. exists []. split; [by rewrite app_nil_r|done].
  - split; [done|]. exists []. split; [by rewrite app_nil_r|done].
Qed.

(** ** What the server asks for *)

(** The type of the message in the next record, and the connection after it. *)
Definition next_message (c : conn) : option (Z * conn) :=
  match tls_xread_record ni (S (read_fuel c)) c with
  | Ok (_, c') => Some (byte_at (inbuf c') 5, c')
  | _ => None
  end.

(** After its Certificate the server sends a CertificateRequest (13), possibly
    after a ServerKeyExchange (12) (RFC 5246, 7.3 and 7.4). *)
Definition certificate_requested (c : conn) : bool :=
  match next_message c with
  | Some (t, c1) => (t =? 13) || (t =? 12) && match next_message c1 with Some (t, _) => t =? 13 | None => false end
  | None => false
  end.

Lemma block_next s len s' : tls_xread_handshake_block ni 4 s = (Ok len, s') ->
  exists c', next_message (con s) = Some (byte_at (inbuf c') 5, c') /\ s' = set_con c' s.
Proof using.
  unfold tls_xread_handshake_block, next_message, xread_record, mbind, M_bind, on_conn.
  destruct (tls_xread_record ni _ (con s)) as [[n c']| |]; [|done..]. intros H. exists c'. split; [done|].
  revert H. unfold inbuf_byte, inbuf_bytes, mbind, M_bind, die, throw, mret, M_ret, lift. repeat case_match; naive_solver.
Qed.

Lemma byte_value s i v s' : inbuf_byte i s = (Ok v, s') -> v = byte_at (inbuf (con s)) i /\ s' = s.
Proof using.
  unfold inbuf_byte, inbuf_bytes, mbind, M_bind. destruct (_ <=? _)%nat; [|done]. intros [= <- <-]. split; [|done].
  unfold byte_at. rewrite lookup_total_take_lt by lia. by rewrite lookup_total_drop, Nat.add_0_r.
Qed.

(** Running the first of two parts. *)
Lemma bind_inv {A B} (m : M tls A) (f : A -> M tls B) s r s' : (m ≫= f) s = (Ok r, s') -> exists a s1, m s = (Ok a, s1) /\ f a s1 = (Ok r, s').
Proof using. unfold mbind, M_bind. destruct (m s) as [[a| |] s1]; [|done..]. by exists a, s1. Qed.

(** The key of the server is kept in the handshake data. *)
Definition same_conn (s s' : tls) : Prop := con s' = con s.

#[local] Instance same_conn_preorder : PreOrder same_conn.
Proof. split; [done|]. intros s1 s2 s3 H1 H2. unfold same_conn in *. congruence. Qed.

Lemma server_key_conn n : preserves same_conn (process_server_key n).
Proof using.
  assert (forall i k, preserves same_conn (inbuf_bytes i k)) as Hb by (intros i k s; unfold inbuf_bytes; by destruct (_ <=? _)%nat).
  assert (preserves same_conn get_hs) as Hg by (intros s; unfold get_hs; by destruct (hs s)).
  unfold process_server_key, got_ec_key, inbuf_byte. preserves; try apply Hb; try apply Hg; try done; by apply preserves_modify.
Qed.

Lemma flight_result s b s' : get_server_flight ni s = (Ok b, s') -> b = certificate_requested (con s).
Proof using.
  unfold get_server_flight. intros (len & s1 & E1 & (type & s2 & E2 & ([] & s3 & E3 & (type2 & s4 & E4 & H)%bind_inv)%bind_inv)%bind_inv)%bind_inv.
  apply block_next in E1 as (c1 & N1 & ->). apply byte_value in E2 as [-> ->]. apply byte_value in E4 as [-> ->].
  assert (b = (byte_at (inbuf (con s3)) 5 =? 13)) as ->.
  { apply bind_inv in H as ([] & s5 & _ & (type3 & s6 & _ & H)%bind_inv). revert H. destruct (negb _); [done|]. by intros [= <- _]. }
  clear H. unfold certificate_requested. rewrite N1. change (con (set_con c1 s)) with c1 in *. change RECHDR_LEN with 5%nat in *.
  revert E3. change HANDSHAKE_SERVER_KEY_EXCHANGE with 12. destruct (Z.eqb_spec (byte_at (inbuf c1) 5) 12) as [E12|_].
  - rewrite E12. change (12 =? 13) with false. cbn [orb andb].
    intros (f & s4 & [= <- <-] & ([] & s5 & E5 & (l & s6 & E6 & E7)%bind_inv)%bind_inv)%bind_inv. injection E7 as <-.
    assert (con s5 = c1) as Ec.
    { assert (preserves same_conn (when (NEED_EC_KEY (fl s)) (process_server_key len))) as Hp by (unfold when; case_match; [apply server_key_conn|done]).
      specialize (Hp (set_con c1 s)). by rewrite E5 in Hp. }
    apply block_next in E6 as (c2 & N2 & ->). rewrite Ec in N2. by rewrite N2.
  - intros [= <-]. by rewrite orb_false_r.
Qed.

(** ** The whole handshake *)

(** [m] writes the records of a sequence, and encrypts when it returns. *)
Definition sends {A} (kinds : list (bytes -> Prop)) (m : M tls A) : Prop :=
  forall s, encrypt_on_write (con s) = false ->
    (is_ok (m s).1 = true -> encrypt_on_write (con (m s).2) = true) /\
    exists recs, written (m s).2 = written s ++ recs /\ follows kinds recs (is_ok (m s).1).

Lemma sends_bind {A B} k kinds (m : M tls A) (f : A -> M tls B) : emits false k m -> (forall a, sends kinds (f a)) -> sends (k ++ kinds) (m ≫= f).
Proof using.
  intros Hm Hf s Hs. destruct (Hm s Hs) as (He & r1 & E1 & F1). unfold mbind, M_bind. destruct (m s) as [[a|e|] s1]; cbn [fst snd is_ok] in *.
  - destruct (Hf a s1 He) as (Ht & r2 & E2 & F2). split; [done|]. exists (r1 ++ r2). split; [by rewrite E2, E1, app_assoc|by apply follows_app].
  - split; [done|]. exists r1. split; [done|by apply follows_stop].
  - split; [done|]. exists r1. split; [done|by apply follows_stop].
Qed.

Lemma sends_encrypted {B} k (m : M tls unit) (f : unit -> M tls B) : emits true k m -> (forall a, preserves quiet (f a)) ->
  sends k (set_encrypt_on_write ;; m ≫= f).
Proof using.
  intros Hm Hf s Hs. rewrite (bind_ok set_encrypt_on_write _ s tt _ eq_refl). set (s1 := set_con _ s).
  destruct (emits_before true k m f Hm Hf s1 eq_refl) as (He & recs & E & F). split; [done|]. by exists recs.
Qed.

(** The order of RFC 5246, 7.3, without and with a client certificate. *)
Definition answer (cert : bool) : list (bytes -> Prop) :=
  (if cert then [certificate_record] else []) ++ [key_exchange_record] ++ [change_cipher_record] ++ [finished_record].
Definition order (cert : bool) : list (bytes -> Prop) := [hello_record] ++ answer cert.

(** The part of the handshake before the client knows whether a certificate is
    requested, and the part after it. *)
Definition hello_and_cert (sni : option bytes) : M tls unit :=
  send_client_hello_and_alloc_hsd ni cpuid_ebx stack sni ;; get_server_hello ni ;; get_server_cert ni.

Definition after_flight (cert : bool) : M tls unit :=
  when cert (send_empty_client_cert ni cpuid_ebx stack) ;; send_client_key_exchange ni cpuid_ebx stack stack_point ;; send_change_cipher_spec ;;
  set_encrypt_on_write ;; send_client_finished ni cpuid_ebx stack ;; get_server_finished ni.

Lemma handshake_split sni s :
  tls_handshake ni cpuid_ebx stack stack_point sni s = (hello_and_cert sni ≫= fun _ => get_server_flight ni ≫= after_flight) s.
Proof using.
  unfold tls_handshake, hello_and_cert, mbind, M_bind. destruct (send_client_hello_and_alloc_hsd _ _ _ _ s) as [[[]| |] s1]; [|done..].
  by destruct (get_server_hello _ s1) as [[[]| |] s2].
Qed.

Lemma sends_answer cert : sends (answer cert) (after_flight cert).
Proof using.
  unfold after_flight, answer. apply sends_bind; [destruct cert; [apply emits_certificate|apply emits_quiet, preserves_skip; apply _]|]. intros _.
  apply sends_bind; [apply emits_key_exchange|]. intros _. apply sends_bind; [apply emits_change|]. intros _.
  apply sends_encrypted; [apply emits_finished|]. intros _. apply quiet_finished.
Qed.

(** Claim C23. Whatever the server sends, and whether the handshake returns, ends
    the process or runs into undefined behaviour: the records the client has
    written are a beginning of ClientHello, a Certificate exactly when the records
    after the server's Certificate contain a CertificateRequest, ClientKeyExchange,
    ChangeCipherSpec and the Finished in an encrypted record; nothing is sent twice,
    left out or out of order.  When the handshake returns all of them were sent and
    the connection encrypts what it writes. *)
Theorem handshake_order sni ni_cached net random :
  let s := new_tls_state ni_cached net random in
  let cert := match hello_and_cert sni s with (Ok _, s1) => certificate_requested (con s1) | _ => false end in
  let '(r, s') := tls_handshake ni cpuid_ebx stack stack_point sni s in
  follows (order cert) (output (con s')) (is_ok r) /\ (is_ok r = true -> encrypt_on_write (con s') = true).
Proof using.
  intros s cert. rewrite handshake_split.
  assert (emits false [hello_record] (hello_and_cert sni)) as Hh.
  { unfold hello_and_cert. apply emits_before; [apply emits_hello|]. intros _. apply preserves_bind; [apply _|apply quiet_hello|]. intros _. apply quiet_cert. }
  destruct (Hh s eq_refl) as (He & r1 & E1 & F1). subst cert. unfold mbind at 1, M_bind at 1.
  destruct (hello_and_cert sni s) as [[[]| |] s1]; cbn [fst snd is_ok] in *.
  2, 3: split; [|done]; unfold written in E1; rewrite E1; exact (follows_stop [hello_record] _ r1 F1).
  destruct (quiet_flight s1) as [Ew Ee]. pose proof (flight_result s1) as Hr. unfold mbind, M_bind.
  destruct (get_server_flight ni s1) as [[b| |] s2]; cbn [fst snd] in *.
  - rewrite <- (Hr b s2 eq_refl). destruct (sends_answer b s2 ltac:(congruence)) as (Hen & r2 & E2 & F2).
    destruct (after_flight b s2) as [r s']. cbn [fst snd] in *. split; [|done]. unfold written in *. rewrite E2, Ew, E1. exact (follows_app [hello_record] (answer b) r1 r2 _ F1 F2).
  - split; [|done]. unfold written in *. rewrite Ew, E1. exact (follows_stop [hello_record] _ r1 (follows_partial _ _ _ F1)).
  - split; [|done]. unfold written in *. rewrite Ew, E1. exact (follows_stop [hello_record] _ r1 (follows_partial _ _ _ F1)).
Qed.
End parts.
End TlsOrder.
