(* ===== verification/TlsHandshakeProps.v ===== *)
(** * The handshake succeeds with a server that follows the protocol

    The client's run against a whole flight of the server: the records it writes,
    the transcript in its Finished and the keys it installs. *)

From S2P Require Import Prelude HashStream HashMd5Sha HashSpec HashProps TlsAes TlsFe TlsAesGcm Pstm PstmFacts PstmExpFacts TlsRsa TlsHmac TlsRecord TlsRecordProps Sp256 Sp256Facts Sp256Num Sp256Generic TlsDer TlsDerProps TlsHandshake TlsReading TlsMessages TlsKeyExchange TlsHandshakeFacts.

Module TlsHandshakeProps.
Import TlsAes TlsAesGcm TlsRecord TlsRecordProps TlsHandshake TlsReading TlsMessages TlsHandshakeFacts.

(** ** The server *)

Record server := {
  hello : server_hello;
  cert : bytes;
  chain : bytes;
  skey : server_key;
  request : option bytes;
  fin_body : bytes;
  fin_data : bytes }.

Definition server_messages (srv : server) : list bytes :=
  [msg 2 (hello_body (hello srv)); certificate_msg (cert srv) (chain srv)] ++ key_msg (skey srv) ++ request_msg (request srv) ++ [hello_done].

(** What the server sends in all. *)
Definition server_bytes (srv : server) : bytes :=
  plain_all (server_messages srv) ++ rec_CHANGE_CIPHER_SPEC ++ hdr 22 (length (fin_body srv)) ++ fin_body srv.

(** The suites of RFC 5246, 5288 and 5289 that the client offers: the sizes of the
    MAC key, of the cipher's key and of the implicit part of the nonce, whether the
    key exchange is ECDHE, and whether the cipher is AES-GCM. *)
Definition rfc_suite (id : Z) : suite * bool * bool :=
  let cbc k := {| cipher_id := id; MAC_size := 32; key_size := k; IV_size := 0 |} in
  let gcm := {| cipher_id := id; MAC_size := 0; key_size := 16; IV_size := 4 |} in
  match id with
  | 0xC023 (* TLS_ECDHE_ECDSA_WITH_AES_128_CBC_SHA256 *)
  | 0xC027 (* TLS_ECDHE_RSA_WITH_AES_128_CBC_SHA256 *) => (cbc 16%nat, true, false)
  | 0xC02B (* TLS_ECDHE_ECDSA_WITH_AES_128_GCM_SHA256 *)
  | 0xC02F (* TLS_ECDHE_RSA_WITH_AES_128_GCM_SHA256 *) => (gcm, true, true)
  | 0x003C (* TLS_RSA_WITH_AES_128_CBC_SHA256 *) => (cbc 16%nat, false, false)
  | 0x003D (* TLS_RSA_WITH_AES_256_CBC_SHA256 *) => (cbc 32%nat, false, false)
  | _ (* 0x009C: TLS_RSA_WITH_AES_128_GCM_SHA256 *) => (gcm, false, true)
  end.

Definition parameters (srv : server) : suite * bool * bool := rfc_suite (be_val [suite0 (hello srv); suite1 (hello srv)]).
Definition suite_of (srv : server) : suite := (parameters srv).1.1.
Definition ecdhe (srv : server) : bool := (parameters srv).1.2.
Definition gcm (srv : server) : bool := (parameters srv).2.

(** A connection that decrypts with the server's keys of the key block. *)
Definition reads_with (p : suite) (gcm : bool) (block : bytes) (r : conn) : Prop :=
  aes_decrypt (crypt r) = aes_setkey (part block (2 * MAC_size p + key_size p) (key_size p)) (key_size p) /\
  take (IV_size p) (server_write_IV (crypt r)) = part block (2 * MAC_size p + 2 * key_size p + IV_size p) (IV_size p) /\
  (4 <= length (server_write_IV (crypt r)))%nat /\
  aesgcm_flag r = gcm /\ min_encrypted_len_on_read r = if gcm then 24%nat else 48%nat.

(** The server keeps to the protocol: its messages are well formed, it chooses one
    of the suites of the ClientHello, it sends a key exactly for the ECDHE suites,
    the parser accepts its certificate, and its
    Finished is a record that opens with the keys of the key block. *)
Record server_ok (srv : server) (K : TlsRsa.psRsaKey_t -> Prop) (block : bytes) : Prop := {
  o_hello : hello_ok (hello srv);
  o_offered : [suite0 (hello srv); suite1 (hello srv)] ∈ (be_bytes 2 <$> offered);
  o_cert : cert srv <> [];
  o_cert_size : (5 + length (certificate_msg (cert srv) (chain srv)) <= MAX_INBUF)%nat;
  o_parses : exists rsa, parses (cert srv) rsa K /\ (skey srv = NoServerKey -> rsa = true);
  o_key : key_ok (skey srv);
  o_kind : skey srv = NoServerKey <-> ecdhe srv = false;
  o_request : forall r, request srv = Some r -> (length r <= 2 ^ 14)%nat;
  o_bytes : Forall bytes_ok (server_messages srv);
  o_fin_size : (5 + length (fin_body srv) <= MAX_INBUF)%nat;
  o_fin : exists t, fin_data srv = 20 :: t /\ (4 <= length (fin_data srv))%nat;
  o_opens : forall r, reads_with (suite_of srv) (gcm srv) block r -> opens r (fin_body srv) (fin_data srv) }.

(** The client's second flight and the messages that its Finished covers. *)
Definition client_certificate (srv : server) : list bytes := if request srv then [empty_certificate] else [].
Definition handshake_messages (srv : server) (rand name key : bytes) : bytes :=
  client_hello rand name ++ concat (server_messages srv) ++ concat (client_certificate srv) ++ msg 16 key.

(** The code's parameters of a suite it offers are those of the standards. *)
Lemma suite_params_rfc c0 c1 : [c0; c1] ∈ (be_bytes 2 <$> offered) -> suite_params c0 c1 0 = rfc_suite (be_val [c0; c1]).
Proof. intros H. cbv [offered be_bytes fmap list_fmap] in H. rewrite !elem_of_cons, elem_of_nil in H. by destruct_or! H; injection H as -> ->. Qed.

Lemma suite_sizes id : sizes_ok (rfc_suite id).1.1.
Proof. unfold rfc_suite, sizes_ok. repeat case_match; (split; [set_solver|cbn; auto]). Qed.

Lemma client_hello_ok rand name : bytes_ok rand -> bytes_ok name -> bytes_ok (client_hello rand name).
Proof.
  intros Hr Hn. unfold client_hello, msg, vec, server_name, extension, vec. constructor; [done|].
  repeat (apply bytes_ok_app; split); try apply be_bytes_ok; try done; try (by apply (bool_decide_eq_true_1 _); vm_compute).
  destruct (_ =? 0)%nat; [constructor|]. repeat (apply bytes_ok_app; split); try apply be_bytes_ok. constructor; [done|].
  apply bytes_ok_app; split; [apply be_bytes_ok|done].
Qed.

Lemma msg_ok type b : is_u8 type -> bytes_ok b -> bytes_ok (msg type b).
Proof. intros Ht Hb. unfold msg, vec. constructor; [done|]. apply bytes_ok_app. split; [apply be_bytes_ok|done]. Qed.

(** The bytes of the server's point are bytes of its message. *)
Lemma key_bytes id form point sig : bytes_ok (msg 12 ([3; 0; id] ++ vec 1 (form ++ point) ++ sig)) -> bytes_ok point.
Proof.
  unfold msg, vec. intros [_ Hb]%Forall_cons. apply bytes_ok_app in Hb as [_ Hb]. apply bytes_ok_app in Hb as [_ Hb]. apply bytes_ok_app in Hb as [Hb _].
  apply bytes_ok_app in Hb as [_ Hb]. by apply bytes_ok_app in Hb as [_ Hb].
Qed.

Lemma bind_assoc3 (m1 m2 m3 m4 : M tls unit) s : (m1 ;; m2 ;; m3 ;; m4) s = ((m1 ;; m2 ;; m3) ;; m4) s.
Proof.
  unfold mbind, M_bind. destruct (m1 s) as [[a| |] s1]; [|done..]. destruct (m2 s1) as [[b| |] s2]; [|done..]. by destruct (m3 s2) as [[c| |] s3].
Qed.

Lemma bind_assoc4 {A B} (m1 m2 m3 : M tls unit) (m4 : M tls A) (f : A -> M tls B) s : (m1 ;; m2 ;; m3 ;; m4 ≫= f) s = ((m1 ;; m2 ;; m3 ;; m4) ≫= f) s.
Proof.
  unfold mbind, M_bind. destruct (m1 s) as [[a| |] s1]; [|done..]. destruct (m2 s1) as [[b| |] s2]; [|done..]. by destruct (m3 s2) as [[c| |] s3].
Qed.

(** The client's key is bytes. *)
Lemma exchange_bytes K k rs key premaster rs' : exchange K k rs key premaster rs' -> bytes_ok key.
Proof.
  destruct k as [|point sig|point sig]; cbn [exchange].
  - intros (r & filler & n & e & sz & _ & _ & _ & -> & _). apply bytes_ok_app. split; apply be_bytes_ok.
  - intros (r & _ & _ & -> & _). apply bytes_ok_app. split; [apply be_bytes_ok|apply le_bytes_ok].
  - intros (r & pub & secret & _ & _ & _ & -> & _). apply bytes_ok_app. split; [apply be_bytes_ok|]. constructor; [done|]. apply bytes_ok_app. split; apply be_bytes_ok.
Qed.

Section run.
Context (ni : list Z -> bytes -> list Z) (Hni : HashProps.same_block ni) (cpuid_ebx : Z).
Context (stack : TlsHmac.hmac_precomputed_t) (Hstack : TlsHmac.sized stack) (stack_point : Sp256.sp_point) `{SP : Sp256.SpArith} (HSP : Sp256Facts.SpLaws SP).
Context (srv : server) (K : TlsRsa.psRsaKey_t -> Prop) (rand : bytes) (rs rs' rs'' : list bytes) (key premaster iv : bytes) (sni : option bytes).
Hypothesis (Lrand : length rand = 32%nat) (Brand : Forall bytes_ok (rand :: rs)) (Bname : bytes_ok (sni_bytes sni)).
Hypothesis (Hex : exchange K (skey srv) rs key premaster rs') (Hiv : vector (gcm srv) rs' iv rs'').

Definition master : bytes := master_of premaster rand (srandom (hello srv)).
Definition block : bytes := key_block_of (suite_of srv) master rand (srandom (hello srv)).
Hypothesis (Hsrv : server_ok srv K block).

(** The view before anything is sent. *)
Definition fresh (v : view) : Prop :=
  v_gcm v = false /\ v_fl v = {| NEED_EC_KEY := false; GOT_CERT_RSA_KEY_ALG := false; GOT_EC_KEY := false; GOT_EC_CURVE_X25519 := false |} /\
  IV_size (v_params v) = 0%nat /\ v_out v = [] /\ v_rand v = rand :: rs /\ length (v_mem v) = 136%nat /\ bytes_ok (v_mem v) /\ write_seq64_be (v_crypt v) = 0.

(** Up to the end of the server's flight. *)
Lemma first_half s tail rest v : idle s tail (plain_all (server_messages srv) ++ rest) v -> fresh v ->
  exists s' v' d, (send_client_hello_and_alloc_hsd ni cpuid_ebx stack sni ;; get_server_hello ni ;; get_server_cert ni ;; get_server_flight ni) s =
      (Ok (bool_decide (is_Some (request srv))), s') /\
    ready ni s' tail rest (client_hello rand (sni_bytes sni) ++ concat (server_messages srv)) v' /\
    v_hs v' = Some d /\ client_and_server_rand32 d = rand ++ srandom (hello srv) /\ chosen K (skey srv) (v_fl v') d /\
    v_params v' = suite_of srv /\ v_gcm v' = gcm srv /\ v_rand v' = rs /\ v_out v' = [plain (client_hello rand (sni_bytes sni))] /\
    v_mem v' = v_mem v /\ v_crypt v' = v_crypt v.
Proof using Lrand Hsrv.
  clear Hex Hiv. intros Hi (F1 & F2 & F3 & F4 & F5 & F6 & F7 & F8). destruct Hsrv as [Oh Oof Oc Ocs (rsa & Op & Orsa) Ok' Ok2 Or Ob Ofs Of Oo].
  set (ch := client_hello rand (sni_bytes sni)).
  destruct (client_hello_step ni cpuid_ebx stack s tail _ v sni rand rs Hi F5 Lrand) as (s1 & E1 & Hr1). rewrite (bind_ok _ _ _ _ _ E1). clear E1. fold ch in Hr1.
  unfold server_messages, plain_all in Hr1. rewrite fmap_app, concat_app in Hr1. cbn [fmap list_fmap concat] in Hr1. rewrite app_nil_r in Hr1. unfold plain at 1 2 in Hr1.
  rewrite <- !app_assoc in Hr1. set (sh := msg 2 (hello_body (hello srv))) in *. set (cm := certificate_msg (cert srv) (chain srv)) in *.
  destruct (server_hello_step ni s1 tail _ _ _ (hello srv) (hello_hs rand) Hr1 Oh eq_refl ltac:(unfold hello_hs; cbn; by rewrite length_app, Lrand)) as (s2 & E2 & Hr2).
  rewrite (bind_ok _ _ _ _ _ E2). clear E2. fold sh in Hr2.
  unfold after_hello in Hr2. cbn [v_params sent with_hs drawn] in Hr2. rewrite F3, (suite_params_rfc _ _ Oof) in Hr2. unfold suite_of, ecdhe, gcm, parameters in *.
  destruct (rfc_suite (be_val [suite0 (hello srv); suite1 (hello srv)])) as [[p ec] g]. cbn [fst snd] in *.
  match type of Hr2 with ready _ _ _ _ _ ?w => set (v2 := w) in * end.
  set (d2 := with_srandom (hello srv) (hello_hs rand)) in *.
  destruct (certificate_step ni s2 tail _ _ v2 (cert srv) (chain srv) rsa K d2 Hr2 Ocs Oc Op eq_refl eq_refl) as (s3 & rk & E3 & HK & Hr3).
  { unfold v2. cbn. by rewrite F2. }
  rewrite (bind_ok _ _ _ _ _ E3). clear E3. match type of Hr3 with ready _ _ _ _ _ ?w => set (v3 := w) in * end. set (d3 := with_key rk d2) in *.
  assert (NEED_EC_KEY (v_fl v3) = ec) as Hec by (unfold v3, v2; cbn; by rewrite F2).
  destruct (flight_step ni s3 tail rest _ v3 d3 (skey srv) (request srv) Hr3 eq_refl Ok') as (s4 & E4 & Hr4).
  { intros Hne. rewrite Hec. destruct ec; [done|]. by destruct (Hne (proj2 Ok2 eq_refl)). }
  { exact Or. }
  assert (exists d4, v_hs (after_key (skey srv) d3 v3) = Some d4 /\ client_and_server_rand32 d4 = rand ++ srandom (hello srv) /\
    chosen K (skey srv) (v_fl (after_key (skey srv) d3 v3)) d4) as (d4 & Hd4 & Hrand4 & Hch).
  { assert (take 32 (rand ++ replicate 32 0) ++ srandom (hello srv) = rand ++ srandom (hello srv)) as Et by (by rewrite take_app_length').
    assert (Forall bytes_ok (key_msg (skey srv))) as Hkb by (unfold server_messages in Ob; apply Forall_app in Ob as [_ Ob]; by apply Forall_app in Ob as [Ob _]).
    destruct (skey srv) as [|point sig|point sig]; cbn [after_key key_msg key_ok] in *.
    - exists d3. split; [done|]. split; [exact Et|]. split; [rewrite Hec; by apply Ok2|]. split; [by apply Orsa|done].
    - exists (with_point point d3). split; [done|]. split; [exact Et|]. destruct Ok' as [Lp _].
      assert (bytes_ok point) as Bp by (apply Forall_cons in Hkb as [Hkb _]; exact (key_bytes 29 [] point sig Hkb)).
      split; [cbn; destruct ec; [by rewrite F2|discriminate (proj2 Ok2 eq_refl)]|]. split; [done|]. split; [cbn; by rewrite F2|]. split; [done|]. split; [done|].
      exists (replicate 32 0). cbn. by rewrite Lp.
    - exists (with_point point d3). split; [done|]. split; [exact Et|]. destruct Ok' as [Lp _].
      assert (bytes_ok point) as Bp by (apply Forall_cons in Hkb as [Hkb _]; exact (key_bytes 23 [4] point sig Hkb)).
      split; [cbn; destruct ec; [by rewrite F2|discriminate (proj2 Ok2 eq_refl)]|]. split; [done|]. split; [cbn; by rewrite F2|]. split; [done|]. split; [done|].
      cbn. rewrite Lp. apply app_nil_r. }
  exists s4, (after_key (skey srv) d3 v3), d4. split; [done|].
  split; [unfold server_messages; rewrite concat_app; cbn [concat]; fold sh cm; rewrite app_nil_r, <- !app_assoc in *; exact Hr4|].
  split; [done|]. split; [done|]. split; [done|].
  assert (forall A (f : view -> A), (forall d fl' w, f (with_hs d (with_fl fl' w)) = f w) -> f (after_key (skey srv) d3 v3) = f v3) as Hf.
  { intros A f Hf. destruct (skey srv); cbn [after_key]; [done|apply Hf|apply Hf]. }
  rewrite !Hf by done. unfold v3, v2. cbn. rewrite F1, F4. done.
Qed.
(** The client's plain records. *)
Definition client_records : list bytes := plain <$> [client_hello rand (sni_bytes sni)] ++ client_certificate srv ++ [msg 16 key].

(** The Finished message covers the whole handshake. *)
Definition client_finished : bytes := finished (verify_data master (handshake_messages srv rand (sni_bytes sni) key)).

Lemma second_half s tail rest v d :
  ready ni s tail (rec_CHANGE_CIPHER_SPEC ++ (hdr 22 (length (fin_body srv)) ++ fin_body srv) ++ rest) (client_hello rand (sni_bytes sni) ++ concat (server_messages srv)) v ->
  v_hs v = Some d -> client_and_server_rand32 d = rand ++ srandom (hello srv) -> chosen K (skey srv) (v_fl v) d -> v_params v = suite_of srv -> v_gcm v = gcm srv ->
  v_rand v = rs -> length (v_mem v) = 136%nat -> bytes_ok (v_mem v) -> write_seq64_be (v_crypt v) = 0 ->
  exists s' kst mem body,
    (when (bool_decide (is_Some (request srv))) (send_empty_client_cert ni cpuid_ebx stack) ;; send_client_key_exchange ni cpuid_ebx stack stack_point ;;
     send_change_cipher_spec ;; set_encrypt_on_write ;; send_client_finished ni cpuid_ebx stack ;; get_server_finished ni) s = (Ok tt, s') /\
    keyed (suite_of srv) block kst mem /\ usable kst mem /\ write_seq64_be kst = 0 /\ sealed_with kst mem (gcm srv) 22 iv client_finished body /\
    established s' tail rest (View (next_seq_state kst) mem (gcm srv) (v_fl v) (suite_of srv) None
      (v_out v ++ (plain <$> client_certificate srv ++ [msg 16 key]) ++ [rec_CHANGE_CIPHER_SPEC; hdr 22 (length body) ++ body]) rs'').
Proof using Hni Hstack HSP Lrand Brand Bname Hex Hiv Hsrv.
  intros Hr Hd Hrand Hch Hp Hg Hrs Lm Bm Hseq. destruct Hsrv as [Oh Oof Oc Ocs _ Ok' Ok2 Or Ob Ofs (t & Of & Of4) Oo].
  apply Forall_cons in Brand as [Br Brs]. set (ch := client_hello rand (sni_bytes sni)) in *.
  assert (exists s1, when (bool_decide (is_Some (request srv))) (send_empty_client_cert ni cpuid_ebx stack) s = (Ok tt, s1) /\
    ready ni s1 tail (rec_CHANGE_CIPHER_SPEC ++ (hdr 22 (length (fin_body srv)) ++ fin_body srv) ++ rest) (ch ++ concat (server_messages srv) ++ concat (client_certificate srv))
      (View (v_crypt v) (v_mem v) (v_gcm v) (v_fl v) (v_params v) (v_hs v) (v_out v ++ (plain <$> client_certificate srv)) (v_rand v))) as (s1 & E1 & Hr1).
  { unfold client_certificate. destruct (request srv) as [r|]; cbn [bool_decide when].
    - destruct (empty_certificate_step ni cpuid_ebx stack s tail _ _ v Hr) as (s1 & E1 & Hr1). exists s1. split; [exact E1|].
      cbn [fmap list_fmap concat]. rewrite app_nil_r. rewrite <- (app_assoc ch) in Hr1. exact Hr1.
    - exists s. split; [done|]. cbn [fmap list_fmap concat]. rewrite !app_nil_r. by destruct v. }
  rewrite (bind_ok _ _ _ _ _ E1). clear E1 Hr s. match type of Hr1 with ready _ _ _ _ _ ?w => set (v1 := w) in * end.
  assert (bytes_ok (srandom (hello srv))) as Bsr.
  { unfold server_messages in Ob. apply Forall_app in Ob as [Ob _]. apply Forall_cons in Ob as [Ob _]. unfold msg, vec, hello_body in Ob.
    apply Forall_cons in Ob as [_ Ob]. apply bytes_ok_app in Ob as [_ Ob]. apply bytes_ok_app in Ob as [_ Ob]. by apply bytes_ok_app in Ob as [Ob _]. }
  destruct (key_exchange_step ni Hni cpuid_ebx stack Hstack stack_point HSP s1 tail _ _ v1 d K (skey srv) key premaster rs' rand Hr1 Hd Hch) with (srandom := srandom (hello srv))
    as (s2 & kst & mem & E2 & Hr2 & Hk & Hu & Hs2 & Bms & Lms); [cbn [v1 v_rand]; by rewrite Hrs|cbn [v1 v_rand]; by rewrite Hrs|cbn; rewrite Hp; apply suite_sizes|done|done|done|done|done|done|].
  rewrite (bind_ok _ _ _ _ _ E2). clear E2. fold master in Hr2, Hk, Bms, Lms. cbn [v1 v_params] in Hk. rewrite Hp in Hk. fold block in Hk.
  match type of Hr2 with ready _ _ _ _ _ ?w => set (v2 := w) in * end.
  assert (bytes_ok ((ch ++ concat (server_messages srv) ++ concat (client_certificate srv)) ++ msg 16 key)) as Btr.
  { rewrite !bytes_ok_app. split; [split; [by apply client_hello_ok|split]|].
    - by apply Forall_concat.
    - unfold client_certificate. destruct (request srv); [apply (bool_decide_eq_true_1 _); vm_compute; reflexivity|constructor].
    - apply msg_ok; [done|]. by eapply exchange_bytes. }
  destruct (client_finished_step ni Hni cpuid_ebx stack Hstack s2 tail _ _ v2 (with_master master d) rs'' iv Hr2 eq_refl Btr Bms Lms Hu) as (s3 & body & E3 & Hse & Hs3).
  { cbn [v2 v_crypt with_keys]. rewrite Hs2. cbn [v1 v_crypt]. by rewrite Hseq. }
  { cbn. by rewrite Hg. }
  rewrite bind_assoc3, (bind_ok _ _ _ _ _ E3). clear E3.
  destruct (server_finished_step ni s3 tail rest _ (fin_body srv) (fin_data srv) t Hs3 Ofs Of Of4) as (s4 & E4 & H4).
  { intros r Er Gr Mr. apply Oo. cbn in Er, Gr, Mr. rewrite Hg in Gr, Mr. destruct Hk as (_ & _ & Hk3 & _ & Hk5 & _). destruct Hu as (_ & _ & _ & _ & _ & _ & U7 & _).
    unfold reads_with. rewrite Er. cbn [next_seq_state aes_decrypt server_write_IV set_seq]. done. }
  exists s4, kst, mem, body. split; [exact E4|]. split; [done|]. split; [done|]. split; [by rewrite Hs2|].
  split; [unfold client_finished, handshake_messages; rewrite <- Hg; fold ch; rewrite <- !app_assoc in Hse; exact Hse|].
  unfold without_hs, with_rand_out in H4. cbn in H4. rewrite Hg, Hp in H4. rewrite fmap_app, <- !app_assoc in *. exact H4.
Qed.
End run.
(** ** An example: ECDHE on curve25519 with AES-128-CBC *)

Definition sample_hello : server_hello := {| srandom := replicate 32 7; session := []; suite0 := 0xC0; suite1 := 0x27; trailer := [0] |}.

Definition sample_server (body : bytes) : server :=
  {| hello := sample_hello; cert := TlsDerProps.encode TlsDerProps.sample_certificate; chain := []; skey := X25519Key (replicate 32 9) []; request := None;
     fin_body := body; fin_data := finished (replicate 12 1) |}.

Lemma sample_parses : parses (TlsDerProps.encode TlsDerProps.sample_certificate) true (fun _ => True).
Proof.
  intros pre post. destruct (TlsDerProps.find_key_spec pre post TlsDerProps.sample_certificate false zero_key) as (n & e & E & _).
  - apply (bool_decide_eq_true_1 _). vm_compute. reflexivity.
  - apply (bool_decide_eq_true_1 _). vm_compute. reflexivity.
  - vm_compute. reflexivity.
  - vm_compute. discriminate.
  - vm_compute. discriminate.
  - apply Nat.leb_le. vm_compute. reflexivity.
  - eexists. split; [exact E|done].
Qed.

(** A record that opens with given keys exists for every data. *)
Lemma cbc_record_exists aes data : aes_ok aes -> bytes_ok data ->
  exists body, length body = (16 + length data + 32 + length (padding (length data + 32)))%nat /\
    forall r, aes_decrypt (crypt r) = aes -> aesgcm_flag r = false -> min_encrypted_len_on_read r = 48%nat -> opens r body data.
Proof.
  intros Ha Bd. set (mac := replicate 32 0). set (pt := data ++ mac ++ padding (length data + 32)). destruct (padding_bytes (length data + 32)) as (Bp & Hm & _).
  assert (length pt = length data + 32 + length (padding (length data + 32)))%nat as Lp by (unfold pt, mac; rewrite !length_app, length_replicate; lia).
  rewrite <- Lp in Hm. apply Nat.Div0.mod_divides in Hm as [q Hq].
  destruct (cbc_loop_roundtrip aes q (replicate 16 0) pt (length pt) Ha) as (ct & _ & E2 & _ & E4); [split; [done|apply zero_bytes_ok]| |done|lia|].
  { unfold pt, mac. rewrite !bytes_ok_app. auto using zero_bytes_ok. }
  exists (replicate 16 0 ++ ct). split; [rewrite length_app, length_replicate; lia|]. intros r Er Gr Mr.
  apply (opens_cbc r (replicate 16 0) ct data mac Gr Mr eq_refl eq_refl E2). rewrite Er. unfold aes_cbc_decrypt. apply E4. lia.
Qed.

Lemma derived_block_bytes p premaster crandom srandom : bytes_ok premaster -> (length premaster <= 64)%nat -> bytes_ok crandom -> bytes_ok srandom ->
  bytes_ok (key_block_of p (master_of premaster crandom srandom) crandom srandom).
Proof.
  intros Bp Lp Bc Bs. set (ni := HashMd5Sha.sha256_process_block64). assert (HashProps.same_block ni) as Hni by (intros ? ? ? ?; reflexivity).
  assert (TlsHmac.sized TlsHmac.stack_memory) as Hst by (split; reflexivity).
  destruct (TlsHmac.prf_spec ni Hni 0 0 _ 48 premaster (bs "master secret") (crandom ++ srandom) Hst Bp Lp) as (_ & L & B); [by repeat constructor|by apply bytes_ok_app|].
  apply (TlsHmac.prf_spec ni Hni 0 0 _ (2 * (MAC_size p + key_size p + IV_size p)) (master_of premaster crandom srandom) (bs "key expansion") (srandom ++ crandom) Hst B);
    [unfold master_of; lia|by repeat constructor|by apply bytes_ok_app].
Qed.

Lemma sample_server_ok body block : (length body <= 2 ^ 10)%nat ->
  (forall r, reads_with (suite_of (sample_server [])) false block r -> opens r body (finished (replicate 12 1))) -> server_ok (sample_server body) (fun _ => True) block.
Proof.
  intros Lb Ho. change (2 ^ 10)%nat with (Z.to_nat 1024) in Lb. pose proof max_inbuf_value as Hm. split.
  - split; [reflexivity|]. split; [by left|]. split; apply Nat.leb_le; reflexivity.
  - apply (bool_decide_eq_true_1 _). vm_compute. reflexivity.
  - vm_compute. discriminate.
  - cbn [cert chain sample_server]. enough (length (certificate_msg (TlsDerProps.encode TlsDerProps.sample_certificate) []) <= 1000)%nat by lia.
    apply Nat.leb_le. vm_compute. reflexivity.
  - exists true. split; [exact sample_parses|done].
  - split; [reflexivity|]. apply Nat.leb_le. reflexivity.
  - split; discriminate.
  - discriminate.
  - apply (bool_decide_eq_true_1 _). vm_compute. reflexivity.
  - cbn [fin_body sample_server]. lia.
  - eexists. split; [reflexivity|]. apply Nat.leb_le. reflexivity.
  - exact Ho.
Qed.

(** ** An example: RSA with AES-256-CBC *)

(** The key that the parser reads from a certificate is usable. *)
Definition key_of (c : TlsDerProps.certificate) (rk : TlsRsa.psRsaKey_t) : Prop :=
  exists n e, rk = TlsDer.set_pub_key zero_key n e (PstmFacts.nbytes (be_val (TlsDerProps.modulus c))) /\
    PstmFacts.wf n /\ PstmFacts.mag n = be_val (TlsDerProps.modulus c) /\ PstmFacts.wf e /\ PstmFacts.mag e = be_val (TlsDerProps.exponent c) /\ TlsDerProps.roomy n.

Lemma certificate_parses c : bytes_ok (TlsDerProps.modulus c) -> bytes_ok (TlsDerProps.exponent c) -> Z.of_nat (length (TlsDerProps.encode c)) < 2 ^ 16 ->
  Z.of_nat (length (TlsDerProps.modulus c)) <= 2 ^ 14 -> Z.of_nat (length (TlsDerProps.exponent c)) <= 2 ^ 14 -> (13 <= length (TlsDerProps.public_key c))%nat ->
  parses (TlsDerProps.encode c) true (key_of c).
Proof.
  intros H1 H2 H3 H4 H5 H6 pre post. destruct (TlsDerProps.find_key_spec pre post c false zero_key H1 H2 H3 H4 H5 H6) as (n & e & E & W). eexists. split; [exact E|].
  exists n, e. split; [done|exact W].
Qed.

Lemma key_usable c u blk rk : let n := be_val (TlsDerProps.modulus c) in
  key_of c rk -> n mod 2 = 1 -> PstmFacts.B ^ Z.of_nat (u - 1) <= n < PstmFacts.B ^ Z.of_nat u -> (0 < u)%nat -> Z.of_nat u < 1999 -> PstmExpFacts.base_ok u (be_val blk) n = true ->
  TlsKeyExchange.rsa_usable rk n (be_val (TlsDerProps.exponent c)) (PstmFacts.nbytes n) blk.
Proof.
  intros n (m & e & -> & W & M & W' & M' & S & R) Ho [L1 L2] Hu Hu2 Hb. fold n in M.
  assert (Pstm.used m = u) as Eu.
  { assert (Pstm.used m <= u)%nat by (apply PstmFacts.used_le; [done|by rewrite M]). assert (u - 1 < Pstm.used m)%nat by (apply PstmFacts.used_gt; [done|by rewrite M]). lia. }
  assert (n <> 0) by (intros E; by rewrite E in Ho). rewrite M in S.
  split; cbn [TlsRsa.N TlsRsa.e TlsRsa.size TlsDer.set_pub_key]; [auto|done|done|done|by rewrite Eu in *|by rewrite Eu].
Qed.

Definition rsa_certificate : TlsDerProps.certificate :=
  {| TlsDerProps.version := None; TlsDerProps.serialNumber := [7]; TlsDerProps.signatureAlgo := []; TlsDerProps.issuer := []; TlsDerProps.validity := [];
     TlsDerProps.subject := []; TlsDerProps.modulus := 0 :: replicate 63 0xc5 ++ [0x0b]; TlsDerProps.exponent := [1; 0; 1]; TlsDerProps.extensions := [];
     TlsDerProps.signature := [] |}.

Definition rsa_server (body : bytes) : server :=
  {| hello := {| srandom := replicate 32 7; session := []; suite0 := 0x00; suite1 := 0x3D; trailer := [0] |}; cert := TlsDerProps.encode rsa_certificate; chain := [];
     skey := NoServerKey; request := Some [1]; fin_body := body; fin_data := finished (replicate 12 1) |}.

Lemma rsa_server_ok body block : (length body <= 2 ^ 10)%nat ->
  (forall r, reads_with (suite_of (rsa_server [])) false block r -> opens r body (finished (replicate 12 1))) -> server_ok (rsa_server body) (key_of rsa_certificate) block.
Proof.
  intros Lb Ho. change (2 ^ 10)%nat with (Z.to_nat 1024) in Lb. pose proof max_inbuf_value as Hm. split.
  - split; [reflexivity|]. split; [by left|]. split; apply Nat.leb_le; reflexivity.
  - apply (bool_decide_eq_true_1 _). vm_compute. reflexivity.
  - vm_compute. discriminate.
  - cbn [cert chain rsa_server]. enough (length (certificate_msg (TlsDerProps.encode rsa_certificate) []) <= 1000)%nat by lia.
    apply Nat.leb_le. vm_compute. reflexivity.
  - exists true. split; [|done]. apply certificate_parses; apply (bool_decide_eq_true_1 _); vm_compute; reflexivity.
  - done.
  - done.
  - intros r [= <-]. apply Nat.leb_le. vm_compute. reflexivity.
  - apply (bool_decide_eq_true_1 _). vm_compute. reflexivity.
  - cbn [fin_body rsa_server]. lia.
  - eexists. split; [reflexivity|]. apply Nat.leb_le. reflexivity.
  - exact Ho.
Qed.

Definition rsa_premaster : bytes := [3; 3] ++ replicate 46 5.
Definition rsa_filler : bytes := replicate 13 6.
Definition rsa_key : bytes := vec 2 (TlsKeyExchange.rsa_ciphertext (be_val (TlsDerProps.modulus rsa_certificate)) 65537 64 rsa_filler rsa_premaster).

Lemma rsa_sample_exchange rs : exchange (key_of rsa_certificate) NoServerKey (replicate 48 5 :: rsa_filler :: rs) rsa_key rsa_premaster rs.
Proof.
  eexists _, rsa_filler, (be_val (TlsDerProps.modulus rsa_certificate)), 65537, 64%nat. split; [done|]. split; [done|]. split; [done|]. split; [done|].
  split; [lia|]. split; [done|]. intros rk Hk.
  change 65537 with (be_val (TlsDerProps.exponent rsa_certificate)). change 64%nat with (Z.to_nat 64).
  replace (Z.to_nat 64) with (PstmFacts.nbytes (be_val (TlsDerProps.modulus rsa_certificate))) by (vm_compute; reflexivity).
  apply (key_usable rsa_certificate 16); [done|vm_compute; reflexivity|vm_compute; split; [discriminate|reflexivity]|lia|lia|vm_compute; reflexivity].
Qed.

(** A Finished record for the keys of a key block of a CBC suite. *)
Lemma finished_record p k premaster crandom srandom :
  let blk := key_block_of p (master_of premaster crandom srandom) crandom srandom in
  key_size p = k -> k ∈ [16; 32]%nat -> bytes_ok premaster -> (length premaster <= 64)%nat -> bytes_ok crandom -> bytes_ok srandom ->
  exists body, (length body <= 2 ^ 10)%nat /\ forall r, reads_with p false blk r -> opens r body (finished (replicate 12 1)).
Proof.
  intros blk Ek Hk Bp Lp Bc Bs. pose proof (derived_block_bytes p premaster crandom srandom Bp Lp Bc Bs) as Bb. fold blk in Bb.
  destruct (cbc_record_exists (aes_setkey (part blk (2 * MAC_size p + k) k) k) (finished (replicate 12 1))) as (body & Lb & Ho).
  { apply aes_setkey_ok; [unfold part; auto with bytes|set_solver]. } { by repeat constructor. }
  exists body. split; [rewrite Lb; apply Nat.leb_le; reflexivity|]. intros r (R1 & _ & _ & R4 & R5). apply Ho; [by rewrite R1, Ek|exact R4|exact R5].
Qed.

(** The run with the example server, the premaster secret and the random bytes given. *)
Definition completes (srv : server) (rands : list bytes) : Prop := exists s',
  tls_handshake HashMd5Sha.sha256_process_block64 0 TlsHmac.stack_memory Sp256.infinite (SP := Sp256.Generic.generic) (Some (bs "host"))
    (new_tls_state 0 (one_read (server_bytes srv)) rands) = (Ok tt, s') /\ encrypt_on_write (con s') = true.

Definition sample_rands : list bytes := [replicate 32 2; replicate 32 3; replicate 16 4].
Definition rsa_rands : list bytes := [replicate 32 2; replicate 48 5; rsa_filler; replicate 16 4].

End TlsHandshakeProps.
